(* ===== verification/_CoqProject ===== *)
-Q . S2P
Prelude.v
GoTime.v
GoJson.v
GoNet.v
GoBytes.v
GoJsonRead.v
AuditTrail.v
Service.v
Listing.v
Ledger.v
LedgerSpec.v
LedgerMem.v
LedgerProofs.v
Env.v
LedgerTheorems.v
Wagering.v
WageringProofs.v
Sessions.v
SessionsProofs.v
Registry.v
RegistryProofs.v
Config.v
ConfigProofs.v
Events.v
EventsProofs.v
GoCsv.v
Reporting.v
ReportingProofs.v
Extensions.v
ExtensionsProofs.v
RemoteAccess.v
RemoteAccessProofs.v
AuditService.v
AuditProofs.v
Auth.v
AuthProofs.v
Identity.v
IdentityProofs.v
Attestation.v
AttestationProofs.v
GoDuration.v
Startup.v
StartupProofs.v
Metrics.v
MetricsProofs.v
Server.v
ServerProofs.v
Gateway.v
GatewayProofs.v
Answered.v
Grpc.v
GrpcProofs.v
Process.v
ProcessProofs.v
GatewayClient.v
GatewayClientProofs.v
Evidence.v
EvidenceProofs.v
Credhash.v
