(* ===== verification/Prelude.v ===== *)
(** * open-rgs-go: a verification of the remote gaming server

    open-rgs-go is a remote gaming server: a set of gRPC services (under
    src/internal/platform/server) that share an audit trail, an authentication
    layer and, optionally, a PostgreSQL database, a REST gateway in front of them
    (src/gen/rgs/v1/*.pb.gw.go), and a few commands (src/cmd), among them the
    server itself and tools that sign and check the evidence of a release.  This
    library models the services, the gateway, the start of the server and the
    tools as Rocq functions and proves what they guarantee.

    ** The program and its model

    A request passes the remote access guard (administrative HTTP paths only),
    the metrics middleware and the token middleware, which puts the token's
    actor into the context; the gateway finds the route, decodes the request and
    calls the handler.  A gRPC call is decoded, passes the metrics and the token
    interceptor and reaches the same handler.  A handler resolves the actor from
    context and request, authorizes it, works on the fields of its service under
    the service's mutex, persists the effect if there is a database, and appends
    an audit record.  The reporting service
    reads the memory of the ledger and of the events service.  [main] reads its
    settings, builds all services and connects them; two goroutines delete
    expired rows and one reloads the token keys.

    A handler is a function of the state monad [M] (this file) over a service
    state [Svc D S] (Service.v): the part every service repeats (clock, audit
    store, mutex, audit counter, database handle) next to the service's own
    fields.  Its outcome is a result with the new state, a panic (nil
    dereference, slice bounds) with the state that was reached, or a deadlock
    (locking a mutex that is held), so that neither is assumed away; a deferred
    unlock runs after a panic, too ([locked]).  Responses, errors and nil pointers are
    values.  int64 arithmetic wraps; times are nanoseconds since the epoch.
    Each service reads a clock of its own, an arbitrary sequence of times.

    The commands are functions of the same monad over a [World] (Attestation.v):
    a disk that other processes may change between two accesses.  The running
    server is a record of all services (Server.v); a REST request (Gateway.v)
    and a gRPC call (Grpc.v) are functions of the monad over it, and the process
    is a sequence of requests, calls, key reloads and worker ticks (Process.v).

    ** Files

    - Prelude.v: record update, the monad with its weakest preconditions
      ([post], [wp], [wlp]), int64, and the Go string functions in use.
    - GoTime.v, GoJson.v, GoNet.v, GoCsv.v: RFC 3339 times with the proof that
      parsing inverts formatting, and the calendar; encoding/json strings,
      objects and base64; IP addresses, CIDR networks and host:port splitting;
      encoding/csv with an RFC 4180 reader and the proof that it inverts the
      writer.
    - GoBytes.v, GoJsonRead.v: hex and base64 decoding with their round trips,
      path/filepath, trimming; encoding/json's decoder with float64 numbers.
    - AuditTrail.v: internal/platform/audit (chain.go, model.go, store.go), and
      what a verified chain binds.
    - Service.v: actor_context.go, the shared parts of the services and
      appendAuditEventToDB; the two reasoning tools: [mspec] (a service without
      a database: clock readings are the only unknown, and a proof includes
      that the handler returns) and [keeps] (frames that hold with any
      database).  Listing.v: the sorting and paging the listings share.
    - Ledger.v: ledger_grpc.go and ledger_postgres.go, all handlers.
      LedgerSpec.v: the abstract books (accounts, transactions, postings) as a
      step relation with its invariant.  LedgerMem.v: the interface [Mutation]
      of the four handlers that move money and the law [MutationLaw] they
      satisfy.  LedgerProofs.v, LedgerTheorems.v: readers, runs, theorems.
    - Wagering.v, WageringProofs.v: wagering_grpc.go, wagering_postgres.go.
    - Sessions.v, SessionsProofs.v: sessions_grpc.go, sessions_postgres.go.
    - Registry.v, RegistryProofs.v: registry_grpc.go, registry_postgres.go.
    - Config.v, ConfigProofs.v: config_grpc.go, config_postgres.go.
    - Events.v, EventsProofs.v: events_grpc.go, events_postgres.go.
    - Reporting.v, ReportingProofs.v: reporting_grpc.go, reporting_postgres.go,
      on top of the ledger and the events service ([new_platform]).
    - Extensions.v, ExtensionsProofs.v: extensions_grpc.go,
      extensions_postgres.go (promotions and the system window).
    - RemoteAccess.v, RemoteAccessProofs.v: remote_access.go.
    - AuditService.v, AuditProofs.v: audit_grpc.go, audit_postgres.go.
    - Auth.v, AuthProofs.v: internal/platform/auth.
    - Identity.v, IdentityProofs.v: identity_grpc.go, identity_postgres.go.
    - Attestation.v, AttestationProofs.v: cmd/attestsign, cmd/attestkeygen and
      the key lookup of internal/platform/evidence.
    - Evidence.v, EvidenceProofs.v: summary_validator.go,
      summary_artifact_validator.go, cmd/verifysummary.
    - GoDuration.v: time.Duration, its parser and printer, with the proof that
      the parser inverts the printer on whole seconds.
    - Startup.v, StartupProofs.v: settings, keyset loading and key rotation of
      cmd/rgsd/main.go, and auth/keyset_source.go.
    - Metrics.v, MetricsProofs.v: metrics.go and the chain of HTTP handlers of
      main ([serve_chain]).
    - Server.v, ServerProofs.v: tls.go, system_grpc.go, system_http.go, the
      cleanup workers, and [main] up to the point where it serves ([start]).
    - Gateway.v, GatewayProofs.v: the generated REST handlers
      ([local_request_...]), the routes ([Register...HandlerServer], [api]), the
      HTTP server ([serve_http]), and what they guarantee together with all of
      the above.
    - Answered.v: every handler of a server without a database returns, and
      keeps the invariant [server_ok] of all services.
    - Grpc.v, GrpcProofs.v: the descriptions of the gRPC services
      ([..._ServiceDesc], [grpc_api]), the interceptors in front of them
      ([grpc_chain], [serve_grpc]), and parity with REST.
    - Process.v, ProcessProofs.v: the events of a running process ([happens],
      [reload], [run]) and what holds over any sequence of them.
    - GatewayClient.v, GatewayClientProofs.v: the client side of the generated
      gateway, which forwards requests to a gRPC server ([request_...],
      [Register...HandlerClient], [New...ServiceClient]).
    - Credhash.v: cmd/credhash, from the hash it prints to the login.
    - Env.v: one concrete instance of every service interface, for the examples.

    ** What is a parameter

    Code outside the repository is a type class that the definitions take as an
    argument: SHA-256 ([Crypto]), HMAC, crypto/rand ([Random]), the wall clock
    ([Wall]), bcrypt ([Bcrypt], [BcryptGenerate] with the law [BcryptLaw]),
    crypto/tls ([TLSLib]), the multiplexer, marshaler and query parser of
    grpc-gateway ([Mux] with the law [MuxLaw], [GwMessage], [GwPopulate]), the
    gRPC library ([GrpcMessage], [GrpcLib], [GrpcClientLib]), Ed25519 ([Ed25519], with the law [Ed25519Law]),
    the JWT library ([JWT], with the law [JWTLaw] of HS256 tokens), protobuf JSON
    ([ProtoJSON]), upper-casing of non-ASCII text ([UnicodeUpper]), JSON
    validation ([JsonValid]), other processes and commands ([OS]), the order of
    map iteration ([MapOrder]), conversion of floats that do not fit an integer
    ([FloatInt]), and the SQL statements of each service ([AuditDB], [LedgerDB],
    [WageringDB] and so on), one operation per statement, each of which may fail.
    Theorems hold for every instance; where one needs a law, the law is a named
    class and has a concrete instance.

    ** What is proved

    - Ledger: over any run of requests every request is answered and the books
      stay correct (each balance is the sum of its transactions, transactions
      are backed by balanced postings); GetBalance is exact; the four mutating
      handlers refine one transition relation, from which follow exactly-once
      per idempotency key, isolation of players, the lockout, and that
      withdrawals neither overdraw nor wrap; paging is complete.
    - Wagering and sessions: over any run every wager agrees with the answers
      that were given (pending, settled by the one accepted settlement with its
      payout, or canceled by the one accepted cancellation); final states are
      final; one placement per player and key; session expiry is exact, at the
      reading of the clock that decides it, and bounded.
    - Registry: reads return the last write; following the page tokens ends
      and yields every record once.
    - Configuration: when requests name their actor, every change held is well
      typed for its status, and a value in force was proposed, approved and
      applied in this order by authorized requests, whose actors are recorded; a
      change can always be completed; an activation needs a valid signature.
    - Events: a complete submission is acknowledged and stored; the listing
      yields each event once; the buffer is bounded, and ingestion that a full
      buffer stopped stays stopped.
    - Reporting: the report intervals are calendar intervals; after any
      interleaving of requests to three services the liability report and the
      statement, read back from their CSV text, are exactly the balances and
      transactions of the ledger; report runs are kept unchanged.
    - Extensions: records are well typed and listed exactly.
    - Authentication: tokens round-trip across key rotation; handlers behind
      the interceptor run only with a valid token; end to end, a player's token
      moves no money but his own.  Over any reloads signer and verifier share
      one valid keyset; production settings exclude the built-in secret.
    - Identity: the complete behaviour of Login, RefreshToken and Logout; a
      bound on wrong secrets per lockout period; refresh tokens are good for
      one use; with any database, a login needs a matching active credential.
    - Remote access: the guard's complete behaviour, fail-closed auditing, the
      bound on its log.
    - Audit: a verified trail is bound to its last hash up to SHA-256
      collisions; VerifyAuditChain accepts exactly the tables of hash chains;
      the listing is complete.
    - Start: a server that starts in production mode has TLS 1.2 with the key
      pair of the configured files, a database, keys from the configured source
      (external unless that demand is switched off, never the built-in secret
      alone) and every service hardened; without a database
      all services start empty in memory; the cleanup at a tick ends and deletes
      all expired rows, for every database that deletes what it reports; the
      uptime of the status endpoint reads back.
    - REST: no RPC is called without a token that is valid when it is checked,
      unless it is open over gRPC, too, and the administrative services only
      when the source address the guard believes is in a trusted network; a run of
      HTTP requests acts on ledger, events and reports as a run of their own
      requests, in the name of the tokens' actors; from the start on, whatever
      requests come, the books stay correct, and an account exists only through
      a token of somebody who may use it.
    - gRPC: a call reaches a service only for an open method or with an accepted
      token; both interfaces offer the same RPCs, and a REST route does what the
      gRPC method of its name does.  The forwarding gateway refuses what the
      gateway of the server refuses and otherwise makes one call, of the RPC of
      the route found, with the message the server's route passes to its
      service; over in-process clients it equals the gateway of the server.
    - The process: whatever requests, calls, key reloads and worker ticks come,
      in any order, a server without a database answers them all and all its
      services stay intact, given that configuration changes name their actor;
      the books are changed only by tokens that the keys in force accept at the
      time of the check.
    - Metrics: the observers never panic on the labels of the server; the chain
      serves, apart from paths that are not UTF-8.
    - Credentials: a hash of the tool is accepted and then verifies its secret.
    - Evidence: the summary check never panics and accepts exactly the specified
      summaries; strict acceptance means a verified signature over the summary's
      hash, and a summary or log that is changed and passes again collides with
      the old one; keys generated by one tool sign and verify with
      the others.
    - Defects, each with a theorem that exhibits it: the ledger blocks on its
      own mutex when a database is configured; deposits overflow; a wager that
      was loaded from a database can be settled twice; an approval without an
      actor panics and leaves the change approved by nobody; a retry after a failed persist is
      answered from the cache; the guard believes X-Forwarded-For; the audit
      trail reveals refresh tokens, omits fields from its hash and lists out of
      order; an invalid path panics in the metrics middleware; change ids restart with the process; reports hide failed queries
      and add up currencies; records sent twice are listed twice; a key rotation
      can be missed; over gRPC the administrative services are open to every
      network; generated keys are printed under the wrong variable; the
      evidence check reads the summary twice and truncates statuses.

    ** Bounds and fuel

    Runs of the ledger are bounded by 2^63 - 1 requests, since ids come from
    an int64 counter; the other services likewise.  The fuel of the paging loops
    is one more than the number of items, which the theorems show to be enough.
    [trim_left] and the JSON escaper take the length of their string, each round
    consumes a character; the JSON reader takes twice the length of its input,
    which [json_fuel] proves to be enough; an IPv6 address has at most eight
    groups.  [cleanup_batches] is shown to end with more fuel than there are full
    batches of expired rows, and [ParseDuration] takes the length of its text, which
    [parse_components_fuel] proves to be enough.

    ** What is not modelled

    The generated messages (their codecs are interfaces); what the streaming
    method of the health service sends; listeners, signals and the shutdown of the process;
    the timers of the background goroutines (the work of a tick is) and the
    goroutine that refreshes gauges.  File permissions are not modelled, and a
    path names a file by its text.  Requests of one service are executed one
    after the other: its mutex serializes the handlers, apart from the audit
    records of refused requests, which the code writes before taking it; the
    events of a process are, too, so a request that overlaps a key reload is seen
    before or after it.  A panic ends the model of a run, with the state that was
    reached, while net/http recovers it and goes on from there (gRPC does not). *)

From stdpp Require Export gmap strings list fin_maps pretty.
From Stdlib Require Export ZArith Lia.
From Stdlib Require Import Ascii.

#[global] Open Scope Z_scope.

(** ** Record update

    [r <| f := v |>] and [r <| f ::= g |>] replace one field of a record, the
    way a Go assignment [r.f = v] does.  A record opts in with an [Eta]
    instance that rebuilds it from its projections. *)

Class Eta (R : Type) := eta_expand : R → R.

Class Setter {R F : Type} (proj : R → F) := modify_field : (F → F) → R → R.
Global Arguments modify_field {R F} proj {_} _ _ : rename.

Ltac solve_setter :=
  lazymatch goal with
  | |- @Setter ?R ?F ?proj =>
      let e := eval cbv beta delta [eta_expand] in (@eta_expand R _) in
      let e := eval hnf in e in
      let p := eval pattern proj in e in
      lazymatch p with
      | ?f _ =>
          let t := eval cbv beta in
            (fun (g : F → F) (r : R) => f (fun r' => g (proj r')) r) in
          exact t
      end
  end.

#[global] Hint Extern 1 (@Setter _ _ _) => solve_setter : typeclass_instances.

Declare Scope go_scope.
Delimit Scope go_scope with go.

Notation "r <| p ::= g |>" := (modify_field p g r)
  (at level 1, p at level 99, left associativity,
   format "r  <| p  ::=  g |>") : go_scope.
Notation "r <| p := v |>" := (modify_field p (fun _ => v) r)
  (at level 1, p at level 99, left associativity,
   format "r  <| p  :=  v |>") : go_scope.

#[global] Open Scope go_scope.

(** ** Outcomes and the handler monad

    A Go handler either returns, panics (a nil dereference, an index out of
    range) or blocks forever on a mutex its own goroutine already holds.  A
    panic leaves the state the code had reached: net/http recovers it and goes
    on serving with what was written before. *)

Inductive outcome (S A : Type) : Type :=
| Done (a : A) (s : S)
| Panic (s : S)
| Deadlock.
Global Arguments Done {S A} _ _.
Global Arguments Panic {S A} _.
Global Arguments Deadlock {S A}.

Definition M (S A : Type) : Type := S → outcome S A.

#[global] Instance M_ret {S} : MRet (M S) := λ A a s, Done a s.
#[global] Instance M_bind {S} : MBind (M S) := λ A B k m s,
  match m s with
  | Done a s' => k a s'
  | Panic s' => Panic s'
  | Deadlock => Deadlock
  end.

Definition gets {S A} (f : S → A) : M S A := λ s, Done (f s) s.
Definition modify {S} (f : S → S) : M S () := λ s, Done () (f s).
Definition panic {S A} : M S A := λ s, Panic s.

(** What a deferred call does to the state when the body panics. *)
Definition on_panic {S A} (f : S → S) (m : M S A) : M S A := λ s,
  match m s with
  | Done a s' => Done a s'
  | Panic s' => Panic (f s')
  | Deadlock => Deadlock
  end.

(** A block of code that may return from the function: [Some a] is the early
    return, [None] falls through to [k]. *)
Definition or_else {S A} (m : M S (option A)) (k : M S A) : M S A :=
  r ← m; match r with Some a => mret a | None => k end.
Definition return_ {S A} (m : M S A) : M S (option A) := r ← m; mret (Some r).

(** ** Weakest preconditions

    [post F m Q s]: running [m] from [s] ends in a result satisfying [Q], and
    [F] holds if it panics or deadlocks.  [wp] demands termination with a
    result, [wlp] is the partial version. *)

Definition post {S A} (F : Prop) (m : M S A) (Q : A → S → Prop) (s : S) : Prop :=
  match m s with
  | Done a s' => Q a s'
  | Panic _ | Deadlock => F
  end.

Abbreviation wp := (post False).
Abbreviation wlp := (post True).

Section post.
Context {S : Type} (F : Prop).
Implicit Types s : S.

Lemma post_ret {A} (a : A) Q s : Q a s → post F (mret a) Q s.
Proof. done. Qed.

Lemma post_bind {A B} (m : M S A) (k : A → M S B) Q s :
  post F m (λ a s', post F (k a) Q s') s → post F (m ≫= k) Q s.
Proof. unfold post, mbind, M_bind. by destruct (m s). Qed.

Lemma post_bind_inv {A B} (m : M S A) (k : A → M S B) Q s :
  post F (m ≫= k) Q s → post F m (λ a s', post F (k a) Q s') s.
Proof. unfold post, mbind, M_bind. by destruct (m s). Qed.

Lemma post_mono {A} (m : M S A) (P Q : A → S → Prop) s :
  post F m P s → (∀ a s', P a s' → Q a s') → post F m Q s.
Proof. unfold post. destruct (m s); auto. Qed.

Lemma post_gets {A} (f : S → A) Q s : Q (f s) s → post F (gets f) Q s.
Proof. done. Qed.

Lemma post_modify (f : S → S) Q s : Q () (f s) → post F (modify f) Q s.
Proof. done. Qed.

Lemma post_on_panic {A} f (m : M S A) Q s : post F m Q s → post F (on_panic f m) Q s.
Proof. unfold post, on_panic. by destruct (m s). Qed.

(** The two sides of a bind, with a specification for the first part. *)
Lemma post_seq {A B} (m : M S A) (k : A → M S B) (P : A → S → Prop) Q s :
  post F m P s → (∀ a s', P a s' → post F (k a) Q s') → post F (m ≫= k) Q s.
Proof. intros Hm Hk. apply post_bind. by eapply post_mono. Qed.
End post.

Lemma post_done {S A} F (m : M S A) Q s a s' :
  m s = Done a s' → Q a s' → post F m Q s.
Proof. unfold post. by intros ->. Qed.

(** What a specification says of a run that did return. *)
Lemma post_elim {S A} F (m : M S A) Q s a s' :
  post F m Q s → m s = Done a s' → Q a s'.
Proof. unfold post. intros HQ E. by rewrite E in HQ. Qed.

(** Evaluation up to a panic. *)
Lemma panic_bind {S A B} (m : M S A) (k : A → M S B) s a s' :
  m s = Done a s' → ∀ s'', k a s' = Panic s'' → (m ≫= k) s = Panic s''.
Proof. intros E s'' Hk. unfold mbind, M_bind. by rewrite E. Qed.

Lemma wlp_true {S A} (m : M S A) s : wlp m (λ _ _, True) s.
Proof. unfold post. by destruct (m s). Qed.

Lemma wp_done {S A} (m : M S A) Q s :
  wp m Q s → ∃ a s', m s = Done a s' ∧ Q a s'.
Proof. unfold post. destruct (m s); [eauto | done | done]. Qed.

(** Symbolic execution of handler code: expose the head of a bind and compute
    the state primitives. *)
Ltac go_bind := lazymatch goal with |- post _ (_ ≫= _) _ _ => apply post_bind end.
Ltac go_step :=
  first
    [ lazymatch goal with |- post _ (mret _) _ _ => apply post_ret end
    | lazymatch goal with |- post _ (gets _) _ _ => apply post_gets end
    | lazymatch goal with |- post _ (modify _) _ _ => apply post_modify end
    | go_bind ].

Create HintDb go.

(** ** 64-bit integers

    Go's [int64] (and [int] on the 64-bit targets) wraps around. *)

Definition int64_min : Z := - 2 ^ 63.
Definition int64_max : Z := 2 ^ 63 - 1.
Definition in_int64 (z : Z) : Prop := int64_min ≤ z ≤ int64_max.
Definition wrap64 (z : Z) : Z := (z + 2 ^ 63) mod 2 ^ 64 - 2 ^ 63.

(** The conversion to an [int32] keeps the low 32 bits. *)
Definition wrap32 (z : Z) : Z := (z + 2 ^ 31) mod 2 ^ 32 - 2 ^ 31.

Lemma wrap64_range z : in_int64 (wrap64 z).
Proof.
  unfold in_int64, wrap64, int64_min, int64_max.
  pose proof (Z.mod_pos_bound (z + 2 ^ 63) (2 ^ 64)). lia.
Qed.

Lemma wrap64_id z : in_int64 z → wrap64 z = z.
Proof.
  unfold in_int64, wrap64, int64_min, int64_max; intros ?.
  rewrite Z.mod_small; lia.
Qed.

(** Wrapping only looks at the residue modulo 2^64. *)
Lemma wrap64_mod a b : a mod 2 ^ 64 = b mod 2 ^ 64 → wrap64 a = wrap64 b.
Proof.
  unfold wrap64; intros H. f_equal.
  by rewrite (Z.add_mod a), (Z.add_mod b), H by lia.
Qed.

Lemma wrap64_mod_id z : wrap64 z mod 2 ^ 64 = z mod 2 ^ 64.
Proof.
  unfold wrap64.
  rewrite Zminus_mod_idemp_l. f_equal. lia.
Qed.

Lemma wrap64_add_l a b : wrap64 (wrap64 a + b) = wrap64 (a + b).
Proof.
  apply wrap64_mod. by rewrite Z.add_mod, wrap64_mod_id, <- Z.add_mod by lia.
Qed.

Lemma wrap64_sub_l a b : wrap64 (wrap64 a - b) = wrap64 (a - b).
Proof. rewrite <- !Z.add_opp_r. apply wrap64_add_l. Qed.

Lemma wrap64_add_sub a b : in_int64 a → wrap64 (wrap64 (a + b) - b) = a.
Proof.
  intros Ha. rewrite wrap64_sub_l. replace (a + b - b) with a by lia.
  by apply wrap64_id.
Qed.

Lemma wrap64_sub_add a b : in_int64 a → wrap64 (wrap64 (a - b) + b) = a.
Proof.
  intros Ha. rewrite wrap64_add_l. replace (a - b + b) with a by lia.
  by apply wrap64_id.
Qed.

(** One overflow past the top ends below zero. *)
Lemma wrap64_over z : int64_max < z < 2 ^ 64 → wrap64 z = z - 2 ^ 64.
Proof.
  unfold wrap64, int64_max. intros ?.
  rewrite <- (Zmod_unique (z + 2 ^ 63) (2 ^ 64) 1 (z - 2 ^ 63)); lia.
Qed.

#[export] Hint Resolve wrap64_range : go.

(** ** Strings of the Go standard library *)

(** [strconv.FormatInt(z, 10)] and [strconv.Itoa]. *)
Definition FormatInt (z : Z) : string := pretty z.

Definition digit_val (c : ascii) : option Z :=
  let n := Z.of_N (N_of_ascii c) in
  if (48 <=? n) && (n <=? 57) then Some (n - 48) else None.

Fixpoint parse_digits (acc : Z) (s : string) : option Z :=
  match s with
  | EmptyString => Some acc
  | String c s' => d ← digit_val c; parse_digits (10 * acc + d) s'
  end.

(** [strconv.Atoi]: an optional sign, then one or more decimal digits whose
    value fits in an int64; [None] is the error result. *)
Definition Atoi (s : string) : option Z :=
  match s with
  | EmptyString => None
  | String c s' =>
      if decide (c = "-"%char) then
        if decide (s' = "") then None
        else n ← parse_digits 0 s'; if n <=? 2 ^ 63 then Some (- n) else None
      else if decide (c = "+"%char) then
        if decide (s' = "") then None
        else n ← parse_digits 0 s'; if n <=? int64_max then Some n else None
      else
        n ← parse_digits 0 s; if n <=? int64_max then Some n else None
  end.

Lemma digit_val_char (x : N) :
  (x < 10)%N → digit_val (pretty_N_char x) = Some (Z.of_N x).
Proof.
  intros ?. assert (x = 0 ∨ x = 1 ∨ x = 2 ∨ x = 3 ∨ x = 4 ∨ x = 5 ∨ x = 6
    ∨ x = 7 ∨ x = 8 ∨ x = 9)%N by lia; naive_solver.
Qed.

Lemma parse_digits_go (x : N) s :
  parse_digits 0 (pretty_N_go x s) = parse_digits (Z.of_N x) s.
Proof.
  revert s. induction (N.lt_wf_0 x) as [x _ IH]; intros s.
  assert (x = 0 ∨ 0 < x)%N as [->|?] by lia; [done|].
  rewrite pretty_N_go_step by done.
  rewrite IH by (by apply N.div_lt). simpl.
  rewrite digit_val_char by (apply N.mod_lt; lia). simpl. f_equal.
  rewrite N2Z.inj_div, N2Z.inj_mod.
  pose proof (Z.div_mod (Z.of_N x) 10). lia.
Qed.

Lemma parse_digits_pretty (z : Z) : 0 ≤ z → parse_digits 0 (FormatInt z) = Some z.
Proof.
  intros Hz. destruct z as [|p|p]; [done| |lia].
  unfold FormatInt, pretty, pretty_Z, pretty, pretty_positive, pretty, pretty_N.
  case_decide; [done|]. by rewrite parse_digits_go.
Qed.

(** Printing a non-negative integer and reading it back is the identity. *)
Lemma Atoi_FormatInt (z : Z) : 0 ≤ z ≤ int64_max → Atoi (FormatInt z) = Some z.
Proof.
  intros [Hz Hmax]. pose proof (parse_digits_pretty z Hz) as Hp.
  unfold Atoi. destruct (FormatInt z) as [|c s'] eqn:E.
  { simpl in Hp. injection Hp as <-. discriminate E. }
  assert (c ≠ "-"%char) by (by intros ->).
  assert (c ≠ "+"%char) by (by intros ->).
  rewrite !decide_False by done. rewrite Hp. simpl.
  by rewrite (proj2 (Z.leb_le _ _)) by lia.
Qed.

Lemma FormatInt_nonempty z : 0 ≤ z ≤ int64_max → FormatInt z ≠ "".
Proof. intros Hz E. pose proof (Atoi_FormatInt z Hz) as Ha. by rewrite E in Ha. Qed.

Lemma FormatInt_inj z z' : FormatInt z = FormatInt z' → z = z'.
Proof. apply (inj pretty). Qed.

Lemma str_app_nil s : "" +:+ s = s.
Proof. done. Qed.

Lemma str_app_cons c s t : String c s +:+ t = String c (s +:+ t).
Proof. done. Qed.

Lemma str_app_nil_r s : s +:+ "" = s.
Proof. induction s as [|c s IH]; [done|]. by rewrite str_app_cons, IH. Qed.

Lemma str_app_assoc s t u : (s +:+ t) +:+ u = s +:+ (t +:+ u).
Proof. induction s as [|c s IH]; [done|]. by rewrite !str_app_cons, IH. Qed.

Lemma str_len_app s t : String.length (s +:+ t) = (String.length s + String.length t)%nat.
Proof. induction s as [|c s IH]; [done|]. rewrite str_app_cons. simpl. by rewrite IH. Qed.

Lemma str_app_inj_l s t u : s +:+ t = s +:+ u → t = u.
Proof. induction s as [|c s IH]; [done|]. rewrite !str_app_cons. intros [= E]. auto. Qed.

(** Whether a string contains a character. *)
Fixpoint has_char (c : ascii) (s : string) : bool :=
  match s with
  | EmptyString => false
  | String d s' => bool_decide (d = c) || has_char c s'
  end.

Lemma has_char_app c s t : has_char c (s +:+ t) = has_char c s || has_char c t.
Proof.
  induction s as [|d s IH]; [done|]. rewrite str_app_cons. simpl.
  by rewrite IH, orb_assoc.
Qed.

(** A string splits in one way at the first occurrence of a separator. *)
Lemma split_first c s t x y :
  has_char c s = false → has_char c t = false →
  s +:+ String c x = t +:+ String c y → s = t ∧ x = y.
Proof.
  revert t. induction s as [|d s IH]; intros [|e t]; rewrite ?str_app_cons, ?str_app_nil;
    simpl; rewrite ?orb_false_iff, ?bool_decide_eq_false.
  - by intros _ _ [= ->].
  - intros _ [? _] [= -> _]. done.
  - intros [? _] _ [= -> _]. done.
  - intros [_ Hs] [_ Ht] [= -> H]. by destruct (IH t Hs Ht H) as [-> ->].
Qed.

(** ... and at the last one. *)
Lemma split_last c s t x y :
  has_char c x = false → has_char c y = false →
  s +:+ String c x = t +:+ String c y → s = t ∧ x = y.
Proof.
  intros Hx Hy. revert t.
  assert (has_char c (String c x) = true ∧ has_char c (String c y) = true) as [Hcx Hcy].
  { simpl. by rewrite bool_decide_true. }
  induction s as [|d s IH]; intros [|e t]; rewrite ?str_app_cons, ?str_app_nil.
  - by intros [= ->].
  - intros [= -> ->]. by rewrite has_char_app, Hcy, orb_true_r in Hx.
  - intros [= -> <-]. by rewrite has_char_app, Hcx, orb_true_r in Hy.
  - intros [= -> H]. by destruct (IH t H) as [-> ->].
Qed.

Lemma parse_digits_has_no x z s v :
  digit_val x = None → parse_digits z s = Some v → has_char x s = false.
Proof.
  intros Hx. revert z. induction s as [|c s IH]; intros z; [done|]. simpl.
  destruct (decide (c = x)) as [->|Hc]; [by rewrite Hx|].
  rewrite bool_decide_false by done.
  destruct (digit_val c) as [d|]; simpl; [apply IH|done].
Qed.

Lemma FormatInt_no_dash z : 0 ≤ z → has_char "-" (FormatInt z) = false.
Proof. intros Hz. by eapply parse_digits_has_no, parse_digits_pretty. Qed.

Lemma FormatInt_no_pipe z : has_char "|" (FormatInt z) = false.
Proof.
  destruct (decide (0 ≤ z)) as [Hz|Hz]; [by eapply parse_digits_has_no, parse_digits_pretty|].
  destruct z as [|p|p]; [lia..|].
  change (has_char "|" (FormatInt (Zpos p)) = false).
  by eapply parse_digits_has_no, parse_digits_pretty.
Qed.

(** [strings.Join]. *)
Fixpoint Join (sep : string) (parts : list string) : string :=
  match parts with
  | [] => ""
  | [p] => p
  | p :: ps => p +:+ sep +:+ Join sep ps
  end.

Fixpoint strip_prefix (p s : string) : option string :=
  match p, s with
  | EmptyString, _ => Some s
  | String a p', String b s' => if decide (a = b) then strip_prefix p' s' else None
  | _, EmptyString => None
  end.

Lemma strip_prefix_app p s t : strip_prefix p s = Some t → s = p +:+ t.
Proof.
  revert s. induction p as [|a p IH]; intros s; simpl; [by intros [= ->]|].
  destruct s as [|b s]; [done|]. destruct (decide (a = b)) as [->|]; [|done].
  intros E%IH. by rewrite E, str_app_cons.
Qed.

Definition HasPrefix (s p : string) : bool :=
  match strip_prefix p s with Some _ => true | None => false end.

Definition bytes (l : list N) : string :=
  fold_right (λ n s, String (ascii_of_N n) s) EmptyString l.

(** The UTF-8 encodings of the characters with the Unicode White_Space
    property, which [strings.TrimSpace] removes at both ends. *)
Definition white_space : list string :=
  bytes <$> ([[9]; [10]; [11]; [12]; [13]; [32]; [194; 133]; [194; 160];
    [225; 154; 128];
    [226; 128; 128]; [226; 128; 129]; [226; 128; 130]; [226; 128; 131];
    [226; 128; 132]; [226; 128; 133]; [226; 128; 134]; [226; 128; 135];
    [226; 128; 136]; [226; 128; 137]; [226; 128; 138];
    [226; 128; 168]; [226; 128; 169]; [226; 128; 175]; [226; 129; 159];
    [227; 128; 128]]%N).

Definition strip_any (pats : list string) (s : string) : option string :=
  fold_right (λ p r, match strip_prefix p s with Some t => Some t | None => r end)
    None pats.

(** Strips prefixes until none matches; the string's length bounds the number
    of rounds because every pattern is non-empty. *)
Fixpoint trim_left (pats : list string) (fuel : nat) (s : string) : string :=
  match fuel with
  | O => s
  | S fuel' =>
      match strip_any pats s with Some t => trim_left pats fuel' t | None => s end
  end.

Definition TrimSpace (s : string) : string :=
  let l := trim_left white_space (String.length s) s in
  String.rev (trim_left (String.rev <$> white_space) (String.length l) (String.rev l)).

Definition upper_ascii (c : ascii) : ascii :=
  let n := N_of_ascii c in
  if ((97 <=? n) && (n <=? 122))%N then ascii_of_N (n - 32)%N else c.

Definition lower_ascii (c : ascii) : ascii :=
  let n := N_of_ascii c in
  if ((65 <=? n) && (n <=? 90))%N then ascii_of_N (n + 32)%N else c.

(** [strings.ToUpper] as far as comparing the result with an ASCII constant can
    tell: ASCII letters, and the two other characters whose upper case is
    ASCII, U+0131 (I) and U+017F (S). *)
Fixpoint ToUpper (s : string) : string :=
  match s with
  | EmptyString => EmptyString
  | String c s' =>
      match s' with
      | String d s'' =>
          if decide (N_of_ascii c = 196%N ∧ N_of_ascii d = 177%N)
          then String "I"%char (ToUpper s'')
          else if decide (N_of_ascii c = 197%N ∧ N_of_ascii d = 191%N)
          then String "S"%char (ToUpper s'')
          else String (upper_ascii c) (ToUpper s')
      | EmptyString => String (upper_ascii c) EmptyString
      end
  end.

(** [strings.ToLower] in the same sense: besides the ASCII letters, U+0130 and
    U+212A have the ASCII lower cases i and k. *)
Fixpoint ToLower (s : string) : string :=
  match s with
  | EmptyString => EmptyString
  | String c s' =>
      match s' with
      | String d s'' =>
          if decide (N_of_ascii c = 196%N ∧ N_of_ascii d = 176%N)
          then String "i"%char (ToLower s'')
          else match s'' with
          | String e s3 =>
              if decide (N_of_ascii c = 226%N ∧ N_of_ascii d = 132%N ∧ N_of_ascii e = 170%N)
              then String "k"%char (ToLower s3)
              else String (lower_ascii c) (ToLower s')
          | EmptyString => String (lower_ascii c) (ToLower s')
          end
      | EmptyString => String (lower_ascii c) EmptyString
      end
  end.

Definition hex_digit (n : N) : ascii :=
  if (n <? 10)%N then ascii_of_N (48 + n)%N else ascii_of_N (87 + n)%N.

(** [hex.EncodeToString] and the [%x] verb on a byte slice. *)
Fixpoint EncodeToString (s : string) : string :=
  match s with
  | EmptyString => EmptyString
  | String c s' =>
      String (hex_digit (N_of_ascii c / 16)) (String (hex_digit (N_of_ascii c mod 16))
        (EncodeToString s'))
  end.

(** base64.RawURLEncoding.EncodeToString: six bits per character, no padding. *)
Definition b64_char (n : N) : ascii :=
  if (n <? 26)%N then ascii_of_N (65 + n)
  else if (n <? 52)%N then ascii_of_N (71 + n)
  else if (n <? 62)%N then ascii_of_N (n - 4)
  else if (n =? 62)%N then "-"%char else "_"%char.

Fixpoint RawURLEncoding (s : string) : string :=
  match s with
  | EmptyString => EmptyString
  | String a EmptyString =>
      let x := N_of_ascii a in
      String (b64_char (x / 4)) (String (b64_char (x mod 4 * 16)) EmptyString)
  | String a (String b EmptyString) =>
      let x := N_of_ascii a in let y := N_of_ascii b in
      String (b64_char (x / 4)) (String (b64_char (x mod 4 * 16 + y / 16))
        (String (b64_char (y mod 16 * 4)) EmptyString))
  | String a (String b (String c s')) =>
      let x := N_of_ascii a in let y := N_of_ascii b in let z := N_of_ascii c in
      String (b64_char (x / 4)) (String (b64_char (x mod 4 * 16 + y / 16))
        (String (b64_char (y mod 16 * 4 + z / 64)) (String (b64_char (z mod 64))
          (RawURLEncoding s'))))
  end.

Example RawURLEncoding_hello : RawURLEncoding "hello?>" = "aGVsbG8_Pg".
Proof. reflexivity. Qed.

(** ** Slices *)

(** [l[i:j]], which panics unless [0 <= i <= j <= len(l)]. *)
Definition slice {S A} (l : list A) (i j : Z) : M S (list A) :=
  if (0 <=? i) && (i <=? j) && (j <=? Z.of_nat (length l))
  then mret (take (Z.to_nat (j - i)) (drop (Z.to_nat i) l))
  else panic.

Lemma slice_ok {S A} (l : list A) i j (s : S) :
  0 ≤ i ≤ j → j ≤ Z.of_nat (length l) →
  slice l i j s = Done (take (Z.to_nat (j - i)) (drop (Z.to_nat i) l)) s.
Proof.
  intros ??. unfold slice.
  rewrite !(proj2 (Z.leb_le _ _)) by lia. done.
Qed.

(** Reading a Go map: a missing key yields the zero value [d]. *)
Definition map_get `{Countable K} {V} (d : V) (m : gmap K V) (k : K) : V :=
  default d (m !! k).

(** Sums of integer-valued functions over lists. *)
Definition sumZ {A} (f : A → Z) (l : list A) : Z := foldr (λ a z, f a + z) 0 l.

Lemma sumZ_app {A} (f : A → Z) l k : sumZ f (l ++ k) = sumZ f l + sumZ f k.
Proof. induction l as [|a l IH]; simpl; lia. Qed.

Lemma sumZ_cons {A} (f : A → Z) a l : sumZ f (a :: l) = f a + sumZ f l.
Proof. done. Qed.
