(* ===== verification/GoTime.v ===== *)
(** * Time values of the Go standard library

    A [time.Time] in UTC is the number of nanoseconds since the Unix epoch.
    This file gives the parts of package [time] the services use: the
    proleptic Gregorian calendar, [Format] with the layouts RFC3339Nano and
    2006-01-02, and [Parse] with RFC3339Nano.  It shows that the calendar orders
    days as its dates, and the round trip:
    parsing a formatted time of the years 0 to 9999 gives the time back. *)

From S2P Require Import Prelude.
From Stdlib Require Import Ascii.

Abbreviation Time := Z.
Abbreviation Duration := Z.

Definition Second : Duration := 1000000000.
Definition Minute : Duration := 60 * Second.
Definition Hour : Duration := 60 * Minute.
Definition ns_per_day : Z := 24 * Hour.

(** [time.Time{}], January 1 of year 1; [IsZero] compares with it. *)
Definition zero_time : Time := -62135596800 * Second.
Definition IsZero (t : Time) : bool := t =? zero_time.
Definition time_After (t u : Time) : bool := u <? t.

(** ** The calendar *)

Record civil := Civil { c_year : Z; c_month : Z; c_day : Z }.

(** Days are counted from 0000-03-01 in eras of 400 years, so that the leap day
    is the last day of a year. *)
Definition year_of_era (doe : Z) : Z :=
  (doe - doe / 1460 + doe / 36524 - doe / 146096) / 365.

Definition civil_from_days (z : Z) : civil :=
  let z' := z + 719468 in
  let era := z' / 146097 in
  let doe := z' mod 146097 in
  let yoe := year_of_era doe in
  let doy := doe - (365 * yoe + yoe / 4 - yoe / 100) in
  let mp := (5 * doy + 2) / 153 in
  let d := doy - (153 * mp + 2) / 5 + 1 in
  let m := if mp <? 10 then mp + 3 else mp - 9 in
  let y := yoe + era * 400 in
  Civil (if m <=? 2 then y + 1 else y) m d.

Definition days_from_civil (y m d : Z) : Z :=
  let y' := if m <=? 2 then y - 1 else y in
  let era := y' / 400 in
  let yoe := y' mod 400 in
  let mp := if 2 <? m then m - 3 else m + 9 in
  let doy := (153 * mp + 2) / 5 + d - 1 in
  let doe := yoe * 365 + yoe / 4 - yoe / 100 + doy in
  era * 146097 + doe - 719468.

Definition leap (y : Z) : bool :=
  (y mod 4 =? 0) && (negb (y mod 100 =? 0) || (y mod 400 =? 0)).

Definition days_in (m y : Z) : Z :=
  if m =? 2 then (if leap y then 29 else 28)
  else if (m =? 4) || (m =? 6) || (m =? 9) || (m =? 11) then 30 else 31.

Lemma year_of_era_bounds doe :
  0 ≤ doe < 146097 →
  let yoe := year_of_era doe in
  0 ≤ yoe < 400 ∧
  0 ≤ doe - (365 * yoe + yoe / 4 - yoe / 100) < 366.
Proof. unfold year_of_era. intros ?. Z.to_euclidean_division_equations. lia. Qed.

(** A 366th day only occurs in the year that ends with a leap day. *)
Lemma last_day_leap doe :
  0 ≤ doe < 146097 →
  let yoe := year_of_era doe in
  doe - (365 * yoe + yoe / 4 - yoe / 100) = 365 →
  (yoe + 1) mod 4 = 0 ∧ ((yoe + 1) mod 100 ≠ 0 ∨ yoe = 399).
Proof. unfold year_of_era. intros ? H. Z.to_euclidean_division_equations. lia. Qed.

(** Case analysis on a month index counted from March. *)
Ltac month_cases mp :=
  let Hc := fresh in
  assert (mp = 0 ∨ mp = 1 ∨ mp = 2 ∨ mp = 3 ∨ mp = 4 ∨ mp = 5 ∨ mp = 6 ∨ mp = 7
    ∨ mp = 8 ∨ mp = 9 ∨ mp = 10 ∨ mp = 11) as Hc by lia;
  destruct Hc as [->|[->|[->|[->|[->|[->|[->|[->|[->|[->|[->| ->]]]]]]]]]]].

(** The length of the month that starts in March with index [mp], for a day
    [doy] of it. *)
Definition march_month_length (mp doy : Z) : Z :=
  match mp with
  | 0 | 2 | 4 | 5 | 7 | 9 | 10 => 31
  | 1 | 3 | 6 | 8 => 30
  | _ => if doy =? 365 then 29 else 28
  end.

Lemma day_of_month_bounds doy :
  0 ≤ doy < 366 →
  let mp := (5 * doy + 2) / 153 in
  0 ≤ mp ≤ 11 ∧ 1 ≤ doy - (153 * mp + 2) / 5 + 1 ≤ march_month_length mp doy.
Proof.
  intros Hd. simpl.
  assert (∃ mp, (5 * doy + 2) / 153 = mp ∧ 153 * mp ≤ 5 * doy + 2 < 153 * mp + 153
    ∧ 0 ≤ mp ≤ 11) as (mp & -> & Hb & Hr)
    by (eexists; split; [done|]; Z.to_euclidean_division_equations; lia).
  split; [done|]. month_cases mp; simpl;
    try (destruct (Z.eqb_spec doy 365)); Z.to_euclidean_division_equations; lia.
Qed.

(** The year that contains the leap day of era year [yoe] is a leap year. *)
Lemma leap_of_era yoe era :
  (yoe + 1) mod 4 = 0 → ((yoe + 1) mod 100 ≠ 0 ∨ yoe = 399) →
  leap (yoe + era * 400 + 1) = true.
Proof.
  intros H4 H100. unfold leap. apply andb_true_iff. split.
  - apply Z.eqb_eq. Z.to_euclidean_division_equations; lia.
  - apply orb_true_iff. destruct H100 as [H100|H399].
    + left. apply negb_true_iff, Z.eqb_neq. Z.to_euclidean_division_equations; lia.
    + right. apply Z.eqb_eq. Z.to_euclidean_division_equations; lia.
Qed.

Lemma civil_from_days_valid z :
  let c := civil_from_days z in
  1 ≤ c_month c ≤ 12 ∧ 1 ≤ c_day c ≤ days_in (c_month c) (c_year c).
Proof.
  unfold civil_from_days. simpl.
  set (doe := (z + 719468) mod 146097). set (era := (z + 719468) / 146097).
  assert (0 ≤ doe < 146097) as Hdoe by (apply Z.mod_pos_bound; lia).
  pose proof (year_of_era_bounds doe Hdoe) as [Hy Hd].
  pose proof (last_day_leap doe Hdoe) as Hl. simpl in *.
  set (yoe := year_of_era doe) in *.
  set (doy := doe - (365 * yoe + yoe / 4 - yoe / 100)) in *.
  pose proof (day_of_month_bounds doy Hd) as [Hmp Hday]. simpl in *.
  set (mp := (5 * doy + 2) / 153) in *. clearbody mp.
  set (d := doy - (153 * mp + 2) / 5 + 1) in *. clearbody d doy yoe doe era.
  month_cases mp; simpl in *; unfold days_in; simpl; try lia.
  split; [lia|]. split; [lia|]. destruct (Z.eqb_spec doy 365) as [E|E].
  - destruct (Hl E) as [H4 H100]. rewrite leap_of_era by done. lia.
  - destruct (leap _); lia.
Qed.

(** The calendar conversions are inverse to each other on days. *)
Lemma days_civil_roundtrip z :
  let c := civil_from_days z in
  days_from_civil (c_year c) (c_month c) (c_day c) = z.
Proof.
  unfold civil_from_days, days_from_civil. simpl.
  pose proof (Z.div_mod (z + 719468) 146097) as Hz.
  set (doe := (z + 719468) mod 146097) in *. set (era := (z + 719468) / 146097) in *.
  assert (0 ≤ doe < 146097) as Hdoe by (apply Z.mod_pos_bound; lia).
  pose proof (year_of_era_bounds doe Hdoe) as [Hy Hd]. simpl in *.
  set (yoe := year_of_era doe) in *.
  set (doy := doe - (365 * yoe + yoe / 4 - yoe / 100)) in *.
  assert (0 ≤ (5 * doy + 2) / 153 ≤ 11) as Hmp
    by (Z.to_euclidean_division_equations; lia).
  set (mp := (5 * doy + 2) / 153) in *. clearbody mp.
  assert (∀ y, y = yoe + era * 400 → y / 400 = era ∧ y mod 400 = yoe) as Hdiv.
  { intros y ->. split; Z.to_euclidean_division_equations; lia. }
  destruct (Z.ltb_spec mp 10).
  - rewrite (proj2 (Z.leb_gt (mp + 3) 2)), (proj2 (Z.ltb_lt 2 (mp + 3))) by lia.
    destruct (Hdiv _ eq_refl) as [-> ->].
    replace (mp + 3 - 3) with mp by lia. unfold doy. lia.
  - rewrite (proj2 (Z.leb_le (mp - 9) 2)), (proj2 (Z.ltb_ge 2 (mp - 9))) by lia.
    replace (yoe + era * 400 + 1 - 1) with (yoe + era * 400) by lia.
    destruct (Hdiv _ eq_refl) as [-> ->].
    replace (mp - 9 + 9) with mp by lia. unfold doy. lia.
Qed.

(** ** The order of dates *)

Lemma days_from_civil_linear y m d :
  days_from_civil y m d =
  let y' := if m <=? 2 then y - 1 else y in
  365 * y' + y' / 4 - y' / 100 + y' / 400
    + (153 * (if 2 <? m then m - 3 else m + 9) + 2) / 5 + d - 719469.
Proof.
  unfold days_from_civil. cbv zeta. set (y' := if m <=? 2 then y - 1 else y).
  set (k := (153 * _ + 2) / 5). clearbody y' k. Z.to_euclidean_division_equations. lia.
Qed.

Lemma leap_days y :
  (if leap y then 1 else 0) =
  (y / 4 - y / 100 + y / 400) - ((y - 1) / 4 - (y - 1) / 100 + (y - 1) / 400).
Proof.
  unfold leap.
  destruct (Z.eqb_spec (y mod 4) 0), (Z.eqb_spec (y mod 100) 0), (Z.eqb_spec (y mod 400) 0);
    simpl; Z.to_euclidean_division_equations; lia.
Qed.

(** The day after the last day of a month is the first of the next one. *)
Lemma next_month y m :
  1 ≤ m < 12 → days_from_civil y (m + 1) 1 = days_from_civil y m (days_in m y) + 1.
Proof.
  intros Hm. pose proof (leap_days y) as Hl. rewrite !days_from_civil_linear. unfold days_in.
  assert (m = 1 ∨ m = 2 ∨ m = 3 ∨ m = 4 ∨ m = 5 ∨ m = 6 ∨ m = 7 ∨ m = 8 ∨ m = 9 ∨ m = 10
    ∨ m = 11) as Hc by lia.
  destruct Hc as [->|[->|[->|[->|[->|[->|[->|[->|[->|[->| ->]]]]]]]]]]; simpl in *;
    try destruct (leap y); Z.to_euclidean_division_equations; lia.
Qed.

Lemma next_year y : days_from_civil (y + 1) 1 1 = days_from_civil y 12 31 + 1.
Proof.
  rewrite !days_from_civil_linear. simpl.
  replace (y + 1 - 1) with y by lia. Z.to_euclidean_division_equations; lia.
Qed.

Lemma month_day y m d : days_from_civil y m d = days_from_civil y m 1 + (d - 1).
Proof. unfold days_from_civil. lia. Qed.

Lemma month_order y m d k :
  1 ≤ m → m + 1 + Z.of_nat k ≤ 12 → d ≤ days_in m y →
  days_from_civil y m d < days_from_civil y (m + 1 + Z.of_nat k) 1.
Proof.
  intros Hm Hk Hd. induction k as [|k IH].
  - rewrite Z.add_0_r, next_month by lia. rewrite (month_day y m d), (month_day y m (days_in m y)). lia.
  - replace (m + 1 + Z.of_nat (S k)) with (m + 1 + Z.of_nat k + 1) by lia.
    rewrite next_month by lia. rewrite (month_day y (m + 1 + Z.of_nat k) (days_in _ _)).
    assert (1 ≤ days_in (m + 1 + Z.of_nat k) y) by (unfold days_in; repeat case_match; lia). lia.
Qed.

Lemma first_of_month_le y m k :
  1 ≤ m → m + Z.of_nat k ≤ 12 → days_from_civil y m 1 ≤ days_from_civil y (m + Z.of_nat k) 1.
Proof.
  intros Hm Hk. destruct k as [|k]; [rewrite Z.add_0_r; lia|].
  pose proof (month_order y m 1 k Hm) as H.
  assert (1 ≤ days_in m y) by (unfold days_in; repeat case_match; lia).
  replace (m + Z.of_nat (S k)) with (m + 1 + Z.of_nat k) by lia. lia.
Qed.

Lemma first_of_year_mono y y' : y ≤ y' → days_from_civil y 1 1 ≤ days_from_civil y' 1 1.
Proof.
  intros Hy. rewrite !days_from_civil_linear. simpl.
  Z.to_euclidean_division_equations; lia.
Qed.

(** A date lies in its month and in its year. *)
Lemma date_in_year y m d :
  1 ≤ m ≤ 12 → 1 ≤ d ≤ days_in m y →
  days_from_civil y 1 1 ≤ days_from_civil y m d < days_from_civil (y + 1) 1 1.
Proof.
  intros Hm Hd. pose proof (first_of_month_le y 1 (Z.to_nat (m - 1))) as H1.
  replace (1 + Z.of_nat (Z.to_nat (m - 1))) with m in H1 by lia.
  rewrite (month_day y m d). split; [lia|]. rewrite next_year, (month_day y 12 31).
  destruct (decide (m = 12)) as [->|Hne]; [change (days_in 12 y) with 31 in Hd; lia|].
  pose proof (month_order y m d (Z.to_nat (11 - m))) as H2.
  replace (m + 1 + Z.of_nat (Z.to_nat (11 - m))) with 12 in H2 by lia.
  rewrite (month_day y m d) in H2. lia.
Qed.

(** The days from January 1 of a day's year up to it are the earlier days of
    that year. *)
Lemma same_year z z0 :
  z ≤ z0 →
  days_from_civil (c_year (civil_from_days z0)) 1 1 ≤ z
  ↔ c_year (civil_from_days z) = c_year (civil_from_days z0).
Proof.
  intros Hz. pose proof (civil_from_days_valid z) as [Hm Hd].
  pose proof (civil_from_days_valid z0) as [Hm0 Hd0].
  pose proof (date_in_year _ _ _ Hm Hd) as H1. pose proof (date_in_year _ _ _ Hm0 Hd0) as H2.
  rewrite days_civil_roundtrip in H1, H2. split.
  - intros Hle. destruct (Z.lt_trichotomy (c_year (civil_from_days z)) (c_year (civil_from_days z0)))
      as [Hlt|[Heq|Hlt]]; [|done|].
    + pose proof (first_of_year_mono (c_year (civil_from_days z) + 1) (c_year (civil_from_days z0))). lia.
    + pose proof (first_of_year_mono (c_year (civil_from_days z0) + 1) (c_year (civil_from_days z))). lia.
  - intros <-. lia.
Qed.

Lemma same_month z z0 :
  z ≤ z0 →
  days_from_civil (c_year (civil_from_days z0)) (c_month (civil_from_days z0)) 1 ≤ z
  ↔ c_year (civil_from_days z) = c_year (civil_from_days z0)
    ∧ c_month (civil_from_days z) = c_month (civil_from_days z0).
Proof.
  intros Hz. pose proof (same_year z z0 Hz) as Hy.
  pose proof (civil_from_days_valid z) as [Hm Hd].
  pose proof (civil_from_days_valid z0) as [Hm0 Hd0].
  pose proof (days_civil_roundtrip z) as Er. pose proof (days_civil_roundtrip z0) as Er0.
  destruct (civil_from_days z) as [y m d], (civil_from_days z0) as [y0 m0 d0]; simpl in *.
  split.
  - intros Hle. assert (y = y0) as ->.
    { apply Hy. pose proof (first_of_month_le y0 1 (Z.to_nat (m0 - 1))) as H1.
      replace (1 + Z.of_nat (Z.to_nat (m0 - 1))) with m0 in H1 by lia. lia. }
    split; [done|]. destruct (Z.lt_trichotomy m m0) as [Hlt|[Heq|Hlt]]; [|done|].
    + pose proof (month_order y0 m d (Z.to_nat (m0 - m - 1))) as H1.
      replace (m + 1 + Z.of_nat (Z.to_nat (m0 - m - 1))) with m0 in H1 by lia. lia.
    + pose proof (month_order y0 m0 d0 (Z.to_nat (m - m0 - 1))) as H1.
      replace (m0 + 1 + Z.of_nat (Z.to_nat (m - m0 - 1))) with m in H1 by lia.
      rewrite (month_day y0 m d) in Er. lia.
  - intros [-> ->]. rewrite (month_day y0 m0 d) in Er. lia.
Qed.

(** ** Formatting *)

Definition digit (n : Z) : ascii := ascii_of_N (48 + Z.to_N n).

(** [v] in decimal with exactly [w] digits (its lowest [w]). *)
Fixpoint fixed (w : nat) (v : Z) : string :=
  match w with
  | O => ""
  | S w' => String (digit (v / 10 ^ Z.of_nat w' mod 10)) (fixed w' v)
  end.

(** The year with at least four digits, as [time.appendInt] writes it. *)
Definition format_year (y : Z) : string :=
  if (0 <=? y) && (y <? 10000) then fixed 4 y
  else if 10000 <=? y then FormatInt y
  else if (-10000 <? y) then "-" +:+ fixed 4 (- y) else FormatInt y.

(** Removes the trailing zeros of a fraction. *)
Fixpoint trim_zeros (s : string) : string :=
  match s with
  | EmptyString => EmptyString
  | String c s' =>
      match trim_zeros s' with
      | EmptyString => if decide (c = "0"%char) then "" else String c ""
      | t => String c t
      end
  end.

Definition format_frac (ns : Z) : string :=
  if ns =? 0 then "" else "." +:+ trim_zeros (fixed 9 ns).

Definition format_date (t : Time) : string :=
  let c := civil_from_days (t / ns_per_day) in
  format_year (c_year c) +:+ "-" +:+ fixed 2 (c_month c) +:+ "-" +:+ fixed 2 (c_day c).

Definition format_clock (t : Time) : string :=
  let r := t mod ns_per_day in
  fixed 2 (r / Hour) +:+ ":" +:+ fixed 2 (r / Minute mod 60) +:+ ":"
    +:+ fixed 2 (r / Second mod 60) +:+ format_frac (r mod Second).

(** [t.Format(time.RFC3339Nano)] for a UTC time; the audit hash's layout
    "2006-01-02T15:04:05.999999999Z" gives the same string. *)
Definition FormatRFC3339Nano (t : Time) : string :=
  format_date t +:+ "T" +:+ format_clock t +:+ "Z".

(** [t.Format("2006-01-02")]. *)
Definition FormatDay (t : Time) : string := format_date t.

Example format_epoch : FormatRFC3339Nano 0 = "1970-01-01T00:00:00Z".
Proof. reflexivity. Qed.
Example format_2026 :
  FormatRFC3339Nano (1770832800 * Second + 120000000) = "2026-02-11T18:00:00.12Z".
Proof. reflexivity. Qed.

(** ** Parsing *)

(** Exactly two digits, as [getnum] with [fixed] set. *)
Definition parse2 (s : string) : option (Z * string) :=
  match s with
  | String a (String b s') =>
      x ← digit_val a; y ← digit_val b; Some (10 * x + y, s')
  | _ => None
  end.

(** One or two digits, as [getnum] without [fixed]. *)
Definition parse12 (s : string) : option (Z * string) :=
  match parse2 s with
  | Some r => Some r
  | None =>
      match s with String a s' => x ← digit_val a; Some (x, s') | _ => None end
  end.

Definition parse4 (s : string) : option (Z * string) :=
  '(x, s1) ← parse2 s; '(y, s2) ← parse2 s1; Some (100 * x + y, s2).

Definition skip_char (c : ascii) (s : string) : option string :=
  match s with
  | String c' s' => if decide (c = c') then Some s' else None
  | EmptyString => None
  end.

Definition in_range (lo hi v : Z) : option () :=
  if (lo <=? v) && (v <=? hi) then Some () else None.

(** The digits of a fraction: the value of the first [w] of them at scale
    10^[w], and the rest of the string after all of them. *)
Fixpoint parse_frac_digits (w : nat) (s : string) : Z * string :=
  match s with
  | String c s' =>
      match digit_val c with
      | Some d =>
          match w with
          | O => parse_frac_digits O s'
          | S w' =>
              let '(v, r) := parse_frac_digits w' s' in
              (d * 10 ^ Z.of_nat w' + v, r)
          end
      | None => (0, s)
      end
  | EmptyString => (0, s)
  end.

(** An optional fraction: a point or comma followed by at least one digit, of
    which nine count. *)
Definition parse_frac (s : string) : Z * string :=
  match s with
  | String p (String c s') =>
      if decide (p = "."%char ∨ p = ","%char) then
        match digit_val c with
        | Some _ => parse_frac_digits 9 (String c s')
        | None => (0, s)
        end
      else (0, s)
  | _ => (0, s)
  end.

(** The zone: Z or a signed offset hh:mm, in seconds. *)
Definition parse_zone (s : string) : option (Z * string) :=
  match s with
  | String c s' =>
      if decide (c = "Z"%char) then Some (0, s')
      else
        '(h, s1) ← parse2 s'; s2 ← skip_char ":"%char s1; '(m, s3) ← parse2 s2;
        _ ← in_range 0 24 h; _ ← in_range 0 60 m;
        if decide (c = "+"%char) then Some ((h * 60 + m) * 60, s3)
        else if decide (c = "-"%char) then Some (- ((h * 60 + m) * 60), s3)
        else None
  | EmptyString => None
  end.

(** [time.Parse(time.RFC3339Nano, s)]; [None] is the error result. *)
Definition ParseRFC3339Nano (s : string) : option Time :=
  '(y, s) ← parse4 s; s ← skip_char "-"%char s;
  '(mo, s) ← parse2 s; _ ← in_range 1 12 mo; s ← skip_char "-"%char s;
  '(d, s) ← parse2 s; s ← skip_char "T"%char s;
  '(h, s) ← parse12 s; _ ← in_range 0 23 h; s ← skip_char ":"%char s;
  '(mi, s) ← parse2 s; _ ← in_range 0 59 mi; s ← skip_char ":"%char s;
  '(se, s) ← parse2 s; _ ← in_range 0 59 se;
  let '(ns, s) := parse_frac s in
  '(off, s) ← parse_zone s;
  _ ← in_range 1 (days_in mo y) d;
  if decide (s = "") then
    Some (days_from_civil y mo d * ns_per_day + h * Hour + mi * Minute
          + (se - off) * Second + ns)
  else None.

(** [time.Parse("2006-01-02", s)]. *)
Definition ParseDay (s : string) : option Time :=
  '(y, s) ← parse4 s; s ← skip_char "-"%char s;
  '(mo, s) ← parse2 s; _ ← in_range 1 12 mo; s ← skip_char "-"%char s;
  '(d, s) ← parse2 s; _ ← in_range 1 (days_in mo y) d;
  if decide (s = "") then Some (days_from_civil y mo d * ns_per_day) else None.

Example parse_offset :
  ParseRFC3339Nano "2026-02-11T18:00:00.5+01:00"
  = Some (1770832800 * Second - Hour + 500000000).
Proof. reflexivity. Qed.
Example parse_bad_day : ParseRFC3339Nano "2025-02-29T00:00:00Z" = None.
Proof. reflexivity. Qed.

(** ** The round trip *)

Lemma digit_val_digit n : 0 ≤ n < 10 → digit_val (digit n) = Some n.
Proof.
  intros ?. assert (n = 0 ∨ n = 1 ∨ n = 2 ∨ n = 3 ∨ n = 4 ∨ n = 5 ∨ n = 6 ∨ n = 7
    ∨ n = 8 ∨ n = 9) as Hc by lia.
  by destruct Hc as [->|[->|[->|[->|[->|[->|[->|[->|[->| ->]]]]]]]]].
Qed.

Lemma digit_zero n : 0 ≤ n < 10 → digit n = "0"%char → n = 0.
Proof.
  intros Hn E. pose proof (digit_val_digit n Hn) as H. rewrite E in H.
  by injection H as <-.
Qed.

Lemma fixed_digit v k : 0 ≤ v / 10 ^ k mod 10 < 10.
Proof. apply Z.mod_pos_bound. lia. Qed.

Lemma parse2_fixed v s : 0 ≤ v < 100 → parse2 (fixed 2 v +:+ s) = Some (v, s).
Proof.
  intros ?. simpl. rewrite !digit_val_digit by (apply Z.mod_pos_bound; lia).
  simpl. rewrite Z.div_1_r. do 2 f_equal. change (10 ^ 1) with 10.
  Z.to_euclidean_division_equations; lia.
Qed.

Lemma parse12_fixed v s : 0 ≤ v < 100 → parse12 (fixed 2 v +:+ s) = Some (v, s).
Proof. intros ?. unfold parse12. by rewrite parse2_fixed. Qed.

Lemma parse4_fixed v s : 0 ≤ v < 10000 → parse4 (fixed 4 v +:+ s) = Some (v, s).
Proof.
  intros ?. unfold parse4. simpl.
  rewrite !digit_val_digit by (apply Z.mod_pos_bound; lia). simpl.
  rewrite !digit_val_digit by (apply Z.mod_pos_bound; lia). simpl.
  rewrite Z.div_1_r. do 2 f_equal. Z.to_euclidean_division_equations; lia.
Qed.

Lemma trim_zeros_cons c s :
  trim_zeros (String c s) = "" ∨ ∃ t, trim_zeros (String c s) = String c t.
Proof.
  simpl. destruct (trim_zeros s); [case_decide|]; eauto.
Qed.

Lemma pow10_succ_mod v (w : nat) :
  v mod 10 ^ Z.of_nat (S w)
  = v / 10 ^ Z.of_nat w mod 10 * 10 ^ Z.of_nat w + v mod 10 ^ Z.of_nat w.
Proof.
  rewrite Nat2Z.inj_succ, Z.pow_succ_r by lia.
  rewrite (Z.mul_comm 10), Z.rem_mul_r by lia. lia.
Qed.

Lemma parse_frac_digits_trim w v s :
  digit_val s = None →
  parse_frac_digits w (trim_zeros (fixed w v) +:+ String s "")
  = (v mod 10 ^ Z.of_nat w, String s "").
Proof.
  intros Hs. induction w as [|w IH].
  { cbn [fixed trim_zeros]. rewrite str_app_nil. cbn [parse_frac_digits].
    by rewrite Hs, Z.mod_1_r. }
  pose proof (fixed_digit v (Z.of_nat w)) as Hq.
  rewrite pow10_succ_mod. cbn [fixed trim_zeros].
  destruct (trim_zeros (fixed w v)) as [|c t] eqn:E.
  - rewrite str_app_nil in IH. cbn [parse_frac_digits] in IH.
    rewrite Hs in IH. injection IH as IH.
    rewrite <- IH. case_decide as Hd.
    + apply digit_zero in Hd; [|done]. rewrite Hd.
      rewrite str_app_nil. cbn [parse_frac_digits]. by rewrite Hs.
    + rewrite str_app_cons, str_app_nil. cbn [parse_frac_digits].
      by rewrite digit_val_digit, Hs by done.
  - rewrite (str_app_cons (digit _)). cbn [parse_frac_digits].
    rewrite digit_val_digit by done. by rewrite IH.
Qed.

Lemma parse_frac_format ns :
  0 ≤ ns < Second → parse_frac (format_frac ns +:+ "Z") = (ns, "Z").
Proof.
  intros Hns. unfold format_frac.
  destruct (Z.eqb_spec ns 0) as [->|Hne]; [done|].
  pose proof (parse_frac_digits_trim 9 ns "Z"%char eq_refl) as Hp.
  rewrite Z.mod_small in Hp by (unfold Second in Hns; simpl; lia).
  destruct (trim_zeros_cons (digit (ns / 10 ^ Z.of_nat 8 mod 10)) (fixed 8 ns))
    as [E|[t E]]; change (String _ (fixed 8 ns)) with (fixed 9 ns) in E;
    rewrite E in Hp |- *.
  { simpl in Hp. congruence. }
  rewrite !str_app_cons, str_app_nil, !str_app_cons. rewrite str_app_cons in Hp.
  unfold parse_frac.
  rewrite decide_True by auto.
  rewrite digit_val_digit by (apply Z.mod_pos_bound; lia). exact Hp.
Qed.

Lemma time_of_day_parts r :
  0 ≤ r < ns_per_day →
  0 ≤ r / Hour < 24 ∧ 0 ≤ r / Minute mod 60 < 60 ∧ 0 ≤ r / Second mod 60 < 60
  ∧ 0 ≤ r mod Second < Second
  ∧ r / Hour * Hour + r / Minute mod 60 * Minute + r / Second mod 60 * Second
    + r mod Second = r.
Proof.
  unfold ns_per_day, Hour, Minute, Second. intros ?.
  Z.to_euclidean_division_equations; lia.
Qed.

Definition time_year (t : Time) : Z := c_year (civil_from_days (t / ns_per_day)).

Lemma in_range_ok lo hi v : lo ≤ v ≤ hi → in_range lo hi v = Some ().
Proof.
  intros ?. unfold in_range. by rewrite !(proj2 (Z.leb_le _ _)) by lia.
Qed.

Lemma skip_char_eq c s : skip_char c (String c s) = Some s.
Proof. unfold skip_char. by rewrite decide_True. Qed.

(** One field, separator or range check of the parser on formatted text. *)
Ltac parse_step :=
  first
    [ rewrite parse4_fixed by lia | rewrite parse2_fixed by lia
    | rewrite parse12_fixed by lia | rewrite in_range_ok by lia | rewrite skip_char_eq
    | progress (rewrite ?(str_app_cons "-"), ?(str_app_cons ":"), ?(str_app_cons "T"),
        ?str_app_nil) ];
  cbn -[fixed parse2 parse12 parse4 in_range parse_frac format_frac days_from_civil skip_char].

(** Formatting a time of the years 0 to 9999 and parsing it back is the
    identity. *)
Lemma ParseRFC3339Nano_Format t :
  0 ≤ time_year t < 10000 → ParseRFC3339Nano (FormatRFC3339Nano t) = Some t.
Proof.
  unfold time_year. intros Hy.
  unfold ParseRFC3339Nano, FormatRFC3339Nano, format_date, format_clock.
  pose proof (civil_from_days_valid (t / ns_per_day)) as Hv.
  pose proof (days_civil_roundtrip (t / ns_per_day)) as Hr. cbv zeta in Hv, Hr. destruct Hv as [Hm Hd].
  set (c := civil_from_days (t / ns_per_day)) in *. clearbody c.
  assert (0 < ns_per_day) as Hpos by done.
  pose proof (Z.mod_pos_bound t ns_per_day Hpos) as Hb.
  pose proof (Z.div_mod t ns_per_day ltac:(lia)) as Ht.
  destruct (time_of_day_parts _ Hb) as (Hh & Hmi & Hs & Hns & Hsum).
  set (r := t mod ns_per_day) in *. clearbody r.
  assert (days_in (c_month c) (c_year c) ≤ 31) as Hd31
    by (unfold days_in; repeat case_match; lia).
  unfold format_year. rewrite (proj2 (Z.leb_le 0 _)), (proj2 (Z.ltb_lt _ 10000)) by lia.
  cbn [andb]. rewrite !str_app_assoc. repeat parse_step.
  rewrite parse_frac_format by done. repeat parse_step.
  cbn -[days_from_civil Hour Minute Second ns_per_day].
  rewrite decide_True by done. rewrite Hr.
  cbn -[Hour Minute Second ns_per_day]. f_equal.
  unfold ns_per_day, Hour, Minute, Second in *. lia.
Qed.

(** The characters of a formatted time. *)
Lemma fixed_has_no c w v : digit_val c = None → has_char c (fixed w v) = false.
Proof.
  intros Hc. induction w as [|w IH]; [done|]. cbn [fixed has_char].
  rewrite IH, orb_false_r. apply bool_decide_eq_false. intros E.
  pose proof (digit_val_digit _ (fixed_digit v (Z.of_nat w))) as Hd.
  rewrite E in Hd. congruence.
Qed.

Lemma trim_zeros_has_no c s : has_char c s = false → has_char c (trim_zeros s) = false.
Proof.
  induction s as [|d s IH]; [done|]. cbn [has_char trim_zeros].
  intros [Hd Hs]%orb_false_iff. specialize (IH Hs). destruct (trim_zeros s) as [|x t].
  - destruct (decide (d = "0"%char)); [done|]. cbn [has_char]. by rewrite Hd.
  - change (bool_decide (d = c) || has_char c (String x t) = false). by rewrite Hd, IH.
Qed.

Lemma FormatRFC3339Nano_no_pipe t :
  0 ≤ time_year t < 10000 → has_char "|" (FormatRFC3339Nano t) = false.
Proof.
  unfold time_year. intros Hy.
  unfold FormatRFC3339Nano, format_date, format_clock, format_year, format_frac.
  rewrite (proj2 (Z.leb_le 0 _)), (proj2 (Z.ltb_lt _ 10000)) by lia. cbn [andb].
  rewrite !has_char_app, !fixed_has_no by done.
  destruct (_ =? 0); [done|].
  by rewrite has_char_app, trim_zeros_has_no by by apply fixed_has_no.
Qed.
