(* ===== verification/GoJson.v ===== *)
(** * JSON encoding of the Go standard library

    The part of encoding/json's [Marshal] the services use for audit
    snapshots: strings with Go's escaping, integers, booleans and objects
    (struct fields in order, map keys sorted by the caller). *)

From S2P Require Import Prelude.
From Stdlib Require Import Ascii.

Definition byte_in (lo hi : N) (c : ascii) : bool :=
  ((lo <=? N_of_ascii c) && (N_of_ascii c <=? hi))%N.

Definition cont (c : ascii) : bool := byte_in 128 191 c.

(** The number of bytes of the well-formed UTF-8 sequence a string starts with,
    [0] if there is none. *)
Definition utf8_len (s : string) : nat :=
  match s with
  | EmptyString => 0
  | String a s1 =>
      if byte_in 0 127 a then 1
      else match s1 with
      | EmptyString => 0
      | String b s2 =>
          if byte_in 194 223 a && cont b then 2
          else match s2 with
          | EmptyString => 0
          | String c s3 =>
              if cont c && ((byte_in 224 224 a && byte_in 160 191 b)
                  || ((byte_in 225 236 a || byte_in 238 239 a) && cont b)
                  || (byte_in 237 237 a && byte_in 128 159 b)) then 3
              else match s3 with
              | EmptyString => 0
              | String d _ =>
                  if cont c && cont d && ((byte_in 240 240 a && byte_in 144 191 b)
                    || (byte_in 241 243 a && cont b)
                    || (byte_in 244 244 a && byte_in 128 143 b)) then 4
                  else 0
              end
          end
      end
  end%nat.

Definition dquote : ascii := ascii_of_N 34.
Definition backslash : ascii := ascii_of_N 92.

(** A one-byte character as [Marshal] writes it, HTML characters escaped. *)
Definition escape_ascii (c : ascii) : string :=
  let n := N_of_ascii c in
  if (n =? 34)%N || (n =? 92)%N then String backslash (String c "")
  else if (n =? 8)%N then String backslash "b"
  else if (n =? 9)%N then String backslash "t"
  else if (n =? 10)%N then String backslash "n"
  else if (n =? 12)%N then String backslash "f"
  else if (n =? 13)%N then String backslash "r"
  else if (n <? 32)%N || (n =? 60)%N || (n =? 62)%N || (n =? 38)%N then
    String backslash ("u00" +:+ EncodeToString (String c ""))
  else String c "".

(** The body of a JSON string; each round consumes at least one byte, so the
    length of the string is enough fuel. *)
Fixpoint escape (fuel : nat) (s : string) : string :=
  match fuel, s with
  | S fuel', String c s' =>
      match utf8_len s with
      | O => String backslash "ufffd" +:+ escape fuel' s'
      | 1%nat => escape_ascii c +:+ escape fuel' s'
      | n =>
          let ch := String.substring 0 n s in
          let rest := String.substring n (String.length s - n) s in
          (if decide (ch = bytes [226; 128; 168]%N) then String backslash "u2028"
           else if decide (ch = bytes [226; 128; 169]%N) then String backslash "u2029"
           else ch) +:+ escape fuel' rest
      end
  | _, _ => ""
  end.

Definition json_string (s : string) : string :=
  String dquote (escape (String.length s) s) +:+ String dquote "".

Definition json_int (z : Z) : string := FormatInt z.
Definition json_bool (b : bool) : string := if b then "true" else "false".

Definition json_object (fields : list (string * string)) : string :=
  "{" +:+ Join "," ((λ '(k, v), json_string k +:+ ":" +:+ v) <$> fields) +:+ "}".

(** The fields an [omitempty] tag keeps. *)
Definition omit_string (k v : string) : list (string * string) :=
  if decide (v = "") then [] else [(k, json_string v)].
Definition omit_int (k : string) (v : Z) : list (string * string) :=
  if decide (v = 0) then [] else [(k, json_int v)].
Definition omit_ptr (k : string) (v : option string) : list (string * string) :=
  match v with Some j => [(k, j)] | None => [] end.

Example json_plain :
  json_object [("a", json_int 7); ("b", json_string "x<y")]
  = "{" +:+ json_string "a" +:+ ":7," +:+ json_string "b" +:+ ":"
    +:+ String dquote ("x" +:+ String backslash "u003cy" +:+ String dquote "}").
Proof. reflexivity. Qed.

(** ** Bytes *)

(** base64.RawStdEncoding: the URL alphabet with two characters exchanged. *)
Fixpoint std_alphabet (s : string) : string :=
  match s with
  | EmptyString => EmptyString
  | String c s =>
      String (if decide (c = "-"%char) then "+"%char
              else if decide (c = "_"%char) then "/"%char else c) (std_alphabet s)
  end.
Definition RawStdEncoding (s : string) : string := std_alphabet (RawURLEncoding s).

(** base64.StdEncoding, which pads to a multiple of four characters; a byte
    slice is marshalled as it. *)
Definition StdEncoding (s : string) : string :=
  RawStdEncoding s +:+
  match (String.length s mod 3)%nat with 1%nat => "==" | 2%nat => "=" | _ => "" end.
Definition omit_bytes (k v : string) : list (string * string) :=
  if decide (v = "") then [] else [(k, json_string (StdEncoding v))].
Definition omit_bool (k : string) (v : bool) : list (string * string) :=
  if v then [(k, json_bool v)] else [].
