(* ===== verification/GoNet.v ===== *)
(** * Addresses of Go's net package

    What internal/platform/server/remote_access.go uses of it: [ParseIP],
    [ParseCIDR], [IPNet.Contains] and [SplitHostPort].  An address is the list
    of its bytes, 4 or 16 of them. *)

From S2P Require Import Prelude.
From Stdlib Require Import Ascii.

(** ** Splitting strings *)

(** The part before the first occurrence of a character and the part after
    it. *)
Fixpoint cut_first (c : ascii) (s : string) : option (string * string) :=
  match s with
  | EmptyString => None
  | String d s' =>
      if decide (d = c) then Some ("", s')
      else '(a, b) ← cut_first c s'; Some (String d a, b)
  end.

(** ... and of the last one. *)
Fixpoint cut_last (c : ascii) (s : string) : option (string * string) :=
  match s with
  | EmptyString => None
  | String d s' =>
      match cut_last c s' with
      | Some (a, b) => Some (String d a, b)
      | None => if decide (d = c) then Some ("", s') else None
      end
  end.

(** [strings.Split(s, c)] for a separator of one character. *)
Fixpoint split_on (c : ascii) (s : string) : list string :=
  match s with
  | EmptyString => [""]
  | String d s' =>
      if decide (d = c) then "" :: split_on c s'
      else match split_on c s' with
           | p :: ps => String d p :: ps
           | [] => [String d ""]
           end
  end.

(** [net.SplitHostPort]; [None] is the error result. *)
Definition SplitHostPort (hostport : string) : option (string * string) :=
  '(front, port) ← cut_last ":"%char hostport;
  match hostport with
  | String "["%char rest =>
      '(host, after) ← cut_first "]"%char rest;
      (** the first ] must be just before the last : *)
      if decide (after = ":" +:+ port) then
        if has_char "["%char rest || has_char "]"%char after then None
        else Some (host, port)
      else None
  | _ =>
      if has_char ":"%char front || has_char "["%char hostport || has_char "]"%char hostport
      then None else Some (front, port)
  end.

Example split_v4 : SplitHostPort "10.0.0.1:443" = Some ("10.0.0.1", "443").
Proof. reflexivity. Qed.
Example split_v6 : SplitHostPort "[::1]:8080" = Some ("::1", "8080").
Proof. reflexivity. Qed.
Example split_bad :
  SplitHostPort "::1" = None ∧ SplitHostPort "host" = None ∧ SplitHostPort "[::1]x:1" = None.
Proof. by repeat split. Qed.

(** ** IP addresses *)

Definition IP := list Z.

(** A decimal byte: one digit or more, no leading zero, at most 255. *)
Definition parse_octet (s : string) : option Z :=
  match s with
  | "" => None
  | String "0"%char (String _ _) => None
  | _ => v ← parse_digits 0 s; if v <=? 255 then Some v else None
  end.

Definition parseIPv4Fields (s : string) : option IP :=
  match split_on "."%char s with
  | [a; b; c; d] =>
      a ← parse_octet a; b ← parse_octet b; c ← parse_octet c; d ← parse_octet d;
      Some [a; b; c; d]
  | _ => None
  end.

Definition hex_val (c : ascii) : option Z :=
  let n := Z.of_N (N_of_ascii c) in
  if (48 <=? n) && (n <=? 57) then Some (n - 48)
  else if (97 <=? n) && (n <=? 102) then Some (n - 87)
  else if (65 <=? n) && (n <=? 70) then Some (n - 55)
  else None.

(** The hexadecimal number at the start of a string, the number of its digits
    and the rest. *)
Fixpoint parse_hex (acc : Z) (off : nat) (s : string) : Z * nat * string :=
  match s with
  | EmptyString => (acc, off, s)
  | String c s' =>
      match hex_val c with
      | Some d => parse_hex (acc * 16 + d) (S off) s'
      | None => (acc, off, s)
      end
  end.

(** The groups of an IPv6 address: the bytes in front, the position of the
    ellipsis among them, if one was seen.  At most eight groups fit. *)
Fixpoint parse_groups (fuel : nat) (ip : IP) (ellipsis : option nat) (s : string)
    : option (IP * option nat) :=
  match fuel with
  | O => None
  | S fuel =>
      let '(acc, off, rest) := parse_hex 0 0 s in
      if decide (off = 0 ∨ 4 < off)%nat then None else
      match rest with
      | String "."%char _ =>
          if decide ((ellipsis = None ∧ length ip ≠ 12) ∨ 12 < length ip)%nat then None else
          v4 ← parseIPv4Fields s; Some (ip ++ v4, ellipsis)
      | EmptyString => Some (ip ++ [acc / 256; acc mod 256], ellipsis)
      | String ":"%char (String c rest') =>
          let ip := ip ++ [acc / 256; acc mod 256] in
          if decide (c = ":"%char) then
            match ellipsis with
            | Some _ => None
            | None =>
                if decide (rest' = "") then Some (ip, Some (length ip))
                else parse_groups fuel ip (Some (length ip)) rest'
            end
          else parse_groups fuel ip ellipsis (String c rest')
      | _ => None
      end
  end.

Definition parseIPv6 (s : string) : option IP :=
  '(ip, ellipsis) ←
    match s with
    | String ":"%char (String ":"%char s') =>
        if decide (s' = "") then Some ([], Some O) else parse_groups 8 [] (Some O) s'
    | _ => parse_groups 8 [] None s
    end;
  match ellipsis with
  | None => if decide (length ip = 16)%nat then Some ip else None
  | Some e =>
      if decide (length ip < 16)%nat
      then Some (take e ip ++ replicate (16 - length ip) 0 ++ drop e ip)
      else None
  end.

(** [netip.ParseAddr] without zones: an address with a zone is none to the
    callers here.  The first dot or colon decides. *)
Inductive Addr := V4 (b : IP) | V6 (b : IP).

Fixpoint first_of (s : string) : option ascii :=
  match s with
  | EmptyString => None
  | String c s' =>
      if decide (c = "."%char ∨ c = ":"%char ∨ c = "%"%char) then Some c else first_of s'
  end.

Definition ParseAddr (s : string) : option Addr :=
  match first_of s with
  | Some "."%char => V4 <$> parseIPv4Fields s
  | Some ":"%char => if has_char "%"%char s then None else V6 <$> parseIPv6 s
  | _ => None
  end.

Definition v4InV6Prefix : IP := replicate 10 0 ++ [255; 255].

Definition As16 (a : Addr) : IP :=
  match a with V4 b => v4InV6Prefix ++ b | V6 b => b end.

Definition BitLen (a : Addr) : Z := match a with V4 _ => 32 | V6 _ => 128 end.

(** [net.ParseIP]; [None] is a nil address. *)
Definition ParseIP (s : string) : option IP := As16 <$> ParseAddr s.

Definition To4 (ip : IP) : option IP :=
  if decide (length ip = 4)%nat then Some ip
  else if decide (length ip = 16 ∧ take 12 ip = v4InV6Prefix)%nat then Some (drop 12 ip)
  else None.

(** ** Networks *)

Record IPNet := mkIPNet { NetIP : IP; NetMask : list Z }.

(** [CIDRMask(n, bits)]. *)
Fixpoint CIDRMask (n : Z) (len : nat) : list Z :=
  match len with
  | O => []
  | S len =>
      (if 8 <=? n then 255 else if n <=? 0 then 0 else 255 - (2 ^ (8 - n) - 1))
        :: CIDRMask (n - 8) len
  end.

Definition band (l k : list Z) : list Z := zip_with Z.land l k.

Definition ParseCIDR (s : string) : option IPNet :=
  '(addr, mask) ← cut_first "/"%char s;
  ip ← ParseAddr addr;
  n ← (if decide (mask = "") then None else parse_digits 0 mask);
  if BitLen ip <? n then None else
  let m := CIDRMask n (Z.to_nat (BitLen ip / 8)) in
  Some (mkIPNet (match ip with V4 b => band b m | V6 b => band b m end) m).

Definition networkNumberAndMask (n : IPNet) : IP * list Z :=
  match To4 (NetIP n) with
  | Some ip =>
      (ip, if decide (length (NetMask n) = 16)%nat then drop 12 (NetMask n) else NetMask n)
  | None => if decide (length (NetMask n) = 16)%nat then (NetIP n, NetMask n) else ([], [])
  end.

(** [IPNet.Contains]. *)
Definition Contains (n : IPNet) (ip : IP) : bool :=
  let '(nn, m) := networkNumberAndMask n in
  let ip := default ip (To4 ip) in
  bool_decide (length ip = length nn) && bool_decide (band nn m = band ip m).

Definition in_cidr (cidr ip : string) : option bool :=
  n ← ParseCIDR cidr; a ← ParseIP ip; Some (Contains n a).

Example cidr_v4 :
  in_cidr "10.0.0.0/8" "10.200.3.4" = Some true
  ∧ in_cidr "10.0.0.0/8" "11.0.0.1" = Some false
  ∧ in_cidr "192.168.4.0/22" "192.168.7.255" = Some true
  ∧ in_cidr "10.0.0.0/33" "10.0.0.1" = None
  ∧ in_cidr "10.0.0.0/8" "010.0.0.1" = None
  ∧ in_cidr "10.0.0.0/8" "::ffff:10.1.2.3" = Some true.
Proof. by vm_compute. Qed.
Example cidr_v6 :
  in_cidr "::1/128" "::1" = Some true ∧ in_cidr "::1/128" "127.0.0.1" = Some false
  ∧ in_cidr "2001:db8::/32" "2001:DB8:1::2" = Some true
  ∧ in_cidr "2001:db8::/32" "2001:db9::" = Some false
  ∧ in_cidr "::1/128" "1:2:3:4:5:6:7:8:9" = None
  ∧ in_cidr "::1/128" "fe80::1%eth0" = None.
Proof. by vm_compute. Qed.
