(* ===== verification/GoBytes.v ===== *)
(** * Encodings and paths of the Go standard library

    Decoding of hexadecimal and base64 text with the proofs that it inverts the
    encoders, the functions of path/filepath on slash-separated paths, and the
    remaining functions of package strings that the evidence tools use. *)

From S2P Require Import Prelude GoJson GoNet.
From Stdlib Require Import Ascii.

(** ** Strings of one kind of character *)

Fixpoint str_all (p : ascii → bool) (s : string) : bool :=
  match s with EmptyString => true | String c s => p c && str_all p s end.

Lemma str_all_app p s t : str_all p (s +:+ t) = str_all p s && str_all p t.
Proof. induction s as [|c s IH]; [done|]. simpl. rewrite IH. by destruct (p c). Qed.

Lemma str_all_mono (p q : ascii → bool) s :
  (∀ c, p c = true → q c = true) → str_all p s = true → str_all q s = true.
Proof.
  intros Hpq. induction s as [|c s IH]; [done|]. simpl. intros [Hc Hs]%andb_prop.
  by rewrite (Hpq c Hc), IH.
Qed.

Lemma str_all_has_char p c s : p c = false → str_all p s = true → has_char c s = false.
Proof.
  intros Hc. induction s as [|d s IH]; [done|]. simpl. intros [Hd Hs]%andb_prop.
  rewrite (IH Hs). case_decide; [by subst; rewrite Hc in Hd|done].
Qed.

(** Printable ASCII without the space. *)
Definition graphic (c : ascii) : bool := byte_in 33 126 c.

(** ** strings *)

(** [strings.Contains]. *)
Fixpoint Contains_str (s sub : string) : bool :=
  HasPrefix s sub || match s with EmptyString => false | String _ s => Contains_str s sub end.

(** [strings.EqualFold], one of whose arguments is hexadecimal text: the letters
    A to F have no fold outside ASCII. *)
Fixpoint lower_bytes (s : string) : string :=
  match s with EmptyString => EmptyString | String c s => String (lower_ascii c) (lower_bytes s) end.
Definition EqualFold (s t : string) : bool := bool_decide (lower_bytes s = lower_bytes t).

(** [strings.Fields]: the maximal runs without white space; [cur] is the run
    being read, reversed.  Each round consumes a byte. *)
Fixpoint fields_go (fuel : nat) (cur : string) (s : string) : list string :=
  let emit rest := if decide (cur = "") then rest else String.rev cur :: rest in
  match fuel with
  | O => emit []
  | S fuel =>
      match strip_any white_space s with
      | Some rest => emit (fields_go fuel "" rest)
      | None =>
          match s with
          | EmptyString => emit []
          | String c s => fields_go fuel (String c cur) s
          end
      end
  end.
Definition Fields (s : string) : list string := fields_go (S (String.length s)) "" s.

(** [strings.TrimPrefix]. *)
Definition TrimPrefix (s p : string) : string :=
  match strip_prefix p s with Some t => t | None => s end.

Definition nl : string := String (ascii_of_N 10) "".

Lemma str_rev_app s t u : String.rev_app (s +:+ t) u = String.rev_app t (String.rev_app s u).
Proof. revert u. induction s as [|c s IH]; intros u; [done|]. apply IH. Qed.

Lemma str_rev_app_app s t u : String.rev_app s (t +:+ u) = String.rev_app s t +:+ u.
Proof.
  revert t. induction s as [|c s IH]; intros t; [done|]. cbn [String.rev_app].
  by rewrite <- str_app_cons, IH.
Qed.

Lemma str_rev_snoc s t : String.rev (s +:+ t) = String.rev t +:+ String.rev s.
Proof.
  unfold String.rev. rewrite str_rev_app. by rewrite <- (str_rev_app_app t "").
Qed.

Lemma str_rev_involutive s : String.rev (String.rev s) = s.
Proof.
  induction s as [|c s IH]; [done|].
  change (String c s) with (String c "" +:+ s). by rewrite str_rev_snoc, str_rev_snoc, IH.
Qed.

Lemma str_all_rev p s : str_all p (String.rev s) = str_all p s.
Proof.
  induction s as [|c s IH]; [done|].
  change (String c s) with (String c "" +:+ s). rewrite str_rev_snoc, str_all_app, IH.
  simpl. by rewrite andb_true_r, andb_comm.
Qed.

Lemma strip_space_graphic c s : graphic c = true → strip_any white_space (String c s) = None.
Proof. destruct c as [[] [] [] [] [] [] [] []]; vm_compute; done. Qed.

Lemma strip_rev_space_graphic c s :
  graphic c = true → strip_any (String.rev <$> white_space) (String c s) = None.
Proof. destruct c as [[] [] [] [] [] [] [] []]; vm_compute; done. Qed.

Lemma trim_left_none pats n s : strip_any pats s = None → trim_left pats n s = s.
Proof. intros E. destruct n; [done|]. simpl. by rewrite E. Qed.

Lemma strip_graphic pats s :
  (∀ c t, graphic c = true → strip_any pats (String c t) = None) → strip_any pats "" = None →
  str_all graphic s = true → strip_any pats s = None.
Proof. intros Hc He Hs. destruct s as [|c s]; [done|]. apply Hc. by apply andb_prop in Hs as [? _]. Qed.

Lemma TrimSpace_graphic s : str_all graphic s = true → TrimSpace s = s.
Proof.
  intros Hs. unfold TrimSpace. cbv zeta.
  rewrite (trim_left_none white_space).
  2: { by apply strip_graphic; [apply strip_space_graphic| |]. }
  rewrite trim_left_none; [apply str_rev_involutive|].
  apply strip_graphic; [apply strip_rev_space_graphic|done|]. by rewrite str_all_rev.
Qed.

(** A text file of one line. *)
Lemma TrimSpace_line s : s ≠ "" → str_all graphic s = true → TrimSpace (s +:+ nl) = s.
Proof.
  intros Hne Hs. unfold TrimSpace. cbv zeta. destruct s as [|c s]; [done|].
  pose proof Hs as [Hc _]%andb_prop. rewrite str_app_cons.
  rewrite (trim_left_none white_space) by by apply strip_space_graphic.
  rewrite <- str_app_cons, str_rev_snoc.
  remember (String.rev (String c s)) as r eqn:Er.
  change (String.rev nl +:+ r) with (String "010" r).
  assert (strip_any (String.rev <$> white_space) r = None) as Hr.
  { apply strip_graphic; [apply strip_rev_space_graphic|done|]. by rewrite Er, str_all_rev. }
  assert (trim_left (String.rev <$> white_space) (String.length (String c s +:+ nl)) (String "010" r) = r) as ->.
  { rewrite str_app_cons. cbn [String.length trim_left].
    assert (strip_any (String.rev <$> white_space) (String "010" r) = Some r) as -> by done.
    by apply trim_left_none. }
  rewrite Er. apply str_rev_involutive.
Qed.

(** ** encoding/hex *)

(** [hex.DecodeString]; [None] is an error. *)
Fixpoint hex_DecodeString (s : string) : option string :=
  match s with
  | EmptyString => Some ""
  | String a (String b s) =>
      x ← hex_val a; y ← hex_val b; rest ← hex_DecodeString s;
      Some (String (ascii_of_N (Z.to_N (x * 16 + y))) rest)
  | _ => None
  end.

Lemma hex_decode_char c :
  hex_val (hex_digit (N_of_ascii c / 16)) = Some (Z.of_N (N_of_ascii c / 16))
  ∧ hex_val (hex_digit (N_of_ascii c mod 16)) = Some (Z.of_N (N_of_ascii c mod 16))
  ∧ ascii_of_N (Z.to_N (Z.of_N (N_of_ascii c / 16) * 16 + Z.of_N (N_of_ascii c mod 16))) = c.
Proof. by destruct c as [[] [] [] [] [] [] [] []]; vm_compute. Qed.

Lemma hex_decode_encode s : hex_DecodeString (EncodeToString s) = Some s.
Proof.
  induction s as [|c s IH]; [done|]. cbn [EncodeToString hex_DecodeString].
  destruct (hex_decode_char c) as (-> & -> & Hc). simpl. rewrite IH. simpl. by rewrite Hc.
Qed.

Lemma hex_char_graphic n : (n < 16)%N → graphic (hex_digit n) = true.
Proof.
  intros Hn. assert (n ∈ [0;1;2;3;4;5;6;7;8;9;10;11;12;13;14;15]%N) as Hin by (set_unfold; lia).
  by repeat (apply elem_of_cons in Hin as [->|Hin]; [done|]); apply elem_of_nil in Hin.
Qed.

Lemma hex_graphic s : str_all graphic (EncodeToString s) = true.
Proof.
  induction s as [|c s IH]; [done|]. cbn [EncodeToString str_all].
  pose proof (N_ascii_bounded c).
  rewrite !hex_char_graphic, IH; [done|apply N.mod_lt; lia|apply N.Div0.div_lt_upper_bound; lia].
Qed.

(** ** encoding/base64 *)

Definition b64_val (c : ascii) : option N :=
  let n := N_of_ascii c in
  if byte_in 65 90 c then Some (n - 65)%N
  else if byte_in 97 122 c then Some (n - 71)%N
  else if byte_in 48 57 c then Some (n + 4)%N
  else if decide (c = "+"%char) then Some 62%N
  else if decide (c = "/"%char) then Some 63%N
  else None.

(** The decoder of [base64.StdEncoding] skips carriage returns and newlines. *)
Fixpoint strip_newlines (s : string) : string :=
  match s with
  | EmptyString => EmptyString
  | String c s =>
      if decide (c = "010"%char ∨ c = "013"%char) then strip_newlines s
      else String c (strip_newlines s)
  end.

(** Groups of four characters; padding only in the last one.  The unused bits
    in front of the padding are ignored. *)
Fixpoint b64_groups (s : string) : option string :=
  match s with
  | EmptyString => Some ""
  | String a (String b (String c (String d rest))) =>
      x ← b64_val a; y ← b64_val b;
      let b1 := ascii_of_N (x * 4 + y / 16) in
      if decide (c = "="%char) then
        if decide (d = "="%char ∧ rest = "") then Some (String b1 "") else None
      else
        z ← b64_val c;
        let b2 := ascii_of_N (y mod 16 * 16 + z / 4) in
        if decide (d = "="%char) then
          if decide (rest = "") then Some (String b1 (String b2 "")) else None
        else
          w ← b64_val d; tail ← b64_groups rest;
          Some (String b1 (String b2 (String (ascii_of_N (z mod 4 * 64 + w)) tail)))
  | _ => None
  end.

(** [base64.StdEncoding.DecodeString]; [None] is an error. *)
Definition StdDecode (s : string) : option string := b64_groups (strip_newlines s).

(** A character of base64 text. *)
Definition b64_text (c : ascii) : bool :=
  bool_decide (is_Some (b64_val c)) || bool_decide (c = "="%char).

Lemma b64_text_graphic c : b64_text c = true → graphic c = true.
Proof. by destruct c as [[] [] [] [] [] [] [] []]; vm_compute. Qed.

Lemma strip_newlines_graphic s : str_all graphic s = true → strip_newlines s = s.
Proof.
  induction s as [|c s IH]; [done|]. simpl. intros [Hc Hs]%andb_prop.
  rewrite decide_False; [by rewrite IH|]. by intros [-> | ->].
Qed.

(** The character of the standard alphabet. *)
Definition b64_std (n : N) : ascii :=
  let c := b64_char n in
  if decide (c = "-"%char) then "+"%char else if decide (c = "_"%char) then "/"%char else c.

Lemma b64_std_val n : (n < 64)%N →
  b64_val (b64_std n) = Some n ∧ b64_std n ≠ "="%char ∧ b64_text (b64_std n) = true.
Proof.
  intros Hn.
  assert (forallb (λ k, bool_decide (b64_val (b64_std k) = Some k ∧ b64_std k ≠ "="%char)
    && b64_text (b64_std k)) (N.of_nat <$> seq 0 64) = true) as Hall by by vm_compute.
  rewrite forallb_forall in Hall.
  destruct (andb_prop _ _ (Hall n ltac:(apply list_elem_of_In, list_elem_of_fmap;
    exists (N.to_nat n); rewrite N2Nat.id; split; [done|]; apply elem_of_seq; lia)))
    as [[? ?]%bool_decide_eq_true_1 ?]. done.
Qed.

Lemma StdEncoding_cons3 a b c s :
  StdEncoding (String a (String b (String c s))) =
  let x := N_of_ascii a in let y := N_of_ascii b in let z := N_of_ascii c in
  String (b64_std (x / 4)) (String (b64_std (x mod 4 * 16 + y / 16))
    (String (b64_std (y mod 16 * 4 + z / 64)) (String (b64_std (z mod 64)) (StdEncoding s)))).
Proof.
  unfold StdEncoding, RawStdEncoding. cbn [RawURLEncoding std_alphabet]. rewrite !str_app_cons.
  repeat f_equal. cbn [String.length]. change (S (S (S (String.length s)))) with (3 + String.length s)%nat.
  by rewrite <- (Nat.mul_1_l 3) at 1; rewrite Nat.add_comm, Nat.Div0.mod_add.
Qed.

(** Induction three bytes at a time. *)
Lemma string_ind3 (P : string → Prop) :
  P "" → (∀ a, P (String a "")) → (∀ a b, P (String a (String b ""))) →
  (∀ a b c s, P s → P (String a (String b (String c s)))) → ∀ s, P s.
Proof.
  intros H0 H1 H2 H3. fix IH 1. intros s. destruct s as [|a [|b [|c s]]];
    [apply H0|apply H1|apply H2|apply H3, IH].
Qed.

Ltac byte_arith :=
  match goal with
  | |- ascii_of_N ?n = ?a =>
      transitivity (ascii_of_N (N_of_ascii a)); [f_equal|apply ascii_N_embedding]
  end; zify; Z.to_euclidean_division_equations; lia.

Lemma b64_decode_groups s : b64_groups (StdEncoding s) = Some s.
Proof.
  induction s as [|a|a b|a b c s IH] using string_ind3; [done|..].
  - pose proof (N_ascii_bounded a).
    change (StdEncoding (String a "")) with
      (String (b64_std (N_of_ascii a / 4)) (String (b64_std (N_of_ascii a mod 4 * 16)) "==")).
    cbn [b64_groups].
    destruct (b64_std_val (N_of_ascii a / 4)) as (-> & _); [apply N.Div0.div_lt_upper_bound; lia|].
    destruct (b64_std_val (N_of_ascii a mod 4 * 16)) as (-> & _);
      [zify; Z.to_euclidean_division_equations; lia|].
    cbn -[N.div N.modulo N.mul N.add]. f_equal. f_equal. byte_arith.
  - pose proof (N_ascii_bounded a). pose proof (N_ascii_bounded b).
    change (StdEncoding (String a (String b ""))) with
      (String (b64_std (N_of_ascii a / 4)) (String (b64_std (N_of_ascii a mod 4 * 16 + N_of_ascii b / 16))
        (String (b64_std (N_of_ascii b mod 16 * 4)) "="))).
    cbn [b64_groups].
    destruct (b64_std_val (N_of_ascii a / 4)) as (-> & _); [apply N.Div0.div_lt_upper_bound; lia|].
    destruct (b64_std_val (N_of_ascii a mod 4 * 16 + N_of_ascii b / 16)) as (-> & _);
      [zify; Z.to_euclidean_division_equations; lia|].
    destruct (b64_std_val (N_of_ascii b mod 16 * 4)) as (-> & Hne & _);
      [zify; Z.to_euclidean_division_equations; lia|].
    cbn -[N.div N.modulo N.mul N.add]. rewrite decide_False by done. cbn -[N.div N.modulo N.mul N.add].
    repeat f_equal; byte_arith.
  - pose proof (N_ascii_bounded a). pose proof (N_ascii_bounded b). pose proof (N_ascii_bounded c).
    rewrite StdEncoding_cons3. cbv zeta. cbn [b64_groups].
    destruct (b64_std_val (N_of_ascii a / 4)) as (-> & _); [apply N.Div0.div_lt_upper_bound; lia|].
    destruct (b64_std_val (N_of_ascii a mod 4 * 16 + N_of_ascii b / 16)) as (-> & _);
      [zify; Z.to_euclidean_division_equations; lia|].
    destruct (b64_std_val (N_of_ascii b mod 16 * 4 + N_of_ascii c / 64)) as (-> & Hne & _);
      [zify; Z.to_euclidean_division_equations; lia|].
    destruct (b64_std_val (N_of_ascii c mod 64)) as (-> & Hne' & _); [apply N.mod_lt; lia|].
    cbn -[N.div N.modulo N.mul N.add b64_groups]. rewrite !decide_False by done.
    cbn -[N.div N.modulo N.mul N.add b64_groups]. rewrite IH. cbn -[N.div N.modulo N.mul N.add]. repeat f_equal; byte_arith.
Qed.

Lemma StdEncoding_text s : str_all b64_text (StdEncoding s) = true.
Proof.
  induction s as [|a|a b|a b c s IH] using string_ind3; [done|..].
  - by destruct a as [[] [] [] [] [] [] [] []]; vm_compute.
  - pose proof (N_ascii_bounded a). pose proof (N_ascii_bounded b).
    change (StdEncoding (String a (String b ""))) with
      (String (b64_std (N_of_ascii a / 4)) (String (b64_std (N_of_ascii a mod 4 * 16 + N_of_ascii b / 16))
        (String (b64_std (N_of_ascii b mod 16 * 4)) "="))).
    cbn [str_all]. by rewrite !(λ n H, proj2 (proj2 (b64_std_val n H)))
      by (zify; Z.to_euclidean_division_equations; lia).
  - pose proof (N_ascii_bounded a). pose proof (N_ascii_bounded b). pose proof (N_ascii_bounded c).
    rewrite StdEncoding_cons3. cbn [str_all]. by rewrite !(λ n H, proj2 (proj2 (b64_std_val n H))), IH
      by (zify; Z.to_euclidean_division_equations; lia).
Qed.

Lemma StdEncoding_graphic s : str_all graphic (StdEncoding s) = true.
Proof. apply (str_all_mono b64_text); [apply b64_text_graphic|apply StdEncoding_text]. Qed.

Lemma StdDecode_StdEncoding s : StdDecode (StdEncoding s) = Some s.
Proof.
  unfold StdDecode. rewrite strip_newlines_graphic by apply StdEncoding_graphic.
  apply b64_decode_groups.
Qed.

Lemma StdEncoding_nonempty s : s ≠ "" → StdEncoding s ≠ "".
Proof. by destruct s as [|a [|b [|c s]]]. Qed.

(** ** path/filepath on Unix *)

(** One element of a path, pushed on the elements kept so far (reversed). *)
Definition clean_step (rooted : bool) (kept : list string) (e : string) : list string :=
  if decide (e = "" ∨ e = ".") then kept
  else if decide (e = "..") then
    match kept with
    | k :: kept' => if decide (k = "..") then ".." :: kept else kept'
    | [] => if rooted then [] else [".."]
    end
  else e :: kept.

(** [filepath.Clean]. *)
Definition Clean (path : string) : string :=
  let rooted := HasPrefix path "/" in
  let out := Join "/" (rev (foldl (clean_step rooted) [] (split_on "/"%char path))) in
  if rooted then "/" +:+ out else if decide (out = "") then "." else out.

Fixpoint strip_slashes (s : string) : string :=
  match s with String "/" s => strip_slashes s | _ => s end.

(** [filepath.Base]. *)
Definition Base (path : string) : string :=
  if decide (path = "") then "."
  else
    let p := String.rev (strip_slashes (String.rev path)) in
    let p := match cut_last "/"%char p with Some (_, b) => b | None => p end in
    if decide (p = "") then "/" else p.

(** [filepath.Dir]. *)
Definition Dir (path : string) : string :=
  Clean (match cut_last "/"%char path with Some (d, _) => d +:+ "/" | None => "" end).

(** [filepath.Join] of two elements. *)
Definition Path_Join (a b : string) : string :=
  if decide (a = "") then if decide (b = "") then "" else Clean b
  else Clean (a +:+ "/" +:+ b).

Example filepath_examples :
  Clean "a//b/../c/." = "a/c" ∧ Clean "/../x" = "/x" ∧ Clean "" = "." ∧ Clean "../../a" = "../../a"
  ∧ Clean "/" = "/" ∧ Clean "a/.." = "." ∧ Base "/run/dir/" = "dir" ∧ Base "" = "." ∧ Base "///" = "/"
  ∧ Dir "/run/dir/summary.json" = "/run/dir" ∧ Dir "summary.json" = "." ∧ Path_Join "run" "x" = "run/x"
  ∧ Fields ("ab  c" +:+ nl +:+ " d ") = ["ab"; "c"; "d"] ∧ Contains_str "xyzzy" "zz" = true.
Proof. by vm_compute. Qed.
