(* ===== verification/GoJsonRead.v ===== *)
(** * JSON decoding of the Go standard library

    encoding/json's [Unmarshal] into [map[string]any]: the grammar of the
    scanner, the unquoting of strings, and numbers as the nearest float64
    (Corelib's [spec_float], rounded to nearest even). *)

From S2P Require Import Prelude GoJson GoNet GoBytes.
From Stdlib Require Import Ascii SpecFloat.

(** ** float64 *)

Definition float64 : Type := spec_float.
Definition f64_prec : Z := 53.
Definition f64_emax : Z := 1024.

(** The integer [n] as a float64. *)
Definition f64 (n : Z) : float64 := binary_normalize f64_prec f64_emax n 0 false.

Definition f64_eqb (a b : float64) : bool := SFeqb a b.
Definition f64_ltb (a b : float64) : bool := SFltb a b.

(** The float64 nearest to [± m * 10 ^ e], infinite where strconv reports a
    range error.  A value of at least 10^400 overflows and one below 10^-399
    rounds to zero, so the powers of ten below stay small. *)
Definition ParseFloat (neg : bool) (m e : Z) : float64 :=
  match m with
  | Zpos p =>
      if 400 <? e then S754_infinity neg
      else if 0 <=? e then binary_normalize f64_prec f64_emax (cond_Zopp neg (m * 10 ^ e)) 0 neg
      else if e <? - (400 + Z.log2 m) then S754_zero neg
      else
        let '(q, x, l) := SFdiv_core_binary f64_prec f64_emax m 0 (10 ^ (- e)) 0 in
        binary_round_aux f64_prec f64_emax neg q x l
  | _ => S754_zero neg
  end.

(** [int(f)].  A value that does not fit is implementation-specific in Go and
    therefore a parameter. *)
Class FloatInt := int_overflow : float64 → Z.

Definition trunc (f : float64) : Z :=
  match f with
  | S754_finite s m e => cond_Zopp s (Z.shiftl (Zpos m) e)
  | _ => 0
  end.
Definition f64_int `{FloatInt} (f : float64) : Z :=
  let t := trunc f in
  if (int64_min <=? t) && (t <=? int64_max) then t else int_overflow f.

(** ** Values *)

(** What [any] holds after decoding.  An object is the list of its members; a
    later member replaces an earlier one of the same name. *)
Inductive any :=
| JNull | JBool (b : bool) | JNum (f : float64) | JStr (s : string)
| JArr (l : list any) | JObj (l : list (string * any)).

Definition object : Type := list (string * any).

(** [m[key]], with [None] where the second result is false. *)
Fixpoint member (m : object) (key : string) : option any :=
  match m with
  | [] => None
  | (k, v) :: m =>
      match member m key with
      | Some w => Some w
      | None => if decide (k = key) then Some v else None
      end
  end.

(** ** Strings *)

Definition utf8_encode (r : Z) : string :=
  let b n := Z.to_N n in
  if r <? 128 then bytes [b r]
  else if r <? 2048 then bytes [b (192 + r / 64); b (128 + r mod 64)]
  else if r <? 65536 then
    bytes [b (224 + r / 4096); b (128 + r / 64 mod 64); b (128 + r mod 64)]
  else bytes [b (240 + r / 262144); b (128 + r / 4096 mod 64); b (128 + r / 64 mod 64);
    b (128 + r mod 64)].

Definition replacement_char : string := bytes [239; 191; 189]%N.

(** Four hexadecimal digits. *)
Definition hex4 (s : string) : option (Z * string) :=
  match s with
  | String a (String b (String c (String d s))) =>
      w ← hex_val a; x ← hex_val b; y ← hex_val c; z ← hex_val d;
      Some (((w * 16 + x) * 16 + y) * 16 + z, s)
  | _ => None
  end.

(** The second half of a surrogate pair. *)
Definition low_surrogate (s : string) : option (Z * string) :=
  t ← strip_prefix (String backslash "u") s;
  '(r, rest) ← hex4 t;
  if (56320 <=? r) && (r <? 57344) then Some (r, rest) else None.

Definition in_surrogates (r : Z) : bool := (55296 <=? r) && (r <? 57344).

(** After [\u]: the character of the escape, U+FFFD for a lone surrogate. *)
Definition unicode_escape (s : string) : option (string * string) :=
  '(r, rest) ← hex4 s;
  if negb (in_surrogates r) then Some (utf8_encode r, rest)
  else if r <? 56320 then
    match low_surrogate rest with
    | Some (r2, rest2) => Some (utf8_encode ((r - 55296) * 1024 + (r2 - 56320) + 65536), rest2)
    | None => Some (replacement_char, rest)
    end
  else Some (replacement_char, rest).

Definition simple_escape (c : ascii) : option string :=
  let n := N_of_ascii c in
  if (n =? 34)%N || (n =? 92)%N || (n =? 47)%N then Some (String c "")
  else if (n =? 98)%N then Some (bytes [8]%N)
  else if (n =? 102)%N then Some (bytes [12]%N)
  else if (n =? 110)%N then Some (bytes [10]%N)
  else if (n =? 114)%N then Some (bytes [13]%N)
  else if (n =? 116)%N then Some (bytes [9]%N)
  else None.

(** The rest of a string after its opening quote: its value and what follows
    the closing quote.  Every round consumes a byte. *)
Fixpoint string_body (fuel : nat) (s : string) : option (string * string) :=
  match fuel, s with
  | S fuel, String c t =>
      if decide (c = dquote) then Some ("", t)
      else if decide (c = backslash) then
        '(ch, rest) ← match t with
          | String d u =>
              if decide (d = "u"%char) then unicode_escape u
              else ch ← simple_escape d; Some (ch, u)
          | EmptyString => None
          end;
        '(v, rest) ← string_body fuel rest; Some (ch +:+ v, rest)
      else if (N_of_ascii c <? 32)%N then None
      else
        let n := utf8_len s in
        '(v, rest) ← string_body fuel (String.substring (Nat.max n 1) (String.length s) s);
        Some ((match n with O => replacement_char | _ => String.substring 0 n s end) +:+ v, rest)
  | _, _ => None
  end.

(** ** Numbers *)

(** The digits a string starts with: their value, appended to [acc], their
    number and the rest. *)
Fixpoint digits (acc : Z) (n : Z) (s : string) : Z * Z * string :=
  match s with
  | String c t =>
      match digit_val c with
      | Some d => digits (acc * 10 + d) (n + 1) t
      | None => (acc, n, s)
      end
  | EmptyString => (acc, n, s)
  end.

(** The integer part: zero, or digits that do not start with zero. *)
Definition int_part (s : string) : option (Z * string) :=
  match strip_prefix "0" s with
  | Some rest => Some (0, rest)
  | None => let '(m, n, rest) := digits 0 0 s in if n =? 0 then None else Some (m, rest)
  end.

(** The fraction: the digits so far with those behind the point, and how many
    these are. *)
Definition frac_part (m : Z) (s : string) : option (Z * Z * string) :=
  match strip_prefix "." s with
  | None => Some (m, 0, s)
  | Some t => let '(m, n, rest) := digits m 0 t in if n =? 0 then None else Some (m, n, rest)
  end.

Definition exp_part (s : string) : option (Z * string) :=
  match s with
  | String c t =>
      if decide (c = "e"%char ∨ c = "E"%char) then
        let '(neg, t) := match t with
          | String d u => if decide (d = "-"%char) then (true, u)
                          else if decide (d = "+"%char) then (false, u) else (false, t)
          | EmptyString => (false, t)
          end in
        let '(e, n, rest) := digits 0 0 t in
        if n =? 0 then None else Some ((if (neg : bool) then - e else e), rest)
      else Some (0, s)
  | EmptyString => Some (0, s)
  end.

Definition number (s : string) : option (float64 * string) :=
  let '(neg, s) := match strip_prefix "-" s with Some t => (true, t) | None => (false, s) end in
  '(m, s) ← int_part s;
  '(m, n, s) ← frac_part m s;
  '(e, s) ← exp_part s;
  Some (ParseFloat neg m (e - n), s).

(** ** The grammar *)

Fixpoint skip_space (s : string) : string :=
  match s with
  | String c t =>
      if (N_of_ascii c =? 32)%N || (N_of_ascii c =? 9)%N || (N_of_ascii c =? 13)%N
         || (N_of_ascii c =? 10)%N
      then skip_space t else s
  | EmptyString => s
  end.

Definition maxNestingDepth : Z := 10000.

(** A value and what follows it; the elements of an array and the members of an
    object up to the closing bracket.  Every call consumes a byte, so the length
    of the input is enough fuel. *)
Fixpoint value (fuel : nat) (depth : Z) (s : string) : option (any * string) :=
  match fuel with
  | O => None
  | S fuel =>
      match skip_space s with
      | EmptyString => None
      | String c t =>
          if decide (c = dquote) then
            '(v, rest) ← string_body (S (String.length t)) t; Some (JStr v, rest)
          else if decide (c = "{"%char) then
            if maxNestingDepth <? depth + 1 then None
            else match skip_space t with
            | String "}" rest => Some (JObj [], rest)
            | _ => '(l, rest) ← members fuel (depth + 1) t; Some (JObj l, rest)
            end
          else if decide (c = "["%char) then
            if maxNestingDepth <? depth + 1 then None
            else match skip_space t with
            | String "]" rest => Some (JArr [], rest)
            | _ => '(l, rest) ← elements fuel (depth + 1) t; Some (JArr l, rest)
            end
          else match strip_prefix "true" (String c t), strip_prefix "false" (String c t),
                     strip_prefix "null" (String c t) with
          | Some rest, _, _ => Some (JBool true, rest)
          | _, Some rest, _ => Some (JBool false, rest)
          | _, _, Some rest => Some (JNull, rest)
          | _, _, _ => '(f, rest) ← number (String c t); Some (JNum f, rest)
          end
      end
  end
with elements (fuel : nat) (depth : Z) (s : string) : option (list any * string) :=
  match fuel with
  | O => None
  | S fuel =>
      '(v, rest) ← value fuel depth s;
      match skip_space rest with
      | String "," rest => '(l, rest) ← elements fuel depth rest; Some (v :: l, rest)
      | String "]" rest => Some ([v], rest)
      | _ => None
      end
  end
with members (fuel : nat) (depth : Z) (s : string) : option (object * string) :=
  match fuel with
  | O => None
  | S fuel =>
      match skip_space s with
      | String c t =>
          if decide (c = dquote) then
            '(k, rest) ← string_body (S (String.length t)) t;
            match skip_space rest with
            | String ":" rest =>
                '(v, rest) ← value fuel depth rest;
                match skip_space rest with
                | String "," rest => '(l, rest) ← members fuel depth rest; Some ((k, v) :: l, rest)
                | String "}" rest => Some ([(k, v)], rest)
                | _ => None
                end
            | _ => None
            end
          else None
      | EmptyString => None
      end
  end.

(** A whole document. *)
Definition json_value (data : string) : option any :=
  '(v, rest) ← value (S (2 * String.length data)) 0 data;
  if decide (skip_space rest = "") then Some v else None.

(** No number is out of the range of float64. *)
Fixpoint in_range (v : any) : bool :=
  match v with
  | JNum (S754_infinity _) => false
  | JArr l => forallb in_range l
  | JObj l => forallb (λ '(_, v), in_range v) l
  | _ => true
  end.

(** [json.Unmarshal(data, &m)] for a nil [m] of type [map[string]any]: [null]
    leaves it nil, which reads like an empty map; other values are errors, and
    so is a number out of range anywhere. *)
Definition Unmarshal_map (data : string) : option object :=
  v ← json_value data;
  if negb (in_range v) then None
  else match v with JObj l => Some l | JNull => Some [] | _ => None end.

(** [json.Unmarshal] into a struct, as far as the document goes: its members in
    their order.  Numbers are converted only where a field asks for one. *)
Definition Unmarshal_struct (data : string) : option object :=
  v ← json_value data;
  match v with JObj l => Some l | JNull => Some [] | _ => None end.

(** The name of a struct field that a member's name matches: equal up to simple
    case folding, which for the letters of ASCII also takes U+212A (K) and
    U+017F (S). *)
Fixpoint fold_name (s : string) : string :=
  match s with
  | EmptyString => EmptyString
  | String c s1 =>
      match s1 with
      | String d s2 =>
          if decide (N_of_ascii c = 197%N ∧ N_of_ascii d = 191%N) then String "S"%char (fold_name s2)
          else match s2 with
          | String e s3 =>
              if decide (N_of_ascii c = 226%N ∧ N_of_ascii d = 132%N ∧ N_of_ascii e = 170%N)
              then String "K"%char (fold_name s3)
              else String (upper_ascii c) (fold_name s1)
          | EmptyString => String (upper_ascii c) (fold_name s1)
          end
      | EmptyString => String (upper_ascii c) ""
      end
  end.

(** For the examples: a text with [`] in place of the double quote. *)
Fixpoint q (s : string) : string :=
  match s with
  | EmptyString => EmptyString
  | String c s => String (if decide (c = "`"%char) then dquote else c) (q s)
  end.

Example json_read_examples :
  Unmarshal_map (q " {`a` : [1, -2.5e1, true], `b`:null,`a`:`x\u0041\n` } ")
    = Some [("a", JArr [JNum (f64 1); JNum (f64 (-25)); JBool true]); ("b", JNull);
            ("a", JStr ("xA" +:+ nl))]
  ∧ Unmarshal_map "null" = Some [] ∧ Unmarshal_map "[]" = None ∧ Unmarshal_map "{} x" = None
  ∧ Unmarshal_map (q "{`a`:01}") = None ∧ Unmarshal_map (q "{`a`:1e400}") = None
  ∧ Unmarshal_map (q "{`a`:0.1}")
    = Some [("a", JNum (S754_finite false 7205759403792794 (-56)))]
  ∧ json_value (q "`\ud83d\ude00 \ud800`")
    = Some (JStr (bytes [240; 159; 152; 128; 32]%N +:+ replacement_char)).
Proof. by vm_compute. Qed.

(** ** The fuel is enough *)

Notation len := String.length.

Lemma skip_space_len s : (len (skip_space s) ≤ len s)%nat.
Proof. induction s as [|c s IH]; [done|]. simpl. case_match; simpl; lia. Qed.

Lemma strip_prefix_len p s t : strip_prefix p s = Some t → len s = (len p + len t)%nat.
Proof.
  revert s. induction p as [|c p IH]; intros s; simpl; [by intros [= ->]|].
  destruct s as [|d s]; [done|]. case_decide; [|done]. intros E. simpl. by rewrite (IH _ E).
Qed.

Lemma digits_len acc n s z k rest : digits acc n s = (z, k, rest) → Z.of_nat (len s) = (k - n) + Z.of_nat (len rest).
Proof.
  revert acc n. induction s as [|c s IH]; intros acc n; simpl; [intros [= <- <- <-]; simpl; lia|].
  destruct (digit_val c); [|intros [= <- <- <-]; simpl; lia].
  intros E%IH. lia.
Qed.

Lemma digits_nonneg acc n s z k rest : digits acc n s = (z, k, rest) → n ≤ k.
Proof.
  revert acc n. induction s as [|c s IH]; intros acc n; simpl; [intros [= <- <- <-]; lia|].
  destruct (digit_val c); [|intros [= <- <- <-]; lia]. intros E%IH. lia.
Qed.

Lemma number_len s f rest : number s = Some (f, rest) → (len rest < len s)%nat.
Proof.
  unfold number. intros E.
  assert (∃ neg s0, (if strip_prefix "-" s is Some t then (true, t) else (false, s)) = (neg, s0)
    ∧ (len s0 ≤ len s)%nat) as (neg & s0 & E0 & Hs0).
  { destruct (strip_prefix "-" s) as [t|] eqn:Et; [|by exists false, s].
    apply strip_prefix_len in Et. exists true, t. split; [done|simpl in Et; lia]. }
  rewrite E0 in E. clear E0.
  destruct (int_part s0) as [[m s1]|] eqn:E1; [|done]. simpl in E.
  destruct (frac_part m s1) as [[[m' n] s2]|] eqn:E2; [|done]. simpl in E.
  destruct (exp_part s2) as [[e s3]|] eqn:E3; [|done]. simpl in E.
  injection E as _ ->.
  assert (len s1 < len s0)%nat.
  { unfold int_part in E1. destruct (strip_prefix "0" s0) as [r|] eqn:Er.
    - injection E1 as _ ->. apply strip_prefix_len in Er. simpl in Er. lia.
    - destruct (digits 0 0 s0) as [[m0 n0] r0] eqn:Ed. case_match eqn:Hn; [done|].
      injection E1 as _ ->. pose proof (digits_len _ _ _ _ _ _ Ed). pose proof (digits_nonneg _ _ _ _ _ _ Ed). lia. }
  assert (len s2 ≤ len s1)%nat.
  { unfold frac_part in E2. destruct (strip_prefix "." s1) as [r|] eqn:Er.
    - apply strip_prefix_len in Er. destruct (digits m 0 r) as [[m0 n0] r0] eqn:Ed. case_match; [done|].
      injection E2 as _ _ ->. pose proof (digits_len _ _ _ _ _ _ Ed).
      pose proof (digits_nonneg _ _ _ _ _ _ Ed). lia.
    - by injection E2 as _ _ ->. }
  assert (len rest ≤ len s2)%nat; [|lia].
  unfold exp_part in E3. destruct s2 as [|c s2]; [by injection E3 as _ <-|].
  case_decide; [|by injection E3 as _ <-].
  assert (∃ sg u, (if s2 is String d u then
      if decide (d = "-"%char) then (true, u) else if decide (d = "+"%char) then (false, u) else (false, s2)
    else (false, s2)) = (sg, u) ∧ (len u ≤ len s2)%nat) as (sg & u & Eu & Hu).
  { destruct s2 as [|d s2]; [by exists false, ""|].
    repeat case_decide; eexists _, _; (split; [reflexivity|simpl; lia]). }
  rewrite Eu in E3. destruct (digits 0 0 u) as [[m0 n0] r0] eqn:Ed. destruct (n0 =? 0); [done|].
  injection E3 as _ ->. pose proof (digits_len _ _ _ _ _ _ Ed).
  pose proof (digits_nonneg _ _ _ _ _ _ Ed). simpl. lia.
Qed.

Lemma substring_rest_len n s : (len (String.substring n (len s) s) = len s - n)%nat.
Proof.
  assert (∀ m, (len s ≤ m + n)%nat → len (String.substring n m s) = (len s - n)%nat) as Hm; [|by apply Hm; lia].
  revert n. induction s as [|c s IH]; intros n m Hm; simpl in *; [by destruct n, m|].
  destruct n as [|n]; [|by rewrite IH by lia].
  destruct m as [|m]; [lia|]. simpl. rewrite IH by lia. lia.
Qed.

Lemma hex4_len s r t : hex4 s = Some (r, t) → len s = (4 + len t)%nat.
Proof.
  destruct s as [|a [|b [|c [|d s]]]]; try done. simpl.
  destruct (hex_val a), (hex_val b), (hex_val c), (hex_val d); simpl; try done. by intros [= _ <-].
Qed.

Lemma unicode_escape_len s v t : unicode_escape s = Some (v, t) → (len t ≤ len s)%nat.
Proof.
  unfold unicode_escape. destruct (hex4 s) as [[r u]|] eqn:E; [|done]. apply hex4_len in E. simpl.
  repeat case_match; try (intros [= _ <-]; lia). intros [= _ <-].
  match goal with H : low_surrogate _ = _ |- _ => unfold low_surrogate in H;
    destruct (strip_prefix _ _) as [w|] eqn:Ew; [|done] end.
  apply strip_prefix_len in Ew. simpl in *. destruct (hex4 w) as [[r' u']|] eqn:E'; [|done].
  apply hex4_len in E'. simpl in *. case_match; simplify_eq. lia.
Qed.

Lemma string_body_len n s v rest : string_body n s = Some (v, rest) → (len rest < len s)%nat.
Proof.
  revert s v rest. induction n as [|n IH]; [done|]. intros [|c t] v rest; [done|].
  cbn [string_body]. case_decide; [intros [= _ <-]; simpl; lia|]. case_decide.
  - match goal with |- context [mbind ?f ?m] => destruct m as [[ch u]|] eqn:E end; [|done]. simpl.
    destruct (string_body n u) as [[w r]|] eqn:Er; [|done]. simpl. intros [= _ <-]. apply IH in Er.
    destruct t as [|d t']; [done|]. case_decide.
    + apply unicode_escape_len in E. simpl. lia.
    + destruct (simple_escape d); [|done]. simplify_eq/=. lia.
  - case_match; [done|]. destruct (string_body n _) as [[w r]|] eqn:Er; [|done]. simpl. intros [= _ <-].
    apply IH in Er. rewrite (substring_rest_len _ (String c t)) in Er. simpl in *. lia.
Qed.

Lemma string_body_fuel n s r : string_body n s = Some r →
  ∀ m, (len s ≤ m)%nat → string_body m s = Some r.
Proof.
  revert s r. induction n as [|n IH]; [done|]. intros [|c t] r; [done|]. intros E m Hm.
  destruct m as [|m]; [simpl in Hm; lia|]. revert E. cbn [string_body].
  case_decide; [done|]. case_decide.
  - match goal with |- context [mbind ?f ?x] => destruct x as [[ch u]|] eqn:E end; [|done]. simpl.
    destruct (string_body n u) as [p|] eqn:Er; [|done]. rewrite (IH _ _ Er m); [done|].
    destruct t as [|d t']; [done|]. simpl in Hm. case_decide.
    + apply unicode_escape_len in E. lia.
    + destruct (simple_escape d); [|done]. simplify_eq/=. lia.
  - case_match; [done|]. destruct (string_body n _) as [p|] eqn:Er; [|done].
    rewrite (IH _ _ Er m); [done|]. rewrite (substring_rest_len _ (String c t)). simpl in *. lia.
Qed.

(** The cases of a reader that succeeded. *)
Ltac read_cases :=
  repeat match goal with
  | |- None = Some _ → _ => done
  | |- mbind _ ?x = Some _ → _ =>
      let E := fresh "E" in destruct x as [[? ?]|] eqn:E; [|done]; cbn [mbind option_bind]
  | |- match ?x with _ => _ end = Some _ → _ => let E := fresh "E" in destruct x eqn:E
  end.

Ltac known_lengths :=
  repeat match goal with
  | H : skip_space ?s = _ |- _ =>
      let L := fresh "L" in pose proof (skip_space_len s) as L; rewrite H in L; clear H
  | H : strip_prefix _ _ = Some _ |- _ => apply strip_prefix_len in H
  | H : string_body _ _ = Some _ |- _ => apply string_body_len in H
  | H : number _ = Some _ |- _ => apply number_len in H
  end; cbn [len] in *; try lia.

Lemma json_len n :
  (∀ d s v rest, value n d s = Some (v, rest) → (len rest < len s)%nat)
  ∧ (∀ d s l rest, elements n d s = Some (l, rest) → (len rest < len s)%nat)
  ∧ (∀ d s l rest, members n d s = Some (l, rest) → (len rest < len s)%nat).
Proof.
  induction n as [|n (IHv & IHe & IHm)]; [done|]. split_and!; intros d s v rest.
  - cbn [value]. read_cases; intros [= <- <-];
      repeat match goal with
      | H : elements n _ _ = Some _ |- _ => apply IHe in H
      | H : members n _ _ = Some _ |- _ => apply IHm in H
      end; known_lengths.
  - cbn [elements]. read_cases; intros [= <- <-];
      repeat match goal with
      | H : elements n _ _ = Some _ |- _ => apply IHe in H
      | H : value n _ _ = Some _ |- _ => apply IHv in H
      end; known_lengths.
  - cbn [members]. read_cases; intros [= <- <-];
      repeat match goal with
      | H : value n _ _ = Some _ |- _ => apply IHv in H
      | H : members n _ _ = Some _ |- _ => apply IHm in H
      end; known_lengths.
Qed.

(** If any amount of fuel gives a result, twice the length of the input does,
    and the result is the same. *)
Lemma json_fuel n :
  (∀ d s r, value n d s = Some r → ∀ m, (2 * len s ≤ m)%nat → value m d s = Some r)
  ∧ (∀ d s r, elements n d s = Some r → ∀ m, (2 * len s < m)%nat → elements m d s = Some r)
  ∧ (∀ d s r, members n d s = Some r → ∀ m, (2 * len s < m)%nat → members m d s = Some r).
Proof.
  induction n as [|n (IHv & IHe & IHm)]; [done|].
  destruct (json_len n) as (Lv & Le & Lm).
  split_and!; intros d s r E m Hm; (destruct m as [|m]; [exfalso|]).
  - destruct s; [done|simpl in Hm; lia].
  - revert E. cbn [value]. destruct (skip_space s) as [|c t] eqn:Hs; [done|].
    pose proof (skip_space_len s) as Ls. rewrite Hs in Ls. simpl in Ls.
    case_decide; [done|]. case_decide; [|case_decide]; [..|done]; (case_match; [done|]).
    + destruct (members n (d + 1) t) as [p|] eqn:E; [rewrite (IHm _ _ _ E m) by lia; done|].
      read_cases; done.
    + destruct (elements n (d + 1) t) as [p|] eqn:E; [rewrite (IHe _ _ _ E m) by lia; done|].
      read_cases; done.
  - lia.
  - revert E. cbn [elements]. destruct (value n d s) as [[v rest]|] eqn:E; [|done].
    rewrite (IHv _ _ _ E m) by lia. cbn [mbind option_bind]. apply Lv in E.
    pose proof (skip_space_len rest) as Ls. destruct (skip_space rest) as [|c t]; [done|]. simpl in Ls.
    destruct (elements n d t) as [p|] eqn:Et; [rewrite (IHe _ _ _ Et m) by lia; done|].
    read_cases; done.
  - lia.
  - revert E. cbn [members]. pose proof (skip_space_len s) as Ls.
    destruct (skip_space s) as [|c t]; [done|]. case_decide; [|done]. simpl in Ls.
    destruct (string_body _ t) as [[k rest]|] eqn:E; [|done]. apply string_body_len in E.
    cbn [mbind option_bind]. pose proof (skip_space_len rest) as Lr.
    destruct (skip_space rest) as [|c' u]; [done|]. simpl in Lr.
    destruct (value n d u) as [[v rest']|] eqn:Ev.
    2: { read_cases; done. }
    rewrite (IHv _ _ _ Ev m) by lia. apply Lv in Ev. cbn [mbind option_bind].
    pose proof (skip_space_len rest') as Lr'. destruct (skip_space rest') as [|c'' w].
    { by read_cases. }
    simpl in Lr'. destruct (members n d w) as [p|] eqn:Em; [rewrite (IHm _ _ _ Em m) by lia; done|].
    read_cases; done.
Qed.

(** [json_value] therefore rejects a document only if the grammar does. *)
Lemma json_value_fuel n data v rest :
  value n 0 data = Some (v, rest) → skip_space rest = "" → json_value data = Some v.
Proof.
  intros E Hr. unfold json_value. rewrite (proj1 (json_fuel n) _ _ _ E) by lia. simpl.
  by rewrite decide_True.
Qed.
