(* ===== verification/AuditTrail.v ===== *)
(** * The audit trail (internal/platform/audit)

    The event model, the hash of an event over its predecessor's hash and the
    in-memory store.  The invariant [chain_ok] says that every stored event
    carries the hash of its predecessor and its own hash; [Append] keeps it and
    never fails on it.  [verify_events] is the check that
    internal/platform/server/audit_postgres.go runs over the rows of one
    partition; the tamper theorem says what it detects. *)

From S2P Require Import Prelude GoTime.
From Stdlib Require Import Ascii.

(** SHA-256 of a byte string, from crypto/sha256.  Every theorem holds for an
    arbitrary function in its place. *)
Class Crypto := sha256 : string → string.

(** ** model.go *)

(** [type Result string] with three constants. *)
Definition Result : Type := string.
Definition ResultSuccess : Result := "success".
Definition ResultDenied : Result := "denied".
Definition ResultError : Result := "error".

Record Event := mkEvent {
  AuditID : string; OccurredAt : Time; RecordedAt : Time;
  ActorID : string; ActorType : string; AuthContext : string;
  ObjectType : string; ObjectID : string; Action : string;
  Before : string; After : string;
  EvResult : Result; Reason : string; PartitionDay : string;
  HashPrev : string; HashCurr : string }.

#[global] Instance eta_Event : Eta Event := λ e,
  mkEvent (AuditID e) (OccurredAt e) (RecordedAt e) (ActorID e) (ActorType e)
    (AuthContext e) (ObjectType e) (ObjectID e) (Action e) (Before e) (After e)
    (EvResult e) (Reason e) (PartitionDay e) (HashPrev e) (HashCurr e).

(** ** chain.go *)

(** The bytes [ComputeHash] feeds to SHA-256, in the order of its writes. *)
Definition hash_input (prev : string) (e : Event) : string :=
  prev +:+ ("|" +:+ AuditID e)
    +:+ ("|" +:+ FormatRFC3339Nano (RecordedAt e))
    +:+ ("|" +:+ ActorID e +:+ "|" +:+ Action e +:+ "|" +:+ EvResult e)
    +:+ ("|" +:+ EncodeToString (Before e) +:+ "|" +:+ EncodeToString (After e)).

Definition ComputeHash `{Crypto} (prev : string) (e : Event) : string :=
  EncodeToString (sha256 (hash_input prev e)).

(** ** store.go *)

Record InMemoryStore := mkStore { events : list Event; last_hash : string }.

#[global] Instance eta_InMemoryStore : Eta InMemoryStore := λ s,
  mkStore (events s) (last_hash s).

Definition NewInMemoryStore : InMemoryStore := mkStore [] "GENESIS".

(** [Append]: [None] is the result [ErrCorruptChain], which leaves the store
    as it was.  The store's own mutex is taken and released inside the call. *)
Definition Append `{Crypto} (e : Event) (s : InMemoryStore)
    : option Event * InMemoryStore :=
  let e := e <| HashPrev := last_hash s |> in
  let e := e <| HashCurr := ComputeHash (last_hash s) e |> in
  let corrupt :=
    match last (events s) with
    | Some prev => negb (bool_decide (ComputeHash (HashPrev prev) prev = HashCurr prev))
    | None => false
    end in
  if corrupt then (None, s)
  else (Some e, s <| events ::= λ evs, evs ++ [e] |> <| last_hash := HashCurr e |>).

(** [Events] returns a copy of the stored slice. *)
Definition Events (s : InMemoryStore) : list Event := events s.

(** ** Chains *)

(** [chain prev evs h]: each event of [evs] carries the hash of the one before
    it, starting from [prev], and its own hash; [h] is the hash of the last. *)
Inductive chain `{Crypto} : string → list Event → string → Prop :=
| chain_nil h : chain h [] h
| chain_cons prev e evs h :
    HashPrev e = prev → HashCurr e = ComputeHash prev e →
    chain (HashCurr e) evs h → chain prev (e :: evs) h.

#[export] Hint Constructors chain : go.

Lemma chain_app `{Crypto} p evs h evs' h' :
  chain p evs h → chain h evs' h' → chain p (evs ++ evs') h'.
Proof. induction 1; simpl; eauto with go. Qed.

Lemma chain_last `{Crypto} p evs h e :
  chain p evs h → last evs = Some e →
  h = HashCurr e ∧ HashCurr e = ComputeHash (HashPrev e) e.
Proof.
  induction 1 as [|prev e' evs h Hp Hc Hch IH]; [done|].
  destruct evs as [|e2 evs]; [|rewrite last_cons_cons; auto].
  simpl. intros [= ->]. inversion Hch; subst. by rewrite Hc at 2.
Qed.

(** The store invariant. *)
Definition chain_ok `{Crypto} (s : InMemoryStore) : Prop :=
  chain "GENESIS" (events s) (last_hash s).

Lemma NewInMemoryStore_chain_ok `{Crypto} : chain_ok NewInMemoryStore.
Proof. constructor. Qed.

(** The hash ignores the two hash fields of its event. *)
Lemma hash_input_HashPrev p e v : hash_input p (e <| HashPrev := v |>) = hash_input p e.
Proof. done. Qed.
Lemma hash_input_HashCurr p e v : hash_input p (e <| HashCurr := v |>) = hash_input p e.
Proof. done. Qed.

(** What [Append] does to a store whose chain is intact. *)
Lemma Append_ok `{Crypto} e s :
  chain_ok s →
  ∃ e', Append e s = (Some e', mkStore (events s ++ [e']) (HashCurr e'))
    ∧ e' = e <| HashPrev := last_hash s |> <| HashCurr := ComputeHash (last_hash s) e |>
    ∧ chain_ok (mkStore (events s ++ [e']) (HashCurr e')).
Proof.
  intros Hok. unfold Append.
  replace (match last (events s) with Some prev => _ | None => _ end) with false.
  - eexists. split; [done|]. split; [done|].
    eapply chain_app; [exact Hok|]. constructor; [done| |constructor].
    unfold ComputeHash. by rewrite !hash_input_HashCurr.
  - destruct (last (events s)) as [p|] eqn:E; [|done].
    destruct (chain_last _ _ _ _ Hok E) as [_ Hp].
    by rewrite bool_decide_true.
Qed.

(** ** Verification of a recorded chain *)

(** The loop of [verifyAuditChainFromDB] over the rows of one partition: the
    expected predecessor starts at GENESIS. *)
Fixpoint verify_events `{Crypto} (expectedPrev : string) (evs : list Event) : bool :=
  match evs with
  | [] => true
  | e :: evs' =>
      bool_decide (HashPrev e = expectedPrev)
      && bool_decide (HashCurr e = ComputeHash expectedPrev e)
      && verify_events (HashCurr e) evs'
  end.

Definition final_hash (p : string) (evs : list Event) : string :=
  match last evs with Some e => HashCurr e | None => p end.

Lemma verify_events_chain `{Crypto} p evs :
  verify_events p evs = true ↔ chain p evs (final_hash p evs).
Proof.
  revert p. induction evs as [|e evs IH]; intros p; simpl.
  { split; [constructor|done]. }
  rewrite !andb_true_iff, !bool_decide_eq_true, IH.
  assert (final_hash p (e :: evs) = final_hash (HashCurr e) evs) as Hf.
  { unfold final_hash. destruct evs as [|e2 evs]; [done|].
    rewrite last_cons_cons. destruct (last (e2 :: evs)) eqn:E; [done|].
    by apply last_None in E. }
  rewrite Hf. split.
  - intros [[<- ?] ?]. by constructor.
  - inversion 1; subst. auto.
Qed.

Lemma hex_digit_inj (n m : N) :
  (n < 16)%N → (m < 16)%N → hex_digit n = hex_digit m → n = m.
Proof.
  unfold hex_digit. intros Hn Hm E.
  assert (N_of_ascii (if (n <? 10)%N then ascii_of_N (48 + n) else ascii_of_N (87 + n))
    = N_of_ascii (if (m <? 10)%N then ascii_of_N (48 + m) else ascii_of_N (87 + m))) as E'
    by by rewrite E.
  destruct (N.ltb_spec n 10), (N.ltb_spec m 10);
    rewrite !N_ascii_embedding in E' by lia; lia.
Qed.

#[global] Instance EncodeToString_inj : Inj (=) (=) EncodeToString.
Proof.
  intros s. induction s as [|c s IH]; intros [|d t]; try done. simpl.
  intros [= H1 H2 H3]. apply IH in H3 as ->. f_equal.
  assert (∀ a, (N_of_ascii a < 256)%N) as Hb by apply N_ascii_bounded.
  apply hex_digit_inj in H1; [|apply N.Div0.div_lt_upper_bound; apply Hb..].
  apply hex_digit_inj in H2; [|apply N.mod_lt; lia..].
  rewrite <- (ascii_N_embedding c), <- (ascii_N_embedding d). f_equal.
  rewrite (N.div_mod (N_of_ascii c) 16), (N.div_mod (N_of_ascii d) 16), H1, H2 by lia.
  done.
Qed.

(** ** What a verified chain binds *)

Definition pipe : ascii := "|"%char.

Lemma hex_digit_range n : (n < 16)%N →
  (N_of_ascii (hex_digit n) < 58)%N ∨ (97 ≤ N_of_ascii (hex_digit n) < 103)%N.
Proof.
  intros ?. unfold hex_digit. destruct (N.ltb_spec n 10);
    rewrite N_ascii_embedding by lia; lia.
Qed.

(** A character that is neither a digit nor one of a to f does not occur in a
    hexadecimal string. *)
Lemma hex_has_no c s :
  (58 ≤ N_of_ascii c < 97)%N ∨ (103 ≤ N_of_ascii c)%N → has_char c (EncodeToString s) = false.
Proof.
  intros Hc. assert (∀ n, (n < 16)%N → hex_digit n ≠ c) as Hne.
  { intros n Hn <-. pose proof (hex_digit_range n Hn). lia. }
  induction s as [|d s IH]; [done|]. cbn [EncodeToString has_char].
  pose proof (N_ascii_bounded d) as Hb.
  rewrite !bool_decide_eq_false_2 by
    (apply Hne; (apply N.Div0.div_lt_upper_bound || apply N.mod_lt); lia).
  exact IH.
Qed.

Lemma hex_no_pipe s : has_char pipe (EncodeToString s) = false.
Proof. apply hex_has_no. right. by vm_compute. Qed.

Lemma hex_not_genesis s : EncodeToString s ≠ "GENESIS".
Proof.
  intros E. pose proof (hex_has_no "G"%char s) as Hg. rewrite E in Hg.
  assert (has_char "G" "GENESIS" = true) as Ht by reflexivity.
  rewrite Hg in Ht; [done|]. left. by vm_compute.
Qed.

(** The bytes that the hash of a recorded event covers. *)
Definition covered (e : Event) : string := hash_input (HashPrev e) e.

(** Two events, one of each list, whose covered bytes differ and have the same
    SHA-256. *)
Definition collision `{Crypto} (evs evs' : list Event) : Prop :=
  ∃ e e', e ∈ evs ∧ e' ∈ evs' ∧ covered e ≠ covered e'
    ∧ sha256 (covered e) = sha256 (covered e').

Lemma collision_app `{Crypto} evs evs' l l' :
  collision evs evs' → collision (evs ++ l) (evs' ++ l').
Proof. intros (e & e' & ? & ? & ?). exists e, e'. set_solver. Qed.

Lemma hash_input_prev p p' e e' :
  has_char pipe p = false → has_char pipe p' = false →
  hash_input p e = hash_input p' e' → p = p'.
Proof. unfold hash_input. intros Hp Hp' E. by destruct (split_first _ _ _ _ _ Hp Hp' E). Qed.

Lemma chain_snoc_inv `{Crypto} p evs e h :
  chain p (evs ++ [e]) h →
  chain p evs (HashPrev e) ∧ h = HashCurr e ∧ HashCurr e = ComputeHash (HashPrev e) e.
Proof.
  revert p. induction evs as [|e0 evs IH]; intros p Hch; simpl in Hch;
    inversion Hch as [|? ? ? ? Hp Hc Htl]; subst.
  - inversion Htl; subst. split_and!; [constructor|done..].
  - apply IH in Htl as (? & ? & ?). split_and!; [by constructor|done..].
Qed.

Lemma chain_end_no_pipe `{Crypto} evs h : chain "GENESIS" evs h → has_char pipe h = false.
Proof.
  destruct evs as [|e evs] using rev_ind.
  - by inversion 1.
  - intros (_ & -> & ->)%chain_snoc_inv. apply hex_no_pipe.
Qed.

Lemma chain_genesis `{Crypto} evs : chain "GENESIS" evs "GENESIS" → evs = [].
Proof.
  destruct evs as [|e evs] using rev_ind; [done|].
  intros (_ & E1 & E2)%chain_snoc_inv. rewrite E2 in E1. by apply eq_sym, hex_not_genesis in E1.
Qed.

(** Two chains that end in the same hash cover the same bytes, event for
    event, or exhibit a collision of SHA-256. *)
Lemma chain_binding `{Crypto} evs evs' h :
  chain "GENESIS" evs h → chain "GENESIS" evs' h →
  covered <$> evs = covered <$> evs' ∨ collision evs evs'.
Proof.
  revert evs' h. induction evs as [|e evs IH] using rev_ind; intros evs' h Hch Hch'.
  { inversion Hch; subst. apply chain_genesis in Hch' as ->. by left. }
  apply chain_snoc_inv in Hch as (Hch & -> & Hc).
  destruct evs' as [|e' evs' _] using rev_ind.
  { assert (HashCurr e = "GENESIS") as E by by inversion Hch'.
    rewrite E in Hc. by apply eq_sym, hex_not_genesis in Hc. }
  apply chain_snoc_inv in Hch' as (Hch' & E & Hc'). rewrite Hc, Hc' in E.
  apply (inj EncodeToString) in E.
  destruct (decide (covered e = covered e')) as [Heq|Hne];
    [|right; exists e, e'; set_solver].
  assert (HashPrev e = HashPrev e') as Hp.
  { eapply hash_input_prev; [by eapply chain_end_no_pipe..|exact Heq]. }
  rewrite <- Hp in Hch'. destruct (IH _ _ Hch Hch') as [Hcov|Hcol].
  - left. rewrite !fmap_app, Hcov. simpl. by rewrite Heq.
  - right. by apply collision_app.
Qed.

(** ... and the bytes of an event determine its fields, as long as the text
    fields contain no separator. *)
Record separable (e : Event) : Prop := {
  sep_id : has_char pipe (AuditID e) = false;
  sep_actor : has_char pipe (ActorID e) = false;
  sep_action : has_char pipe (Action e) = false;
  sep_result : has_char pipe (EvResult e) = false;
  sep_year : 0 ≤ time_year (RecordedAt e) < 10000 }.

(** The fields of an event that its hash covers. *)
Definition hashed_fields (e : Event) :=
  (HashPrev e, AuditID e, RecordedAt e, ActorID e, Action e, EvResult e, Before e, After e).

Lemma covered_fields e e' :
  has_char pipe (HashPrev e) = false → has_char pipe (HashPrev e') = false →
  separable e → separable e' → covered e = covered e' → hashed_fields e = hashed_fields e'.
Proof.
  intros Hp Hp' [Hi Ha Hn Hr Hy] [Hi' Ha' Hn' Hr' Hy'] E.
  unfold covered, hash_input in E. rewrite !str_app_assoc, !str_app_cons, !str_app_nil in E.
  apply split_first in E as [Ep E]; [|done..].
  rewrite ?str_app_cons, ?str_app_nil in E. apply split_first in E as [Ei E]; [|done..].
  apply split_first in E as [Et E]; [|by apply FormatRFC3339Nano_no_pipe..].
  apply split_first in E as [Ea E]; [|done..].
  apply split_first in E as [En E]; [|done..].
  apply split_first in E as [Er E]; [|done..].
  apply split_first in E as [Eb Ef]; [|apply hex_no_pipe..].
  apply (inj EncodeToString) in Eb, Ef. apply (f_equal ParseRFC3339Nano) in Et.
  rewrite !ParseRFC3339Nano_Format in Et by done. injection Et as Et.
  unfold hashed_fields. by rewrite Ep, Ei, Et, Ea, En, Er, Eb, Ef.
Qed.
