(* ===== verification/Service.v ===== *)
(** * What every service shares

    The request and response envelopes (api/proto/rgs/v1/common.proto), actor
    resolution (internal/platform/server/actor_context.go), and the part each
    service struct repeats: clock, audit store, mutex, audit counter and
    database handle.  A service's state is this [Base] next to the fields of
    its own; the operations here leave the latter untouched. *)

From S2P Require Import Prelude GoTime GoJson AuditTrail.

(** ** Envelopes *)

(** proto3 enums are open: a value outside the declared ones is kept. *)
Inductive ActorTyp :=
| ACTOR_TYPE_UNSPECIFIED | ACTOR_TYPE_PLAYER | ACTOR_TYPE_OPERATOR
| ACTOR_TYPE_SERVICE | ACTOR_TYPE_OTHER (n : Z).

Inductive ResultCode :=
| RESULT_CODE_UNSPECIFIED | RESULT_CODE_OK | RESULT_CODE_DENIED
| RESULT_CODE_INVALID | RESULT_CODE_ERROR.

#[global] Instance ActorTyp_eq_dec : EqDecision ActorTyp.
Proof. solve_decision. Defined.
#[global] Instance ResultCode_eq_dec : EqDecision ResultCode.
Proof. solve_decision. Defined.

Definition ActorTyp_String (t : ActorTyp) : string :=
  match t with
  | ACTOR_TYPE_UNSPECIFIED => "ACTOR_TYPE_UNSPECIFIED"
  | ACTOR_TYPE_PLAYER => "ACTOR_TYPE_PLAYER"
  | ACTOR_TYPE_OPERATOR => "ACTOR_TYPE_OPERATOR"
  | ACTOR_TYPE_SERVICE => "ACTOR_TYPE_SERVICE"
  | ACTOR_TYPE_OTHER n => FormatInt n
  end.

Record Actor := mkActor { ActorId : string; ActorTypeOf : ActorTyp }.

Record RequestMeta := mkRequestMeta {
  RequestId : string; IdempotencyKey : string; MetaActor : option Actor }.

Record ResponseMeta := mkResponseMeta {
  RespRequestId : string; ResCode : ResultCode; DenialReason : string;
  ServerTime : string }.

(** A nil [*RequestMeta] is [None]. *)
Definition requestID (meta : option RequestMeta) : string :=
  match meta with None => "" | Some m => RequestId m end.

Definition idempotency (meta : option RequestMeta) : string :=
  match meta with None => "" | Some m => IdempotencyKey m end.

(** ** actor_context.go *)

(** The actor the JWT layer put into a context (internal/platform/auth). *)
Record AuthActor := mkAuthActor { AuthID : string; AuthType : string }.

(** A context, as far as the services look at it: nil, or the value stored
    under the actor key. *)
Record Context := mkContext { ActorFromContext : option AuthActor }.

Definition actorTypeFromString (v : string) : ActorTyp :=
  let u := ToUpper (TrimSpace v) in
  if decide (u = "ACTOR_TYPE_PLAYER" ∨ u = "PLAYER") then ACTOR_TYPE_PLAYER
  else if decide (u = "ACTOR_TYPE_OPERATOR" ∨ u = "OPERATOR") then ACTOR_TYPE_OPERATOR
  else if decide (u = "ACTOR_TYPE_SERVICE" ∨ u = "SERVICE") then ACTOR_TYPE_SERVICE
  else ACTOR_TYPE_UNSPECIFIED.

(** [inl actor] is an actor with an empty reason, [inr reason] a refusal. *)
Definition resolveActor (ctx : option Context) (meta : option RequestMeta)
    : Actor + string :=
  match (c ← ctx; ActorFromContext c) with
  | Some a =>
      let ctxActor := mkActor (AuthID a) (actorTypeFromString (AuthType a)) in
      if decide (ActorId ctxActor = "" ∨ ActorTypeOf ctxActor = ACTOR_TYPE_UNSPECIFIED)
      then inr "actor context is invalid"
      else match (m ← meta; MetaActor m) with
      | Some b =>
          if decide (ActorId b ≠ ActorId ctxActor ∨ ActorTypeOf b ≠ ActorTypeOf ctxActor)
          then inr "actor mismatch with token"
          else inl ctxActor
      | None => inl ctxActor
      end
  | None =>
      match (m ← meta; MetaActor m) with
      | None => inr "actor is required"
      | Some b =>
          if decide (ActorId b = "" ∨ ActorTypeOf b = ACTOR_TYPE_UNSPECIFIED)
          then inr "actor binding is required"
          else inl b
      end
  end.

(** The rule of the services for operators: [authorize] in registry_grpc.go,
    events_grpc.go, reporting_grpc.go, config_grpc.go, extensions_grpc.go and
    audit_grpc.go. *)
Definition operators_only (ctx : option Context) (meta : option RequestMeta) : bool * string :=
  match resolveActor ctx meta with
  | inr reason => (false, reason)
  | inl actor =>
      match ActorTypeOf actor with
      | ACTOR_TYPE_OPERATOR | ACTOR_TYPE_SERVICE => (true, "")
      | _ => (false, "unauthorized actor type")
      end
  end.

(** ** Errors and results *)

Inductive error :=
| ErrCorruptChain
| errIdempotencyRequestMismatch
| ErrConnDone
| errIdentityPersistenceRequired
| ErrDatabase
| ErrMarshal
| ErrInvalidPageToken
| ErrChainMismatch
| ErrRandom
| errRemoteAccessLogCapacityExceeded
| errRemoteAccessAuditUnavailable
| ErrUnsupportedEnum.

Inductive res (A : Type) := Ok (a : A) | Err (e : error).
Global Arguments Ok {A} _.
Global Arguments Err {A} _.

(** ** Interfaces of the environment *)

(** [time.Now().UTC()]: the wall clock at the n-th reading of a clock. *)
Class Wall := wall : nat → Time.

(** crypto/rand: the bytes of the n-th reading of 32 bytes, [None] on failure. *)
Class Random := random_read : nat → option string.

(** Whether [json.Unmarshal] accepts a document. *)
Class JsonValid := json_valid : string → bool.

(** The statements of audit_postgres.go on the database, and transactions.
    A failing statement returns [Err]. *)
Class AuditDB (D : Type) := {
  db_begin : D → res () * D;
  db_commit : D → res () * D;
  db_rollback : D → D;
  (** SELECT hash_curr ... WHERE partition_day = $1 ... LIMIT 1 FOR UPDATE *)
  q_audit_last : string → D → res (option string) * D;
  (** INSERT INTO audit_events ... ON CONFLICT (audit_id) DO NOTHING, with the
      auth context, before and after columns already rendered *)
  x_audit_insert : Event → D → res () * D;
}.

(** ** The common part of a service *)

Record Base (D : Type) := mkBase {
  Clock : option (nat → Time);
  AuditStore : option InMemoryStore;
  mu : bool;
  nextAuditID : Z;
  db : option D;
  ticks : nat }.
Global Arguments mkBase {D}.
Global Arguments Clock {D}.
Global Arguments AuditStore {D}.
Global Arguments mu {D}.
Global Arguments nextAuditID {D}.
Global Arguments db {D}.
Global Arguments ticks {D}.

#[global] Instance eta_Base D : Eta (Base D) := λ b,
  mkBase (Clock b) (AuditStore b) (mu b) (nextAuditID b) (db b) (ticks b).

Record Svc (D S : Type) := mkSvc { base : Base D; st : S }.
Global Arguments mkSvc {D S}.
Global Arguments base {D S}.
Global Arguments st {D S}.

#[global] Instance eta_Svc D S : Eta (Svc D S) := λ s, mkSvc (base s) (st s).

Section service.
Context {D S : Type} `{!Wall, !Crypto, !JsonValid, !AuditDB D}.
Implicit Types s : Svc D S.

Definition dbEnabled : M (Svc D S) bool :=
  gets (λ s, match db (base s) with Some _ => true | None => false end).

(** Runs a statement on the database handle; a nil handle is a nil
    dereference. *)
Definition run_db {A} (f : D → A * D) : M (Svc D S) A := λ s,
  match db (base s) with
  | None => Panic s
  | Some d => let '(r, d') := f d in Done r (s <| base ::= λ b, b <| db := Some d' |> |>)
  end.

(** [sync.Mutex]: locking a mutex the goroutine already holds blocks. *)
Definition lock : M (Svc D S) () := λ s,
  if mu (base s) then Deadlock else Done () (s <| base ::= λ b, b <| mu := true |> |>).
Definition unlocked s : Svc D S := s <| base ::= λ b, b <| mu := false |> |>.
Definition unlock : M (Svc D S) () := modify unlocked.

(** [s.mu.Lock(); defer s.mu.Unlock(); body]: the deferred unlock also runs
    when the body panics. *)
Definition locked {A} (body : M (Svc D S) A) : M (Svc D S) A :=
  lock;; r ← on_panic unlocked body; unlock;; mret r.

(** [time.Now().UTC()]. *)
Definition time_Now : M (Svc D S) Time :=
  n ← gets (λ s, ticks (base s));
  modify (λ s, s <| base ::= λ b, b <| ticks := Datatypes.S n |> |>);;
  mret (wall n).

(** [s.now()]: the configured clock, or the wall clock if there is none. *)
Definition now : M (Svc D S) Time :=
  c ← gets (λ s, Clock (base s));
  match c with
  | None => time_Now
  | Some f =>
      n ← gets (λ s, ticks (base s));
      modify (λ s, s <| base ::= λ b, b <| ticks := Datatypes.S n |> |>);;
      mret (f n)
  end.

Definition responseMeta (meta : option RequestMeta) (code : ResultCode)
    (denial : string) : M (Svc D S) ResponseMeta :=
  t ← now;
  mret (mkResponseMeta (requestID meta) code denial (FormatRFC3339Nano t)).

(** identity_grpc.go: [randomToken]. *)
Definition randomToken `{!Random} : M (Svc D S) (res string) :=
  n ← gets (λ s, ticks (base s));
  modify (λ s, s <| base ::= λ b, b <| ticks := Datatypes.S n |> |>);;
  mret (match random_read n with Some raw => Ok (RawURLEncoding raw) | None => Err ErrRandom end).

(** reporting_postgres.go: a timestamp column that must not be empty. *)
Definition nonEmptyTime (v : string) : M (Svc D S) string :=
  if decide (TrimSpace v = "") then t ← time_Now; mret (FormatRFC3339Nano t) else mret v.

Definition normalizeAuditJSON (raw : string) : string :=
  if decide (raw = "") then "{}" else if json_valid raw then raw else "{}".

Definition auditAuthContextJSON (v : string) : string :=
  if decide (v = "") then "{}" else json_object [("context", json_string v)].

(** audit_postgres.go: in one transaction, read the last hash of the
    partition and insert the event linked to it. *)
Definition appendAuditEventToDB (ev : Event) : M (Svc D S) (option error) :=
  enabled ← dbEnabled;
  if negb enabled then mret None else
  ev ← (if IsZero (RecordedAt ev)
        then t ← time_Now; mret (ev <| RecordedAt := t |>) else mret ev);
  let ev := if IsZero (OccurredAt ev) then ev <| OccurredAt := RecordedAt ev |> else ev in
  let ev := if decide (PartitionDay ev = "")
            then ev <| PartitionDay := FormatDay (RecordedAt ev) |> else ev in
  r ← run_db db_begin;
  match r with
  | Err e => mret (Some e)
  | Ok _ =>
      let rollback := run_db (λ d, ((), db_rollback d)) in
      q ← run_db (q_audit_last (PartitionDay ev));
      match q with
      | Err e => rollback;; mret (Some e)
      | Ok row =>
          let prev := default "GENESIS" row in
          let ev := ev <| HashPrev := prev |> in
          let ev := ev <| HashCurr := ComputeHash prev ev |> in
          let row := ev <| AuthContext ::= auditAuthContextJSON |>
            <| Before ::= normalizeAuditJSON |> <| After ::= normalizeAuditJSON |> in
          x ← run_db (x_audit_insert row);
          match x with
          | Err e => rollback;; mret (Some e)
          | Ok _ =>
              c ← run_db db_commit;
              rollback;;
              mret (match c with Ok _ => None | Err e => Some e end)
          end
      end
  end.

(** [tx := s.db.BeginTx(); defer tx.Rollback(); body; return tx.Commit()]. *)
Definition with_tx (body : M (Svc D S) (option error)) : M (Svc D S) (option error) :=
  r ← run_db db_begin;
  match r with
  | Err e => mret (Some e)
  | Ok _ =>
      let rollback := run_db (λ d, ((), db_rollback d)) in
      e ← body;
      match e with
      | Some e => rollback;; mret (Some e)
      | None =>
          c ← run_db db_commit;
          rollback;;
          mret (match c with Ok _ => None | Err e => Some e end)
      end
  end.

(** [_, err := s.db.ExecContext(...); return err]. *)
Definition exec_db (f : D → res () * D) : M (Svc D S) (option error) :=
  r ← run_db f; mret (match r with Ok _ => None | Err e => Some e end).

Definition nextAuditIDLocked (prefix : string) : M (Svc D S) string :=
  modify (λ s, s <| base ::= λ b, b <| nextAuditID ::= λ n, wrap64 (n + 1) |> |>);;
  n ← gets (λ s, nextAuditID (base s));
  mret (prefix +:+ FormatInt n).

(** [_, err := s.AuditStore.Append(ev)]. *)
Definition AuditStore_Append (ev : Event) : M (Svc D S) (option error) := λ s,
  match AuditStore (base s) with
  | None => Panic s
  | Some store =>
      let '(r, store') := Append ev store in
      Done (match r with Some _ => None | None => Some ErrCorruptChain end)
        (s <| base ::= λ b, b <| AuditStore := Some store' |> |>)
  end.

(** [appendAudit], repeated in every service with its own id prefix and
    object type.  [None] is a nil error. *)
Definition appendAudit (prefix : string) (meta : option RequestMeta)
    (objectType objectID action before after : string) (result : Result)
    (reason : string) : M (Svc D S) (option error) :=
  store ← gets (λ s, AuditStore (base s));
  match store with
  | None => mret (Some ErrCorruptChain)
  | Some _ =>
      let actor : option Actor := m ← meta; MetaActor m in
      let actorID := match actor with Some a => ActorId a | None => "system" end in
      let actorType :=
        match actor with Some a => ActorTyp_String (ActorTypeOf a) | None => "service" end in
      t ← now;
      id ← nextAuditIDLocked prefix;
      let ev := mkEvent id t t actorID actorType "" objectType objectID action
        before after result reason (FormatDay t) "" "" in
      enabled ← dbEnabled;
      e ← (if (enabled : bool) then appendAuditEventToDB ev else mret None);
      match e with
      | Some err => mret (Some err)
      | None => AuditStore_Append ev
      end
  end.
End service.

(** The codes of a response that refuses. *)
Definition refused_code (c : ResultCode) : Prop :=
  c = RESULT_CODE_INVALID ∨ c = RESULT_CODE_DENIED.

(** Reading and writing the fields of a service of its own. *)
Definition get_st {D S A} (f : S → A) : M (Svc D S) A := gets (λ s, f (st s)).
Definition mod_st {D S} (f : S → S) : M (Svc D S) () :=
  modify (λ s, s <| st ::= f |>).

(** ** Reasoning about a service without a database

    With a nil database handle and an intact audit chain, the common part of a
    service behaves predictably: clock readings are the only unknown.  [mspec]
    reduces a specification of a handler to its effect on the service's own
    fields [σ] and on the audit events [evs]; every clock reading satisfies
    [T].  Proving it also proves that the handler returns. *)

Section mem.
Context {D S : Type} `{!Wall, !Crypto, !JsonValid, !AuditDB D}.
Implicit Types (s : Svc D S) (σ : S) (evs : list Event).

Definition reading s (n : nat) : Time :=
  match Clock (base s) with Some f => f n | None => wall n end.

Record mem_state (T : Time → Prop) (held : bool) σ evs s : Prop := {
  ms_db : db (base s) = None;
  ms_mu : mu (base s) = held;
  ms_st : st s = σ;
  ms_store : ∃ store, AuditStore (base s) = Some store ∧ chain_ok store
    ∧ events store = evs;
  ms_clock : ∀ n, T (reading s n) }.

Definition mspec {A} (T : Time → Prop) (m : M (Svc D S) A) (held : bool) σ evs
    (Q : A → S → list Event → Prop) : Prop :=
  ∀ s, mem_state T held σ evs s →
    wp m (λ a s', ∃ σ' evs', mem_state T held σ' evs' s' ∧ Q a σ' evs') s.

Lemma mspec_ret {A} T (a : A) h σ evs (Q : A → S → list Event → Prop) :
  Q a σ evs → mspec T (mret a) h σ evs Q.
Proof. intros HQ s Hs. apply post_ret. eauto. Qed.

Lemma mspec_bind {A B} T (m : M (Svc D S) A) (k : A → M (Svc D S) B) h σ evs Q :
  mspec T m h σ evs (λ a σ' evs', mspec T (k a) h σ' evs' Q) →
  mspec T (m ≫= k) h σ evs Q.
Proof.
  intros Hm s Hs. eapply post_seq; [by apply Hm|].
  intros a s' (σ' & evs' & Hs' & Hk). by apply Hk.
Qed.

Lemma mspec_mono {A} T (m : M (Svc D S) A) h σ evs P Q :
  mspec T m h σ evs P → (∀ a σ' evs', P a σ' evs' → Q a σ' evs') →
  mspec T m h σ evs Q.
Proof.
  intros Hm HPQ s Hs. eapply post_mono; [by apply Hm|]. naive_solver.
Qed.

Lemma mspec_get_st {A} T (f : S → A) h σ evs (Q : A → S → list Event → Prop) :
  Q (f σ) σ evs → mspec T (get_st f) h σ evs Q.
Proof.
  intros HQ s Hs. apply post_gets. exists σ, evs. split; [done|].
  by rewrite (ms_st _ _ _ _ _ Hs).
Qed.

Lemma mspec_mod_st T (f : S → S) h σ evs (Q : () → S → list Event → Prop) :
  Q () (f σ) evs → mspec T (mod_st f) h σ evs Q.
Proof.
  intros HQ s [? ? Hst ? ?]. apply post_modify. exists (f σ), evs.
  split; [|done]. split; try done. by rewrite <- Hst.
Qed.

Lemma mspec_dbEnabled T h σ evs (Q : bool → S → list Event → Prop) :
  Q false σ evs → mspec T dbEnabled h σ evs Q.
Proof.
  intros HQ s Hs. apply post_gets. exists σ, evs. split; [done|].
  by rewrite (ms_db _ _ _ _ _ Hs).
Qed.

Lemma now_eq s :
  now s = Done (reading s (ticks (base s)))
    (s <| base ::= λ b, b <| ticks := Datatypes.S (ticks (base s)) |> |>).
Proof.
  unfold now, reading, gets, modify, mbind, M_bind, mret, M_ret, time_Now.
  by destruct (Clock (base s)).
Qed.

Lemma responseMeta_eq s meta code reason :
  responseMeta meta code reason s
  = Done (mkResponseMeta (requestID meta) code reason
      (FormatRFC3339Nano (reading s (ticks (base s)))))
      (s <| base ::= λ b, b <| ticks := Datatypes.S (ticks (base s)) |> |>).
Proof. unfold responseMeta, mbind, M_bind. by rewrite now_eq. Qed.

Lemma mspec_now T h σ evs (Q : Time → S → list Event → Prop) :
  (∀ t, T t → Q t σ evs) → mspec T now h σ evs Q.
Proof.
  intros HQ s [? ? ? ? HT]. eapply post_done; [apply now_eq|].
  exists σ, evs. split; [by split|]. apply HQ, HT.
Qed.

Lemma mspec_time_Now T h σ evs (Q : Time → S → list Event → Prop) :
  (∀ t, Q t σ evs) → mspec T time_Now h σ evs Q.
Proof.
  intros HQ s [? ? ? ? HT]. apply post_bind, post_gets, post_bind, post_modify, post_ret.
  exists σ, evs. split; [by split|done].
Qed.

Lemma mspec_randomToken `{!Random} T h σ evs (Q : res string → S → list Event → Prop) :
  (∀ raw, Q (Ok (RawURLEncoding raw)) σ evs) → (∀ e, Q (Err e) σ evs) →
  mspec T randomToken h σ evs Q.
Proof.
  intros HQ HE s [? ? ? ? HT]. apply post_bind, post_gets, post_bind, post_modify, post_ret.
  exists σ, evs. split; [by split|]. destruct (random_read _); [apply HQ|apply HE].
Qed.

Lemma mspec_responseMeta T meta code denial h σ evs
    (Q : ResponseMeta → S → list Event → Prop) :
  (∀ t, Q (mkResponseMeta (requestID meta) code denial (FormatRFC3339Nano t)) σ evs) →
  mspec T (responseMeta meta code denial) h σ evs Q.
Proof.
  intros HQ. apply mspec_bind, mspec_now. intros t _. by apply mspec_ret.
Qed.

Lemma mspec_or_else {A} T (m : M (Svc D S) (option A)) (k : M (Svc D S) A) h σ evs Q :
  mspec T m h σ evs (λ r σ' evs',
    match r with Some a => Q a σ' evs' | None => mspec T k h σ' evs' Q end) →
  mspec T (or_else m k) h σ evs Q.
Proof.
  intros Hm. apply mspec_bind. eapply mspec_mono; [exact Hm|].
  intros [a|] σ' evs' HQ; [by apply mspec_ret|done].
Qed.

(** Some clock reading satisfies [T]. *)
Lemma mspec_some_time {A} T (m : M (Svc D S) A) h σ evs Q :
  (∀ t, T t → mspec T m h σ evs Q) → mspec T m h σ evs Q.
Proof. intros Hm s Hs. eapply Hm; [|done]. exact (ms_clock _ _ _ _ _ Hs 0%nat). Qed.

Lemma mspec_slice {A} T (l : list A) i j h σ evs (Q : list A → S → list Event → Prop) :
  0 ≤ i ≤ j → j ≤ Z.of_nat (length l) →
  Q (take (Z.to_nat (j - i)) (drop (Z.to_nat i) l)) σ evs →
  mspec T (slice l i j) h σ evs Q.
Proof. intros Hi Hj HQ s Hs. eapply post_done; [by apply slice_ok|]. eauto. Qed.

Lemma mspec_locked {A} T (m : M (Svc D S) A) σ evs Q :
  mspec T m true σ evs Q → mspec T (locked m) false σ evs Q.
Proof.
  intros Hm s [? Hmu ? ? ?]. unfold locked. apply post_bind.
  eapply post_done; [unfold lock; by rewrite Hmu|].
  eapply post_seq; [apply post_on_panic, Hm; by split|].
  intros a s' (σ' & evs' & [] & HQ). apply post_bind, post_modify, post_ret.
  exists σ', evs'. split; [by split|done].
Qed.

(** What an audit record of [appendAudit] says. *)
Definition audit_record (meta : option RequestMeta)
    (objectType objectID action before after : string) (result : Result)
    (reason : string) (e : Event) : Prop :=
  ObjectType e = objectType ∧ ObjectID e = objectID ∧ Action e = action
  ∧ Before e = before ∧ After e = after ∧ EvResult e = result ∧ Reason e = reason
  ∧ ActorID e = match (m ← meta; MetaActor m) with Some a => ActorId a | None => "system" end.

(** With an intact chain and no database an audit append succeeds and adds
    exactly one record. *)
Lemma mspec_appendAudit T prefix meta ot oid action before after result reason
    h σ evs (Q : option error → S → list Event → Prop) :
  (∀ e, audit_record meta ot oid action before after result reason e →
    Q None σ (evs ++ [e])) →
  mspec T (appendAudit prefix meta ot oid action before after result reason)
    h σ evs Q.
Proof.
  intros HQ s Hs. destruct Hs as [Hdb Hmu Hst (store & Hstore & Hok & Hevs) HT].
  unfold appendAudit. apply post_bind, post_gets. rewrite Hstore.
  apply post_bind. eapply post_done; [apply now_eq|].
  apply post_bind, post_bind, post_modify, post_bind, post_gets, post_ret.
  apply post_bind, post_gets. simpl. rewrite Hdb. simpl.
  apply post_bind, post_ret. unfold AuditStore_Append, post. simpl. rewrite Hstore.
  match goal with |- context [Append ?e ?st] =>
    destruct (Append_ok e st Hok) as (e' & -> & -> & Hok') end.
  exists σ. eexists. split.
  - split; simpl; try done. eexists. split; [done|]. split; [exact Hok'|done].
  - rewrite Hevs. apply HQ. by repeat split.
Qed.

(** A service without a database, at rest, with an intact audit chain: the
    state in which its handlers are called. *)
Record in_memory s : Prop := {
  im_db : db (base s) = None;
  im_mu : mu (base s) = false;
  im_store : ∃ store, AuditStore (base s) = Some store ∧ chain_ok store }.

Definition audit_events s : list Event :=
  match AuditStore (base s) with Some store => Events store | None => [] end.

Lemma in_memory_mem_state T s :
  in_memory s → (∀ n, T (reading s n)) → mem_state T false (st s) (audit_events s) s.
Proof.
  intros [? ? (store & E & Hok)] HT. unfold audit_events. rewrite E.
  split; try done. by exists store.
Qed.

Lemma mem_state_in_memory T σ evs s :
  mem_state T false σ evs s →
  in_memory s ∧ st s = σ ∧ audit_events s = evs ∧ ∀ n, T (reading s n).
Proof.
  intros [? ? ? (store & E & Hok & Hevs) ?]. unfold audit_events. rewrite E.
  split; [|done]. split; eauto.
Qed.

(** What a specification says of one call. *)
Lemma mspec_call {A} T (m : M (Svc D S) A) s Q :
  in_memory s → (∀ n, T (reading s n)) →
  mspec T m false (st s) (audit_events s) Q →
  ∃ a s', m s = Done a s' ∧ in_memory s' ∧ (∀ n, T (reading s' n))
    ∧ Q a (st s') (audit_events s').
Proof.
  intros Hm HT Hspec.
  destruct (wp_done _ _ _ (Hspec s (in_memory_mem_state T s Hm HT)))
    as (a & s' & E & σ' & evs' & Hs' & HQ).
  apply mem_state_in_memory in Hs' as (? & <- & <- & ?). eauto 10.
Qed.

Lemma mspec_run {A} T (m : M (Svc D S) A) s a s' Q :
  m s = Done a s' → in_memory s → (∀ n, T (reading s n)) →
  mspec T m false (st s) (audit_events s) Q →
  in_memory s' ∧ (∀ n, T (reading s' n)) ∧ Q a (st s') (audit_events s').
Proof.
  intros E Hm HT Hspec.
  destruct (mspec_call T m s Q Hm HT Hspec) as (a' & s'' & E' & ?).
  rewrite E in E'. by injection E' as <- <-.
Qed.
End mem.

Lemma NewService_in_memory {D S} `{!Crypto} clk (σ : S) :
  in_memory (mkSvc (mkBase (D := D) clk (Some NewInMemoryStore) false 0 None 0) σ).
Proof. split; [done|done|]. eexists. split; [done|apply NewInMemoryStore_chain_ok]. Qed.

(** Symbolic execution with [mspec]. *)
Ltac mstep :=
  lazymatch goal with
  | |- mspec _ (_ ≫= _) _ _ _ _ => apply mspec_bind
  | |- mspec _ (mret _) _ _ _ _ => apply mspec_ret
  | |- mspec _ (get_st _) _ _ _ _ => apply mspec_get_st
  | |- mspec _ (mod_st _) _ _ _ _ => apply mspec_mod_st
  | |- mspec _ dbEnabled _ _ _ _ => apply mspec_dbEnabled
  | |- mspec _ now _ _ _ _ => apply mspec_now; intros ? ?
  | |- mspec _ time_Now _ _ _ _ => apply mspec_time_Now; intros ?
  | |- mspec _ (responseMeta _ _ _) _ _ _ _ => apply mspec_responseMeta; intros ?
  | |- mspec _ (locked _) _ _ _ _ => apply mspec_locked
  | |- mspec _ (appendAudit _ _ _ _ _ _ _ _ _) _ _ _ _ =>
      apply mspec_appendAudit; intros ? ?
  end; cbv beta.

Ltac msteps := repeat (simpl negb; cbv iota; mstep).

(** ** Frames

    What code keeps with any database: [keeps R m] relates the state before
    [m] to the one after it, if [m] returns.  A frame looks at the fields of
    the service and at the audit store; the clock, the mutex, the audit
    counter and the database may change under it. *)

Class Frame {D S} (R : relation (Svc D S)) : Prop := {
  frame_refl s : R s s;
  frame_trans s1 s2 s3 : R s1 s2 → R s2 s3 → R s1 s3;
  frame_base s b : AuditStore b = AuditStore (base s) → R s (mkSvc b (st s)) }.

Definition keeps {D S A} (R : relation (Svc D S)) (m : M (Svc D S) A) : Prop :=
  ∀ s, wlp m (λ _ s', R s s') s.

Section frames.
Context {D S : Type} `{!Wall, !Crypto, !JsonValid, !AuditDB D}.
Context (R : relation (Svc D S)) `{!Frame R}.

Lemma keeps_ret {A} (a : A) : keeps R (mret a).
Proof. intros s. apply post_ret, frame_refl. Qed.

Lemma keeps_gets {A} (f : Svc D S → A) : keeps R (gets f).
Proof. intros s. apply post_gets, frame_refl. Qed.

Lemma keeps_bind {A B} (m : M (Svc D S) A) (k : A → M (Svc D S) B) :
  keeps R m → (∀ a, keeps R (k a)) → keeps R (m ≫= k).
Proof.
  intros Hm Hk s. eapply post_seq; [apply Hm|]. intros a s' Hs.
  eapply post_mono; [apply Hk|]. intros b s'' Hs'. exact (frame_trans _ _ _ Hs Hs').
Qed.

(** A first part whose result is known to satisfy [Q]. *)
Lemma keeps_bind_with {A B} (Q : A → Prop) (m : M (Svc D S) A) (k : A → M (Svc D S) B) :
  keeps R m → (∀ s, wlp m (λ a _, Q a) s) → (∀ a, Q a → keeps R (k a)) → keeps R (m ≫= k).
Proof.
  intros Hm HQ Hk s. eapply (post_seq _ _ _ (λ a s', R s s' ∧ Q a)).
  - specialize (Hm s). specialize (HQ s). unfold post in *. by destruct (m s).
  - intros a s' [Hs Ha]. eapply post_mono; [by apply Hk|]. intros b s'' Hs'.
    exact (frame_trans _ _ _ Hs Hs').
Qed.

Lemma keeps_modify_base (f : Base D → Base D) :
  (∀ b, AuditStore (f b) = AuditStore b) → keeps R (modify (λ s, s <| base ::= f |>)).
Proof. intros Hf s. apply post_modify, frame_base, Hf. Qed.

Lemma keeps_mod_st (f : S → S) : (∀ s, R s (s <| st ::= f |>)) → keeps R (mod_st f).
Proof. intros Hf s. apply post_modify, Hf. Qed.

(** A part whose result does not matter. *)
Lemma wlp_skip {A B} (m : M (Svc D S) A) (k : A → M (Svc D S) B) (Q : B → Svc D S → Prop) s :
  (∀ a s', wlp (k a) Q s') → wlp (m ≫= k) Q s.
Proof. intros Hk. eapply post_seq; [apply wlp_true|]. intros a s' _. apply Hk. Qed.

Lemma wlp_responseMeta meta code reason s :
  wlp (responseMeta meta code reason) (λ m (_ : Svc D S), ResCode m = code) s.
Proof. unfold responseMeta. apply wlp_skip. intros t s'. by apply post_ret. Qed.

Lemma keeps_run_db {A} (f : D → A * D) : keeps R (run_db f).
Proof.
  intros s. unfold run_db, post. destruct (db (base s)) as [d|]; [|done].
  destruct (f d) as [r d']. by apply frame_base.
Qed.

Lemma keeps_on_panic {A} f (m : M (Svc D S) A) : keeps R m → keeps R (on_panic f m).
Proof. intros Hm s. apply post_on_panic, Hm. Qed.

Lemma keeps_lock : keeps R lock.
Proof. intros s. unfold lock, post. destruct (mu (base s)); [done|]. by apply frame_base. Qed.
End frames.

(** Symbolic execution with [keeps]. *)
Ltac kstep :=
  lazymatch goal with
  | |- keeps _ (let '(_, _) := ?x in _) => destruct x
  | |- keeps _ (match ?x with _ => _ end) => destruct x
  | |- keeps _ (_ ≫= _) => refine (keeps_bind _ _ _ _ _); [|intros ?]
  | |- keeps _ (mret _) => refine (keeps_ret _ _)
  | |- keeps _ (gets _) => refine (keeps_gets _ _)
  | |- keeps _ (get_st _) => refine (keeps_gets _ _)
  | |- keeps _ dbEnabled => refine (keeps_gets _ _)
  | |- keeps _ (run_db _) => refine (keeps_run_db _ _)
  | |- keeps _ lock => refine (keeps_lock _)
  | |- keeps _ unlock => refine (keeps_modify_base _ _ _); done
  | |- keeps _ (modify _) => refine (keeps_modify_base _ _ _); done
  | |- keeps _ (on_panic _ _) => refine (keeps_on_panic _ _ _ _)
  | |- keeps _ (locked _) => refine (keeps_bind _ _ _ _ _); [|intros ?]
  | |- keeps _ (or_else _ _) => refine (keeps_bind _ _ _ _ _); [|intros ?]
  | |- keeps _ (return_ _) => refine (keeps_bind _ _ _ _ _); [|intros ?]
  | |- keeps _ time_Now => unfold time_Now
  | |- keeps _ now => unfold now
  | |- keeps _ (responseMeta _ _ _) => unfold responseMeta
  | |- keeps _ (nextAuditIDLocked _) => unfold nextAuditIDLocked
  | |- keeps _ (with_tx _) => unfold with_tx
  | |- keeps _ (exec_db _) => unfold exec_db
  | |- keeps _ (nonEmptyTime _) => unfold nonEmptyTime
  end; try exact _; cbv beta zeta.
Ltac ksteps := repeat kstep.

Lemma keeps_appendAuditEventToDB {D S} `{!Wall, !Crypto, !JsonValid, !AuditDB D}
    (R : relation (Svc D S)) `{!Frame R} ev : keeps R (appendAuditEventToDB ev).
Proof.
  unfold appendAuditEventToDB. ksteps.
Qed.

(** A frame that only looks at the fields of the service, related by a
    preorder; the audit trail may grow under it. *)
Definition field_frame {D S} (P : relation S) : relation (Svc D S) := λ s s', P (st s) (st s').

#[global] Instance field_frame_Frame {D S} (P : relation S) `{!PreOrder P} :
  Frame (D := D) (field_frame P).
Proof.
  split; unfold field_frame; [by intros s|intros s1 s2 s3; apply transitivity|by intros s b _].
Qed.

Section field_frames.
Context {D S : Type} `{!Wall, !Crypto, !JsonValid, !AuditDB D}.
Context (P : relation S) `{!PreOrder P}.

Lemma keeps_appendAudit prefix meta ot oid action before after result reason :
  keeps (D := D) (field_frame P)
    (appendAudit prefix meta ot oid action before after result reason).
Proof.
  unfold appendAudit. ksteps; [by apply keeps_appendAuditEventToDB, _|].
  intros s. unfold AuditStore_Append, post. destruct (AuditStore (base s)) as [store|]; [|done].
  destruct (Append _ store) as [r store']. by unfold field_frame.
Qed.

Lemma keeps_field (f : S → S) : (∀ σ, P σ (f σ)) → keeps (D := D) (field_frame P) (mod_st f).
Proof. intros Hf s. apply post_modify, Hf. Qed.

Lemma wlp_locked {A} (m : M (Svc D S) A) (Q : A → S → Prop) s :
  (∀ s0, st s0 = st s → wlp m (λ a s', Q a (st s')) s0) →
  wlp (locked m) (λ a s', Q a (st s')) s.
Proof.
  intros Hm. unfold locked. apply post_bind. unfold lock, post at 1. destruct (mu (base s)); [done|].
  eapply post_seq; [by apply post_on_panic, Hm|]. intros a s' HQ. apply post_bind, post_modify. by apply post_ret.
Qed.

Lemma keeps_slice {A} (l : list A) i j : keeps (D := D) (field_frame P) (slice l i j).
Proof.
  unfold slice. destruct (_ && _ && _); [apply keeps_ret, _|by intros s].
Qed.
End field_frames.

(** Symbolic execution with field frames. *)
Ltac fstep :=
  lazymatch goal with
  | |- keeps (field_frame _) (appendAudit _ _ _ _ _ _ _ _ _) => refine (keeps_appendAudit _ _ _ _ _ _ _ _ _ _)
  | |- keeps (field_frame _) (mod_st _) => refine (keeps_field _ _ _)
  | |- keeps (field_frame _) (slice _ _ _) => refine (keeps_slice _ _ _ _)
  | |- _ => kstep
  end.
Ltac fsteps := repeat fstep.
