(* ===== verification/Listing.v ===== *)
(** * Sorting and paging

    What the listing handlers share: the order of Go strings, [sort.Strings]
    and [sort.SliceStable], the page window that every handler cuts out of its
    items, and the walk a client makes along the page tokens. *)

From S2P Require Import Prelude GoTime GoJson AuditTrail Service.
From Stdlib Require Import Ascii Sorting.Sorted.

(** ** The order of strings *)

Lemma string_ltb_lt a b : String.ltb a b = true ↔ String.compare a b = Lt.
Proof. unfold String.ltb. by destruct (String.compare a b). Qed.

Lemma string_lt_trans a b c :
  String.compare a b = Lt → String.compare b c = Lt → String.compare a c = Lt.
Proof.
  revert b c. induction a as [|x a IH]; intros [|y b] [|z c]; simpl; try done.
  unfold Ascii.compare.
  destruct (N.compare_spec (N_of_ascii x) (N_of_ascii y)) as [Exy|Exy|Exy]; [|..|done];
  destruct (N.compare_spec (N_of_ascii y) (N_of_ascii z)) as [Eyz|Eyz|Eyz]; try done;
  destruct (N.compare_spec (N_of_ascii x) (N_of_ascii z)); try done; try lia. apply IH.
Qed.

Lemma string_ltb_asym a b : String.ltb a b = true → String.ltb b a = false.
Proof.
  rewrite string_ltb_lt. unfold String.ltb. rewrite (String.compare_antisym b a).
  by intros ->.
Qed.

(** Of two strings neither of which is the smaller one. *)
Lemma string_ltb_total a b : String.ltb a b = false → String.ltb b a = false → a = b.
Proof.
  unfold String.ltb. rewrite (String.compare_antisym b a).
  destruct (String.compare a b) eqn:E; try done. by apply String.compare_eq_iff in E.
Qed.

Lemma string_ltb_trans a b c :
  String.ltb a b = true → String.ltb b c = true → String.ltb a c = true.
Proof. rewrite !string_ltb_lt. apply string_lt_trans. Qed.

Lemma string_nlt_lt a b : String.ltb b a = false → a ≠ b → String.ltb a b = true.
Proof.
  intros Hba Hne. destruct (String.ltb a b) eqn:E; [done|].
  by destruct (Hne (string_ltb_total a b E Hba)).
Qed.

Lemma string_nlt_trans a b c :
  String.ltb b a = false → String.ltb c b = false → String.ltb c a = false.
Proof.
  intros Hab Hbc. destruct (decide (a = b)) as [->|Hne]; [done|].
  destruct (String.ltb c a) eqn:E; [|done].
  pose proof (string_ltb_trans _ _ _ E (string_nlt_lt _ _ Hab Hne)). congruence.
Qed.

(** ** Sorting *)

(** [sort.SliceStable(l, less)]: for a strict weak order [less] the stable
    sorted permutation is unique; insertion computes it. *)
Section sort.
Context {A : Type} (less : A → A → bool).

Fixpoint insert_stable (a : A) (l : list A) : list A :=
  match l with
  | [] => [a]
  | b :: l' => if less b a then b :: insert_stable a l' else a :: l
  end.

Definition SliceStable (l : list A) : list A := foldr insert_stable [] l.

Definition not_after (a b : A) : Prop := less b a = false.

Lemma insert_stable_perm a l : insert_stable a l ≡ₚ a :: l.
Proof.
  induction l as [|b l IH]; simpl; [done|]. destruct (less b a); [|done].
  rewrite IH. apply Permutation_swap.
Qed.

Lemma SliceStable_perm l : SliceStable l ≡ₚ l.
Proof. induction l as [|a l IH]; simpl; [done|]. by rewrite insert_stable_perm, IH. Qed.

Lemma SliceStable_length l : length (SliceStable l) = length l.
Proof. by rewrite SliceStable_perm. Qed.

Hypothesis less_asym : ∀ a b, less a b = true → less b a = false.
Hypothesis less_trans : ∀ a b c, less b a = false → less c b = false → less c a = false.

Lemma insert_stable_sorted a l :
  StronglySorted not_after l → StronglySorted not_after (insert_stable a l).
Proof.
  induction 1 as [|b l Hl IH Hb]; simpl; [by repeat constructor|].
  destruct (less b a) eqn:E.
  - constructor; [done|]. rewrite insert_stable_perm. constructor; [|done].
    by apply less_asym.
  - constructor; [by constructor|]. constructor; [done|].
    eapply Forall_impl; [exact Hb|]. intros c Hc. by apply (less_trans a b c).
Qed.

Lemma SliceStable_sorted l : StronglySorted not_after (SliceStable l).
Proof. induction l as [|a l IH]; simpl; [constructor|]. by apply insert_stable_sorted. Qed.
End sort.

(** [sort.Strings]. *)
Definition sort_Strings (l : list string) : list string := SliceStable String.ltb l.

Lemma sort_Strings_perm l : sort_Strings l ≡ₚ l.
Proof. apply SliceStable_perm. Qed.

Lemma sort_Strings_sorted l : StronglySorted (not_after String.ltb) (sort_Strings l).
Proof. apply SliceStable_sorted; [apply string_ltb_asym|intros a b c; apply string_nlt_trans]. Qed.

(** Two sorted lists with the same strings are equal, so the order in which a
    Go map is iterated over does not show after sorting. *)
Lemma sorted_strings_unique l l' :
  StronglySorted (not_after String.ltb) l → StronglySorted (not_after String.ltb) l' →
  l ≡ₚ l' → l = l'.
Proof.
  intros Hl. revert l'. induction Hl as [|a l Hl IH Ha]; intros l' Hl' Hp.
  { symmetry in Hp. by apply Permutation_nil_r in Hp as ->. }
  destruct Hl' as [|b l' Hl' Hb]; [by apply Permutation_nil_r in Hp|].
  assert (a = b) as <-.
  { assert (a ∈ b :: l') as [->|Hin]%elem_of_cons by (rewrite <- Hp; apply elem_of_cons; auto);
      [done|].
    assert (b ∈ a :: l) as [->|Hin']%elem_of_cons by (rewrite Hp; apply elem_of_cons; auto);
      [done|].
    apply string_ltb_total; [exact (proj1 (Forall_forall _ _) Hb a Hin)
      |exact (proj1 (Forall_forall _ _) Ha b Hin')]. }
  f_equal. apply IH; [done|]. by apply Permutation_cons_inv in Hp.
Qed.

Lemma sort_Strings_perm_eq l l' : l ≡ₚ l' → sort_Strings l = sort_Strings l'.
Proof.
  intros Hp. apply sorted_strings_unique; [apply sort_Strings_sorted..|].
  by rewrite !sort_Strings_perm.
Qed.

(** The keys of a Go map, collected by a range loop and sorted. *)
Definition sorted_keys {V} (m : gmap string V) : list string :=
  sort_Strings (map_to_list m).*1.

Lemma elem_of_sorted_keys {V} (m : gmap string V) k : k ∈ sorted_keys m ↔ is_Some (m !! k).
Proof.
  unfold sorted_keys. rewrite sort_Strings_perm, list_elem_of_fmap. split.
  - intros ([k' v] & -> & Hin). apply elem_of_map_to_list in Hin. by exists v.
  - intros [v Hv]. exists (k, v). by rewrite elem_of_map_to_list.
Qed.

Lemma NoDup_sorted_keys {V} (m : gmap string V) : NoDup (sorted_keys m).
Proof. unfold sorted_keys. rewrite sort_Strings_perm. apply NoDup_fst_map_to_list. Qed.

(** The values in the order of their keys. *)
Definition sorted_values {V} (m : gmap string V) : list V :=
  omap (λ k, m !! k) (sorted_keys m).

Lemma elem_of_sorted_values {V} (m : gmap string V) v :
  v ∈ sorted_values m ↔ ∃ k, m !! k = Some v.
Proof.
  unfold sorted_values. rewrite list_elem_of_omap. split.
  - intros (k & _ & Hk). by exists k.
  - intros [k Hk]. exists k. split; [|done]. apply elem_of_sorted_keys. by exists v.
Qed.

(** Values that are stored under their own keys. *)
Lemma sorted_values_keys {V} (f : V → string) (m : gmap string V) :
  (∀ k v, m !! k = Some v → f v = k) → f <$> sorted_values m = sorted_keys m.
Proof.
  intros Hf. unfold sorted_values.
  assert (Forall (λ k, is_Some (m !! k)) (sorted_keys m)) as Hall.
  { apply Forall_forall. intros k. by rewrite elem_of_sorted_keys. }
  induction Hall as [|k l [v Hv] Hl IH]; [done|]. cbn [omap list_omap].
  rewrite Hv, fmap_cons, (Hf _ _ Hv). f_equal. exact IH.
Qed.

Lemma sublist_fmap_filter {A B} (f : A → B) (P : A → bool) (l : list A) :
  f <$> List.filter P l `sublist_of` f <$> l.
Proof. induction l as [|a l IH]; simpl; [done|]. destruct (P a); by constructor. Qed.

Lemma StronglySorted_sublist {A} (R : relation A) (l k : list A) :
  l `sublist_of` k → StronglySorted R k → StronglySorted R l.
Proof.
  induction 1 as [|x l k Hs IH|x l k Hs IH]; intros Hk; [constructor|..];
    inversion Hk as [|? ? Hk' Hx]; subst; [|by apply IH].
  constructor; [by apply IH|]. rewrite Forall_forall in Hx |- *.
  intros y Hy. apply Hx. by eapply elem_of_sublist.
Qed.

(** [json.Marshal] of a map writes the keys in order. *)
Definition json_map (m : gmap string string) : string :=
  json_object ((λ k, (k, json_string (map_get "" m k))) <$> sorted_keys m).
Definition omit_map (k : string) (m : gmap string string) : list (string * string) :=
  if decide (m = ∅) then [] else [(k, json_map m)].

(** The handlers order by a timestamp string, ascending or descending, and
    break ties by an id, ascending. *)
Section time_then_id.
Context {A : Type} (time id : A → string).

Definition older_first (a b : A) : bool :=
  if decide (time a = time b) then String.ltb (id a) (id b) else String.ltb (time a) (time b).
Definition newer_first (a b : A) : bool :=
  if decide (time a = time b) then String.ltb (id a) (id b) else String.ltb (time b) (time a).

Lemma older_first_asym a b : older_first a b = true → older_first b a = false.
Proof.
  unfold older_first. destruct (decide (time a = time b)) as [->|Hne].
  - rewrite decide_True by done. apply string_ltb_asym.
  - rewrite decide_False by done. apply string_ltb_asym.
Qed.

Lemma newer_first_asym a b : newer_first a b = true → newer_first b a = false.
Proof.
  unfold newer_first. destruct (decide (time a = time b)) as [->|Hne].
  - rewrite decide_True by done. apply string_ltb_asym.
  - rewrite decide_False by done. apply string_ltb_asym.
Qed.

Lemma strict_chain x y z :
  String.ltb x y = true → String.ltb y z = true → x ≠ z ∧ String.ltb z x = false.
Proof.
  intros Hxy Hyz. pose proof (string_ltb_trans _ _ _ Hxy Hyz) as Hxz.
  pose proof (string_ltb_asym _ _ Hxz). split; [|done]. intros ->. congruence.
Qed.

Lemma older_first_trans a b c :
  older_first b a = false → older_first c b = false → older_first c a = false.
Proof.
  unfold older_first. intros Hab Hbc.
  destruct (decide (time b = time a)) as [Eba|Hba];
    destruct (decide (time c = time b)) as [Ecb|Hcb].
  - rewrite decide_True by congruence. by eapply string_nlt_trans.
  - rewrite decide_False by congruence. by rewrite <- Eba.
  - rewrite decide_False by congruence. by rewrite Ecb.
  - destruct (strict_chain (time a) (time b) (time c)) as [Hne Hlt];
      [by apply string_nlt_lt|by apply string_nlt_lt|].
    by rewrite decide_False.
Qed.

Lemma newer_first_trans a b c :
  newer_first b a = false → newer_first c b = false → newer_first c a = false.
Proof.
  unfold newer_first. intros Hab Hbc.
  destruct (decide (time b = time a)) as [Eba|Hba];
    destruct (decide (time c = time b)) as [Ecb|Hcb].
  - rewrite decide_True by congruence. by eapply string_nlt_trans.
  - rewrite decide_False by congruence. by rewrite <- Eba.
  - rewrite decide_False by congruence. by rewrite Ecb.
  - destruct (strict_chain (time c) (time b) (time a)) as [Hne Hlt];
      [by apply string_nlt_lt|by apply string_nlt_lt|].
    by rewrite decide_False.
Qed.

Lemma older_first_sorted l :
  StronglySorted (not_after older_first) (SliceStable older_first l).
Proof. apply SliceStable_sorted; [apply older_first_asym|apply older_first_trans]. Qed.
Lemma newer_first_sorted l :
  StronglySorted (not_after newer_first) (SliceStable newer_first l).
Proof. apply SliceStable_sorted; [apply newer_first_asym|apply newer_first_trans]. Qed.
End time_then_id.

(** ** Pages *)

(** The position a page token denotes, for the handlers that reject a bad
    token. *)
Definition token_start (token : string) : option Z :=
  if decide (token = "") then Some 0
  else p ← Atoi token; if p <? 0 then None else Some p.

(** The handlers that ignore a bad token start at 0 instead. *)
Definition pageStart (token : string) : Z :=
  if decide (token ≠ "")
  then match Atoi token with Some p => if 0 <=? p then p else 0 | None => 0 end
  else 0.

Definition pageSizeOr (dflt size : Z) : Z := if size <=? 0 then dflt else size.

(** The window of a page and the token of the next one.  The size is an int32,
    so the end does not overflow. *)
Definition page {S A} (items : list A) (start size : Z) : M S (list A * string) :=
  let len := Z.of_nat (length items) in
  let start := if len <? start then len else start in
  let stop := start + size in
  let stop := if len <? stop then len else stop in
  let next := if stop <? len then FormatInt stop else "" in
  items ← slice items start stop;
  mret (items, next).

(** The token after a page of [n] rows read from a table. *)
Definition nextFromDB (start size : Z) (n : nat) : string :=
  if Z.of_nat n =? size then FormatInt (wrap64 (start + Z.of_nat n)) else "".

(** What [page] returns. *)
Definition page_at {A} (items : list A) (start size : Z) : list A * string :=
  let len := Z.of_nat (length items) in
  let from := Z.min len start in
  let stop := Z.min len (from + size) in
  (take (Z.to_nat (stop - from)) (drop (Z.to_nat from) items),
   if stop <? len then FormatInt stop else "").

Lemma token_start_nonneg token start : token_start token = Some start → 0 ≤ start.
Proof.
  unfold token_start. case_decide; [by intros [= <-]|].
  destruct (Atoi token) as [p|]; [|done]. simpl. destruct (Z.ltb_spec p 0); [done|].
  by intros [= <-].
Qed.

Lemma token_start_FormatInt z : 0 ≤ z ≤ int64_max → token_start (FormatInt z) = Some z.
Proof.
  intros Hz. unfold token_start. rewrite decide_False by by apply FormatInt_nonempty.
  rewrite Atoi_FormatInt by done. simpl. by rewrite (proj2 (Z.ltb_ge _ _)) by lia.
Qed.

Lemma pageStart_nonneg token : 0 ≤ pageStart token.
Proof.
  unfold pageStart. case_decide; [|lia]. destruct (Atoi token) as [p|]; [|lia].
  destruct (Z.leb_spec 0 p); lia.
Qed.

Lemma pageStart_token token start : token_start token = Some start → pageStart token = start.
Proof.
  unfold token_start, pageStart. destruct (decide (token = "")) as [->|Hne].
  - rewrite decide_False by naive_solver. by intros [= <-].
  - rewrite decide_True by done. destruct (Atoi token) as [p|]; [|done]. simpl.
    destruct (Z.ltb_spec p 0); [done|]. intros [= <-].
    by rewrite (proj2 (Z.leb_le _ _)) by lia.
Qed.

Lemma pageSizeOr_pos dflt size : 0 < dflt → 0 < pageSizeOr dflt size.
Proof. intros ?. unfold pageSizeOr. destruct (Z.leb_spec size 0); lia. Qed.

Lemma clamp_min a b : (if a <? b then a else b) = Z.min a b.
Proof. destruct (Z.ltb_spec a b); lia. Qed.

Lemma page_eq {S A} (items : list A) start size (s : S) :
  0 ≤ start → 0 ≤ size → page items start size s = Done (page_at items start size) s.
Proof.
  intros Hstart Hsize. unfold page, page_at. cbv zeta. rewrite !clamp_min.
  unfold mbind, M_bind. rewrite slice_ok by lia. done.
Qed.

(** ** Walking along the page tokens *)

Section walk.
Context {S A : Type} (call : string → M S (list A * string)).

(** Calls with the empty token, then with each returned token, until no token
    is returned. *)
Fixpoint walk_pages (fuel : nat) (token : string) : M S (list A) :=
  match fuel with
  | O => mret []
  | Datatypes.S fuel =>
      r ← call token;
      if decide (r.2 = "") then mret r.1
      else rest ← walk_pages fuel r.2; mret (r.1 ++ rest)
  end.

Context (I : S → Prop) (items : list A) (size : Z).
Hypothesis size_pos : 0 < size.
Hypothesis items_fit : Z.of_nat (length items) ≤ int64_max.
Hypothesis call_page : ∀ s token start, I s → token_start token = Some start →
  ∃ s', call token s = Done (page_at items start size) s' ∧ I s'.

Lemma walk_pages_from fuel s token start :
  let len := Z.of_nat (length items) in
  I s → token_start token = Some start → len - Z.min len start < Z.of_nat fuel →
  ∃ s', walk_pages fuel token s = Done (drop (Z.to_nat (Z.min len start)) items) s' ∧ I s'.
Proof.
  intros len. revert s token start. induction fuel as [|fuel IH];
    intros s token start Hs Htok Hfuel; [lia|].
  destruct (call_page s token start Hs Htok) as (s1 & E & Hs1).
  simpl. unfold mbind at 1, M_bind. rewrite E. unfold page_at. fold len. cbv zeta. simpl.
  apply token_start_nonneg in Htok. set (from := Z.min len start) in *.
  set (stop := Z.min len (from + size)) in *.
  destruct (Z.ltb_spec stop len) as [Hlt|Hge].
  - rewrite decide_False by (apply FormatInt_nonempty; unfold len in *; lia).
    destruct (IH s1 (FormatInt stop) stop) as (s2 & E2 & Hs2);
      [done|apply token_start_FormatInt; unfold len in *; lia|lia|].
    replace (Z.min len stop) with stop in E2 by lia.
    unfold mbind, M_bind. rewrite E2. exists s2. split; [|done]. unfold mret, M_ret. f_equal.
    replace (Z.to_nat stop) with (Z.to_nat from + Z.to_nat (stop - from))%nat by lia.
    rewrite <- drop_drop. apply take_drop.
  - rewrite decide_True by done. exists s1. split; [|done]. unfold mret, M_ret. f_equal.
    apply take_ge. rewrite length_drop. unfold len in *. lia.
Qed.

(** The walk ends after at most one call per item plus one, and returns the
    items in order. *)
Lemma walk_pages_complete fuel s :
  I s → (length items < fuel)%nat →
  ∃ s', walk_pages fuel "" s = Done items s' ∧ I s'.
Proof.
  intros Hs Hf. destruct (walk_pages_from fuel s "" 0) as (s' & E & Hs');
    [done|done|lia|]. exists s'. split; [|done].
  rewrite E. by replace (Z.to_nat (Z.min _ 0)) with O by lia.
Qed.
End walk.

(** ** In the logic of services *)

Section mem.
Context {D S : Type} `{!Wall, !Crypto, !JsonValid, !AuditDB D}.
Implicit Types (σ : S) (evs : list Event).

Lemma mspec_page {A} T (items : list A) start size h σ evs
    (Q : list A * string → S → list Event → Prop) :
  0 ≤ start → 0 ≤ size → Q (page_at items start size) σ evs →
  mspec (D := D) T (page items start size) h σ evs Q.
Proof. intros ?? HQ s Hs. eapply post_done; [by apply page_eq|]. eauto. Qed.

(** The walk over a handler whose every call returns a page and changes
    nothing. *)
Lemma mspec_walk {A} T (call : string → M (Svc D S) (list A * string)) items size σ evs s fuel :
  0 < size → Z.of_nat (length items) ≤ int64_max → (length items < fuel)%nat →
  (∀ token start, token_start token = Some start →
     mspec T (call token) false σ evs
       (λ r σ' evs', r = page_at items start size ∧ σ' = σ ∧ evs' = evs)) →
  in_memory s → (∀ n, T (reading s n)) → st s = σ → audit_events s = evs →
  ∃ s', walk_pages call fuel "" s = Done items s' ∧ in_memory s' ∧ st s' = σ
    ∧ audit_events s' = evs.
Proof.
  intros Hsize Hfit Hfuel Hcall Hm HT Hst Hevs.
  destruct (walk_pages_complete call
    (λ s, in_memory s ∧ (∀ n, T (reading s n)) ∧ st s = σ ∧ audit_events s = evs)
    items size Hsize Hfit) with (fuel := fuel) (s := s) as (s' & E & ? & _ & ? & ?); try done.
  - intros s0 token start (Hm0 & HT0 & Hst0 & Hevs0) Htok.
    specialize (Hcall token start Htok). rewrite <- Hst0, <- Hevs0 in Hcall.
    destruct (mspec_call T _ s0 _ Hm0 HT0 Hcall) as (a & s1 & E & ? & ? & -> & ? & ?).
    exists s1. rewrite Hst0, Hevs0 in *. done.
  - by exists s'.
Qed.
End mem.
