(* ===== verification/Ledger.v ===== *)
(** * The ledger service: data and operations
    (internal/platform/server/ledger_grpc.go and ledger_postgres.go)

    The state of [LedgerService], its helpers and its six handlers, with the
    statements it runs on the database as the interface [LedgerDB].  The
    theorems are in LedgerSpec.v and LedgerProofs.v. *)

From S2P Require Import Prelude GoTime GoJson AuditTrail Service Listing.

(** ** Messages (api/proto/rgs/v1/ledger.proto) *)

Record Money := mkMoney { AmountMinor : Z; Currency : string }.

Inductive LedgerTransactionType :=
| TT_UNSPECIFIED | TT_DEPOSIT | TT_WITHDRAWAL | TT_TRANSFER_TO_DEVICE
| TT_TRANSFER_TO_ACCOUNT | TT_GAMEPLAY_DEBIT | TT_GAMEPLAY_CREDIT
| TT_MANUAL_ADJUSTMENT.

Inductive TransferStatus :=
| TRANSFER_STATUS_UNSPECIFIED | TRANSFER_STATUS_ACCEPTED | TRANSFER_STATUS_PARTIAL
| TRANSFER_STATUS_UNRESOLVED | TRANSFER_STATUS_DENIED.

Record LedgerTransaction := mkTx {
  TransactionId : string; TxAccountId : string; TransactionType : LedgerTransactionType;
  TxAmount : Money; TxOccurredAt : string; AuthorizationId : string;
  Description : string }.

Record GetBalanceRequest := mkGetBalanceRequest {
  gb_Meta : option RequestMeta; gb_AccountId : string }.
Record GetBalanceResponse := mkGetBalanceResponse {
  gbr_Meta : ResponseMeta; gbr_AccountId : string;
  gbr_AvailableBalance : option Money; gbr_PendingBalance : option Money }.

Record DepositRequest := mkDepositRequest {
  dep_Meta : option RequestMeta; dep_AccountId : string; dep_Amount : option Money;
  dep_AuthorizationId : string }.
Record DepositResponse := mkDepositResponse {
  depr_Meta : ResponseMeta; depr_Transaction : option LedgerTransaction;
  depr_AvailableBalance : option Money }.

Record WithdrawRequest := mkWithdrawRequest {
  wd_Meta : option RequestMeta; wd_AccountId : string; wd_Amount : option Money }.
Record WithdrawResponse := mkWithdrawResponse {
  wdr_Meta : ResponseMeta; wdr_Transaction : option LedgerTransaction;
  wdr_AvailableBalance : option Money }.

Record TransferToDeviceRequest := mkTransferToDeviceRequest {
  td_Meta : option RequestMeta; td_AccountId : string; td_DeviceId : string;
  td_RequestedAmount : option Money }.
Record TransferToDeviceResponse := mkTransferToDeviceResponse {
  tdr_Meta : ResponseMeta; tdr_TransferId : string; tdr_TransferStatus : TransferStatus;
  tdr_TransferredAmount : option Money; tdr_AvailableBalance : option Money;
  tdr_UnresolvedReason : string }.

Record TransferToAccountRequest := mkTransferToAccountRequest {
  ta_Meta : option RequestMeta; ta_AccountId : string; ta_Amount : option Money }.
Record TransferToAccountResponse := mkTransferToAccountResponse {
  tar_Meta : ResponseMeta; tar_Transaction : option LedgerTransaction;
  tar_AvailableBalance : option Money }.

Record ListTransactionsRequest := mkListTransactionsRequest {
  lt_Meta : option RequestMeta; lt_AccountId : string; lt_PageSize : Z;
  lt_PageToken : string }.
Record ListTransactionsResponse := mkListTransactionsResponse {
  ltr_Meta : ResponseMeta; ltr_Transactions : list LedgerTransaction;
  ltr_NextPageToken : string }.

(** ** State *)

Record ledgerAccount := mkAccount {
  acct_id : string; acct_currency : string; available : Z; pending : Z }.

#[global] Instance eta_ledgerAccount : Eta ledgerAccount := λ a,
  mkAccount (acct_id a) (acct_currency a) (available a) (pending a).

Record ledgerPosting := mkPosting {
  p_accountID : string; p_direction : string; p_amount : Z; p_currency : string;
  p_createdAt : Time }.

Record LedgerState := mkLedger {
  accounts : gmap string ledgerAccount;
  transactionsByAcct : gmap string (list LedgerTransaction);
  postingsByTx : gmap string (list ledgerPosting);
  depositByIdempotency : gmap string DepositResponse;
  withdrawByIdempotency : gmap string WithdrawResponse;
  toDeviceByIdempotency : gmap string TransferToDeviceResponse;
  toAccountByIdempotency : gmap string TransferToAccountResponse;
  nextTransactionID : Z;
  nextTransferID : Z;
  eftFraudFailures : gmap string Z;
  eftFraudLockedUntil : gmap string Time;
  eftFraudMaxFailures : Z;
  eftFraudLockoutTTL : Duration;
  idempotencyTTL : Duration;
  disableInMemIdemCache : bool }.

#[global] Instance eta_LedgerState : Eta LedgerState := λ s,
  mkLedger (accounts s) (transactionsByAcct s) (postingsByTx s)
    (depositByIdempotency s) (withdrawByIdempotency s) (toDeviceByIdempotency s)
    (toAccountByIdempotency s) (nextTransactionID s) (nextTransferID s)
    (eftFraudFailures s) (eftFraudLockedUntil s) (eftFraudMaxFailures s)
    (eftFraudLockoutTTL s) (idempotencyTTL s) (disableInMemIdemCache s).

Definition NewLedgerState : LedgerState :=
  mkLedger ∅ ∅ ∅ ∅ ∅ ∅ ∅ 0 0 ∅ ∅ 5 (15 * Minute) (24 * Hour) false.

(** [NewLedgerService(clk, db...)]. *)
Definition NewLedgerService {D} (clk : option (nat → Time)) (handle : option D)
    : Svc D LedgerState :=
  mkSvc (mkBase clk (Some NewInMemoryStore) false 0 handle 0) NewLedgerState.

(** ** The database interface (ledger_postgres.go) *)

(** A row of ledger_transactions as the two queries select it; the listing
    query scans occurred_at as text, the other one as a time. *)
Record tx_row (T : Type) := mkTxRow {
  r_transaction_id : string; r_account_id : string; r_transaction_type : string;
  r_amount_minor : Z; r_currency_code : string; r_occurred_at : T;
  r_authorization_id : string }.
Global Arguments mkTxRow {T}.
Global Arguments r_transaction_id {T}.
Global Arguments r_account_id {T}.
Global Arguments r_transaction_type {T}.
Global Arguments r_amount_minor {T}.
Global Arguments r_currency_code {T}.
Global Arguments r_occurred_at {T}.
Global Arguments r_authorization_id {T}.

Class LedgerDB (D : Type) := {
  (** SELECT COALESCE(locked_until, to_timestamp(0)) FROM ledger_eft_lockouts *)
  q_eft_locked_until : string → D → res (option Time) * D;
  (** INSERT ... ON CONFLICT DO UPDATE SET failed_attempts = failed_attempts + 1 ... *)
  x_eft_failure : string → Z → Z → D → res () * D;
  (** INSERT ... ON CONFLICT DO UPDATE SET failed_attempts = 0, locked_until = NULL *)
  x_eft_reset : string → D → res () * D;
  (** INSERT INTO ledger_accounts ... ON CONFLICT (account_id) DO NOTHING:
      account, player, type, currency *)
  x_ensure_account : string → string → string → string → D → res () * D;
  (** INSERT INTO ledger_transactions ... ON CONFLICT (transaction_id) DO NOTHING:
      id, idempotency key, account, type, status, amount, currency,
      authorization id, occurred_at, received_at *)
  x_insert_transaction : string → string → string → string → string → Z → string →
    string → string → string → D → res () * D;
  (** INSERT INTO ledger_postings: transaction, account, direction, amount, currency *)
  x_insert_posting : string → string → string → Z → string → D → res () * D;
  (** UPDATE ledger_accounts SET available_balance_minor = ... + $2 *)
  x_adjust_balance : string → Z → D → res () * D;
  (** SELECT available_balance_minor, pending_balance_minor, currency_code *)
  q_balance : string → D → res (option (Z * Z * string)) * D;
  (** SELECT ... FROM ledger_transactions ... ORDER BY recorded_at DESC LIMIT OFFSET *)
  q_list_transactions : string → Z → Z → D → res (list (tx_row string)) * D;
  (** SELECT ... WHERE account_id AND transaction_type AND idempotency_key LIMIT 1 *)
  q_find_transaction : string → string → string → D → res (option (tx_row Time)) * D;
  (** SELECT request_hash, response_payload FROM ledger_idempotency_keys *)
  q_idempotency : string → string → D → res (option (string * string)) * D;
  (** INSERT INTO ledger_idempotency_keys ... ON CONFLICT DO NOTHING:
      scope, key, hash, payload, result code, expires_at *)
  x_idempotency : string → string → string → string → string → string → D → res () * D;
  (** DELETE of at most $1 expired keys; the number of rows deleted *)
  x_idempotency_cleanup : Z → D → res Z * D;
}.

(** [strings.ToUpper] on arbitrary text, where it reaches the database. *)
Class UnicodeUpper := unicode_ToUpper : string → string.

(** protojson's [Marshal] and [Unmarshal] at one message type. *)
Class ProtoJSON (R : Type) := {
  pj_Marshal : R → res string;
  pj_Unmarshal : string → res R }.

Definition ResultCode_String (c : ResultCode) : string :=
  match c with
  | RESULT_CODE_UNSPECIFIED => "RESULT_CODE_UNSPECIFIED"
  | RESULT_CODE_OK => "RESULT_CODE_OK"
  | RESULT_CODE_DENIED => "RESULT_CODE_DENIED"
  | RESULT_CODE_INVALID => "RESULT_CODE_INVALID"
  | RESULT_CODE_ERROR => "RESULT_CODE_ERROR"
  end.

(** ** Pure helpers *)

Definition invalidAmount (m : option Money) : bool :=
  match m with
  | None => true
  | Some m => (AmountMinor m <=? 0) || bool_decide (Currency m = "")
  end.

Definition money (amount : Z) (currency : string) : Money := mkMoney amount currency.

(** The loop of [isBalanced]: [None] when a direction is neither credit nor
    debit, otherwise the running int64 total. *)
Fixpoint balance_total (total : Z) (postings : list ledgerPosting) : option Z :=
  match postings with
  | [] => Some total
  | p :: ps =>
      if decide (p_direction p = "credit") then balance_total (wrap64 (total + p_amount p)) ps
      else if decide (p_direction p = "debit") then
        balance_total (wrap64 (total - p_amount p)) ps
      else None
  end.

Definition isBalanced (postings : list ledgerPosting) : bool :=
  match balance_total 0 postings with Some t => t =? 0 | None => false end.

Definition ledger_authorize (ctx : option Context) (meta : option RequestMeta)
    (accountID : string) : bool * string :=
  match resolveActor ctx meta with
  | inr reason => (false, reason)
  | inl actor =>
      match ActorTypeOf actor with
      | ACTOR_TYPE_OPERATOR | ACTOR_TYPE_SERVICE => (true, "")
      | ACTOR_TYPE_PLAYER =>
          if decide (accountID ≠ ActorId actor)
          then (false, "player cannot access another account") else (true, "")
      | _ => (false, "unauthorized actor type")
      end
  end.

(** [None] is a nil pointer; [Marshal] writes map keys in sorted order. *)
Definition snapshotAccount (acct : option ledgerAccount) : string :=
  match acct with
  | None => "{}"
  | Some acct =>
      json_object [("account_id", json_string (acct_id acct));
        ("available", json_int (available acct));
        ("currency", json_string (acct_currency acct));
        ("pending", json_int (pending acct))]
  end.

Definition idemScope (accountID op : string) : string := accountID +:+ "|" +:+ op.

Definition hashRequest `{Crypto} (parts : list string) : string := sha256 (Join "|" parts).

Definition ledgerTxTypeToDB (v : LedgerTransactionType) : string :=
  match v with
  | TT_DEPOSIT => "deposit"
  | TT_WITHDRAWAL => "withdrawal"
  | TT_TRANSFER_TO_DEVICE => "transfer_to_device"
  | TT_TRANSFER_TO_ACCOUNT => "transfer_to_account"
  | TT_GAMEPLAY_DEBIT => "gameplay_debit"
  | TT_GAMEPLAY_CREDIT => "gameplay_credit"
  | TT_MANUAL_ADJUSTMENT => "manual_adjustment"
  | TT_UNSPECIFIED => "manual_adjustment"
  end.

Definition ledgerTxTypeFromDB (v : string) : LedgerTransactionType :=
  if decide (v = "deposit") then TT_DEPOSIT
  else if decide (v = "withdrawal") then TT_WITHDRAWAL
  else if decide (v = "transfer_to_device") then TT_TRANSFER_TO_DEVICE
  else if decide (v = "transfer_to_account") then TT_TRANSFER_TO_ACCOUNT
  else if decide (v = "gameplay_debit") then TT_GAMEPLAY_DEBIT
  else if decide (v = "gameplay_credit") then TT_GAMEPLAY_CREDIT
  else if decide (v = "manual_adjustment") then TT_MANUAL_ADJUSTMENT
  else TT_UNSPECIFIED.

(** ** Operations on the state *)

(** A [*ledgerAccount]: the struct the accounts map points to under its id, so
    that writes through it change the map's entry, or one only the handler
    has. *)
Inductive acctPtr := Shared (id : string) | Detached (acct : ledgerAccount).

Section ledger.
Context {D : Type} `{!Wall, !Crypto, !JsonValid, !UnicodeUpper, !AuditDB D, !LedgerDB D}.
Context `{!ProtoJSON DepositResponse, !ProtoJSON WithdrawResponse,
  !ProtoJSON TransferToDeviceResponse, !ProtoJSON TransferToAccountResponse}.

Abbreviation LM := (M (Svc D LedgerState)).

Definition SetIdempotencyTTL (ttl : Duration) : LM () :=
  let ttl := if ttl <=? 0 then 24 * Hour else ttl in
  locked (mod_st (λ s, s <| idempotencyTTL := ttl |>)).

Definition getIdempotencyTTL : LM Duration :=
  locked (ttl ← get_st idempotencyTTL;
          mret (if ttl <=? 0 then 24 * Hour else ttl)).

Definition SetEFTFraudPolicy (maxFailures : Z) (ttl : Duration) : LM () :=
  let maxFailures := if maxFailures <=? 0 then 5 else maxFailures in
  let ttl := if ttl <=? 0 then 15 * Minute else ttl in
  locked (mod_st (λ s, s <| eftFraudMaxFailures := maxFailures |>
                         <| eftFraudLockoutTTL := ttl |>)).

Definition SetDisableInMemoryIdempotencyCache (disable : bool) : LM () :=
  locked (mod_st (λ s, s <| disableInMemIdemCache := disable |>)).

Definition useInMemoryIdempotencyCache : LM bool :=
  enabled ← dbEnabled; disabled ← get_st disableInMemIdemCache;
  mret (negb (enabled && disabled)).

Definition useInMemoryStateMirror : LM bool :=
  enabled ← dbEnabled; disabled ← get_st disableInMemIdemCache;
  mret (negb (enabled && disabled)).

Definition accountBalance (accountID : string) : LM (Z * Z * string * bool) :=
  acct ← get_st (λ s, accounts s !! accountID);
  mret (match acct with
        | None => (0, 0, "", false)
        | Some a => (available a, pending a, acct_currency a, true)
        end).

(** A new account struct, put into the accounts map if the state mirror is
    in use. *)
Definition place_account (a : ledgerAccount) : LM acctPtr :=
  mirror ← useInMemoryStateMirror;
  if (mirror : bool) then
    mod_st (λ s, s <| accounts ::= insert (acct_id a) a |>);; mret (Shared (acct_id a))
  else mret (Detached a).

Definition deref (p : acctPtr) : LM ledgerAccount :=
  match p with
  | Detached a => mret a
  | Shared id =>
      a ← get_st (λ s, accounts s !! id);
      match a with Some a => mret a | None => panic end
  end.

(** [acct.available += delta]. *)
Definition add_available (p : acctPtr) (delta : Z) : LM acctPtr :=
  let add a := a <| available ::= λ v, wrap64 (v + delta) |> in
  match p with
  | Detached a => mret (Detached (add a))
  | Shared id => mod_st (λ s, s <| accounts ::= alter add id |>);; mret (Shared id)
  end.

Definition getOrCreateAccount (accountID currency : string) : LM acctPtr :=
  found ← get_st (λ s, accounts s !! accountID);
  match found with
  | Some _ => mret (Shared accountID)
  | None => place_account (mkAccount accountID currency 0 0)
  end.

Definition getBalanceFromDB (accountID : string) : LM (res (option (Z * Z * string))) :=
  enabled ← dbEnabled;
  if negb enabled then mret (Ok None) else run_db (q_balance accountID).

Definition mutationAccountState (accountID defaultCurrency : string) : LM (res acctPtr) :=
  enabled ← dbEnabled;
  if (enabled : bool) then
    r ← getBalanceFromDB accountID;
    match r with
    | Err e => mret (Err e)
    | Ok row =>
        let acct :=
          match row with
          | Some (av, pe, cur) => mkAccount accountID cur av pe
          | None => mkAccount accountID defaultCurrency 0 0
          end in
        p ← place_account acct; mret (Ok p)
    end
  else p ← getOrCreateAccount accountID defaultCurrency; mret (Ok p).

Definition appendTransaction (tx : LedgerTransaction) : LM () :=
  mirror ← useInMemoryStateMirror;
  if negb mirror then mret ()
  else mod_st (λ s, s <| transactionsByAcct ::= λ m,
         <[TxAccountId tx := map_get [] m (TxAccountId tx) ++ [tx]]> m |>).

Definition rollbackLastTransaction (accountID : string) : LM () :=
  mirror ← useInMemoryStateMirror;
  if negb mirror then mret ()
  else
    txs ← get_st (λ s, map_get [] (transactionsByAcct s) accountID);
    if decide (txs = []) then mret ()
    else mod_st (λ s, s <| transactionsByAcct ::=
           insert accountID (take (length txs - 1) txs) |>).

Definition nextTxIDLocked : LM string :=
  mod_st (λ s, s <| nextTransactionID ::= λ n, wrap64 (n + 1) |>);;
  n ← get_st nextTransactionID; mret ("tx-" +:+ FormatInt n).

Definition nextTransferIDLocked : LM string :=
  mod_st (λ s, s <| nextTransferID ::= λ n, wrap64 (n + 1) |>);;
  n ← get_st nextTransferID; mret ("tr-" +:+ FormatInt n).

Definition addPostings (txID : string) (postings : list ledgerPosting) : LM bool :=
  if negb (isBalanced postings) then mret false
  else
    mirror ← useInMemoryStateMirror;
    (if (mirror : bool) then
       mod_st (λ s, s <| postingsByTx ::= λ m, <[txID := map_get [] m txID ++ postings]> m |>)
     else mret ());;
    mret true.

Definition delete_postings (txID : string) : LM () :=
  mod_st (λ s, s <| postingsByTx ::= delete txID |>).

Definition ledger_appendAudit := appendAudit (D := D) (S := LedgerState) "audit-".

Definition auditDenied (meta : option RequestMeta)
    (objectType objectID action reason : string) : LM () :=
  ledger_appendAudit meta objectType objectID action "{}" "{}" ResultDenied reason;;
  mret ().

Definition eftLocked (accountID : string) : LM (res bool) :=
  enabled ← dbEnabled;
  if (enabled : bool) then
    r ← run_db (q_eft_locked_until accountID);
    match r with
    | Err e => mret (Err e)
    | Ok None => mret (Ok false)
    | Ok (Some lockedUntil) => t ← now; mret (Ok (time_After lockedUntil t))
    end
  else
    until ← get_st (λ s, map_get zero_time (eftFraudLockedUntil s) accountID);
    t ← now; mret (Ok (time_After until t)).

(** [int(d.Seconds())], the whole seconds of a duration (below 2^22 seconds,
    where the float64 in between is exact enough). *)
Definition seconds (d : Duration) : Z := Z.quot d Second.

Definition recordEFTFailure (accountID : string) : LM (option error) :=
  if decide (accountID = "") then mret None else
  enabled ← dbEnabled;
  if (enabled : bool) then
    mx ← get_st eftFraudMaxFailures; ttl ← get_st eftFraudLockoutTTL;
    r ← run_db (x_eft_failure accountID mx (seconds ttl));
    mret (match r with Ok _ => None | Err e => Some e end)
  else
    mod_st (λ s, s <| eftFraudFailures ::= λ m,
      <[accountID := wrap64 (map_get 0 m accountID + 1)]> m |>);;
    n ← get_st (λ s, map_get 0 (eftFraudFailures s) accountID);
    mx ← get_st eftFraudMaxFailures;
    (if mx <=? n then
       t ← now; ttl ← get_st eftFraudLockoutTTL;
       mod_st (λ s, s <| eftFraudLockedUntil ::= insert accountID (t + ttl) |>)
     else mret ());;
    mret None.

Definition resetEFTFailures (accountID : string) : LM (option error) :=
  if decide (accountID = "") then mret None else
  enabled ← dbEnabled;
  if (enabled : bool) then
    r ← run_db (x_eft_reset accountID);
    mret (match r with Ok _ => None | Err e => Some e end)
  else
    mod_st (λ s, s <| eftFraudFailures ::= delete accountID |>);;
    mod_st (λ s, s <| eftFraudLockedUntil ::= delete accountID |>);;
    mret None.

(** ** ledger_postgres.go *)

Definition ensureLedgerAccountTx (accountID currency : string) : LM (res ()) :=
  let '(accountType, playerID) :=
    if decide (accountID = "operator_liability") then ("operator_liability", "")
    else ("player_cashless", accountID) in
  let '(accountType, playerID) :=
    if HasPrefix accountID "device_escrow" then ("device_escrow", "")
    else (accountType, playerID) in
  run_db (x_ensure_account accountID playerID accountType (unicode_ToUpper currency)).

(** Runs statements until the first one fails. *)
Fixpoint exec_all {A} (f : A → LM (res ())) (l : list A) : LM (res ()) :=
  match l with
  | [] => mret (Ok ())
  | a :: l' =>
      r ← f a;
      match r with Err e => mret (Err e) | Ok _ => exec_all f l' end
  end.

Definition posting_delta (p : ledgerPosting) : Z :=
  if decide (p_direction p = "debit") then wrap64 (- p_amount p) else p_amount p.

(** [None] is a nil error.  The deferred [Rollback] runs on every path once
    the transaction has begun, also after [Commit]. *)
Definition persistLedgerMutation (txRecord : LedgerTransaction)
    (postings : list ledgerPosting) (status idemKey : string) : LM (option error) :=
  enabled ← dbEnabled;
  if negb enabled then mret None
  else if decide (length postings = 0%nat) then mret None
  else
  b ← run_db db_begin;
  match b with
  | Err e => mret (Some e)
  | Ok _ =>
      r ← (a ← exec_all (λ p, ensureLedgerAccountTx (p_accountID p) (p_currency p)) postings;
           match a with
           | Err e => mret (Err e)
           | Ok _ =>
           occurred ← (if decide (TxOccurredAt txRecord = "")
                       then t ← time_Now; mret (FormatRFC3339Nano t)
                       else mret (TxOccurredAt txRecord));
           received ← time_Now;
           i ← run_db (x_insert_transaction (TransactionId txRecord) idemKey
                 (TxAccountId txRecord) (ledgerTxTypeToDB (TransactionType txRecord))
                 status (AmountMinor (TxAmount txRecord))
                 (unicode_ToUpper (Currency (TxAmount txRecord)))
                 (AuthorizationId txRecord) occurred (FormatRFC3339Nano received));
           match i with
           | Err e => mret (Err e)
           | Ok _ =>
           p ← exec_all (λ p, run_db (x_insert_posting (TransactionId txRecord)
                 (p_accountID p) (p_direction p) (p_amount p)
                 (unicode_ToUpper (p_currency p)))) postings;
           match p with
           | Err e => mret (Err e)
           | Ok _ =>
           d ← exec_all (λ p, run_db (x_adjust_balance (p_accountID p) (posting_delta p)))
                 postings;
           match d with
           | Err e => mret (Err e)
           | Ok _ => run_db db_commit
           end end end end);
      run_db (λ d, ((), db_rollback d));;
      mret (match r with Ok _ => None | Err e => Some e end)
  end.

Definition listTransactionsFromDB (accountID : string) (limit offset : Z)
    : LM (res (option (list LedgerTransaction))) :=
  enabled ← dbEnabled;
  if negb enabled then mret (Ok None) else
  r ← run_db (q_list_transactions accountID limit offset);
  mret (match r with
        | Err e => Err e
        | Ok rows => Ok (Some ((λ w, mkTx (r_transaction_id w) (r_account_id w)
            (ledgerTxTypeFromDB (r_transaction_type w))
            (money (r_amount_minor w) (r_currency_code w)) (r_occurred_at w)
            (r_authorization_id w) "") <$> rows))
        end).

Definition findTransactionByIdempotency (accountID : string)
    (txType : LedgerTransactionType) (idemKey : string)
    : LM (res (option LedgerTransaction)) :=
  enabled ← dbEnabled;
  if negb enabled then mret (Ok None) else
  r ← run_db (q_find_transaction accountID (ledgerTxTypeToDB txType) idemKey);
  mret (match r with
        | Err e => Err e
        | Ok row => Ok ((λ w, mkTx (r_transaction_id w) (r_account_id w)
            (ledgerTxTypeFromDB (r_transaction_type w))
            (money (r_amount_minor w) (r_currency_code w))
            (FormatRFC3339Nano (r_occurred_at w)) (r_authorization_id w) "") <$> row)
        end).

(** [Ok None]: not found; a stored hash that differs is a mismatch. *)
Definition loadIdempotencyResponse {R} `{!ProtoJSON R} (scope idemKey requestHash : string)
    : LM (res (option R)) :=
  enabled ← dbEnabled;
  if negb enabled then mret (Ok None) else
  r ← run_db (q_idempotency scope idemKey);
  mret (match r with
        | Err e => Err e
        | Ok None => Ok None
        | Ok (Some (storedHash, payload)) =>
            if decide (storedHash ≠ requestHash) then Err errIdempotencyRequestMismatch
            else match pj_Unmarshal payload with
                 | Ok out => Ok (Some out)
                 | Err e => Err e
                 end
        end).

Definition persistIdempotencyResponse {R} `{!ProtoJSON R}
    (scope idemKey requestHash : string) (resultCode : ResultCode) (resp : R)
    : LM (option error) :=
  enabled ← dbEnabled;
  if negb enabled then mret None else
  match pj_Marshal resp with
  | Err e => mret (Some e)
  | Ok payload =>
      t ← time_Now;
      ttl ← getIdempotencyTTL;
      r ← run_db (x_idempotency scope idemKey requestHash payload
            (ResultCode_String resultCode) (FormatRFC3339Nano (t + ttl)));
      mret (match r with Ok _ => None | Err e => Some e end)
  end.

Definition CleanupExpiredIdempotencyKeys (batchSize : Z) : LM (res Z) :=
  enabled ← dbEnabled;
  if negb enabled then mret (Ok 0) else
  let batchSize := if batchSize <=? 0 then 500 else batchSize in
  run_db (x_idempotency_cleanup batchSize).

(** ** Handlers (ledger_grpc.go)

    A nil request is [None].  Replies that carry only their envelope are
    built by the [_reply] functions. *)

Definition getBalance_reply meta code reason : LM GetBalanceResponse :=
  m ← responseMeta meta code reason; mret (mkGetBalanceResponse m "" None None).

Definition GetBalance (ctx : option Context) (req : option GetBalanceRequest)
    : LM GetBalanceResponse :=
  match req with
  | None => getBalance_reply None RESULT_CODE_INVALID "account_id is required"
  | Some req =>
  let meta := gb_Meta req in
  let accountID := gb_AccountId req in
  if decide (accountID = "") then
    getBalance_reply None RESULT_CODE_INVALID "account_id is required" else
  let '(ok, reason) := ledger_authorize ctx meta accountID in
  if negb ok then
    auditDenied meta "ledger_account" accountID "get_balance" reason;;
    getBalance_reply meta RESULT_CODE_DENIED reason
  else
  locked (
    mem ← accountBalance accountID;
    enabled ← dbEnabled;
    row ← (if (enabled : bool) then getBalanceFromDB accountID else mret (Ok None));
    match row with
    | Err _ => getBalance_reply meta RESULT_CODE_ERROR "persistence unavailable"
    | Ok row =>
        let '(av, pe, cur, ok) :=
          match row with Some (a, p, c) => (a, p, c, true) | None => mem end in
        let cur := if negb ok then "USD" else cur in
        m ← responseMeta meta RESULT_CODE_OK "";
        mret (mkGetBalanceResponse m accountID (Some (money av cur)) (Some (money pe cur)))
    end)
  end.

Definition deposit_reply meta code reason : LM DepositResponse :=
  m ← responseMeta meta code reason; mret (mkDepositResponse m None None).

(** [s.depositByIdempotency[key] = proto.Clone(resp)], if the cache is on. *)
Definition cacheDeposit (key : string) (resp : DepositResponse) : LM () :=
  use ← useInMemoryIdempotencyCache;
  if (use : bool) then mod_st (λ s, s <| depositByIdempotency ::= insert key resp |>)
  else mret ().

(** Undoing a booked mutation of [delta] after the audit or the database
    failed. *)
Definition undo_booking (acct : acctPtr) (delta : Z) (txID accountID : string) : LM () :=
  add_available acct (- delta);; delete_postings txID;; rollbackLastTransaction accountID.

Definition Deposit (ctx : option Context) (req : option DepositRequest)
    : LM DepositResponse :=
  match req with
  | None => deposit_reply None RESULT_CODE_INVALID "account_id is required"
  | Some req =>
  let meta := dep_Meta req in
  let accountID := dep_AccountId req in
  if decide (accountID = "") then
    deposit_reply None RESULT_CODE_INVALID "account_id is required" else
  let '(ok, reason) := ledger_authorize ctx meta accountID in
  if negb ok then
    auditDenied meta "ledger_account" accountID "deposit" reason;;
    deposit_reply meta RESULT_CODE_DENIED reason
  else match dep_Amount req with
  | None => deposit_reply meta RESULT_CODE_INVALID "amount must be > 0 and currency provided"
  | Some amount =>
  if invalidAmount (Some amount) then
    deposit_reply meta RESULT_CODE_INVALID "amount must be > 0 and currency provided"
  else
  let idem := idempotency meta in
  if decide (idem = "") then
    deposit_reply meta RESULT_CODE_INVALID "idempotency_key is required"
  else
  locked (
    let unavailable := deposit_reply meta RESULT_CODE_ERROR "persistence unavailable" in
    lk ← eftLocked accountID;
    match lk with
    | Err _ => unavailable
    | Ok true =>
        auditDenied meta "ledger_account" accountID "deposit" "eft account locked";;
        deposit_reply meta RESULT_CODE_DENIED "eft account locked"
    | Ok false =>
    let key := accountID +:+ "|deposit|" +:+ idem in
    let scope := idemScope accountID "deposit" in
    let requestHash := hashRequest [scope; Currency amount;
      FormatInt (AmountMinor amount); dep_AuthorizationId req] in
    or_else (
      use ← useInMemoryIdempotencyCache;
      if (use : bool) then get_st (λ s, depositByIdempotency s !! key) else mret None) $
    or_else (
      enabled ← dbEnabled;
      if negb enabled then mret None else
      found ← loadIdempotencyResponse scope idem requestHash;
      match found with
      | Err errIdempotencyRequestMismatch =>
          return_ (deposit_reply meta RESULT_CODE_INVALID
            "idempotency_key reused with different request")
      | Err _ => return_ unavailable
      | Ok (Some replay) => cacheDeposit key replay;; mret (Some replay)
      | Ok None => mret None
      end) $
    or_else (
      enabled ← dbEnabled;
      if negb enabled then mret None else
      found ← findTransactionByIdempotency accountID TT_DEPOSIT idem;
      match found with
      | Err _ => return_ unavailable
      | Ok None => mret None
      | Ok (Some tx) =>
          bal ← getBalanceFromDB accountID;
          match bal with
          | Err _ => return_ unavailable
          | Ok row =>
              let '(av, cur) := match row with
                | Some (a, _, c) => (a, c) | None => (0, Currency amount) end in
              m ← responseMeta meta RESULT_CODE_OK "";
              let resp := mkDepositResponse m (Some tx) (Some (money av cur)) in
              cacheDeposit key resp;; mret (Some resp)
          end
      end) $
    (acct ← mutationAccountState accountID (Currency amount);
    match acct with
    | Err _ => unavailable
    | Ok acct =>
    a ← deref acct;
    if decide (acct_currency a ≠ Currency amount) then
      deposit_reply meta RESULT_CODE_INVALID "currency mismatch for account"
    else
    let before := snapshotAccount (Some a) in
    t ← now;
    txID ← nextTxIDLocked;
    let postings :=
      [mkPosting "operator_liability" "debit" (AmountMinor amount) (Currency amount) t;
       mkPosting accountID "credit" (AmountMinor amount) (Currency amount) t] in
    balanced ← addPostings txID postings;
    if negb balanced then deposit_reply meta RESULT_CODE_ERROR "unbalanced postings" else
    acct ← add_available acct (AmountMinor amount);
    let tx := mkTx txID accountID TT_DEPOSIT (money (AmountMinor amount) (Currency amount))
      (FormatRFC3339Nano t) (dep_AuthorizationId req) "deposit accepted" in
    appendTransaction tx;;
    a ← deref acct;
    let after := snapshotAccount (Some a) in
    e ← ledger_appendAudit meta "ledger_account" accountID "deposit" before after
          ResultSuccess "";
    match e with
    | Some _ =>
        undo_booking acct (AmountMinor amount) txID accountID;;
        deposit_reply meta RESULT_CODE_ERROR "audit unavailable"
    | None =>
    e ← persistLedgerMutation tx postings "accepted" idem;
    match e with
    | Some _ => undo_booking acct (AmountMinor amount) txID accountID;; unavailable
    | None =>
    m ← responseMeta meta RESULT_CODE_OK "";
    a ← deref acct;
    let resp := mkDepositResponse m (Some tx)
      (Some (money (available a) (acct_currency a))) in
    e ← persistIdempotencyResponse scope idem requestHash (ResCode m) resp;
    match e with
    | Some _ => unavailable
    | None =>
    cacheDeposit key resp;;
    resetEFTFailures accountID;;
    mret resp
    end end end end)
    end)
  end end.

Definition withdraw_reply meta code reason : LM WithdrawResponse :=
  m ← responseMeta meta code reason; mret (mkWithdrawResponse m None None).

Definition cacheWithdraw (key : string) (resp : WithdrawResponse) : LM () :=
  use ← useInMemoryIdempotencyCache;
  if (use : bool) then mod_st (λ s, s <| withdrawByIdempotency ::= insert key resp |>)
  else mret ().

Definition Withdraw (ctx : option Context) (req : option WithdrawRequest)
    : LM WithdrawResponse :=
  match req with
  | None => withdraw_reply None RESULT_CODE_INVALID "account_id is required"
  | Some req =>
  let meta := wd_Meta req in
  let accountID := wd_AccountId req in
  if decide (accountID = "") then
    withdraw_reply None RESULT_CODE_INVALID "account_id is required" else
  let '(ok, reason) := ledger_authorize ctx meta accountID in
  if negb ok then
    auditDenied meta "ledger_account" accountID "withdraw" reason;;
    withdraw_reply meta RESULT_CODE_DENIED reason
  else match wd_Amount req with
  | None => withdraw_reply meta RESULT_CODE_INVALID "amount must be > 0 and currency provided"
  | Some amount =>
  if invalidAmount (Some amount) then
    withdraw_reply meta RESULT_CODE_INVALID "amount must be > 0 and currency provided"
  else
  let idem := idempotency meta in
  if decide (idem = "") then
    withdraw_reply meta RESULT_CODE_INVALID "idempotency_key is required"
  else
  locked (
    let unavailable := withdraw_reply meta RESULT_CODE_ERROR "persistence unavailable" in
    lk ← eftLocked accountID;
    match lk with
    | Err _ => unavailable
    | Ok true =>
        auditDenied meta "ledger_account" accountID "withdraw" "eft account locked";;
        withdraw_reply meta RESULT_CODE_DENIED "eft account locked"
    | Ok false =>
    let key := accountID +:+ "|withdraw|" +:+ idem in
    let scope := idemScope accountID "withdraw" in
    let requestHash := hashRequest [scope; Currency amount;
      FormatInt (AmountMinor amount)] in
    or_else (
      use ← useInMemoryIdempotencyCache;
      if (use : bool) then get_st (λ s, withdrawByIdempotency s !! key) else mret None) $
    or_else (
      enabled ← dbEnabled;
      if negb enabled then mret None else
      found ← loadIdempotencyResponse scope idem requestHash;
      match found with
      | Err errIdempotencyRequestMismatch =>
          return_ (withdraw_reply meta RESULT_CODE_INVALID
            "idempotency_key reused with different request")
      | Err _ => return_ unavailable
      | Ok (Some replay) => cacheWithdraw key replay;; mret (Some replay)
      | Ok None => mret None
      end) $
    or_else (
      enabled ← dbEnabled;
      if negb enabled then mret None else
      found ← findTransactionByIdempotency accountID TT_WITHDRAWAL idem;
      match found with
      | Err _ => return_ unavailable
      | Ok None => mret None
      | Ok (Some tx) =>
          bal ← getBalanceFromDB accountID;
          match bal with
          | Err _ => return_ unavailable
          | Ok row =>
              let '(av, cur) := match row with
                | Some (a, _, c) => (a, c) | None => (0, Currency amount) end in
              m ← responseMeta meta RESULT_CODE_OK "";
              let resp := mkWithdrawResponse m (Some tx) (Some (money av cur)) in
              cacheWithdraw key resp;; mret (Some resp)
          end
      end) $
    (acct ← mutationAccountState accountID (Currency amount);
    match acct with
    | Err _ => unavailable
    | Ok acct =>
    a ← deref acct;
    if decide (acct_currency a ≠ Currency amount) then
      withdraw_reply meta RESULT_CODE_INVALID "currency mismatch for account"
    else if available a <? AmountMinor amount then
      e ← recordEFTFailure accountID;
      match e with
      | Some _ => unavailable
      | None =>
      auditDenied meta "ledger_account" accountID "withdraw" "insufficient balance";;
      m ← responseMeta meta RESULT_CODE_DENIED "insufficient balance";
      a ← deref acct;
      let resp := mkWithdrawResponse m None
        (Some (money (available a) (acct_currency a))) in
      e ← persistIdempotencyResponse scope idem requestHash (ResCode m) resp;
      match e with
      | Some _ => unavailable
      | None => cacheWithdraw key resp;; mret resp
      end end
    else
    let before := snapshotAccount (Some a) in
    t ← now;
    txID ← nextTxIDLocked;
    let postings :=
      [mkPosting accountID "debit" (AmountMinor amount) (Currency amount) t;
       mkPosting "operator_liability" "credit" (AmountMinor amount) (Currency amount) t] in
    balanced ← addPostings txID postings;
    if negb balanced then withdraw_reply meta RESULT_CODE_ERROR "unbalanced postings" else
    acct ← add_available acct (- AmountMinor amount);
    let tx := mkTx txID accountID TT_WITHDRAWAL
      (money (AmountMinor amount) (Currency amount)) (FormatRFC3339Nano t) ""
      "withdrawal accepted" in
    appendTransaction tx;;
    a ← deref acct;
    let after := snapshotAccount (Some a) in
    e ← ledger_appendAudit meta "ledger_account" accountID "withdraw" before after
          ResultSuccess "";
    match e with
    | Some _ =>
        undo_booking acct (- AmountMinor amount) txID accountID;;
        withdraw_reply meta RESULT_CODE_ERROR "audit unavailable"
    | None =>
    e ← persistLedgerMutation tx postings "accepted" idem;
    match e with
    | Some _ => undo_booking acct (- AmountMinor amount) txID accountID;; unavailable
    | None =>
    m ← responseMeta meta RESULT_CODE_OK "";
    a ← deref acct;
    let resp := mkWithdrawResponse m (Some tx)
      (Some (money (available a) (acct_currency a))) in
    e ← persistIdempotencyResponse scope idem requestHash (ResCode m) resp;
    match e with
    | Some _ => unavailable
    | None =>
    cacheWithdraw key resp;;
    resetEFTFailures accountID;;
    mret resp
    end end end end)
    end)
  end end.

Definition toDevice_reply meta code reason : LM TransferToDeviceResponse :=
  m ← responseMeta meta code reason;
  mret (mkTransferToDeviceResponse m "" TRANSFER_STATUS_UNSPECIFIED None None "").

Definition cacheToDevice (key : string) (resp : TransferToDeviceResponse) : LM () :=
  use ← useInMemoryIdempotencyCache;
  if (use : bool) then mod_st (λ s, s <| toDeviceByIdempotency ::= insert key resp |>)
  else mret ().

Definition TransferToDevice (ctx : option Context) (req : option TransferToDeviceRequest)
    : LM TransferToDeviceResponse :=
  match req with
  | None => toDevice_reply None RESULT_CODE_INVALID "account_id and device_id are required"
  | Some req =>
  let meta := td_Meta req in
  let accountID := td_AccountId req in
  if decide (accountID = "" ∨ td_DeviceId req = "") then
    toDevice_reply None RESULT_CODE_INVALID "account_id and device_id are required" else
  let '(ok, reason) := ledger_authorize ctx meta accountID in
  if negb ok then
    auditDenied meta "ledger_account" accountID "transfer_to_device" reason;;
    toDevice_reply meta RESULT_CODE_DENIED reason
  else match td_RequestedAmount req with
  | None => toDevice_reply meta RESULT_CODE_INVALID
      "requested_amount must be > 0 and currency provided"
  | Some amount =>
  if invalidAmount (Some amount) then
    toDevice_reply meta RESULT_CODE_INVALID
      "requested_amount must be > 0 and currency provided"
  else
  let idem := idempotency meta in
  if decide (idem = "") then
    toDevice_reply meta RESULT_CODE_INVALID "idempotency_key is required"
  else
  locked (
    let unavailable := toDevice_reply meta RESULT_CODE_ERROR "persistence unavailable" in
    lk ← eftLocked accountID;
    match lk with
    | Err _ => unavailable
    | Ok true =>
        auditDenied meta "ledger_account" accountID "transfer_to_device"
          "eft account locked";;
        toDevice_reply meta RESULT_CODE_DENIED "eft account locked"
    | Ok false =>
    let key := accountID +:+ "|to_device|" +:+ idem in
    let scope := idemScope accountID "transfer_to_device" in
    let requestHash := hashRequest [scope; td_DeviceId req; Currency amount;
      FormatInt (AmountMinor amount)] in
    or_else (
      use ← useInMemoryIdempotencyCache;
      if (use : bool) then get_st (λ s, toDeviceByIdempotency s !! key) else mret None) $
    or_else (
      enabled ← dbEnabled;
      if negb enabled then mret None else
      found ← loadIdempotencyResponse scope idem requestHash;
      match found with
      | Err errIdempotencyRequestMismatch =>
          return_ (toDevice_reply meta RESULT_CODE_INVALID
            "idempotency_key reused with different request")
      | Err _ => return_ unavailable
      | Ok (Some replay) => cacheToDevice key replay;; mret (Some replay)
      | Ok None => mret None
      end) $
    (acct ← mutationAccountState accountID (Currency amount);
    match acct with
    | Err _ => unavailable
    | Ok acct =>
    a ← deref acct;
    if decide (acct_currency a ≠ Currency amount) then
      toDevice_reply meta RESULT_CODE_INVALID "currency mismatch for account"
    else if available a <=? 0 then
      e ← recordEFTFailure accountID;
      match e with
      | Some _ => unavailable
      | None =>
      auditDenied meta "ledger_account" accountID "transfer_to_device"
        "insufficient balance";;
      m ← responseMeta meta RESULT_CODE_DENIED "insufficient balance";
      a ← deref acct;
      let resp := mkTransferToDeviceResponse m "" TRANSFER_STATUS_DENIED
        (Some (money 0 (acct_currency a)))
        (Some (money (available a) (acct_currency a))) "" in
      e ← persistIdempotencyResponse scope idem requestHash (ResCode m) resp;
      match e with
      | Some _ => unavailable
      | None => cacheToDevice key resp;; mret resp
      end end
    else
    let '(transfer, status, reason) :=
      if available a <? AmountMinor amount
      then (available a, TRANSFER_STATUS_PARTIAL,
            "requested amount exceeds available balance")
      else (AmountMinor amount, TRANSFER_STATUS_ACCEPTED, "") in
    let before := snapshotAccount (Some a) in
    t ← now;
    txID ← nextTxIDLocked;
    let postings :=
      [mkPosting accountID "debit" transfer (Currency amount) t;
       mkPosting ("device_escrow:" +:+ td_DeviceId req) "credit" transfer
         (Currency amount) t] in
    balanced ← addPostings txID postings;
    if negb balanced then toDevice_reply meta RESULT_CODE_ERROR "unbalanced postings" else
    acct ← add_available acct (- transfer);
    let tx := mkTx txID accountID TT_TRANSFER_TO_DEVICE
      (money transfer (Currency amount)) (FormatRFC3339Nano t) ""
      "transfer to device" in
    appendTransaction tx;;
    a ← deref acct;
    let after := snapshotAccount (Some a) in
    e ← ledger_appendAudit meta "ledger_account" accountID "transfer_to_device"
          before after ResultSuccess reason;
    match e with
    | Some _ =>
        undo_booking acct (- transfer) txID accountID;;
        toDevice_reply meta RESULT_CODE_ERROR "audit unavailable"
    | None =>
    e ← persistLedgerMutation tx postings "accepted" idem;
    match e with
    | Some _ => undo_booking acct (- transfer) txID accountID;; unavailable
    | None =>
    m ← responseMeta meta RESULT_CODE_OK "";
    transferID ← nextTransferIDLocked;
    a ← deref acct;
    let resp := mkTransferToDeviceResponse m transferID status
      (Some (money transfer (acct_currency a)))
      (Some (money (available a) (acct_currency a))) reason in
    e ← persistIdempotencyResponse scope idem requestHash (ResCode m) resp;
    match e with
    | Some _ => unavailable
    | None =>
    cacheToDevice key resp;;
    resetEFTFailures accountID;;
    mret resp
    end end end end)
    end)
  end end.

Definition toAccount_reply meta code reason : LM TransferToAccountResponse :=
  m ← responseMeta meta code reason; mret (mkTransferToAccountResponse m None None).

Definition cacheToAccount (key : string) (resp : TransferToAccountResponse) : LM () :=
  use ← useInMemoryIdempotencyCache;
  if (use : bool) then mod_st (λ s, s <| toAccountByIdempotency ::= insert key resp |>)
  else mret ().

Definition TransferToAccount (ctx : option Context)
    (req : option TransferToAccountRequest) : LM TransferToAccountResponse :=
  match req with
  | None => toAccount_reply None RESULT_CODE_INVALID "account_id is required"
  | Some req =>
  let meta := ta_Meta req in
  let accountID := ta_AccountId req in
  if decide (accountID = "") then
    toAccount_reply None RESULT_CODE_INVALID "account_id is required" else
  let '(ok, reason) := ledger_authorize ctx meta accountID in
  if negb ok then
    auditDenied meta "ledger_account" accountID "transfer_to_account" reason;;
    toAccount_reply meta RESULT_CODE_DENIED reason
  else match ta_Amount req with
  | None => toAccount_reply meta RESULT_CODE_INVALID
      "amount must be > 0 and currency provided"
  | Some amount =>
  if invalidAmount (Some amount) then
    toAccount_reply meta RESULT_CODE_INVALID "amount must be > 0 and currency provided"
  else
  let idem := idempotency meta in
  if decide (idem = "") then
    toAccount_reply meta RESULT_CODE_INVALID "idempotency_key is required"
  else
  locked (
    let unavailable := toAccount_reply meta RESULT_CODE_ERROR "persistence unavailable" in
    lk ← eftLocked accountID;
    match lk with
    | Err _ => unavailable
    | Ok true =>
        auditDenied meta "ledger_account" accountID "transfer_to_account"
          "eft account locked";;
        toAccount_reply meta RESULT_CODE_DENIED "eft account locked"
    | Ok false =>
    let key := accountID +:+ "|to_account|" +:+ idem in
    let scope := idemScope accountID "transfer_to_account" in
    let requestHash := hashRequest [scope; Currency amount;
      FormatInt (AmountMinor amount)] in
    or_else (
      use ← useInMemoryIdempotencyCache;
      if (use : bool) then get_st (λ s, toAccountByIdempotency s !! key) else mret None) $
    or_else (
      enabled ← dbEnabled;
      if negb enabled then mret None else
      found ← loadIdempotencyResponse scope idem requestHash;
      match found with
      | Err errIdempotencyRequestMismatch =>
          return_ (toAccount_reply meta RESULT_CODE_INVALID
            "idempotency_key reused with different request")
      | Err _ => return_ unavailable
      | Ok (Some replay) => cacheToAccount key replay;; mret (Some replay)
      | Ok None => mret None
      end) $
    or_else (
      enabled ← dbEnabled;
      if negb enabled then mret None else
      found ← findTransactionByIdempotency accountID TT_TRANSFER_TO_ACCOUNT idem;
      match found with
      | Err _ => return_ unavailable
      | Ok None => mret None
      | Ok (Some tx) =>
          bal ← getBalanceFromDB accountID;
          match bal with
          | Err _ => return_ unavailable
          | Ok row =>
              let '(av, cur) := match row with
                | Some (a, _, c) => (a, c) | None => (0, Currency amount) end in
              m ← responseMeta meta RESULT_CODE_OK "";
              let resp := mkTransferToAccountResponse m (Some tx) (Some (money av cur)) in
              cacheToAccount key resp;; mret (Some resp)
          end
      end) $
    (acct ← mutationAccountState accountID (Currency amount);
    match acct with
    | Err _ => unavailable
    | Ok acct =>
    a ← deref acct;
    if decide (acct_currency a ≠ Currency amount) then
      toAccount_reply meta RESULT_CODE_INVALID "currency mismatch for account"
    else
    let before := snapshotAccount (Some a) in
    t ← now;
    txID ← nextTxIDLocked;
    let postings :=
      [mkPosting "device_escrow" "debit" (AmountMinor amount) (Currency amount) t;
       mkPosting accountID "credit" (AmountMinor amount) (Currency amount) t] in
    balanced ← addPostings txID postings;
    if negb balanced then toAccount_reply meta RESULT_CODE_ERROR "unbalanced postings" else
    acct ← add_available acct (AmountMinor amount);
    let tx := mkTx txID accountID TT_TRANSFER_TO_ACCOUNT
      (money (AmountMinor amount) (Currency amount)) (FormatRFC3339Nano t) ""
      "transfer to account" in
    appendTransaction tx;;
    a ← deref acct;
    let after := snapshotAccount (Some a) in
    e ← ledger_appendAudit meta "ledger_account" accountID "transfer_to_account"
          before after ResultSuccess "";
    match e with
    | Some _ =>
        undo_booking acct (AmountMinor amount) txID accountID;;
        toAccount_reply meta RESULT_CODE_ERROR "audit unavailable"
    | None =>
    e ← persistLedgerMutation tx postings "accepted" idem;
    match e with
    | Some _ => undo_booking acct (AmountMinor amount) txID accountID;; unavailable
    | None =>
    m ← responseMeta meta RESULT_CODE_OK "";
    a ← deref acct;
    let resp := mkTransferToAccountResponse m (Some tx)
      (Some (money (available a) (acct_currency a))) in
    e ← persistIdempotencyResponse scope idem requestHash (ResCode m) resp;
    match e with
    | Some _ => unavailable
    | None =>
    cacheToAccount key resp;;
    resetEFTFailures accountID;;
    mret resp
    end end end end)
    end)
  end end.

Definition list_reply meta code reason : LM ListTransactionsResponse :=
  m ← responseMeta meta code reason; mret (mkListTransactionsResponse m [] "").

Definition ListTransactions (ctx : option Context)
    (req : option ListTransactionsRequest) : LM ListTransactionsResponse :=
  match req with
  | None => list_reply None RESULT_CODE_INVALID "account_id is required"
  | Some req =>
  let meta := lt_Meta req in
  let accountID := lt_AccountId req in
  if decide (accountID = "") then
    list_reply None RESULT_CODE_INVALID "account_id is required" else
  let '(ok, reason) := ledger_authorize ctx meta accountID in
  if negb ok then
    auditDenied meta "ledger_account" accountID "list_transactions" reason;;
    list_reply meta RESULT_CODE_DENIED reason
  else
  locked (
    txs ← get_st (λ s, map_get [] (transactionsByAcct s) accountID);
    or_else (
      enabled ← dbEnabled;
      if negb enabled then mret None else
      let start := pageStart (lt_PageToken req) in
      let pageSize := pageSizeOr 50 (lt_PageSize req) in
      rows ← listTransactionsFromDB accountID pageSize start;
      match rows with
      | Err _ => return_ (list_reply meta RESULT_CODE_ERROR "persistence unavailable")
      | Ok None => mret None
      | Ok (Some dbTxs) =>
          let nextToken := nextFromDB start pageSize (length dbTxs) in
          m ← responseMeta meta RESULT_CODE_OK "";
          mret (Some (mkListTransactionsResponse m dbTxs nextToken))
      end) $
    (p ← page txs (pageStart (lt_PageToken req)) (pageSizeOr 50 (lt_PageSize req));
    m ← responseMeta meta RESULT_CODE_OK "";
    mret (mkListTransactionsResponse m p.1 p.2)))
  end.
End ledger.
