(* ===== verification/LedgerSpec.v ===== *)
(** * The ledger as a double-entry state machine

    An abstract specification of the ledger: the books (accounts, transactions,
    postings, transaction counter) and the three things a request may do to
    them: nothing, open an account, or book one movement.  [books_inv] is what
    makes the books correct; rule induction over [bstep] gives it for every
    reachable state.  LedgerProofs.v shows that the handlers refine this
    machine. *)

From S2P Require Import Prelude GoTime GoJson AuditTrail Service Ledger.

(** ** Books *)

Record books := mkBooks {
  bk_accounts : gmap string ledgerAccount;
  bk_txs : gmap string (list LedgerTransaction);
  bk_postings : gmap string (list ledgerPosting);
  bk_next : Z }.

Definition books_of (s : LedgerState) : books :=
  mkBooks (accounts s) (transactionsByAcct s) (postingsByTx s) (nextTransactionID s).

Definition txs_of (b : books) (id : string) : list LedgerTransaction :=
  map_get [] (bk_txs b) id.

Definition no_books : books := mkBooks ∅ ∅ ∅ 0.

(** ** Movements *)

Inductive movement := MDeposit (auth : string) | MWithdraw | MToDevice (dev : string)
  | MToAccount.

Definition mv_type (mv : movement) : LedgerTransactionType :=
  match mv with
  | MDeposit _ => TT_DEPOSIT | MWithdraw => TT_WITHDRAWAL
  | MToDevice _ => TT_TRANSFER_TO_DEVICE | MToAccount => TT_TRANSFER_TO_ACCOUNT
  end.

Definition mv_credit (mv : movement) : bool :=
  match mv with MDeposit _ | MToAccount => true | MWithdraw | MToDevice _ => false end.

(** The account on the other side of a movement. *)
Definition mv_counter (mv : movement) : string :=
  match mv with
  | MDeposit _ | MWithdraw => "operator_liability"
  | MToDevice dev => "device_escrow:" +:+ dev
  | MToAccount => "device_escrow"
  end.

Definition mv_auth (mv : movement) : string :=
  match mv with MDeposit auth => auth | _ => "" end.

Definition mv_description (mv : movement) : string :=
  match mv with
  | MDeposit _ => "deposit accepted" | MWithdraw => "withdrawal accepted"
  | MToDevice _ => "transfer to device" | MToAccount => "transfer to account"
  end.

Definition mv_delta (mv : movement) (amt : Z) : Z := if mv_credit mv then amt else - amt.

Definition mv_postings (mv : movement) (id cur : string) (amt : Z) (t : Time)
    : list ledgerPosting :=
  if mv_credit mv
  then [mkPosting (mv_counter mv) "debit" amt cur t; mkPosting id "credit" amt cur t]
  else [mkPosting id "debit" amt cur t; mkPosting (mv_counter mv) "credit" amt cur t].

Definition mv_tx (mv : movement) (txID id cur : string) (amt : Z) (t : Time)
    : LedgerTransaction :=
  mkTx txID id (mv_type mv) (money amt cur) (FormatRFC3339Nano t) (mv_auth mv)
    (mv_description mv).

Definition tx_id (n : Z) : string := "tx-" +:+ FormatInt n.

(** ** Steps *)

Definition account_or_new (b : books) (id cur : string) : ledgerAccount :=
  default (mkAccount id cur 0 0) (bk_accounts b !! id).

Definition open_account (id cur : string) (b : books) : books :=
  mkBooks (<[id := account_or_new b id cur]> (bk_accounts b)) (bk_txs b) (bk_postings b)
    (bk_next b).

Definition book (mv : movement) (id cur : string) (amt : Z) (t : Time) (b : books)
    : books :=
  let n := wrap64 (bk_next b + 1) in
  let a := account_or_new b id cur in
  mkBooks
    (<[id := a <| available ::= λ v, wrap64 (v + mv_delta mv amt) |>]> (bk_accounts b))
    (<[id := txs_of b id ++ [mv_tx mv (tx_id n) id cur amt t]]> (bk_txs b))
    (<[tx_id n := map_get [] (bk_postings b) (tx_id n) ++ mv_postings mv id cur amt t]>
       (bk_postings b))
    n.

Inductive bstep : books → books → Prop :=
| bs_idle b : bstep b b
| bs_open b id cur : id ≠ "" → cur ≠ "" → bstep b (open_account id cur b)
| bs_book b mv id cur amt t :
    id ≠ "" → cur ≠ "" → 0 < amt →
    acct_currency (account_or_new b id cur) = cur →
    (mv_credit mv = false → amt ≤ available (account_or_new b id cur)) →
    bstep b (book mv id cur amt t b).

#[export] Hint Constructors bstep : go.

(** ** Correct books *)

(** The effect of a transaction on its account, and the part of it that adds. *)
Definition signed_amount (tx : LedgerTransaction) : Z :=
  match TransactionType tx with
  | TT_DEPOSIT | TT_TRANSFER_TO_ACCOUNT => AmountMinor (TxAmount tx)
  | TT_WITHDRAWAL | TT_TRANSFER_TO_DEVICE => - AmountMinor (TxAmount tx)
  | _ => 0
  end.

Definition credited_amount (tx : LedgerTransaction) : Z := Z.max 0 (signed_amount tx).

Definition signed_posting (id : string) (p : ledgerPosting) : Z :=
  if decide (p_accountID p = id)
  then (if decide (p_direction p = "credit") then p_amount p else - p_amount p)
  else 0.

(** What the postings of all transactions add up to for one account. *)
Definition posting_net (id : string) (m : gmap string (list ledgerPosting)) : Z :=
  sumZ (λ kv, sumZ (signed_posting id) kv.2) (map_to_list m).

(** Credits minus debits of one transaction, over the integers. *)
Definition posting_sum (ps : list ledgerPosting) : Z :=
  sumZ (λ p, signed_posting (p_accountID p) p) ps.

Definition reserved (id : string) : Prop :=
  id = "operator_liability" ∨ HasPrefix id "device_escrow" = true.

Record account_ok (b : books) (id : string) (a : ledgerAccount) : Prop := {
  ao_id : acct_id a = id;
  ao_pending : pending a = 0;
  ao_currency : acct_currency a ≠ "";
  ao_available : available a = wrap64 (sumZ signed_amount (txs_of b id));
  ao_solvent : sumZ credited_amount (txs_of b id) ≤ int64_max →
    0 ≤ sumZ signed_amount (txs_of b id) }.

(** A recorded transaction is positive, in the account's currency, and backed
    by exactly its two postings. *)
Record tx_ok (b : books) (id : string) (tx : LedgerTransaction) : Prop := {
  to_account : TxAccountId tx = id;
  to_amount : 0 < AmountMinor (TxAmount tx);
  to_currency : ∃ a, bk_accounts b !! id = Some a
    ∧ acct_currency a = Currency (TxAmount tx);
  to_id : ∃ k, 1 ≤ k ≤ bk_next b ∧ TransactionId tx = tx_id k;
  to_postings : ∃ mv t, TransactionType tx = mv_type mv
    ∧ bk_postings b !! TransactionId tx
      = Some (mv_postings mv id (Currency (TxAmount tx)) (AmountMinor (TxAmount tx)) t) }.

Record books_inv (b : books) : Prop := {
  bi_next : 0 ≤ bk_next b;
  bi_accounts : ∀ id a, bk_accounts b !! id = Some a → account_ok b id a;
  bi_txs : ∀ id tx, tx ∈ txs_of b id → tx_ok b id tx;
  bi_postings : ∀ k ps, bk_postings b !! k = Some ps →
    ∃ id tx, tx ∈ txs_of b id ∧ TransactionId tx = k;
  bi_unique : ∀ id id' i j tx tx',
    txs_of b id !! i = Some tx → txs_of b id' !! j = Some tx' →
    TransactionId tx = TransactionId tx' → id = id' ∧ i = j;
  bi_net : ∀ id, ¬ reserved id →
    sumZ signed_amount (txs_of b id) = posting_net id (bk_postings b) }.

(** ** Lemmas *)

Lemma tx_id_inj n m : tx_id n = tx_id m → n = m.
Proof.
  unfold tx_id. intros H. apply FormatInt_inj. by injection H.
Qed.

Lemma txs_of_book mv id cur amt t b id' :
  txs_of (book mv id cur amt t b) id' =
    if decide (id' = id)
    then txs_of b id ++ [mv_tx mv (tx_id (wrap64 (bk_next b + 1))) id cur amt t]
    else txs_of b id'.
Proof.
  unfold txs_of, book, map_get; simpl. case_decide; subst.
  - by rewrite lookup_insert_eq.
  - by rewrite lookup_insert_ne.
Qed.

Lemma signed_mv_tx mv txID id cur amt t :
  signed_amount (mv_tx mv txID id cur amt t) = mv_delta mv amt.
Proof. by destruct mv. Qed.

Lemma credited_nonneg l : 0 ≤ sumZ credited_amount l.
Proof.
  induction l as [|tx l IH]; [done|]. rewrite sumZ_cons.
  unfold credited_amount at 1. lia.
Qed.

Lemma signed_le_credited l : sumZ signed_amount l ≤ sumZ credited_amount l.
Proof.
  induction l as [|tx l IH]; [done|]. rewrite !sumZ_cons.
  unfold credited_amount at 1. lia.
Qed.

(** As long as the credits of an account fit in an int64, its balance is their
    sum minus its debits, and not negative. *)
Lemma account_ok_exact b id a :
  account_ok b id a → sumZ credited_amount (txs_of b id) ≤ int64_max →
  available a = sumZ signed_amount (txs_of b id) ∧ 0 ≤ available a.
Proof.
  intros [_ _ _ Hav Hsol] Hc. specialize (Hsol Hc).
  pose proof (signed_le_credited (txs_of b id)).
  rewrite Hav, wrap64_id; [done|]. unfold in_int64, int64_min, int64_max in *. lia.
Qed.

Lemma mv_postings_sum mv id cur amt t : posting_sum (mv_postings mv id cur amt t) = 0.
Proof.
  unfold posting_sum, mv_postings, signed_posting.
  destruct (mv_credit mv); simpl; rewrite !decide_True by done; simpl; lia.
Qed.

Lemma mv_postings_balanced mv id cur amt t : isBalanced (mv_postings mv id cur amt t) = true.
Proof.
  unfold isBalanced, mv_postings. destruct (mv_credit mv); simpl; apply Z.eqb_eq;
    rewrite wrap64_add_l; by replace (0 - amt + amt) with 0 by lia.
Qed.

Lemma mv_counter_reserved mv : reserved (mv_counter mv).
Proof.
  destruct mv; simpl; unfold reserved; [by left|by left| |by right].
  right. unfold HasPrefix. by rewrite !str_app_cons.
Qed.

Lemma mv_postings_net mv id cur amt t id' :
  ¬ reserved id' →
  sumZ (signed_posting id') (mv_postings mv id cur amt t)
  = if decide (id = id') then mv_delta mv amt else 0.
Proof.
  intros Hr. assert (mv_counter mv ≠ id') as Hc.
  { intros <-. apply Hr, mv_counter_reserved. }
  unfold mv_postings, mv_delta, signed_posting.
  destruct (mv_credit mv); simpl; rewrite !(decide_False (P := mv_counter mv = id')) by done;
    case_decide; simpl; lia.
Qed.

Lemma sumZ_perm {A} (f : A → Z) l k : l ≡ₚ k → sumZ f l = sumZ f k.
Proof. induction 1; simpl; lia. Qed.

Lemma posting_net_insert id m k ps :
  m !! k = None →
  posting_net id (<[k := ps]> m) = sumZ (signed_posting id) ps + posting_net id m.
Proof.
  intros Hk. unfold posting_net. by rewrite (sumZ_perm _ _ _ (map_to_list_insert m k ps Hk)).
Qed.

(** Opening an account keeps the books correct. *)
Lemma open_account_accounts id cur b id' :
  bk_accounts (open_account id cur b) !! id' =
    if decide (id' = id) then Some (account_or_new b id cur) else bk_accounts b !! id'.
Proof.
  simpl. case_decide; subst; [by rewrite lookup_insert_eq|by rewrite lookup_insert_ne].
Qed.

(** An account without an entry has no transactions. *)
Lemma no_account_no_txs b id :
  books_inv b → bk_accounts b !! id = None → txs_of b id = [].
Proof.
  intros Hb Hid. destruct (txs_of b id) as [|tx l] eqn:E; [done|].
  destruct (to_currency b id tx) as (a & Ha & _); [|by rewrite Hid in Ha].
  apply (bi_txs b Hb). rewrite E. left.
Qed.

Lemma account_or_new_ok b id cur :
  books_inv b → cur ≠ "" → account_ok b id (account_or_new b id cur).
Proof.
  intros Hb Hcur. unfold account_or_new.
  destruct (bk_accounts b !! id) as [a|] eqn:E; simpl; [by apply (bi_accounts b Hb)|].
  split; simpl; rewrite ?(no_account_no_txs b id Hb E); done.
Qed.

Lemma account_or_new_lookup b id cur a :
  bk_accounts b !! id = Some a → account_or_new b id cur = a.
Proof. unfold account_or_new. by intros ->. Qed.

Lemma account_ok_same b b' id a :
  txs_of b' id = txs_of b id → account_ok b id a → account_ok b' id a.
Proof. intros E []. split; rewrite ?E; done. Qed.

Lemma tx_ok_mono b b' id tx :
  tx_ok b id tx → bk_next b ≤ bk_next b' →
  (∀ a, bk_accounts b !! id = Some a →
     ∃ a', bk_accounts b' !! id = Some a' ∧ acct_currency a' = acct_currency a) →
  (∀ ps, bk_postings b !! TransactionId tx = Some ps →
     bk_postings b' !! TransactionId tx = Some ps) →
  tx_ok b' id tx.
Proof.
  intros [Hacc Hamt (a & Ha & Hcur) (k & Hk & Hid) (mv & t & Hty & Hps)] Hn Haccs Hposts.
  split; [done|done| | |].
  - destruct (Haccs a Ha) as (a' & ? & ?). exists a'. split; congruence.
  - exists k. split; [lia|done].
  - eauto.
Qed.

Lemma open_account_inv id cur b :
  books_inv b → cur ≠ "" → books_inv (open_account id cur b).
Proof.
  intros Hb Hcur. pose proof Hb as [? Haccs Htxs ? ? ?]. split; try done.
  - intros id' a. rewrite open_account_accounts. case_decide; subst.
    + intros [= <-]. by apply (account_ok_same b), account_or_new_ok.
    + intros Ha. by apply (account_ok_same b), Haccs.
  - intros id' tx Htx. apply (tx_ok_mono b); [by apply Htxs|done| |done].
    intros a Ha. rewrite open_account_accounts. case_decide; subst; [|eauto].
    rewrite (account_or_new_lookup _ _ _ _ Ha). eauto.
Qed.

(** Transaction ids do not repeat while the counter does not wrap. *)
Section booking.
Context (mv : movement) (id cur : string) (amt : Z) (t : Time) (b : books).
Context (Hb : books_inv b) (Hcur : cur ≠ "") (Hamt : 0 < amt).
Context (Hmatch : acct_currency (account_or_new b id cur) = cur).
Context (Hfunds : mv_credit mv = false → amt ≤ available (account_or_new b id cur)).
Context (Hnext : bk_next b < int64_max).

Let n := bk_next b + 1.
Let b' := book mv id cur amt t b.

Lemma book_next : wrap64 (bk_next b + 1) = n.
Proof using Hb Hnext.
  apply wrap64_id. pose proof (bi_next b Hb).
  unfold in_int64, int64_min, int64_max in *. lia.
Qed.

Lemma book_id_fresh id' tx : tx ∈ txs_of b id' → TransactionId tx ≠ tx_id n.
Proof using Hb.
  intros Htx. destruct (to_id b id' tx) as (k & Hk & ->); [by apply (bi_txs b Hb)|].
  intros E%tx_id_inj. unfold n in E. lia.
Qed.

Lemma book_postings_fresh : bk_postings b !! tx_id n = None.
Proof using Hb.
  destruct (bk_postings b !! tx_id n) as [ps|] eqn:E; [|done].
  destruct (bi_postings b Hb _ _ E) as (id' & tx & Htx & Hid).
  by apply book_id_fresh in Htx.
Qed.

Lemma book_accounts id' :
  bk_accounts b' !! id' =
    if decide (id' = id)
    then Some ((account_or_new b id cur) <| available ::= λ v, wrap64 (v + mv_delta mv amt) |>)
    else bk_accounts b !! id'.
Proof.
  unfold b'; simpl.
  case_decide; subst; [by rewrite lookup_insert_eq|by rewrite lookup_insert_ne].
Qed.

Lemma book_account_ok :
  account_ok b' id
    ((account_or_new b id cur) <| available ::= λ v, wrap64 (v + mv_delta mv amt) |>).
Proof using Hb Hamt Hcur Hfunds.
  pose proof (account_or_new_ok b id cur Hb Hcur) as Hok.
  pose proof (account_ok_exact _ _ _ Hok) as Hex.
  destruct Hok as [Hid Hpend Hc Hav Hsol]. unfold b'.
  split; simpl; [done..| |]; rewrite txs_of_book, decide_True, ?sumZ_app by done; simpl;
    unfold credited_amount; fold credited_amount; rewrite signed_mv_tx, Z.add_0_r.
  - by rewrite Hav, wrap64_add_l.
  - intros Hmax. assert (sumZ credited_amount (txs_of b id) ≤ int64_max) as Hm.
    { lia. }
    destruct (Hex Hm) as [Hex1 Hex2]. specialize (Hsol Hm).
    unfold mv_delta. destruct (mv_credit mv); [lia|].
    specialize (Hfunds eq_refl). rewrite Hex1 in Hfunds. lia.
Qed.

Lemma book_old_tx_ok id' tx : tx ∈ txs_of b id' → tx_ok b' id' tx.
Proof using Hb Hnext.
  intros Htx. apply (tx_ok_mono b); [by apply (bi_txs b Hb)|..].
  - unfold b'; simpl. rewrite book_next. unfold n. lia.
  - intros a Ha. rewrite book_accounts. case_decide; subst; [|eauto].
    rewrite (account_or_new_lookup _ _ _ _ Ha). eauto.
  - intros ps Hps. unfold b'; simpl. rewrite book_next.
    rewrite lookup_insert_ne; [done|]. intros E. by eapply book_id_fresh.
Qed.

Lemma book_new_tx_ok : tx_ok b' id (mv_tx mv (tx_id n) id cur amt t).
Proof using Hb Hnext Hamt Hmatch.
  pose proof (bi_next b Hb). split; [done|done| | |].
  - eexists. rewrite book_accounts, decide_True by done. split; [done|done].
  - exists n. split; [|done]. unfold b'; simpl. rewrite book_next. unfold n. lia.
  - exists mv, t. split; [done|]. unfold b'; simpl. rewrite book_next.
    rewrite lookup_insert_eq. unfold map_get. by rewrite book_postings_fresh.
Qed.

Lemma book_unique id1 id2 i j tx tx' :
  txs_of b' id1 !! i = Some tx → txs_of b' id2 !! j = Some tx' →
  TransactionId tx = TransactionId tx' → id1 = id2 ∧ i = j.
Proof using Hb Hnext.
  assert (∀ id' i tx, txs_of b' id' !! i = Some tx →
    txs_of b id' !! i = Some tx ∧ TransactionId tx ≠ tx_id n
    ∨ id' = id ∧ i = length (txs_of b id) ∧ TransactionId tx = tx_id n) as Hcase.
  { clear i tx. intros id' i tx. unfold b'. rewrite txs_of_book, book_next.
    case_decide; subst.
    - intros [Hi|[Hi Hs]]%lookup_app_Some.
      + left. split; [done|]. by eapply book_id_fresh, list_elem_of_lookup_2.
      + right. apply list_lookup_singleton_Some in Hs as [Hz <-].
        split; [done|]. split; [lia|done].
    - intros Hi. left. split; [done|]. by eapply book_id_fresh, list_elem_of_lookup_2. }
  intros [[H1 N1]|(-> & -> & N1)]%Hcase [[H2 N2]|(-> & -> & N2)]%Hcase E;
    [by eapply (bi_unique b Hb)|congruence|congruence|done].
Qed.

Lemma book_net id' :
  ¬ reserved id' → sumZ signed_amount (txs_of b' id') = posting_net id' (bk_postings b').
Proof using Hb Hnext.
  clear Hmatch Hfunds Hcur Hamt. intros Hr. unfold b' at 2; simpl. rewrite book_next.
  unfold map_get. rewrite book_postings_fresh. simpl.
  rewrite posting_net_insert by apply book_postings_fresh.
  rewrite mv_postings_net by done. rewrite <- (bi_net b Hb id' Hr).
  unfold b'. rewrite txs_of_book. do 2 case_decide; subst; try congruence.
  - rewrite sumZ_app. simpl. rewrite signed_mv_tx. lia.
  - lia.
Qed.

Lemma book_inv : books_inv b'.
Proof using Hb Hnext Hamt Hcur Hfunds Hmatch.
  split.
  - unfold b'; simpl. rewrite book_next. pose proof (bi_next b Hb). unfold n. lia.
  - intros id' a. rewrite book_accounts. case_decide; subst.
    + intros [= <-]. apply book_account_ok.
    + intros Ha. apply (account_ok_same b); [|by apply (bi_accounts b Hb)].
      unfold b'. by rewrite txs_of_book, decide_False.
  - intros id' tx. unfold b'. rewrite txs_of_book. case_decide; subst.
    + rewrite book_next.
      intros [Htx| ->%list_elem_of_singleton]%elem_of_app;
        [by apply book_old_tx_ok|apply book_new_tx_ok].
    + apply book_old_tx_ok.
  - intros k ps. unfold b' at 1; simpl. rewrite book_next.
    rewrite lookup_insert_Some. intros [[<- _]|[_ Hk]].
    + exists id, (mv_tx mv (tx_id n) id cur amt t). split; [|done].
      unfold b'. rewrite txs_of_book, decide_True, book_next by done.
      apply elem_of_app. right. by apply list_elem_of_singleton.
    + destruct (bi_postings b Hb _ _ Hk) as (id' & tx & Htx & Hid).
      exists id', tx. split; [|done]. unfold b'. rewrite txs_of_book.
      case_decide; subst; [|done]. apply elem_of_app. by left.
  - apply book_unique.
  - apply book_net.
Qed.
End booking.

Lemma no_books_inv : books_inv no_books.
Proof.
  split; try done; unfold txs_of, map_get; simpl.
  all: intros *; rewrite ?lookup_empty; simpl; try done.
  - intros H. by apply elem_of_nil in H.
Qed.

(** Every step keeps the books correct while the transaction counter is below
    its maximum, and uses at most one transaction id. *)
Lemma bstep_inv b b' :
  bstep b b' → books_inv b → bk_next b < int64_max →
  books_inv b' ∧ bk_next b ≤ bk_next b' ≤ bk_next b + 1.
Proof.
  intros Hs Hb Hn. pose proof (bi_next b Hb). destruct Hs.
  - split; [done|lia].
  - split; [by apply open_account_inv|simpl; lia].
  - split; [by apply book_inv|]. simpl. rewrite book_next by done. lia.
Qed.
