(* ===== verification/LedgerMem.v ===== *)
(** * The ledger handlers without a database

    What the four mutating handlers of ledger_grpc.go have in common is stated
    as the interface [Mutation]: where a request keeps its fields, which
    movement it asks for, and which response it caches.  [mutated] is the
    complete list of what such a handler may do; [MutationLaw] says that a
    handler does one of these things and returns.  The four handlers are
    instances; the clients in LedgerProofs.v only use the law. *)

From S2P Require Import Prelude GoTime GoJson AuditTrail Service Ledger LedgerSpec.

(** ** Helpers in memory *)

Definition set_books (b : books) (σ : LedgerState) : LedgerState :=
  σ <| accounts := bk_accounts b |> <| transactionsByAcct := bk_txs b |>
    <| postingsByTx := bk_postings b |> <| nextTransactionID := bk_next b |>.

(** Two states are equal when their fields are. *)
Lemma LedgerState_ext σ σ' :
  accounts σ = accounts σ' → transactionsByAcct σ = transactionsByAcct σ' →
  postingsByTx σ = postingsByTx σ' → depositByIdempotency σ = depositByIdempotency σ' →
  withdrawByIdempotency σ = withdrawByIdempotency σ' →
  toDeviceByIdempotency σ = toDeviceByIdempotency σ' →
  toAccountByIdempotency σ = toAccountByIdempotency σ' →
  nextTransactionID σ = nextTransactionID σ' → nextTransferID σ = nextTransferID σ' →
  eftFraudFailures σ = eftFraudFailures σ' → eftFraudLockedUntil σ = eftFraudLockedUntil σ' →
  eftFraudMaxFailures σ = eftFraudMaxFailures σ' →
  eftFraudLockoutTTL σ = eftFraudLockoutTTL σ' → idempotencyTTL σ = idempotencyTTL σ' →
  disableInMemIdemCache σ = disableInMemIdemCache σ' → σ = σ'.
Proof. destruct σ, σ'; simpl. intros. by subst. Qed.

(** One more failed attempt at time [t]. *)
Definition fail_eft (id : string) (t : Time) (σ : LedgerState) : LedgerState :=
  let n := wrap64 (map_get 0 (eftFraudFailures σ) id + 1) in
  let σ := σ <| eftFraudFailures ::= insert id n |> in
  if eftFraudMaxFailures σ <=? n
  then σ <| eftFraudLockedUntil ::= insert id (t + eftFraudLockoutTTL σ) |> else σ.

Definition clear_eft (id : string) (σ : LedgerState) : LedgerState :=
  σ <| eftFraudFailures ::= delete id |> <| eftFraudLockedUntil ::= delete id |>.

Section mem.
Context {D : Type} `{!Wall, !Crypto, !JsonValid, !UnicodeUpper, !AuditDB D, !LedgerDB D}.
Context `{!ProtoJSON DepositResponse, !ProtoJSON WithdrawResponse,
  !ProtoJSON TransferToDeviceResponse, !ProtoJSON TransferToAccountResponse}.
Implicit Types (σ : LedgerState) (T : Time → Prop) (evs : list Event).

Abbreviation LM := (M (Svc D LedgerState)).
Abbreviation lspec T m := (mspec (D := D) (S := LedgerState) T m).

Lemma mspec_useCache T h σ evs (Q : bool → LedgerState → list Event → Prop) :
  Q true σ evs → lspec T useInMemoryIdempotencyCache h σ evs Q.
Proof. intros HQ. unfold useInMemoryIdempotencyCache. by msteps. Qed.

Lemma mspec_useMirror T h σ evs (Q : bool → LedgerState → list Event → Prop) :
  Q true σ evs → lspec T useInMemoryStateMirror h σ evs Q.
Proof. intros HQ. unfold useInMemoryStateMirror. by msteps. Qed.

Lemma mspec_eftLocked T id h σ evs (Q : res bool → LedgerState → list Event → Prop) :
  (∀ t, T t → Q (Ok (time_After (map_get zero_time (eftFraudLockedUntil σ) id) t)) σ evs) →
  lspec T (eftLocked id) h σ evs Q.
Proof. intros HQ. unfold eftLocked. msteps. by apply HQ. Qed.

Lemma mspec_mutationAccountState T id cur h σ evs
    (Q : res acctPtr → LedgerState → list Event → Prop) :
  Q (Ok (Shared id)) (set_books (open_account id cur (books_of σ)) σ) evs →
  lspec T (mutationAccountState id cur) h σ evs Q.
Proof.
  intros HQ. unfold mutationAccountState, getOrCreateAccount. msteps.
  unfold open_account, account_or_new in HQ. simpl in HQ.
  destruct (accounts σ !! id) as [a|] eqn:E; simpl in HQ.
  - msteps. rewrite insert_id in HQ by done. by destruct σ.
  - unfold place_account. msteps. apply mspec_useMirror. by msteps.
Qed.

Lemma mspec_deref T id a h σ evs (Q : ledgerAccount → LedgerState → list Event → Prop) :
  accounts σ !! id = Some a → Q a σ evs → lspec T (deref (Shared id)) h σ evs Q.
Proof. intros Ha HQ. simpl. msteps. rewrite Ha. by msteps. Qed.

Lemma mspec_auditDenied T meta ot oid action reason h σ evs
    (Q : () → LedgerState → list Event → Prop) :
  (∀ e, audit_record meta ot oid action "{}" "{}" ResultDenied reason e →
     Q () σ (evs ++ [e])) →
  lspec T (auditDenied meta ot oid action reason) h σ evs Q.
Proof.
  intros HQ. unfold auditDenied, ledger_appendAudit. msteps. by apply HQ.
Qed.

Lemma mspec_recordEFTFailure T id h σ evs
    (Q : option error → LedgerState → list Event → Prop) :
  id ≠ "" → (∀ t, T t → Q None (fail_eft id t σ) evs) →
  lspec T (recordEFTFailure id) h σ evs Q.
Proof.
  intros Hid HQ. unfold recordEFTFailure. rewrite decide_False by done.
  msteps.
  set (n := wrap64 (map_get 0 (eftFraudFailures σ) id + 1)) in *.
  assert (∀ m : gmap string Z, map_get 0 (<[id := n]> m) id = n) as Hn
    by (intros m; unfold map_get; by rewrite lookup_insert_eq).
  simpl eftFraudFailures. fold n. rewrite Hn.
  unfold fail_eft in HQ. simpl in HQ. destruct (_ <=? _).
  - msteps. by apply HQ.
  - apply mspec_some_time. intros t Ht. msteps. by eapply HQ.
Qed.

Lemma mspec_resetEFTFailures T id h σ evs
    (Q : option error → LedgerState → list Event → Prop) :
  id ≠ "" → Q None (clear_eft id σ) evs → lspec T (resetEFTFailures id) h σ evs Q.
Proof.
  intros Hid HQ. unfold resetEFTFailures. rewrite decide_False by done.
  by msteps.
Qed.

Lemma mspec_persist T tx ps status idem h σ evs
    (Q : option error → LedgerState → list Event → Prop) :
  Q None σ evs → lspec T (persistLedgerMutation tx ps status idem) h σ evs Q.
Proof. intros HQ. unfold persistLedgerMutation. by msteps. Qed.

Lemma mspec_persistIdem {R} `{!ProtoJSON R} T scope idem hash code (resp : R) h σ evs
    (Q : option error → LedgerState → list Event → Prop) :
  Q None σ evs → lspec T (persistIdempotencyResponse scope idem hash code resp) h σ evs Q.
Proof. intros HQ. unfold persistIdempotencyResponse. by msteps. Qed.

(** The steps from the transaction id to the appended transaction. *)
Lemma mspec_addPostings T txID ps h σ evs (Q : bool → LedgerState → list Event → Prop) :
  isBalanced ps = true →
  Q true (σ <| postingsByTx ::= λ m, <[txID := map_get [] m txID ++ ps]> m |>) evs →
  lspec T (addPostings txID ps) h σ evs Q.
Proof.
  intros Hps HQ. unfold addPostings. rewrite Hps. simpl. msteps.
  apply mspec_useMirror. by msteps.
Qed.

Lemma mspec_nextTxID T h σ evs (Q : string → LedgerState → list Event → Prop) :
  Q (tx_id (wrap64 (nextTransactionID σ + 1)))
    (σ <| nextTransactionID := wrap64 (nextTransactionID σ + 1) |>) evs →
  lspec T nextTxIDLocked h σ evs Q.
Proof. intros HQ. unfold nextTxIDLocked. by msteps. Qed.

Lemma mspec_nextTransferID T h σ evs (Q : string → LedgerState → list Event → Prop) :
  Q ("tr-" +:+ FormatInt (wrap64 (nextTransferID σ + 1)))
    (σ <| nextTransferID := wrap64 (nextTransferID σ + 1) |>) evs →
  lspec T nextTransferIDLocked h σ evs Q.
Proof. intros HQ. unfold nextTransferIDLocked. by msteps. Qed.

Lemma mspec_add_available T id delta h σ evs
    (Q : acctPtr → LedgerState → list Event → Prop) :
  Q (Shared id) (σ <| accounts ::= alter (λ a, a <| available ::= λ v, wrap64 (v + delta) |>) id |>)
    evs → lspec T (add_available (Shared id) delta) h σ evs Q.
Proof. intros HQ. simpl. by msteps. Qed.

Lemma mspec_appendTransaction T tx h σ evs (Q : () → LedgerState → list Event → Prop) :
  Q () (σ <| transactionsByAcct ::= λ m,
          <[TxAccountId tx := map_get [] m (TxAccountId tx) ++ [tx]]> m |>) evs →
  lspec T (appendTransaction tx) h σ evs Q.
Proof. intros HQ. unfold appendTransaction. msteps. apply mspec_useMirror. by msteps. Qed.
End mem.

(** ** The interface of a mutating handler *)

Class Mutation (Req R : Type) := {
  (** the fields of a request *)
  m_meta : Req → option RequestMeta;
  m_account : Req → string;
  m_amount : Req → option Money;
  (** all required fields are there *)
  m_complete : Req → bool;
  m_action : string;
  m_key : Req → string;
  m_move : Req → movement;
  (** how much of a requested amount moves, given the balance; [None] refuses *)
  m_take : Z → Z → option Z;
  m_note : Z → Z → string;
  (** the fields of a response *)
  m_resp : R → ResponseMeta;
  m_refusal : ResponseMeta → ledgerAccount → R;
  m_accepted : ResponseMeta → LedgerState → LedgerTransaction → Z → ledgerAccount → R;
  (** the handler's own counters and its response cache *)
  m_bump : LedgerState → LedgerState;
  m_cache : LedgerState → gmap string R;
  m_store : string → R → LedgerState → LedgerState }.

#[global] Instance deposit_mutation : Mutation DepositRequest DepositResponse := {
  m_meta := dep_Meta; m_account := dep_AccountId; m_amount := dep_Amount;
  m_complete r := negb (bool_decide (dep_AccountId r = ""));
  m_action := "deposit";
  m_key r := dep_AccountId r +:+ "|deposit|" +:+ idempotency (dep_Meta r);
  m_move r := MDeposit (dep_AuthorizationId r);
  m_take _ amt := Some amt;
  m_note _ _ := "";
  m_resp := depr_Meta;
  m_refusal m a := mkDepositResponse m None (Some (money (available a) (acct_currency a)));
  m_accepted m _ tx _ a :=
    mkDepositResponse m (Some tx) (Some (money (available a) (acct_currency a)));
  m_bump σ := σ;
  m_cache := depositByIdempotency;
  m_store k r σ := σ <| depositByIdempotency ::= insert k r |> }.

#[global] Instance withdraw_mutation : Mutation WithdrawRequest WithdrawResponse := {
  m_meta := wd_Meta; m_account := wd_AccountId; m_amount := wd_Amount;
  m_complete r := negb (bool_decide (wd_AccountId r = ""));
  m_action := "withdraw";
  m_key r := wd_AccountId r +:+ "|withdraw|" +:+ idempotency (wd_Meta r);
  m_move _ := MWithdraw;
  m_take balance amt := if balance <? amt then None else Some amt;
  m_note _ _ := "";
  m_resp := wdr_Meta;
  m_refusal m a := mkWithdrawResponse m None (Some (money (available a) (acct_currency a)));
  m_accepted m _ tx _ a :=
    mkWithdrawResponse m (Some tx) (Some (money (available a) (acct_currency a)));
  m_bump σ := σ;
  m_cache := withdrawByIdempotency;
  m_store k r σ := σ <| withdrawByIdempotency ::= insert k r |> }.

Definition partial_reason : string := "requested amount exceeds available balance".

#[global] Instance toDevice_mutation :
    Mutation TransferToDeviceRequest TransferToDeviceResponse := {
  m_meta := td_Meta; m_account := td_AccountId; m_amount := td_RequestedAmount;
  m_complete r := negb (bool_decide (td_AccountId r = "" ∨ td_DeviceId r = ""));
  m_action := "transfer_to_device";
  m_key r := td_AccountId r +:+ "|to_device|" +:+ idempotency (td_Meta r);
  m_move r := MToDevice (td_DeviceId r);
  m_take balance amt := if balance <=? 0 then None else Some (Z.min balance amt);
  m_note balance amt := if balance <? amt then partial_reason else "";
  m_resp := tdr_Meta;
  m_refusal m a := mkTransferToDeviceResponse m "" TRANSFER_STATUS_DENIED
    (Some (money 0 (acct_currency a))) (Some (money (available a) (acct_currency a))) "";
  m_accepted m σ tx requested a :=
    let moved := AmountMinor (TxAmount tx) in
    mkTransferToDeviceResponse m ("tr-" +:+ FormatInt (nextTransferID σ))
      (if moved <? requested then TRANSFER_STATUS_PARTIAL else TRANSFER_STATUS_ACCEPTED)
      (Some (money moved (acct_currency a))) (Some (money (available a) (acct_currency a)))
      (if moved <? requested then partial_reason else "");
  m_bump σ := σ <| nextTransferID ::= λ n, wrap64 (n + 1) |>;
  m_cache := toDeviceByIdempotency;
  m_store k r σ := σ <| toDeviceByIdempotency ::= insert k r |> }.

#[global] Instance toAccount_mutation :
    Mutation TransferToAccountRequest TransferToAccountResponse := {
  m_meta := ta_Meta; m_account := ta_AccountId; m_amount := ta_Amount;
  m_complete r := negb (bool_decide (ta_AccountId r = ""));
  m_action := "transfer_to_account";
  m_key r := ta_AccountId r +:+ "|to_account|" +:+ idempotency (ta_Meta r);
  m_move _ := MToAccount;
  m_take _ amt := Some amt;
  m_note _ _ := "";
  m_resp := tar_Meta;
  m_refusal m a :=
    mkTransferToAccountResponse m None (Some (money (available a) (acct_currency a)));
  m_accepted m _ tx _ a :=
    mkTransferToAccountResponse m (Some tx) (Some (money (available a) (acct_currency a)));
  m_bump σ := σ;
  m_cache := toAccountByIdempotency;
  m_store k r σ := σ <| toAccountByIdempotency ::= insert k r |> }.

(** ** What a mutating handler may do *)

Section mutated.
Context {Req R : Type} `{!Mutation Req R}.
Implicit Types (σ : LedgerState) (req : Req) (r : R) (evs : list Event).

(** A request that passes every check before the lock is taken, for [amount]. *)
Record admissible (ctx : option Context) req (amount : Money) : Prop := {
  ad_complete : m_complete req = true;
  ad_authorized : (ledger_authorize ctx (m_meta req) (m_account req)).1 = true;
  ad_amount : m_amount req = Some amount ∧ invalidAmount (Some amount) = false;
  ad_key : idempotency (m_meta req) ≠ "" }.

Definition eft_locked σ (id : string) (t : Time) : bool :=
  time_After (map_get zero_time (eftFraudLockedUntil σ) id) t.

Definition denied_event req (reason : string) (e : Event) : Prop :=
  audit_record (m_meta req) "ledger_account" (m_account req) m_action "{}" "{}"
    ResultDenied reason e.

Definition code_is (r : R) (meta : option RequestMeta) (c : ResultCode) (reason : string)
    : Prop :=
  ResCode (m_resp r) = c ∧ DenialReason (m_resp r) = reason
  ∧ RespRequestId (m_resp r) = requestID meta.

Definition account_before σ req (amount : Money) : ledgerAccount :=
  account_or_new (books_of σ) (m_account req) (Currency amount).

(** [mutated T ctx req σ r σ' new]: the response [r], the state [σ'] and the
    audit records [new] a request may produce from [σ]. *)
Inductive mutated (T : Time → Prop) (ctx : option Context) : option Req → LedgerState →
    R → LedgerState → list Event → Prop :=
| mu_nil r σ : ResCode (m_resp r) = RESULT_CODE_INVALID → mutated T ctx None σ r σ []
| mu_invalid req r σ :
    ResCode (m_resp r) = RESULT_CODE_INVALID →
    (m_complete req = true → (ledger_authorize ctx (m_meta req) (m_account req)).1 = true) →
    (∀ m, ¬ admissible ctx req m) →
    mutated T ctx (Some req) σ r σ []
| mu_unauthorized req r σ reason e :
    m_complete req = true →
    ledger_authorize ctx (m_meta req) (m_account req) = (false, reason) →
    code_is r (m_meta req) RESULT_CODE_DENIED reason → denied_event req reason e →
    mutated T ctx (Some req) σ r σ [e]
| mu_locked req amount r σ t e :
    admissible ctx req amount → T t → eft_locked σ (m_account req) t = true →
    code_is r (m_meta req) RESULT_CODE_DENIED "eft account locked" →
    denied_event req "eft account locked" e →
    mutated T ctx (Some req) σ r σ [e]
| mu_replayed req amount r σ t :
    admissible ctx req amount → T t → eft_locked σ (m_account req) t = false →
    m_cache σ !! m_key req = Some r →
    mutated T ctx (Some req) σ r σ []
| mu_mismatch req amount r σ t :
    admissible ctx req amount → T t → eft_locked σ (m_account req) t = false →
    m_cache σ !! m_key req = None →
    acct_currency (account_before σ req amount) ≠ Currency amount →
    code_is r (m_meta req) RESULT_CODE_INVALID "currency mismatch for account" →
    mutated T ctx (Some req) σ r σ []
| mu_refused req amount m σ t t' e :
    let a := account_before σ req amount in
    let r := m_refusal m a in
    admissible ctx req amount → T t → eft_locked σ (m_account req) t = false →
    m_cache σ !! m_key req = None →
    acct_currency a = Currency amount →
    m_take (available a) (AmountMinor amount) = None → T t' →
    code_is r (m_meta req) RESULT_CODE_DENIED "insufficient balance" →
    denied_event req "insufficient balance" e →
    mutated T ctx (Some req) σ r
      (m_store (m_key req) r (fail_eft (m_account req) t'
         (set_books (open_account (m_account req) (Currency amount) (books_of σ)) σ)))
      [e]
| mu_booked req amount moved m σ t t' e :
    let a := account_before σ req amount in
    let b := book (m_move req) (m_account req) (Currency amount) moved t' (books_of σ) in
    let a' := a <| available ::= λ v, wrap64 (v + mv_delta (m_move req) moved) |> in
    let tx := mv_tx (m_move req) (tx_id (bk_next b)) (m_account req) (Currency amount)
                moved t' in
    let σ1 := m_bump (set_books b σ) in
    let r := m_accepted m σ1 tx (AmountMinor amount) a' in
    admissible ctx req amount → T t → eft_locked σ (m_account req) t = false →
    m_cache σ !! m_key req = None →
    acct_currency a = Currency amount →
    m_take (available a) (AmountMinor amount) = Some moved → T t' →
    code_is r (m_meta req) RESULT_CODE_OK "" →
    audit_record (m_meta req) "ledger_account" (m_account req) m_action
      (snapshotAccount (Some a)) (snapshotAccount (Some a')) ResultSuccess
      (m_note (available a) (AmountMinor amount)) e →
    mutated T ctx (Some req) σ r
      (clear_eft (m_account req) (m_store (m_key req) r σ1)) [e].
End mutated.

(** A handler that implements the interface: from every state it returns,
    having done one of the things above. *)
Class MutationLaw {D Req R} `{!Wall, !Crypto, !JsonValid, !AuditDB D, !Mutation Req R}
    (run : option Context → option Req → M (Svc D LedgerState) R) : Prop :=
  mutation_law : ∀ T ctx req σ evs,
    mspec T (run ctx req) false σ evs (λ r σ' evs',
      ∃ new, evs' = evs ++ new ∧ mutated T ctx req σ r σ' new).

(** ** The four handlers implement the interface *)

Section laws.
Context {D : Type} `{!Wall, !Crypto, !JsonValid, !UnicodeUpper, !AuditDB D, !LedgerDB D}.
Context `{!ProtoJSON DepositResponse, !ProtoJSON WithdrawResponse,
  !ProtoJSON TransferToDeviceResponse, !ProtoJSON TransferToAccountResponse}.
Implicit Types (σ : LedgerState) (T : Time → Prop) (evs : list Event).

(** Opening an account that exists changes nothing. *)
Lemma open_existing σ id cur :
  acct_currency (account_or_new (books_of σ) id cur) ≠ cur →
  set_books (open_account id cur (books_of σ)) σ = σ.
Proof.
  unfold open_account, account_or_new. simpl.
  destruct (accounts σ !! id) as [a|] eqn:E; simpl; [|done].
  intros _. rewrite insert_id by done. by destruct σ.
Qed.

Lemma opened_lookup σ id cur :
  accounts (set_books (open_account id cur (books_of σ)) σ) !! id
  = Some (account_or_new (books_of σ) id cur).
Proof. simpl. by rewrite lookup_insert_eq. Qed.

(** The handlers' separate writes amount to one booking. *)
Lemma booked_lookup σ mv id cur amt t :
  accounts (set_books (book mv id cur amt t (books_of σ)) σ) !! id
  = Some ((account_or_new (books_of σ) id cur)
      <| available ::= λ v, wrap64 (v + mv_delta mv amt) |>).
Proof. simpl. by rewrite lookup_insert_eq. Qed.

Lemma booked_state σ mv id cur amt t :
  let n := wrap64 (nextTransactionID σ + 1) in
  (set_books (open_account id cur (books_of σ)) σ)
    <| nextTransactionID := n |>
    <| postingsByTx ::= λ m, <[tx_id n := map_get [] m (tx_id n)
         ++ mv_postings mv id cur amt t]> m |>
    <| accounts ::= alter (λ a, a <| available ::= λ v, wrap64 (v + mv_delta mv amt) |>) id |>
    <| transactionsByAcct ::= λ m,
         <[id := map_get [] m id ++ [mv_tx mv (tx_id n) id cur amt t]]> m |>
  = set_books (book mv id cur amt t (books_of σ)) σ.
Proof. intros n. apply LedgerState_ext; try done. simpl. by rewrite alter_insert_eq. Qed.

Lemma mspec_booking {A} mv id cur amt T h σ evs
    (K : acctPtr → Time → string → M (Svc D LedgerState) A) X Q :
  (∀ t, T t →
    mspec T (K (Shared id) t (tx_id (wrap64 (nextTransactionID σ + 1)))) h
      (set_books (book mv id cur amt t (books_of σ)) σ) evs Q) →
  mspec T
    (t ← now;
     txID ← nextTxIDLocked;
     balanced ← addPostings txID (mv_postings mv id cur amt t);
     if negb balanced then X t txID else
     p ← add_available (Shared id) (mv_delta mv amt);
     appendTransaction (mv_tx mv txID id cur amt t);;
     K p t txID) h (set_books (open_account id cur (books_of σ)) σ) evs Q.
Proof.
  intros HK. mstep. mstep. mstep. apply mspec_nextTxID. mstep.
  apply mspec_addPostings; [apply mv_postings_balanced|]. simpl negb. cbv iota.
  mstep. apply mspec_add_available. mstep. apply mspec_appendTransaction.
  match goal with Ht : T ?t |- _ => specialize (HK t Ht) end.
  rewrite <- booked_state in HK. exact HK.
Qed.

(** The branches every handler has before it looks at the account. *)
Lemma not_admissible_complete {Req R} `{!Mutation Req R} ctx (req : Req) m :
  m_complete req = false → ¬ admissible ctx req m.
Proof. intros E []. congruence. Qed.

Lemma not_admissible_amount {Req R} `{!Mutation Req R} ctx (req : Req) m :
  invalidAmount (m_amount req) = true → ¬ admissible ctx req m.
Proof. intros E [_ _ [Hm ?] _]. rewrite Hm in E. congruence. Qed.

Lemma not_admissible_key {Req R} `{!Mutation Req R} ctx (req : Req) m :
  idempotency (m_meta req) = "" → ¬ admissible ctx req m.
Proof. by intros E []. Qed.

(** Storing a response in its cache. *)
Lemma mspec_cacheDeposit T k r h σ evs (Q : () → LedgerState → list Event → Prop) :
  Q () (m_store k r σ) evs → mspec (D := D) T (cacheDeposit k r) h σ evs Q.
Proof. intros HQ. unfold cacheDeposit. mstep. apply mspec_useCache. by mstep. Qed.

Lemma mspec_cacheWithdraw T k r h σ evs (Q : () → LedgerState → list Event → Prop) :
  Q () (m_store k r σ) evs → mspec (D := D) T (cacheWithdraw k r) h σ evs Q.
Proof. intros HQ. unfold cacheWithdraw. mstep. apply mspec_useCache. by mstep. Qed.

Lemma mspec_cacheToDevice T k r h σ evs (Q : () → LedgerState → list Event → Prop) :
  Q () (m_store k r σ) evs → mspec (D := D) T (cacheToDevice k r) h σ evs Q.
Proof. intros HQ. unfold cacheToDevice. mstep. apply mspec_useCache. by mstep. Qed.

Lemma mspec_cacheToAccount T k r h σ evs (Q : () → LedgerState → list Event → Prop) :
  Q () (m_store k r σ) evs → mspec (D := D) T (cacheToAccount k r) h σ evs Q.
Proof. intros HQ. unfold cacheToAccount. mstep. apply mspec_useCache. by mstep. Qed.

Ltac cached :=
  first [ apply mspec_cacheDeposit | apply mspec_cacheWithdraw
        | apply mspec_cacheToDevice | apply mspec_cacheToAccount ]; cbv beta.
Ltac no_events := exists []; split; [by rewrite app_nil_r|].
Ltac invalid :=
  msteps; no_events; apply mu_invalid;
  [ done
  | simpl; try (by rewrite bool_decide_true); intros _;
    by match goal with Ha : ledger_authorize _ _ _ = _ |- _ => rewrite Ha end
  | intros ? ].
Ltac if_decide H :=
  lazymatch goal with
  | |- mspec _ (if decide ?P then _ else _) _ _ _ _ => destruct (decide P) as [H|H]
  end.

(** The checks a mutating handler makes before it looks at the account, up to
    the currency check: leaves the case that goes on. *)
Ltac guards ctx req meta id amt :=
  let Hid := fresh "Hid" in let ok := fresh "ok" in let reason := fresh "reason" in
  let Ha := fresh "Ha" in let Hm := fresh "Hm" in let Hinv := fresh "Hinv" in
  let Hk := fresh "Hk" in let e := fresh "e" in let He := fresh "He" in
  let amount := fresh "amount" in let Hadm := fresh "Hadm" in
  let t := fresh "t" in let Ht := fresh "Ht" in let Hlock := fresh "Hlock" in
  let Hc := fresh "Hc" in let Hcur := fresh "Hcur" in
  if_decide Hid;
  [ invalid; apply not_admissible_complete; simpl; by rewrite bool_decide_true | ];
  destruct (ledger_authorize ctx meta id) as [ok reason] eqn:Ha;
  destruct ok; cbv iota beta; simpl negb; cbv iota;
  [ | mstep; apply mspec_auditDenied; intros e He; msteps; exists [e]; split; [done|];
      eapply mu_unauthorized; [simpl; by rewrite bool_decide_false|done..] ];
  destruct amt as [amount|] eqn:Hm;
  [ | invalid; apply not_admissible_amount; simpl; by rewrite Hm ];
  destruct (invalidAmount (Some amount)) eqn:Hinv;
  [ invalid; apply not_admissible_amount; simpl; by rewrite Hm | ];
  if_decide Hk;
  [ invalid; by apply not_admissible_key | ];
  assert (admissible ctx req amount) as Hadm;
  [ split; simpl; [by rewrite bool_decide_false|by rewrite Ha|done|done] | ];
  mstep; mstep; apply mspec_eftLocked; intros t Ht;
  destruct (time_After _ t) eqn:Hlock;
  [ mstep; apply mspec_auditDenied; intros e He; msteps; exists [e]; split; [done|];
    by eapply mu_locked | ];
  apply mspec_or_else; mstep; apply mspec_useCache; msteps;
  lazymatch goal with
  | |- match ?m !! ?k with _ => _ end => destruct (m !! k) eqn:Hc
  end;
  [ no_events; by eapply mu_replayed | ];
  apply mspec_or_else; msteps; try (apply mspec_or_else; msteps);
  apply mspec_mutationAccountState; mstep;
  eapply mspec_deref; [apply opened_lookup|];
  if_decide Hcur;
  [ rewrite open_existing by done; msteps; no_events; by eapply mu_mismatch | ];
  apply dec_stable in Hcur.

(** From the booking to the response. *)
Ltac booked mv id cur amt :=
  let t' := fresh "t'" in let Ht' := fresh "Ht'" in
  let e := fresh "e" in let He := fresh "He" in
  apply (mspec_booking mv id cur amt); intros t' Ht';
  mstep; eapply mspec_deref; [apply booked_lookup|];
  mstep; apply mspec_appendAudit; intros e He;
  mstep; apply mspec_persist; msteps;
  try (apply mspec_nextTransferID; msteps);
  eapply mspec_deref; [apply booked_lookup|];
  mstep; apply mspec_persistIdem; mstep; cached; mstep; apply mspec_resetEFTFailures; [done|]; msteps;
  exists [e]; split; [done|].

Lemma fail_eft_accounts id t σ : accounts (fail_eft id t σ) = accounts σ.
Proof. unfold fail_eft. by destruct (_ <=? _). Qed.

(** The refusal for lack of funds. *)
Ltac refused :=
  let t' := fresh "t'" in let Ht' := fresh "Ht'" in
  let e := fresh "e" in let He := fresh "He" in
  mstep; apply mspec_recordEFTFailure; [done|]; intros t' Ht';
  mstep; apply mspec_auditDenied; intros e He; msteps;
  eapply mspec_deref; [rewrite fail_eft_accounts; apply opened_lookup|];
  mstep; apply mspec_persistIdem; mstep; cached; msteps; exists [e]; split; [done|].

Global Instance Deposit_law : MutationLaw (D := D) Deposit.
Proof.
  intros T ctx [req|] σ evs; unfold Deposit, deposit_reply; cbv zeta.
  2: { msteps. no_events. by constructor. }
  guards ctx req (dep_Meta req) (dep_AccountId req) (dep_Amount req).
  booked (MDeposit (dep_AuthorizationId req)) (dep_AccountId req) (Currency amount)
    (AmountMinor amount).
  by refine (mu_booked (R := DepositResponse) T ctx req amount (AmountMinor amount)
      (mkResponseMeta (requestID (dep_Meta req)) RESULT_CODE_OK "" (FormatRFC3339Nano t0))
      σ t t' e Hadm Ht Hlock Hc Hcur _ Ht' _ _).
Qed.

Global Instance TransferToAccount_law : MutationLaw (D := D) TransferToAccount.
Proof.
  intros T ctx [req|] σ evs; unfold TransferToAccount, toAccount_reply; cbv zeta.
  2: { msteps. no_events. by constructor. }
  guards ctx req (ta_Meta req) (ta_AccountId req) (ta_Amount req).
  booked MToAccount (ta_AccountId req) (Currency amount) (AmountMinor amount).
  by refine (mu_booked (R := TransferToAccountResponse) T ctx req amount (AmountMinor amount)
      (mkResponseMeta (requestID (ta_Meta req)) RESULT_CODE_OK "" (FormatRFC3339Nano t0))
      σ t t' e Hadm Ht Hlock Hc Hcur _ Ht' _ _).
Qed.

Global Instance Withdraw_law : MutationLaw (D := D) Withdraw.
Proof.
  intros T ctx [req|] σ evs; unfold Withdraw, withdraw_reply; cbv zeta.
  2: { msteps. no_events. by constructor. }
  guards ctx req (wd_Meta req) (wd_AccountId req) (wd_Amount req).
  destruct (_ <? _) eqn:Hfunds.
  - refused.
    refine (mu_refused (R := WithdrawResponse) T ctx req amount
      (mkResponseMeta (requestID (wd_Meta req)) RESULT_CODE_DENIED "insufficient balance"
        (FormatRFC3339Nano t0)) σ t t' e Hadm Ht Hlock Hc Hcur _ Ht' _ He); [|done].
    simpl. unfold account_before. simpl. by rewrite Hfunds.
  - booked MWithdraw (wd_AccountId req) (Currency amount) (AmountMinor amount).
    refine (mu_booked (R := WithdrawResponse) T ctx req amount (AmountMinor amount)
      (mkResponseMeta (requestID (wd_Meta req)) RESULT_CODE_OK "" (FormatRFC3339Nano t0))
      σ t t' e Hadm Ht Hlock Hc Hcur _ Ht' _ _); [|done|done].
    simpl. unfold account_before. simpl. by rewrite Hfunds.
Qed.

(** A transfer to a device moves what is asked for, or all there is. *)
Lemma toDevice_cases (balance amt : Z) :
  0 < balance → 0 < amt →
  (balance <? amt) = true ∧ Z.min balance amt = balance
  ∨ (balance <? amt) = false ∧ Z.min balance amt = amt ∧ (amt <? amt) = false.
Proof. intros. rewrite Z.ltb_irrefl. destruct (Z.ltb_spec balance amt); [left|right]; lia. Qed.

Lemma admissible_positive {Req R} `{!Mutation Req R} ctx (req : Req) m :
  admissible ctx req m → 0 < AmountMinor m ∧ Currency m ≠ "".
Proof.
  intros [_ _ [_ Hinv] _]. unfold invalidAmount in Hinv.
  apply orb_false_iff in Hinv as [?%Z.leb_gt ?%bool_decide_eq_false]. done.
Qed.

Global Instance TransferToDevice_law : MutationLaw (D := D) TransferToDevice.
Proof.
  intros T ctx [req|] σ evs; unfold TransferToDevice, toDevice_reply; cbv zeta.
  2: { msteps. no_events. by constructor. }
  guards ctx req (td_Meta req) (td_AccountId req) (td_RequestedAmount req).
  pose proof (admissible_positive _ _ _ Hadm) as [Hpos _].
  assert (td_AccountId req ≠ "") as Hid' by tauto.
  set (a := account_or_new _ _ _) in *.
  destruct (_ <=? 0) eqn:Hfunds.
  - refused.
    refine (mu_refused (R := TransferToDeviceResponse) T ctx req amount
      (mkResponseMeta (requestID (td_Meta req)) RESULT_CODE_DENIED "insufficient balance"
        (FormatRFC3339Nano t0)) σ t t' e Hadm Ht Hlock Hc Hcur _ Ht' _ He); [|done].
    simpl. unfold account_before. simpl. fold a. by rewrite Hfunds.
  - pose proof (proj1 (Z.leb_gt _ _) Hfunds) as Hav.
    destruct (toDevice_cases (available a) (AmountMinor amount) Hav Hpos)
      as [(Hlt & Hmin)|(Hlt & Hmin & Hst)]; rewrite Hlt; cbv iota beta.
    + booked (MToDevice (td_DeviceId req)) (td_AccountId req) (Currency amount)
        (available a).
      pose proof (mu_booked (R := TransferToDeviceResponse) T ctx req amount (available a)
      (mkResponseMeta (requestID (td_Meta req)) RESULT_CODE_OK "" (FormatRFC3339Nano t0))
      σ t t' e Hadm Ht Hlock Hc Hcur) as Hmu.
      simpl in Hmu. unfold account_before in Hmu. simpl in Hmu. fold a in Hmu.
      rewrite Hfunds, Hmin, Hlt in Hmu.
      by apply Hmu.
    + booked (MToDevice (td_DeviceId req)) (td_AccountId req) (Currency amount)
        (AmountMinor amount).
      pose proof (mu_booked (R := TransferToDeviceResponse) T ctx req amount (AmountMinor amount)
      (mkResponseMeta (requestID (td_Meta req)) RESULT_CODE_OK "" (FormatRFC3339Nano t0))
      σ t t' e Hadm Ht Hlock Hc Hcur) as Hmu.
      simpl in Hmu. unfold account_before in Hmu. simpl in Hmu. fold a in Hmu.
      rewrite Hfunds, Hmin, Hlt, Hst in Hmu.
      by apply Hmu.
Qed.
End laws.
