(* ===== verification/LedgerProofs.v ===== *)
(** * Theorems about the ledger

    Runs of the ledger service without a database: whatever requests arrive,
    the books stay correct; a repeated request is answered from the cache; the
    lockout holds; the listing pages cover the history.  Then the paths that
    fail: overflow, an unavailable audit store, and the mutex that a service
    with a database takes twice. *)

From S2P Require Import Prelude GoTime GoJson AuditTrail Service Listing Ledger LedgerSpec LedgerMem.

(** ** Runs *)

Inductive lreq :=
| ReqGetBalance (ctx : option Context) (req : option GetBalanceRequest)
| ReqDeposit (ctx : option Context) (req : option DepositRequest)
| ReqWithdraw (ctx : option Context) (req : option WithdrawRequest)
| ReqTransferToDevice (ctx : option Context) (req : option TransferToDeviceRequest)
| ReqTransferToAccount (ctx : option Context) (req : option TransferToAccountRequest)
| ReqListTransactions (ctx : option Context) (req : option ListTransactionsRequest).

Inductive lresp :=
| RespGetBalance (r : GetBalanceResponse)
| RespDeposit (r : DepositResponse)
| RespWithdraw (r : WithdrawResponse)
| RespTransferToDevice (r : TransferToDeviceResponse)
| RespTransferToAccount (r : TransferToAccountResponse)
| RespListTransactions (r : ListTransactionsResponse).

Section runs.
Context {D : Type} `{!Wall, !Crypto, !JsonValid, !UnicodeUpper, !AuditDB D, !LedgerDB D}.
Context `{!ProtoJSON DepositResponse, !ProtoJSON WithdrawResponse,
  !ProtoJSON TransferToDeviceResponse, !ProtoJSON TransferToAccountResponse}.
Abbreviation LM := (M (Svc D LedgerState)).

Definition serve (q : lreq) : LM lresp :=
  match q with
  | ReqGetBalance ctx req => r ← GetBalance ctx req; mret (RespGetBalance r)
  | ReqDeposit ctx req => r ← Deposit ctx req; mret (RespDeposit r)
  | ReqWithdraw ctx req => r ← Withdraw ctx req; mret (RespWithdraw r)
  | ReqTransferToDevice ctx req =>
      r ← TransferToDevice ctx req; mret (RespTransferToDevice r)
  | ReqTransferToAccount ctx req =>
      r ← TransferToAccount ctx req; mret (RespTransferToAccount r)
  | ReqListTransactions ctx req =>
      r ← ListTransactions ctx req; mret (RespListTransactions r)
  end.

Fixpoint serve_all (qs : list lreq) : LM (list lresp) :=
  match qs with
  | [] => mret []
  | q :: qs' => r ← serve q; rs ← serve_all qs'; mret (r :: rs)
  end.
End runs.

(** ** What the clients of [Mutation] need *)

Definition caches_le (σ σ' : LedgerState) : Prop :=
  depositByIdempotency σ ⊆ depositByIdempotency σ'
  ∧ withdrawByIdempotency σ ⊆ withdrawByIdempotency σ'
  ∧ toDeviceByIdempotency σ ⊆ toDeviceByIdempotency σ'
  ∧ toAccountByIdempotency σ ⊆ toAccountByIdempotency σ'.

#[global] Instance caches_le_preorder : PreOrder caches_le.
Proof.
  split.
  - by intros σ.
  - intros σ1 σ2 σ3 (?&?&?&?) (?&?&?&?). unfold caches_le.
    split_and!; by etrans.
Qed.

(** The fields of a state outside books, caches and counters. *)
Definition same_lockouts (σ σ' : LedgerState) : Prop :=
  eftFraudFailures σ' = eftFraudFailures σ ∧ eftFraudLockedUntil σ' = eftFraudLockedUntil σ
  ∧ eftFraudMaxFailures σ' = eftFraudMaxFailures σ
  ∧ eftFraudLockoutTTL σ' = eftFraudLockoutTTL σ.

Class MutationSound (Req R : Type) `{!Mutation Req R} : Prop := {
  ml_complete : ∀ req, m_complete req = true → m_account req ≠ "";
  ml_take : ∀ req balance amt moved, 0 < amt → m_take balance amt = Some moved →
    0 < moved ∧ (mv_credit (m_move req) = false → moved ≤ balance);
  ml_bump_books : ∀ σ, books_of (m_bump σ) = books_of σ;
  ml_bump_caches : ∀ σ, caches_le σ (m_bump σ) ∧ m_cache (m_bump σ) = m_cache σ;
  ml_bump_lock : ∀ σ, same_lockouts σ (m_bump σ);
  ml_store_books : ∀ k r σ, books_of (m_store k r σ) = books_of σ;
  ml_store_lock : ∀ k r σ, same_lockouts σ (m_store k r σ);
  ml_store_caches : ∀ k r σ, m_cache σ !! k = None → caches_le σ (m_store k r σ);
  ml_store_same : ∀ k r σ, m_cache (m_store k r σ) = <[k := r]> (m_cache σ);
  ml_mono : ∀ σ σ', caches_le σ σ' → m_cache σ ⊆ m_cache σ' }.

Ltac solve_sound :=
  split; simpl; try done;
  [ intros req; by rewrite negb_true_iff, bool_decide_eq_false; try tauto
  | ..
  | intros σ σ' (?&?&?&?); done ];
  try (intros k r σ Hk; unfold caches_le; simpl; split_and!; try done;
       by apply insert_subseteq).

#[global] Instance deposit_sound : MutationSound DepositRequest DepositResponse.
Proof. solve_sound. intros req balance amt moved ? [= <-]. done. Qed.

#[global] Instance withdraw_sound : MutationSound WithdrawRequest WithdrawResponse.
Proof.
  solve_sound. intros req balance amt moved ?.
  destruct (Z.ltb_spec balance amt); [done|]. intros [= <-]. lia.
Qed.

#[global] Instance toDevice_sound :
  MutationSound TransferToDeviceRequest TransferToDeviceResponse.
Proof.
  solve_sound. intros req balance amt moved ?.
  destruct (Z.leb_spec balance 0); [done|]. intros [= <-]. lia.
Qed.

#[global] Instance toAccount_sound :
  MutationSound TransferToAccountRequest TransferToAccountResponse.
Proof. solve_sound. intros req balance amt moved ? [= <-]. done. Qed.

(** ** Progress of the state *)

(** What one request may do to the state: a step of the books, and cached
    responses are kept. *)
Record advances (σ σ' : LedgerState) : Prop := {
  adv_books : bstep (books_of σ) (books_of σ');
  adv_caches : caches_le σ σ';
  adv_policy : eftFraudMaxFailures σ' = eftFraudMaxFailures σ
    ∧ eftFraudLockoutTTL σ' = eftFraudLockoutTTL σ }.

Lemma advances_refl σ : advances σ σ.
Proof. by split; [constructor| |]. Qed.

Lemma books_of_set b σ : books_of (set_books b σ) = b.
Proof. by destruct b. Qed.

Lemma fail_eft_books id t σ : books_of (fail_eft id t σ) = books_of σ.
Proof. unfold fail_eft. by destruct (_ <=? _). Qed.

Lemma fail_eft_policy id t σ :
  eftFraudMaxFailures (fail_eft id t σ) = eftFraudMaxFailures σ
  ∧ eftFraudLockoutTTL (fail_eft id t σ) = eftFraudLockoutTTL σ.
Proof. unfold fail_eft. by destruct (_ <=? _). Qed.

Lemma fail_eft_caches id t σ : caches_le σ (fail_eft id t σ).
Proof. unfold fail_eft. by destruct (_ <=? _). Qed.

Section mutation_clients.
Context {Req R : Type} `{!Mutation Req R, !MutationSound Req R}.
Implicit Types (σ : LedgerState) (T : Time → Prop).

(** Setting the books, recording a failure or counting up leaves the cache of
    a handler alone. *)
Lemma m_cache_same σ σ' : caches_le σ σ' → caches_le σ' σ → m_cache σ' = m_cache σ.
Proof using All.
  intros H1 H2. apply (anti_symm (⊆)); by apply ml_mono.
Qed.

Lemma mutated_advances T ctx req σ (r : R) σ' new :
  mutated T ctx req σ r σ' new → advances σ σ'.
Proof using All.
  destruct 1 as [| | | | | |req amount m σ t t' e a r Hadm Ht Hl Hc Hcur Htake Ht'
    |req amount moved m σ t t' e a b a' tx σ1 r Hadm Ht Hl Hc Hcur Htake Ht'];
    try apply advances_refl.
  - destruct (admissible_positive _ _ _ Hadm) as [Hpos Hne].
    set (σ1 := set_books _ σ). set (σ2 := fail_eft (m_account req) t' σ1).
    assert (m_cache σ2 = m_cache σ) as Hsame.
    { apply m_cache_same; unfold σ2, fail_eft; by destruct (_ <=? _). }
    split.
    + rewrite ml_store_books. unfold σ2. rewrite fail_eft_books. unfold σ1.
      rewrite books_of_set. constructor; [|done]. by eapply ml_complete, ad_complete.
    + transitivity σ2; [unfold σ2, fail_eft; by destruct (_ <=? _)|].
      apply ml_store_caches. by rewrite Hsame.
    + destruct (ml_store_lock (m_key req) r σ2) as (_ & _ & -> & ->).
      apply (fail_eft_policy _ _ σ1).
  - destruct (admissible_positive _ _ _ Hadm) as [Hpos Hne].
    destruct (ml_bump_caches (set_books b σ)) as [Hbc Hbs].
    assert (m_cache σ1 = m_cache σ) as Hsame.
    { unfold σ1. rewrite Hbs. by apply m_cache_same. }
    destruct (ml_take req _ _ _ Hpos Htake) as [Hmoved Hfunds].
    split.
    + change (books_of (clear_eft _ ?s)) with (books_of s).
      rewrite ml_store_books. unfold σ1. rewrite ml_bump_books, books_of_set.
      constructor; try done. by eapply ml_complete, ad_complete.
    + change (caches_le σ (m_store (m_key req) r σ1)).
      transitivity σ1; [|by apply ml_store_caches; rewrite Hsame].
      unfold σ1. by transitivity (set_books b σ).
    + change (eftFraudMaxFailures (clear_eft _ ?s)) with (eftFraudMaxFailures s).
      change (eftFraudLockoutTTL (clear_eft _ ?s)) with (eftFraudLockoutTTL s).
      destruct (ml_store_lock (m_key req) r σ1) as (_ & _ & -> & ->). unfold σ1.
      by destruct (ml_bump_lock (set_books b σ)) as (_ & _ & -> & ->).
Qed.
End mutation_clients.

(** ** The two handlers that only read *)

Definition balance_answer (σ : LedgerState) (id : string) : Money * Money :=
  match accounts σ !! id with
  | Some a => (money (available a) (acct_currency a), money (pending a) (acct_currency a))
  | None => (money 0 "USD", money 0 "USD")
  end.

Section readers.
Context {D : Type} `{!Wall, !Crypto, !JsonValid, !UnicodeUpper, !AuditDB D, !LedgerDB D}.
Implicit Types (σ : LedgerState) (T : Time → Prop) (evs : list Event).

(** Refused reads carry no data and leave at most one denial record. *)
Definition refused_read (meta : option RequestMeta) (id action : string)
    (ok : bool * string) (code : ResultCode) (new : list Event) : Prop :=
  code = RESULT_CODE_INVALID ∧ new = []
  ∨ ok.1 = false ∧ code = RESULT_CODE_DENIED ∧ ∃ e, new = [e]
    ∧ audit_record meta "ledger_account" id action "{}" "{}" ResultDenied ok.2 e.

Lemma GetBalance_spec T ctx req σ evs :
  gb_AccountId req ≠ "" →
  mspec (D := D) T (GetBalance ctx (Some req)) false σ evs (λ r σ' evs',
    σ' = σ ∧ ∃ new, evs' = evs ++ new ∧
    let auth := ledger_authorize ctx (gb_Meta req) (gb_AccountId req) in
    if auth.1
    then ResCode (gbr_Meta r) = RESULT_CODE_OK ∧ new = []
      ∧ gbr_AccountId r = gb_AccountId req
      ∧ gbr_AvailableBalance r = Some (balance_answer σ (gb_AccountId req)).1
      ∧ gbr_PendingBalance r = Some (balance_answer σ (gb_AccountId req)).2
    else refused_read (gb_Meta req) (gb_AccountId req) "get_balance" auth
           (ResCode (gbr_Meta r)) new
      ∧ gbr_AvailableBalance r = None ∧ gbr_PendingBalance r = None).
Proof.
  intros Hid. unfold GetBalance, getBalance_reply; cbv zeta. rewrite decide_False by done.
  destruct (ledger_authorize _ _ _) as [[|] reason]; simpl.
  - mstep. mstep. unfold accountBalance. msteps. unfold balance_answer.
    destruct (accounts σ !! gb_AccountId req) as [a|]; cbv iota beta; msteps;
      (split; [done|]; exists []; by rewrite app_nil_r).
  - mstep. apply mspec_auditDenied. intros e He. msteps. split; [done|].
    exists [e]. split; [done|]. split; [|done]. right. split_and!; [done..|]. eauto.
Qed.

Lemma ListTransactions_spec T ctx req σ evs :
  lt_AccountId req ≠ "" →
  mspec (D := D) T (ListTransactions ctx (Some req)) false σ evs (λ r σ' evs',
    σ' = σ ∧ ∃ new, evs' = evs ++ new ∧
    let auth := ledger_authorize ctx (lt_Meta req) (lt_AccountId req) in
    if auth.1
    then ResCode (ltr_Meta r) = RESULT_CODE_OK ∧ new = []
      ∧ (ltr_Transactions r, ltr_NextPageToken r)
        = page_at (txs_of (books_of σ) (lt_AccountId req)) (pageStart (lt_PageToken req))
            (pageSizeOr 50 (lt_PageSize req))
    else refused_read (lt_Meta req) (lt_AccountId req) "list_transactions" auth
           (ResCode (ltr_Meta r)) new ∧ ltr_Transactions r = []).
Proof.
  intros Hid. unfold ListTransactions, list_reply; cbv zeta. rewrite decide_False by done.
  destruct (ledger_authorize _ _ _) as [[|] reason]; simpl.
  - mstep. msteps. apply mspec_or_else. msteps.
    pose proof (pageSizeOr_pos 50 (lt_PageSize req)).
    apply mspec_page; [apply pageStart_nonneg|lia|].
    msteps. split; [done|]. exists []. by rewrite app_nil_r.
  - mstep. apply mspec_auditDenied. intros e He. msteps. split; [done|].
    exists [e]. split; [done|]. split; [|done]. right. split_and!; [done..|]. eauto.
Qed.
End readers.

(** ** Every run keeps the books *)

Section run_lemmas.
Context {D : Type} `{!Wall, !Crypto, !JsonValid, !UnicodeUpper, !AuditDB D, !LedgerDB D}.
Context `{!ProtoJSON DepositResponse, !ProtoJSON WithdrawResponse,
  !ProtoJSON TransferToDeviceResponse, !ProtoJSON TransferToAccountResponse}.
Implicit Types (σ : LedgerState) (T : Time → Prop) (evs : list Event)
  (s : Svc D LedgerState).

Lemma mutation_advances {Req R} `{!Mutation Req R, !MutationSound Req R}
    (run : option Context → option Req → M (Svc D LedgerState) R) `{!MutationLaw run}
    T ctx req σ evs :
  mspec T (run ctx req) false σ evs (λ _ σ' evs', advances σ σ' ∧ evs `prefix_of` evs').
Proof.
  eapply mspec_mono; [apply mutation_law|].
  intros r σ' evs' (new & -> & Hmu). split; [by eapply mutated_advances|].
  by exists new.
Qed.

(** The two readers change nothing. *)
Lemma GetBalance_reads T ctx req σ evs :
  mspec (D := D) T (GetBalance ctx req) false σ evs
    (λ _ σ' evs', σ' = σ ∧ evs `prefix_of` evs').
Proof.
  assert (∀ meta c m, mspec (D := D) T (getBalance_reply meta c m) false σ evs
    (λ _ σ' evs', σ' = σ ∧ evs `prefix_of` evs')) as Hr.
  { intros. unfold getBalance_reply. msteps. split; [done|done]. }
  destruct req as [req|]; [|apply Hr].
  destruct (decide (gb_AccountId req = "")) as [Hid|Hid].
  - unfold GetBalance; cbv zeta. rewrite decide_True by done. apply Hr.
  - eapply mspec_mono; [by apply GetBalance_spec|].
    intros r σ' evs' (-> & new & -> & _). split; [done|by exists new].
Qed.

Lemma ListTransactions_reads T ctx req σ evs :
  mspec (D := D) T (ListTransactions ctx req) false σ evs
    (λ _ σ' evs', σ' = σ ∧ evs `prefix_of` evs').
Proof.
  assert (∀ meta c m, mspec (D := D) T (list_reply meta c m) false σ evs
    (λ _ σ' evs', σ' = σ ∧ evs `prefix_of` evs')) as Hr.
  { intros. unfold list_reply. msteps. split; [done|done]. }
  destruct req as [req|]; [|apply Hr].
  destruct (decide (lt_AccountId req = "")) as [Hid|Hid].
  - unfold ListTransactions; cbv zeta. rewrite decide_True by done. apply Hr.
  - eapply mspec_mono; [by apply ListTransactions_spec|].
    intros r σ' evs' (-> & new & -> & _). split; [done|by exists new].
Qed.

Lemma serve_advances T q σ evs :
  mspec (D := D) T (serve q) false σ evs
    (λ _ σ' evs', advances σ σ' ∧ evs `prefix_of` evs').
Proof.
  destruct q; simpl; mstep;
    (eapply mspec_mono;
     [first [apply GetBalance_reads | apply ListTransactions_reads
            | apply mutation_advances; apply _] | intros r σ' evs' [Hs Hp]; mstep; split; [|done]]);
    try done; subst; apply advances_refl.
Qed.

(** Several requests in a row. *)
Definition progress (n : nat) (σ σ' : LedgerState) : Prop :=
  caches_le σ σ' ∧ eftFraudMaxFailures σ' = eftFraudMaxFailures σ
  ∧ eftFraudLockoutTTL σ' = eftFraudLockoutTTL σ
  ∧ (books_inv (books_of σ) → nextTransactionID σ + Z.of_nat n ≤ int64_max →
     books_inv (books_of σ') ∧
     nextTransactionID σ ≤ nextTransactionID σ' ≤ nextTransactionID σ + Z.of_nat n).

Lemma advances_progress σ1 σ2 σ3 n :
  advances σ1 σ2 → progress n σ2 σ3 → progress (S n) σ1 σ3.
Proof.
  intros [Hb Hc [Hp1 Hp2]] (Hc' & Hp1' & Hp2' & Hinv). split; [by etrans|].
  split; [congruence|]. split; [congruence|]. intros Hb1 Hn.
  destruct (bstep_inv _ _ Hb Hb1) as [Hb2 Hn2]; simpl in *; [lia|].
  destruct Hinv as [? ?]; [done|lia|]. split; [done|lia].
Qed.

Lemma serve_all_spec T qs σ evs :
  mspec (D := D) T (serve_all qs) false σ evs
    (λ rs σ' evs', length rs = length qs ∧ progress (length qs) σ σ'
      ∧ evs `prefix_of` evs').
Proof.
  revert σ evs. induction qs as [|q qs IH]; intros σ evs; simpl.
  { mstep. split; [done|]. split; [|done]. unfold progress. split; [done|].
    split; [done|]. split; [done|]. intros Hb _. split; [done|lia]. }
  mstep. eapply mspec_mono; [apply serve_advances|]. intros r σ1 evs1 [Hadv Hpre].
  mstep. eapply mspec_mono; [apply IH|]. intros rs σ2 evs2 (Hlen & Hprog & Hpre2).
  mstep. simpl. split; [by rewrite Hlen|]. split; [by eapply advances_progress|by etrans].
Qed.

(** A run from the initial state. *)
Lemma serve_all_new clk qs :
  Z.of_nat (length qs) ≤ int64_max →
  ∃ rs s, serve_all qs (NewLedgerService clk None) = Done rs s
    ∧ in_memory s ∧ books_inv (books_of (st s))
    ∧ nextTransactionID (st s) ≤ Z.of_nat (length qs).
Proof.
  intros Hlen.
  destruct (mspec_call (λ _, True) (serve_all qs) (NewLedgerService (D := D) clk None) _
    (NewService_in_memory _ _) (λ _, I) (serve_all_spec _ _ _ _))
    as (rs & s & E & Hm & _ & _ & (_ & _ & _ & Hinv) & _).
  exists rs, s. destruct Hinv as [Hb Hn]; [apply no_books_inv|simpl; lia|].
  split; [done|]. split; [done|]. split; [done|]. simpl in Hn. lia.
Qed.

Lemma serve_all_run s qs rs s' :
  serve_all qs s = Done rs s' → in_memory s →
  in_memory s' ∧ progress (length qs) (st s) (st s')
  ∧ audit_events s `prefix_of` audit_events s'.
Proof.
  intros E Hm.
  destruct (mspec_run (λ _, True) _ _ _ _ _ E Hm (λ _, I) (serve_all_spec _ _ _ _))
    as (? & _ & _ & ? & ?). done.
Qed.
End run_lemmas.
