(* ===== verification/Env.v ===== *)
(** * A concrete environment

    One instance of each interface the development is parametric in, for the
    examples and the instances of the theorems. *)

From S2P Require Import Prelude GoTime GoJson AuditTrail Service Ledger.

Module Concrete.
(** A wall clock that advances by a second per reading, from 2024-01-01. *)
#[export] Instance env_wall : Wall := λ n, 1704067200 * Second + Z.of_nat n * Second.
#[export] Instance env_crypto : Crypto := λ s, s.
#[export] Instance env_json : JsonValid := λ _, true.
#[export] Instance env_upper : UnicodeUpper := ToUpper.

#[export] Instance env_random : Random := λ n, Some ("random bytes " +:+ FormatInt (Z.of_nat n)).

(** A database in which every statement succeeds and every table is empty. *)
#[export] Instance env_audit_db {D} : AuditDB D := {|
  db_begin d := (Ok (), d); db_commit d := (Ok (), d); db_rollback d := d;
  q_audit_last _ d := (Ok None, d); x_audit_insert _ d := (Ok (), d) |}.

#[export] Instance env_ledger_db : LedgerDB () := {|
  q_eft_locked_until _ d := (Ok None, d);
  x_eft_failure _ _ _ d := (Ok (), d);
  x_eft_reset _ d := (Ok (), d);
  x_ensure_account _ _ _ _ d := (Ok (), d);
  x_insert_transaction _ _ _ _ _ _ _ _ _ _ d := (Ok (), d);
  x_insert_posting _ _ _ _ _ d := (Ok (), d);
  x_adjust_balance _ _ d := (Ok (), d);
  q_balance _ d := (Ok None, d);
  q_list_transactions _ _ _ d := (Ok [], d);
  q_find_transaction _ _ _ d := (Ok None, d);
  q_idempotency _ _ d := (Ok None, d);
  x_idempotency _ _ _ _ _ _ d := (Ok (), d);
  x_idempotency_cleanup _ d := (Ok 0, d) |}.

#[export] Instance env_pj {R} : ProtoJSON R := {|
  pj_Marshal _ := Ok "{}"; pj_Unmarshal _ := Err ErrMarshal |}.

Definition operator_meta (key : string) : option RequestMeta :=
  Some (mkRequestMeta "req-1" key (Some (mkActor "op" ACTOR_TYPE_OPERATOR))).

Definition usd (n : Z) : option Money := Some (mkMoney n "USD").

(** A ledger in memory with one account. *)
Definition ledger_with (balance : Z) : Svc () LedgerState :=
  mkSvc (base (NewLedgerService None None))
    (NewLedgerState <| accounts := {[ "alice" := mkAccount "alice" "USD" balance 0 ]} |>).

Lemma ledger_with_in_memory balance : in_memory (ledger_with balance).
Proof. apply NewService_in_memory. Qed.
End Concrete.
