(* ===== verification/LedgerTheorems.v ===== *)
(** * The properties of the ledger

    The theorems about the handlers of ledger_grpc.go, each with a concrete
    instance where it has hypotheses. *)

From S2P Require Import Prelude GoTime GoJson AuditTrail Service Listing Ledger LedgerSpec LedgerMem LedgerProofs Env.

(** An admissible request is neither malformed nor unauthorized. *)
Ltac not_refused Hadm :=
  try match goal with
  | Hn : ∀ m, ¬ admissible _ _ m |- _ => by destruct (Hn _ Hadm)
  | Hau : ledger_authorize _ _ _ = (false, _) |- _ =>
      let H' := fresh in
      pose proof (ad_authorized _ _ _ Hadm) as H'; by rewrite Hau in H'
  end.

(** ** Inversion of [mutated]

    A fresh accepted response comes from a booking, a fresh refusal from lack
    of funds. *)
Section inversion_lemmas.
Context {Req R : Type} `{!Mutation Req R, !MutationSound Req R}.
Implicit Types (σ : LedgerState) (req : Req) (r : R).

Definition booking_of req (amount : Money) (moved : Z) (m : ResponseMeta) (t : Time) σ
    : R * LedgerState :=
  let b := book (m_move req) (m_account req) (Currency amount) moved t (books_of σ) in
  let tx := mv_tx (m_move req) (tx_id (bk_next b)) (m_account req) (Currency amount)
              moved t in
  let σ1 := m_bump (set_books b σ) in
  let r := m_accepted m σ1 tx (AmountMinor amount) ((account_before σ req amount)
             <| available ::= λ v, wrap64 (v + mv_delta (m_move req) moved) |>) in
  (r, clear_eft (m_account req) (m_store (m_key req) r σ1)).

Definition refusal_of req (amount : Money) (m : ResponseMeta) (t : Time) σ
    : R * LedgerState :=
  let r := m_refusal m (account_before σ req amount) in
  (r, m_store (m_key req) r (fail_eft (m_account req) t
        (set_books (open_account (m_account req) (Currency amount) (books_of σ)) σ))).

Lemma mutated_accepted T ctx req σ r σ' new :
  mutated T ctx (Some req) σ r σ' new → m_cache σ !! m_key req = None →
  ResCode (m_resp r) = RESULT_CODE_OK →
  ∃ amount moved m t, admissible ctx req amount ∧ T t
    ∧ acct_currency (account_before σ req amount) = Currency amount
    ∧ m_take (available (account_before σ req amount)) (AmountMinor amount) = Some moved
    ∧ (r, σ') = booking_of req amount moved m t σ.
Proof using All.
  inversion 1; subst; intros Hnone Hok; unfold code_is in *; destruct_and?;
    try congruence.
  eexists amount, moved, _, _. split_and!; done.
Qed.

Lemma authorize_reason ctx meta id :
  (ledger_authorize ctx meta id).2 ≠ "insufficient balance".
Proof using.
  unfold ledger_authorize, resolveActor.
  repeat (case_match; simpl in *; simplify_eq; try done).
Qed.

Lemma mutated_refused T ctx req σ r σ' new :
  mutated T ctx (Some req) σ r σ' new → m_cache σ !! m_key req = None →
  code_is r (m_meta req) RESULT_CODE_DENIED "insufficient balance" →
  ∃ amount m t, admissible ctx req amount ∧ T t
    ∧ acct_currency (account_before σ req amount) = Currency amount
    ∧ m_take (available (account_before σ req amount)) (AmountMinor amount) = None
    ∧ (r, σ') = refusal_of req amount m t σ.
Proof using All.
  inversion 1; subst; intros Hnone (Hc & Hreason & _); unfold code_is in *; destruct_and?;
    try congruence.
  - match goal with Ha : ledger_authorize ?c ?m ?i = (false, ?x) |- _ =>
      pose proof (authorize_reason c m i) as Hne; rewrite Ha in Hne; simpl in Hne end.
    congruence.
  - eexists amount, _, _. split_and!; done.
Qed.

Lemma admissible_amount ctx req m m' :
  admissible ctx req m → admissible ctx req m' → m' = m.
Proof using All.
  intros H1 H2. destruct (ad_amount _ _ _ H1) as [E1 _], (ad_amount _ _ _ H2) as [E2 _].
  congruence.
Qed.

(** Nothing stands in the way of an admissible request with enough funds on
    an account that is not locked. *)
Lemma mutated_goes_through T ctx req σ r σ' new amount moved :
  mutated T ctx (Some req) σ r σ' new →
  admissible ctx req amount → (∀ t, T t → eft_locked σ (m_account req) t = false) →
  m_cache σ !! m_key req = None →
  acct_currency (account_before σ req amount) = Currency amount →
  m_take (available (account_before σ req amount)) (AmountMinor amount) = Some moved →
  ∃ m t, T t ∧ ResCode (m_resp r) = RESULT_CODE_OK
    ∧ (r, σ') = booking_of req amount moved m t σ.
Proof using All.
  intros Hmu Hadm Hopen Hnone Hcur Htake.
  inversion Hmu; subst; not_refused Hadm;
    match goal with Hx : admissible ctx req ?x |- _ =>
      pose proof (admissible_amount _ _ _ _ Hadm Hx); subst x; clear Hx end.
  - match goal with Ht : T _, Hl : eft_locked _ _ _ = true |- _ =>
      by rewrite (Hopen _ Ht) in Hl end.
  - congruence.
  - congruence.
  - match goal with Hn : m_take _ _ = None |- _ =>
      assert (Some moved = None) by (rewrite <- Htake; exact Hn); done end.
  - match goal with Hn : m_take _ _ = Some ?x |- _ =>
      assert (Some x = Some moved) as [= ->] by (rewrite <- Htake; symmetry; exact Hn) end.
    eexists _, _. split; [done|].
    match goal with Hc : code_is _ _ RESULT_CODE_OK _ |- _ => split; [apply Hc|done] end.
Qed.

(** The account after a booking. *)
Lemma booking_account req amount moved m t σ a :
  accounts σ !! m_account req = Some a →
  accounts (booking_of req amount moved m t σ).2 !! m_account req
  = Some (a <| available := wrap64 (available a + mv_delta (m_move req) moved) |>).
Proof using All.
  intros Ha. unfold booking_of. cbv zeta. simpl snd.
  set (b := book _ _ _ _ _ _). set (r := m_accepted _ _ _ _ _).
  change (bk_accounts (books_of (m_store (m_key req) r (m_bump (set_books b σ))))
    !! m_account req = Some (a <| available := wrap64 (available a
         + mv_delta (m_move req) moved) |>)).
  rewrite ml_store_books, ml_bump_books, books_of_set. unfold b.
  rewrite book_accounts, decide_True by done.
  by rewrite (account_or_new_lookup _ _ _ a).
Qed.

(** A booking ends the account's failures and its lock. *)
Lemma booking_clears req amount moved m t σ :
  let σ' := (booking_of req amount moved m t σ).2 in
  map_get 0 (eftFraudFailures σ') (m_account req) = 0
  ∧ map_get zero_time (eftFraudLockedUntil σ') (m_account req) = zero_time.
Proof using.
  unfold booking_of. cbv zeta. simpl snd. set (x := m_store _ _ _). clearbody x.
  unfold map_get. simpl. by rewrite !lookup_delete_eq.
Qed.

Lemma account_before_lookup req amount σ a :
  accounts σ !! m_account req = Some a → account_before σ req amount = a.
Proof using. intros Ha. by apply account_or_new_lookup. Qed.
End inversion_lemmas.

Section theorems.
Context {D : Type} `{!Wall, !Crypto, !JsonValid, !UnicodeUpper, !AuditDB D, !LedgerDB D}.
Context `{!ProtoJSON DepositResponse, !ProtoJSON WithdrawResponse,
  !ProtoJSON TransferToDeviceResponse, !ProtoJSON TransferToAccountResponse}.
Implicit Types (s : Svc D LedgerState) (ctx : option Context).

(** A handler called on a service in memory, as the interface sees it. *)
Lemma mutation_run {Req R} `{!Mutation Req R}
    (run : option Context → option Req → M (Svc D LedgerState) R) `{!MutationLaw run}
    ctx req s r s' :
  run ctx req s = Done r s' → in_memory s →
  in_memory s' ∧ ∃ new, audit_events s' = audit_events s ++ new
    ∧ mutated (λ t, ∃ n, t = reading s n) ctx req (st s) r (st s') new.
Proof.
  intros E Hm.
  destruct (mspec_run (λ t, ∃ n, t = reading s n) _ _ _ _ _ E Hm (λ n, ex_intro _ n eq_refl)
    (mutation_law _ _ _ _ _)) as (? & _ & ?). done.
Qed.

(** ... and it always returns. *)
Lemma mutation_returns {Req R} `{!Mutation Req R}
    (run : option Context → option Req → M (Svc D LedgerState) R) `{!MutationLaw run}
    ctx req s :
  in_memory s → ∃ r s', run ctx req s = Done r s'.
Proof.
  intros Hm.
  destruct (mspec_call (λ _, True) _ s _ Hm (λ _, I) (mutation_law _ ctx req _ _))
    as (r & s' & E & _). eauto.
Qed.

(** An accepted response is in the cache afterwards. *)
Lemma mutated_ok_cached {Req R} `{!Mutation Req R, !MutationSound Req R} T ctx req σ (r : R)
    σ' new :
  mutated T ctx (Some req) σ r σ' new → ResCode (m_resp r) = RESULT_CODE_OK →
  m_cache σ' !! m_key req = Some r.
Proof.
  inversion 1; subst; intros Hok;
    try (unfold code_is in *; destruct_and?; congruence); try done.
  match goal with |- m_cache (clear_eft _ ?x) !! _ = _ =>
    rewrite (m_cache_same x) by done end.
  by rewrite ml_store_same, lookup_insert_eq.
Qed.

(** Once a request was accepted under an idempotency key, then whatever else
    happens in between, the same key on the same account is answered with
    the recorded response or, while the account is locked, denied; either way
    nothing moves. *)
Definition exactly_once {Req R} `{!Mutation Req R}
    (run : option Context → option Req → M (Svc D LedgerState) R) : Prop :=
  ∀ s ctx req r s1 qs rs s2 ctx' req' amount r' s3,
    in_memory s →
    run ctx (Some req) s = Done r s1 → ResCode (m_resp r) = RESULT_CODE_OK →
    serve_all qs s1 = Done rs s2 →
    admissible ctx' req' amount → m_key req' = m_key req →
    run ctx' (Some req') s2 = Done r' s3 →
    st s3 = st s2
    ∧ (r' = r ∨ code_is r' (m_meta req') RESULT_CODE_DENIED "eft account locked").

Lemma mutation_exactly_once {Req R} `{!Mutation Req R, !MutationSound Req R}
    (run : option Context → option Req → M (Svc D LedgerState) R) `{!MutationLaw run} :
  exactly_once run.
Proof.
  intros s ctx req r s1 qs rs s2 ctx' req' amount r' s3 Hm E1 Hok E2 Hadm Hkey E3.
  destruct (mutation_run run _ _ _ _ _ E1 Hm) as (Hm1 & new & _ & Hmu).
  pose proof (mutated_ok_cached _ _ _ _ _ _ _ Hmu Hok) as Hc.
  destruct (serve_all_run _ _ _ _ E2 Hm1) as (Hm2 & (Hle & _) & _).
  pose proof (lookup_weaken _ _ _ _ Hc (ml_mono _ _ Hle)) as Hc2.
  rewrite <- Hkey in Hc2.
  destruct (mutation_run run _ _ _ _ _ E3 Hm2) as (_ & new' & _ & Hmu').
  inversion Hmu'; subst; not_refused Hadm; try congruence.
  - split; [done|]. by right.
  - split; [done|]. left. congruence.
Qed.

(** One page of an account's transactions, by its token. *)
Definition list_page ctx meta id size (token : string)
    : M (Svc D LedgerState) (list LedgerTransaction * string) :=
  r ← ListTransactions ctx (Some (mkListTransactionsRequest meta id size token));
  mret (ltr_Transactions r, ltr_NextPageToken r).

(** A handler a player cannot use on somebody else's account. *)
Definition isolates {Req R} `{!Mutation Req R}
    (run : option Context → option Req → M (Svc D LedgerState) R) : Prop :=
  ∀ s ctx req r s' p,
    in_memory s → m_complete req = true →
    resolveActor ctx (m_meta req) = inl (mkActor p ACTOR_TYPE_PLAYER) →
    m_account req ≠ p →
    run ctx (Some req) s = Done r s' →
    code_is r (m_meta req) RESULT_CODE_DENIED "player cannot access another account"
    ∧ st s' = st s
    ∧ ∃ e, audit_events s' = audit_events s ++ [e]
        ∧ denied_event req "player cannot access another account" e.

Lemma player_denied ctx meta id p :
  resolveActor ctx meta = inl (mkActor p ACTOR_TYPE_PLAYER) → id ≠ p →
  ledger_authorize ctx meta id = (false, "player cannot access another account").
Proof. intros E Hid. unfold ledger_authorize. rewrite E. simpl. by rewrite decide_True. Qed.

Lemma mutation_isolates {Req R} `{!Mutation Req R}
    (run : option Context → option Req → M (Svc D LedgerState) R) `{!MutationLaw run} :
  isolates run.
Proof.
  intros s ctx req r s' p Hm Hcomplete Hactor Hne E.
  pose proof (player_denied _ _ _ _ Hactor Hne) as Hau.
  destruct (mutation_run run _ _ _ _ _ E Hm) as (_ & new & Hev & Hmu).
  inversion Hmu; subst;
    try match goal with Ha : admissible _ _ _ |- _ =>
      pose proof (ad_authorized _ _ _ Ha) as Hok; by rewrite Hau in Hok end.
  - match goal with Hc : m_complete req = true → _ |- _ => by rewrite Hau in Hc; specialize (Hc Hcomplete) end.
  - rewrite Hau in *. simplify_eq. eauto.
Qed.

(** C1: whatever at most 2^63 - 1 requests reach a new ledger service without a
    database, every one of them is answered, no handler panics or blocks, the
    audit chain is intact, and the books are correct: each balance is the
    sum of the account's transactions, each transaction is backed by its two
    postings, and transaction ids are unique. *)
Theorem ledger_run_correct clk qs :
  Z.of_nat (length qs) ≤ int64_max →
  ∃ rs s, serve_all qs (NewLedgerService clk None) = Done rs s
    ∧ length rs = length qs ∧ in_memory s ∧ books_inv (books_of (st s)).
Proof.
  intros Hlen. destruct (serve_all_new (D := D) clk qs Hlen) as (rs & s & E & Hm & Hb & _).
  exists rs, s. split; [done|]. split; [|done].
  by destruct (mspec_run (λ _, True) _ _ _ _ _ E (NewService_in_memory _ _) (λ _, I)
    (serve_all_spec _ _ _ _)) as (_ & _ & ? & _).
Qed.

(** C2: after any run, GetBalance tells an authorized caller exactly the sum
    of the account's credits minus its debits, and never a negative amount,
    provided the account's credits add up to less than 2^63. *)
Theorem ledger_balance_exact clk qs rs s ctx req :
  Z.of_nat (length qs) ≤ int64_max →
  serve_all qs (NewLedgerService clk None) = Done rs s →
  gb_AccountId req ≠ "" →
  (ledger_authorize ctx (gb_Meta req) (gb_AccountId req)).1 = true →
  let txs := txs_of (books_of (st s)) (gb_AccountId req) in
  sumZ credited_amount txs ≤ int64_max →
  ∃ r s' cur, GetBalance ctx (Some req) s = Done r s' ∧ st s' = st s
    ∧ ResCode (gbr_Meta r) = RESULT_CODE_OK
    ∧ gbr_AvailableBalance r = Some (money (sumZ signed_amount txs) cur)
    ∧ 0 ≤ sumZ signed_amount txs.
Proof.
  intros Hlen E Hid Hauth txs Hcred.
  destruct (serve_all_new (D := D) clk qs Hlen) as (rs' & s1 & E' & Hm & Hb & _).
  rewrite E in E'. injection E' as <- <-.
  destruct (mspec_call (λ _, True) _ _ _ Hm (λ _, I) (GetBalance_spec _ ctx req _ _ Hid))
    as (r & s' & Er & _ & _ & Hst & new & _ & Hr).
  cbv zeta in Hr. rewrite Hauth in Hr. destruct Hr as (Hok & _ & _ & Hav & _).
  exists r, s'. unfold balance_answer in Hav.
  destruct (accounts (st s) !! gb_AccountId req) as [a|] eqn:Ha; simpl in Hav.
  - destruct (account_ok_exact _ _ _ (bi_accounts _ Hb _ _ Ha) Hcred) as [Hex Hpos].
    exists (acct_currency a). rewrite Hex in Hav, Hpos. done.
  - exists "USD". unfold txs. rewrite (no_account_no_txs _ _ Hb Ha). done.
Qed.

(** C5: in every reachable state the postings of each transaction balance,
    over the integers and as the code's own check sees it, and the balance of
    every account outside the reserved ids is what the postings to it add up
    to, modulo 2^64. *)
Theorem ledger_double_entry clk qs rs s :
  Z.of_nat (length qs) ≤ int64_max →
  serve_all qs (NewLedgerService clk None) = Done rs s →
  (∀ txID ps, postingsByTx (st s) !! txID = Some ps →
     posting_sum ps = 0 ∧ isBalanced ps = true ∧ length ps = 2%nat)
  ∧ (∀ id a, accounts (st s) !! id = Some a → ¬ reserved id →
     available a = wrap64 (posting_net id (postingsByTx (st s)))).
Proof.
  intros Hlen E.
  destruct (serve_all_new (D := D) clk qs Hlen) as (rs' & s1 & E' & _ & Hb & _).
  rewrite E in E'. injection E' as <- <-. split.
  - intros txID ps Hps. destruct (bi_postings _ Hb _ _ Hps) as (id & tx & Htx & <-).
    destruct (to_postings _ _ _ (bi_txs _ Hb _ _ Htx)) as (mv & t & _ & Hmv).
    simpl in Hmv. rewrite Hps in Hmv. injection Hmv as ->.
    rewrite mv_postings_sum, mv_postings_balanced. split_and!; [done..|].
    unfold mv_postings. by destruct (mv_credit mv).
  - intros id a Ha Hr. pose proof (bi_net _ Hb id Hr) as Hn. simpl in Hn.
    rewrite <- Hn. apply (ao_available _ _ _ (bi_accounts _ Hb _ _ Ha)).
Qed.

(** C4: each of the four mutating handlers always returns, and does exactly
    one of the things [mutated] lists: reject without effect, replay, refuse
    for lack of funds, or book one movement, with the response, the audit
    record and the state each of these requires. *)
Theorem ledger_mutations_refine :
  MutationLaw (D := D) Deposit ∧ MutationLaw (D := D) Withdraw
  ∧ MutationLaw (D := D) TransferToDevice ∧ MutationLaw (D := D) TransferToAccount.
Proof. split_and!; apply _. Qed.

(** C3: money moves at most once per idempotency key: after an accepted
    deposit, withdrawal or transfer and any further requests, the same key on
    the same account returns the recorded response (or a lockout denial) and
    leaves the whole state as it was. *)
Theorem ledger_exactly_once :
  exactly_once Deposit ∧ exactly_once Withdraw
  ∧ exactly_once TransferToDevice ∧ exactly_once TransferToAccount.
Proof. split_and!; apply mutation_exactly_once; apply _. Qed.

(** A player's requests on somebody else's account are denied by all four
    mutating handlers, change nothing, and leave one denial in the audit
    trail. *)
Theorem ledger_player_isolation :
  isolates Deposit ∧ isolates Withdraw
  ∧ isolates TransferToDevice ∧ isolates TransferToAccount.
Proof. split_and!; apply mutation_isolates; apply _. Qed.

(** What the four mutating handlers do on a locked account. *)
Definition denies_locked {Req R} `{!Mutation Req R}
    (run : option Context → option Req → M (Svc D LedgerState) R) : Prop :=
  ∀ s ctx req amount,
    in_memory s → admissible ctx req amount →
    (∀ n, reading s n < map_get zero_time (eftFraudLockedUntil (st s)) (m_account req)) →
    ∃ r s', run ctx (Some req) s = Done r s'
      ∧ code_is r (m_meta req) RESULT_CODE_DENIED "eft account locked" ∧ st s' = st s.

Lemma mutation_denies_locked {Req R} `{!Mutation Req R}
    (run : option Context → option Req → M (Svc D LedgerState) R) `{!MutationLaw run} :
  denies_locked run.
Proof.
  intros s ctx req amount Hm Hadm Hlock.
  set (T t := t < map_get zero_time (eftFraudLockedUntil (st s)) (m_account req)).
  destruct (mspec_call T _ s _ Hm Hlock (mutation_law _ ctx (Some req) _ _))
    as (r & s' & E & _ & _ & new & _ & Hmu).
  exists r, s'. split; [done|].
  assert (∀ t, T t → eft_locked (st s) (m_account req) t = true) as HT.
  { intros t Ht. by apply Z.ltb_lt. }
  inversion Hmu; subst; not_refused Hadm; try done;
    match goal with Ht : T ?t, Hl : eft_locked _ _ ?t = false |- _ =>
      by rewrite HT in Hl end.
Qed.

(** While an account is locked out, every deposit, withdrawal and
    transfer on it is denied and leaves the state as it was, replays of
    accepted requests included. *)
Theorem ledger_lockout_denies :
  denies_locked Deposit ∧ denies_locked Withdraw
  ∧ denies_locked TransferToDevice ∧ denies_locked TransferToAccount.
Proof. split_and!; apply mutation_denies_locked; apply _. Qed.

(** A refused withdrawal counts as one failed attempt of its account and,
    from the configured maximum on, locks the account for the lockout period
    from the time of the refusal; an accepted one clears the count and the
    lock. *)
Theorem withdraw_counts_failures s ctx req r s' :
  in_memory s → Withdraw ctx (Some req) s = Done r s' →
  withdrawByIdempotency (st s) !! m_key req = None →
  let id := wd_AccountId req in
  let failures σ := map_get 0 (eftFraudFailures σ) id in
  let until σ := map_get zero_time (eftFraudLockedUntil σ) id in
  (code_is r (wd_Meta req) RESULT_CODE_DENIED "insufficient balance" →
     failures (st s') = wrap64 (failures (st s) + 1)
     ∧ if eftFraudMaxFailures (st s) <=? failures (st s')
       then ∃ n, until (st s') = reading s n + eftFraudLockoutTTL (st s)
       else until (st s') = until (st s))
  ∧ (ResCode (wdr_Meta r) = RESULT_CODE_OK →
     failures (st s') = 0 ∧ until (st s') = zero_time).
Proof.
  intros Hm E Hfresh id failures until.
  destruct (mutation_run Withdraw _ _ _ _ _ E Hm) as (_ & new & _ & Hmu). split.
  - intros Hr.
    destruct (mutated_refused _ _ _ _ _ _ _ Hmu Hfresh Hr)
      as (amount & m & t & _ & (n & ->) & _ & _ & [= -> ->]).
    unfold failures, until, fail_eft; simpl.
    set (k := wrap64 (map_get 0 (eftFraudFailures (st s)) id + 1)).
    assert (∀ g : gmap string Z, map_get 0 (<[id := k]> g) id = k) as Hk
      by (intros g; unfold map_get; by rewrite lookup_insert_eq).
    fold id. fold k.
    destruct (eftFraudMaxFailures (st s) <=? k) eqn:Hmax; simpl; rewrite Hk, Hmax;
      (split; [done|]); [|done].
    exists n. unfold map_get. by rewrite lookup_insert_eq.
  - intros Hok.
    destruct (mutated_accepted _ _ _ _ _ _ _ Hmu Hfresh Hok)
      as (amount & moved & m & t & _ & _ & _ & _ & Hbook).
    pose proof (booking_clears req amount moved m t (st s)) as Hclear.
    rewrite <- Hbook in Hclear. exact Hclear.
Qed.

(** A withdrawal is accepted only up to the balance, and takes exactly
    the requested amount from it without wrapping around: the new balance is
    the old one minus the amount, not negative, and it is the balance the
    response reports. *)
Theorem withdraw_never_overdraws s ctx req r s' a :
  in_memory s → Withdraw ctx (Some req) s = Done r s' →
  withdrawByIdempotency (st s) !! m_key req = None →
  ResCode (wdr_Meta r) = RESULT_CODE_OK →
  accounts (st s) !! wd_AccountId req = Some a → in_int64 (available a) →
  ∃ amount, wd_Amount req = Some amount ∧ 0 < AmountMinor amount ≤ available a
    ∧ accounts (st s') !! wd_AccountId req
      = Some (a <| available := available a - AmountMinor amount |>)
    ∧ wdr_AvailableBalance r
      = Some (money (available a - AmountMinor amount) (Currency amount)).
Proof.
  intros Hm E Hfresh Hok Ha Hint.
  destruct (mutation_run Withdraw _ _ _ _ _ E Hm) as (_ & new & _ & Hmu).
  destruct (mutated_accepted _ _ _ _ _ _ _ Hmu Hfresh Hok)
    as (amount & moved & m & t & Hadm & _ & Hcur & Htake & Hbook).
  pose proof (admissible_positive _ _ _ Hadm) as [Hpos _].
  rewrite (account_before_lookup req amount _ a) in Hcur, Htake by done.
  unfold m_take in Htake; simpl in Htake.
  destruct (Z.ltb_spec (available a) (AmountMinor amount)); [done|].
  injection Htake as <-.
  pose proof (booking_account req amount (AmountMinor amount) m t (st s) a Ha) as Hacc.
  rewrite <- Hbook in Hacc. apply (f_equal fst) in Hbook.
  unfold booking_of in Hbook. cbv zeta in Hbook.
  rewrite (account_before_lookup req amount _ a) in Hbook by done.
  simpl fst in *. simpl snd in *.
  assert (wrap64 (available a + - AmountMinor amount) = available a - AmountMinor amount)
    as Hw by (apply wrap64_id; unfold in_int64, int64_min, int64_max in *; lia).
  exists amount. split; [apply (ad_amount _ _ _ Hadm)|]. split; [lia|].
  rewrite <- Hw, <- Hcur. split; [exact Hacc|]. by rewrite Hbook.
Qed.

(** A transfer to a device moves the requested amount or, if the balance
    is smaller, all of it, which it reports as partial with a reason; the
    balance goes down by what was moved. *)
Theorem transfer_to_device_moves_min s ctx req r s' a :
  in_memory s → TransferToDevice ctx (Some req) s = Done r s' →
  toDeviceByIdempotency (st s) !! m_key req = None →
  ResCode (tdr_Meta r) = RESULT_CODE_OK →
  accounts (st s) !! td_AccountId req = Some a → in_int64 (available a) →
  ∃ amount, td_RequestedAmount req = Some amount ∧
    let moved := Z.min (available a) (AmountMinor amount) in
    0 < moved
    ∧ accounts (st s') !! td_AccountId req
      = Some (a <| available := available a - moved |>)
    ∧ tdr_TransferredAmount r = Some (money moved (Currency amount))
    ∧ tdr_AvailableBalance r = Some (money (available a - moved) (Currency amount))
    ∧ tdr_TransferStatus r =
        (if available a <? AmountMinor amount
         then TRANSFER_STATUS_PARTIAL else TRANSFER_STATUS_ACCEPTED).
Proof.
  intros Hm E Hfresh Hok Ha Hint.
  destruct (mutation_run TransferToDevice _ _ _ _ _ E Hm) as (_ & new & _ & Hmu).
  destruct (mutated_accepted _ _ _ _ _ _ _ Hmu Hfresh Hok)
    as (amount & moved & m & t & Hadm & _ & Hcur & Htake & Hbook).
  pose proof (admissible_positive _ _ _ Hadm) as [Hpos _].
  rewrite (account_before_lookup req amount _ a) in Hcur, Htake by done.
  unfold m_take in Htake; simpl in Htake.
  destruct (Z.leb_spec (available a) 0); [done|]. injection Htake as Hmoved.
  pose proof (booking_account req amount moved m t (st s) a Ha) as Hacc.
  rewrite <- Hbook in Hacc. apply (f_equal fst) in Hbook.
  unfold booking_of in Hbook. cbv zeta in Hbook.
  rewrite (account_before_lookup req amount _ a) in Hbook by done.
  simpl fst in *. simpl snd in *.
  assert (wrap64 (available a + - moved) = available a - moved) as Hw
    by (apply wrap64_id; unfold in_int64, int64_min, int64_max in *; lia).
  exists amount. split; [apply (ad_amount _ _ _ Hadm)|]. rewrite Hmoved. cbv zeta.
  split; [lia|]. rewrite <- Hw, <- Hcur. split; [exact Hacc|].
  rewrite Hbook. split; [done|]. split; [done|]. unfold m_accepted; simpl.
  destruct (Z.ltb_spec moved (AmountMinor amount)),
    (Z.ltb_spec (available a) (AmountMinor amount)); try done; lia.
Qed.

(** Following the page tokens of ListTransactions from the first page on
    returns every transaction of the account, each once and in order, for
    any page size, in at most one call per transaction plus one. *)
Theorem list_all_complete s ctx meta id size :
  in_memory s → id ≠ "" → (ledger_authorize ctx meta id).1 = true →
  let txs := txs_of (books_of (st s)) id in
  Z.of_nat (length txs) ≤ int64_max →
  ∃ s', walk_pages (list_page ctx meta id size) (S (length txs)) "" s
    = Done txs s' ∧ st s' = st s.
Proof.
  intros Hm Hid Hauth txs Hlen.
  destruct (mspec_walk (λ _, True) (list_page ctx meta id size) txs (pageSizeOr 50 size)
    (st s) (audit_events s) s (S (length txs))) as (s' & E & _ & Hst & _); try done.
  - by apply pageSizeOr_pos.
  - lia.
  - intros token start Htok. unfold list_page. mstep.
    eapply mspec_mono; [by apply ListTransactions_spec|]. simpl.
    intros r σ' evs' (-> & new & -> & Hr). cbv zeta in Hr. rewrite Hauth in Hr.
    destruct Hr as (_ & -> & Hpage). mstep. rewrite app_nil_r, Hpage.
    by rewrite (pageStart_token _ _ Htok).
  - by exists s'.
Qed.

(** Deposit has no overflow check: crediting an account beyond 2^63 - 1
    is accepted and leaves a negative balance. *)
Theorem deposit_overflow_negative s ctx req amount a :
  in_memory s → admissible ctx req amount →
  accounts (st s) !! dep_AccountId req = Some a → acct_currency a = Currency amount →
  (∀ n, map_get zero_time (eftFraudLockedUntil (st s)) (dep_AccountId req) ≤ reading s n) →
  depositByIdempotency (st s) !! m_key req = None →
  available a ≤ int64_max → AmountMinor amount ≤ int64_max →
  int64_max < available a + AmountMinor amount →
  ∃ r s', Deposit ctx (Some req) s = Done r s' ∧ ResCode (depr_Meta r) = RESULT_CODE_OK
    ∧ depr_AvailableBalance r
      = Some (money (available a + AmountMinor amount - 2 ^ 64) (Currency amount))
    ∧ available a + AmountMinor amount - 2 ^ 64 < 0.
Proof.
  intros Hm Hadm Ha Hcur Hopen Hfresh Hmax Hmax' Hover.
  set (T t := map_get zero_time (eftFraudLockedUntil (st s)) (dep_AccountId req) ≤ t).
  destruct (mspec_call T (Deposit ctx (Some req)) s _ Hm Hopen (mutation_law T ctx (Some req) _ _))
    as (r & s' & E & _ & _ & new & _ & Hmu).
  destruct (mutated_goes_through _ _ _ _ _ _ _ amount (AmountMinor amount) Hmu Hadm)
    as (m & t & _ & Hok & Hbook); [|done|..].
  all: unfold account_before; simpl; rewrite ?(account_or_new_lookup _ _ _ a) by done; try done.
  { intros t Ht. by apply Z.ltb_ge. }
  exists r, s'. split; [done|]. split; [done|].
  pose proof (admissible_positive _ _ _ Hadm) as [Hpos _].
  split; [|unfold int64_max in *; lia].
  apply (f_equal fst) in Hbook. unfold booking_of in Hbook. cbv zeta in Hbook.
  rewrite (account_before_lookup req amount _ a) in Hbook by done.
  simpl fst in Hbook. rewrite Hbook. unfold m_accepted. simpl. rewrite Hcur. unfold mv_delta. simpl.
  by rewrite wrap64_over by (unfold int64_max in *; lia).
Qed.
End theorems.

(** ** Concrete instances *)

Import Concrete.

Definition ex_deposit : DepositRequest :=
  mkDepositRequest (operator_meta "k1") "alice" (usd 1500) "auth-1".
Definition ex_withdraw (n : Z) : WithdrawRequest :=
  mkWithdrawRequest (operator_meta "k2") "alice" (usd n).
Definition ex_to_device (n : Z) : TransferToDeviceRequest :=
  mkTransferToDeviceRequest (operator_meta "k3") "alice" "dev-1" (usd n).
Definition ex_run : list lreq :=
  [ReqDeposit None (Some ex_deposit); ReqWithdraw None (Some (ex_withdraw 500));
   ReqTransferToDevice None (Some (ex_to_device 5000));
   ReqWithdraw None (Some (mkWithdrawRequest (operator_meta "k4") "alice" (usd 1)))].
Definition ex_service : Svc () LedgerState := NewLedgerService None None.

Definition resp_code (r : lresp) : ResultCode :=
  match r with
  | RespGetBalance r => ResCode (gbr_Meta r) | RespDeposit r => ResCode (depr_Meta r)
  | RespWithdraw r => ResCode (wdr_Meta r) | RespTransferToDevice r => ResCode (tdr_Meta r)
  | RespTransferToAccount r => ResCode (tar_Meta r)
  | RespListTransactions r => ResCode (ltr_Meta r)
  end.

Example ex_run_codes :
  match serve_all ex_run ex_service with
  | Done rs s => resp_code <$> rs = [RESULT_CODE_OK; RESULT_CODE_OK; RESULT_CODE_OK;
      RESULT_CODE_DENIED] ∧ length (audit_events s) = 4%nat
  | _ => False
  end.
Proof. vm_compute. split; reflexivity. Qed.

(** C39: persisting a response takes the service's mutex, which the handlers
    already hold: with a database it never returns.  So a deposit on a service
    with a database whose every statement succeeds blocks after the money has
    been committed. *)
Theorem ledger_db_deadlock :
  (∀ (D R : Type) `{!Wall, !LedgerDB D, !ProtoJSON R} (s : Svc D LedgerState) d
     scope key hash code (resp : R) payload,
     db (base s) = Some d → mu (base s) = true → pj_Marshal resp = Ok payload →
     persistIdempotencyResponse scope key hash code resp s = Deadlock)
  ∧ Deposit None (Some ex_deposit) (NewLedgerService None (Some ())) = Deadlock
  ∧ Withdraw None (Some (ex_withdraw 1)) (NewLedgerService None (Some ())) = Deadlock.
Proof.
  split_and!; [|vm_compute; reflexivity..].
  intros D R ? ? ? s d scope key hash code resp payload Hdb Hmu Hpj.
  unfold persistIdempotencyResponse, dbEnabled, gets, mbind, M_bind. rewrite Hdb, Hpj.
  simpl. unfold getIdempotencyTTL, locked, lock, mbind, M_bind. simpl. by rewrite Hmu.
Qed.

Lemma ledger_run_correct_witness :
  ∃ rs s, serve_all ex_run ex_service = Done rs s
    ∧ length rs = 4%nat ∧ in_memory s ∧ books_inv (books_of (st s)).
Proof. apply (ledger_run_correct None ex_run). vm_compute. discriminate. Defined.

Lemma ledger_balance_exact_witness :
  match serve_all ex_run ex_service with
  | Done rs s =>
      ∃ r s' cur,
        GetBalance None (Some (mkGetBalanceRequest (operator_meta "") "alice")) s = Done r s'
        ∧ st s' = st s ∧ ResCode (gbr_Meta r) = RESULT_CODE_OK
        ∧ gbr_AvailableBalance r
          = Some (money (sumZ signed_amount (txs_of (books_of (st s)) "alice")) cur)
        ∧ 0 ≤ sumZ signed_amount (txs_of (books_of (st s)) "alice")
  | _ => False
  end.
Proof.
  assert (match serve_all ex_run ex_service with
    | Done _ s => sumZ credited_amount (txs_of (books_of (st s)) "alice") ≤ int64_max
    | _ => False end) as Hc by (vm_compute; discriminate).
  destruct (serve_all ex_run ex_service) as [rs s| |] eqn:E; [|done..].
  apply (ledger_balance_exact None ex_run rs s None
    (mkGetBalanceRequest (operator_meta "") "alice")); try done.
Defined.

Lemma ledger_double_entry_witness :
  match serve_all ex_run ex_service with
  | Done rs s =>
      (∀ txID ps, postingsByTx (st s) !! txID = Some ps →
         posting_sum ps = 0 ∧ isBalanced ps = true ∧ length ps = 2%nat)
      ∧ (∀ id a, accounts (st s) !! id = Some a → ¬ reserved id →
         available a = wrap64 (posting_net id (postingsByTx (st s))))
  | _ => False
  end.
Proof.
  assert (match serve_all ex_run ex_service with Done _ _ => True | _ => False end) as Hr
    by (vm_compute; exact I).
  destruct (serve_all ex_run ex_service) as [rs s| |] eqn:E; [|done..].
  apply (ledger_double_entry None ex_run rs s); [vm_compute; discriminate|exact E].
Defined.

(** A withdrawal of more than the balance, and one within it. *)
Lemma withdraw_counts_failures_witness :
  match Withdraw None (Some (ex_withdraw 5)) (ledger_with 3) with
  | Done r s' => map_get 0 (eftFraudFailures (st s')) "alice" = 1
  | _ => False
  end.
Proof.
  assert (match Withdraw None (Some (ex_withdraw 5)) (ledger_with 3) with
    | Done r _ => code_is r (operator_meta "k2") RESULT_CODE_DENIED "insufficient balance"
    | _ => False end) as Hr by (vm_compute; split_and!; reflexivity).
  destruct (Withdraw None (Some (ex_withdraw 5)) (ledger_with 3)) as [r s'| |] eqn:E;
    [|done..].
  destruct (withdraw_counts_failures (ledger_with 3) None (ex_withdraw 5) r s'
    (ledger_with_in_memory 3) E eq_refl) as [Hfail _].
  by apply Hfail.
Defined.

Lemma withdraw_never_overdraws_witness :
  match Withdraw None (Some (ex_withdraw 2)) (ledger_with 3) with
  | Done r s' => accounts (st s') !! "alice" = Some (mkAccount "alice" "USD" 1 0)
  | _ => False
  end.
Proof.
  assert (match Withdraw None (Some (ex_withdraw 2)) (ledger_with 3) with
    | Done r _ => ResCode (wdr_Meta r) = RESULT_CODE_OK
    | _ => False end) as Hr by (vm_compute; reflexivity).
  destruct (Withdraw None (Some (ex_withdraw 2)) (ledger_with 3)) as [r s'| |] eqn:E;
    [|done..].
  destruct (withdraw_never_overdraws (ledger_with 3) None (ex_withdraw 2) r s'
    (mkAccount "alice" "USD" 3 0) (ledger_with_in_memory 3) E eq_refl Hr eq_refl)
    as (amount & [= <-] & _ & Hacc & _); [by vm_compute|exact Hacc].
Defined.

Lemma transfer_to_device_moves_min_witness :
  match TransferToDevice None (Some (ex_to_device 5)) (ledger_with 3) with
  | Done r s' => tdr_TransferredAmount r = Some (money 3 "USD")
  | _ => False
  end.
Proof.
  assert (match TransferToDevice None (Some (ex_to_device 5)) (ledger_with 3) with
    | Done r _ => ResCode (tdr_Meta r) = RESULT_CODE_OK
    | _ => False end) as Hr by (vm_compute; reflexivity).
  destruct (TransferToDevice None (Some (ex_to_device 5)) (ledger_with 3)) as [r s'| |] eqn:E;
    [|done..].
  destruct (transfer_to_device_moves_min (ledger_with 3) None (ex_to_device 5) r s'
    (mkAccount "alice" "USD" 3 0) (ledger_with_in_memory 3) E eq_refl Hr eq_refl)
    as (amount & [= <-] & _ & _ & Hmoved & _); [by vm_compute|exact Hmoved].
Defined.

Lemma list_all_complete_witness :
  match serve_all ex_run ex_service with
  | Done rs s =>
      let txs := txs_of (books_of (st s)) "alice" in
      length txs = 3%nat ∧
      ∃ s', walk_pages (list_page None (operator_meta "") "alice" 2) (S (length txs)) "" s
        = Done txs s'
        ∧ st s' = st s
  | _ => False
  end.
Proof.
  assert (match serve_all ex_run ex_service with
    | Done _ s => length (txs_of (books_of (st s)) "alice") = 3%nat
    | _ => False end) as Hl by (vm_compute; reflexivity).
  destruct (serve_all_new (D := ()) None ex_run) as (rs & s & E & Hm & _);
    [vm_compute; discriminate|].
  unfold ex_service in *. rewrite E in *. cbv zeta. split; [exact Hl|].
  apply (list_all_complete s None (operator_meta "") "alice" 2 Hm); [done|done|].
  by rewrite Hl.
Defined.

Lemma deposit_overflow_negative_witness :
  ∃ r s', Deposit None (Some ex_deposit) (ledger_with int64_max) = Done r s'
    ∧ ResCode (depr_Meta r) = RESULT_CODE_OK
    ∧ depr_AvailableBalance r = Some (money (int64_max + 1500 - 2 ^ 64) "USD")
    ∧ int64_max + 1500 - 2 ^ 64 < 0.
Proof.
  apply (deposit_overflow_negative (ledger_with int64_max) None ex_deposit
    (mkMoney 1500 "USD") (mkAccount "alice" "USD" int64_max 0)); try done.
  - apply ledger_with_in_memory.
  - intros n. unfold reading, wall, env_wall. simpl.
    unfold map_get. rewrite lookup_empty. simpl. unfold zero_time, Second. lia.
Defined.
