(* ===== verification/Wagering.v ===== *)
(** * The wagering service
    (internal/platform/server/wagering_grpc.go and wagering_postgres.go)

    Wagers are placed, then settled or canceled.  The handlers keep wagers in a
    map of pointers; [wagerPtr] distinguishes a pointer into that map from a
    struct read from the database, because writes through the latter do not
    reach the map. *)

From S2P Require Import Prelude GoTime GoJson AuditTrail Service Ledger.

(** ** Messages (api/proto/rgs/v1/wagering.proto) *)

Inductive WagerStatus :=
| WAGER_STATUS_UNSPECIFIED | WAGER_STATUS_PENDING | WAGER_STATUS_SETTLED
| WAGER_STATUS_CANCELED.

#[global] Instance WagerStatus_eq_dec : EqDecision WagerStatus.
Proof. solve_decision. Defined.

Record Wager := mkWager {
  WagerId : string; PlayerId : string; GameId : string; Stake : option Money;
  Status : WagerStatus; Payout : option Money; OutcomeRef : string; PlacedAt : string;
  SettledAt : string; CanceledAt : string; CancelReason : string }.

#[global] Instance eta_Wager : Eta Wager := λ w,
  mkWager (WagerId w) (PlayerId w) (GameId w) (Stake w) (Status w) (Payout w)
    (OutcomeRef w) (PlacedAt w) (SettledAt w) (CanceledAt w) (CancelReason w).

Record PlaceWagerRequest := mkPlaceWagerRequest {
  pw_Meta : option RequestMeta; pw_PlayerId : string; pw_GameId : string;
  pw_Stake : option Money }.
Record PlaceWagerResponse := mkPlaceWagerResponse {
  pwr_Meta : ResponseMeta; pwr_Wager : option Wager }.
Record SettleWagerRequest := mkSettleWagerRequest {
  sw_Meta : option RequestMeta; sw_WagerId : string; sw_Payout : option Money;
  sw_OutcomeRef : string }.
Record SettleWagerResponse := mkSettleWagerResponse {
  swr_Meta : ResponseMeta; swr_Wager : option Wager }.
Record CancelWagerRequest := mkCancelWagerRequest {
  cw_Meta : option RequestMeta; cw_WagerId : string; cw_Reason : string }.
Record CancelWagerResponse := mkCancelWagerResponse {
  cwr_Meta : ResponseMeta; cwr_Wager : option Wager }.

(** ** State *)

Record WageringState := mkWagering {
  wagers : gmap string Wager;
  placeByIdempotency : gmap string PlaceWagerResponse;
  settleByIdempotency : gmap string SettleWagerResponse;
  cancelByIdempotency : gmap string CancelWagerResponse;
  nextWagerID : Z;
  disableInMemCache : bool }.

#[global] Instance eta_WageringState : Eta WageringState := λ s,
  mkWagering (wagers s) (placeByIdempotency s) (settleByIdempotency s)
    (cancelByIdempotency s) (nextWagerID s) (disableInMemCache s).

Definition NewWageringService {D} (clk : option (nat → Time)) (handle : option D)
    : Svc D WageringState :=
  mkSvc (mkBase clk (Some NewInMemoryStore) false 0 handle 0)
    (mkWagering ∅ ∅ ∅ ∅ 0 false).

(** ** The database interface *)

(** A row of the wagers table as [getWager] scans it. *)
Record wager_row := mkWagerRow {
  wr_wager_id : string; wr_player_id : string; wr_game_id : string;
  wr_stake_amount : Z; wr_stake_currency : string; wr_status : string;
  wr_payout_amount : Z; wr_payout_currency : string; wr_outcome_ref : string;
  wr_placed_at : Time; wr_settled_at : option Time; wr_canceled_at : option Time;
  wr_cancel_reason : string }.

Class WageringDB (D : Type) := {
  (** INSERT INTO wagers ... ON CONFLICT (wager_id) DO UPDATE, with the fourteen
      parameters in order *)
  x_wager_upsert : string → string → string → Z → string → string → Z → string →
    string → string → string → string → string → string → D → res () * D;
  (** SELECT ... FROM wagers WHERE wager_id = $1 *)
  q_wager : string → D → res (option wager_row) * D;
  (** SELECT request_hash, response_payload FROM wagering_idempotency_keys:
      operation, scope, key *)
  q_wagering_idempotency : string → string → string → D →
    res (option (string * string)) * D;
  (** INSERT INTO wagering_idempotency_keys ... ON CONFLICT DO UPDATE:
      operation, scope, key, hash, payload *)
  x_wagering_idempotency : string → string → string → string → string → D →
    res () * D;
}.

(** ** Pure helpers *)

Definition WagerStatus_number (v : WagerStatus) : Z :=
  match v with
  | WAGER_STATUS_UNSPECIFIED => 0 | WAGER_STATUS_PENDING => 1
  | WAGER_STATUS_SETTLED => 2 | WAGER_STATUS_CANCELED => 3
  end.

Definition json_money (m : Money) : string :=
  json_object (omit_int "amount_minor" (AmountMinor m) ++ omit_string "currency" (Currency m)).

(** [json.Marshal(wager)], by the tags of the generated struct. *)
Definition json_wager (w : Wager) : string :=
  json_object (omit_string "wager_id" (WagerId w) ++ omit_string "player_id" (PlayerId w)
    ++ omit_string "game_id" (GameId w) ++ omit_ptr "stake" (json_money <$> Stake w)
    ++ omit_int "status" (WagerStatus_number (Status w))
    ++ omit_ptr "payout" (json_money <$> Payout w) ++ omit_string "outcome_ref" (OutcomeRef w)
    ++ omit_string "placed_at" (PlacedAt w) ++ omit_string "settled_at" (SettledAt w)
    ++ omit_string "canceled_at" (CanceledAt w)
    ++ omit_string "cancel_reason" (CancelReason w)).

Definition authorizePlace (ctx : option Context) (meta : option RequestMeta)
    (playerID : string) : bool * string :=
  match resolveActor ctx meta with
  | inr reason => (false, reason)
  | inl actor =>
      match ActorTypeOf actor with
      | ACTOR_TYPE_OPERATOR | ACTOR_TYPE_SERVICE => (true, "")
      | ACTOR_TYPE_PLAYER =>
          if decide (ActorId actor ≠ playerID)
          then (false, "player cannot place wager for another player") else (true, "")
      | _ => (false, "unauthorized actor type")
      end
  end.

Definition authorizeSettlement (ctx : option Context) (meta : option RequestMeta)
    : bool * string :=
  match resolveActor ctx meta with
  | inr reason => (false, reason)
  | inl actor =>
      match ActorTypeOf actor with
      | ACTOR_TYPE_OPERATOR | ACTOR_TYPE_SERVICE => (true, "")
      | _ => (false, "unauthorized actor type")
      end
  end.

Definition wageringStatusToDB (v : WagerStatus) : string :=
  match v with
  | WAGER_STATUS_PENDING => "pending"
  | WAGER_STATUS_SETTLED => "settled"
  | WAGER_STATUS_CANCELED => "canceled"
  | WAGER_STATUS_UNSPECIFIED => "pending"
  end.

Definition wageringStatusFromDB (v : string) : WagerStatus :=
  let l := ToLower v in
  if decide (l = "pending") then WAGER_STATUS_PENDING
  else if decide (l = "settled") then WAGER_STATUS_SETTLED
  else if decide (l = "canceled") then WAGER_STATUS_CANCELED
  else WAGER_STATUS_UNSPECIFIED.

Definition hashWageringRequest `{Crypto} (parts : list string) : string :=
  EncodeToString (sha256 (Join "|" parts)).

Definition wager_of_row (r : wager_row) : Wager :=
  mkWager (wr_wager_id r) (wr_player_id r) (wr_game_id r)
    (Some (mkMoney (wr_stake_amount r) (wr_stake_currency r)))
    (wageringStatusFromDB (wr_status r))
    (if decide (wr_payout_currency r ≠ "" ∨ wr_payout_amount r ≠ 0)
     then Some (mkMoney (wr_payout_amount r) (wr_payout_currency r)) else None)
    (wr_outcome_ref r) (FormatRFC3339Nano (wr_placed_at r))
    (default "" (FormatRFC3339Nano <$> wr_settled_at r))
    (default "" (FormatRFC3339Nano <$> wr_canceled_at r)) (wr_cancel_reason r).

Definition amount_or_zero (m : option Money) : Z := default 0 (AmountMinor <$> m).
Definition currency_or_empty (m : option Money) : string := default "" (Currency <$> m).

(** A [*rgsv1.Wager]: the struct the map points to under an id, or a struct of
    the handler's own. *)
Inductive wagerPtr := WShared (id : string) | WDetached (w : Wager).

Section wagering.
Context {D : Type} `{!Wall, !Crypto, !JsonValid, !AuditDB D, !WageringDB D}.
Context `{!ProtoJSON PlaceWagerResponse, !ProtoJSON SettleWagerResponse,
  !ProtoJSON CancelWagerResponse}.

Abbreviation WM := (M (Svc D WageringState)).

Definition nextWagerIDLocked : WM string :=
  mod_st (λ s, s <| nextWagerID ::= λ n, wrap64 (n + 1) |>);;
  t ← time_Now;
  n ← get_st nextWagerID;
  mret ("wager-" +:+ FormatInt t +:+ "-" +:+ FormatInt n).

Definition wagering_SetDisableInMemoryIdempotencyCache (disable : bool) : WM () :=
  locked (mod_st (λ s, s <| disableInMemCache := disable |>)).

Definition useInMemoryCache : WM bool :=
  enabled ← dbEnabled; disabled ← get_st disableInMemCache;
  mret (negb (enabled && disabled)).

Definition useInMemoryWagerMirror : WM bool :=
  enabled ← dbEnabled; disabled ← get_st disableInMemCache;
  mret (negb (enabled && disabled)).

Definition wagering_appendAudit (meta : option RequestMeta) (objectID action before after : string)
    (result : Result) (reason : string) : WM (option error) :=
  appendAudit "wagering-audit-" meta "wager" objectID action before after result reason.

Definition wager_deref (p : wagerPtr) : WM Wager :=
  match p with
  | WDetached w => mret w
  | WShared id =>
      w ← get_st (λ s, wagers s !! id);
      match w with Some w => mret w | None => panic end
  end.

(** Writes through the pointer. *)
Definition wager_update (p : wagerPtr) (f : Wager → Wager) : WM wagerPtr :=
  match p with
  | WDetached w => mret (WDetached (f w))
  | WShared id => mod_st (λ s, s <| wagers ::= alter f id |>);; mret (WShared id)
  end.

Definition store_wager (w : Wager) : WM () :=
  mod_st (λ s, s <| wagers ::= insert (WagerId w) w |>).

(** ** wagering_postgres.go *)

Definition persistWager (w : Wager) : WM (option error) :=
  enabled ← dbEnabled;
  if negb enabled then mret None else
  occurred ← (if decide (PlacedAt w = "") then t ← time_Now; mret (FormatRFC3339Nano t)
              else mret (PlacedAt w));
  placed ← nonEmptyTime (PlacedAt w);
  r ← run_db (x_wager_upsert (WagerId w) (PlayerId w) (GameId w) (amount_or_zero (Stake w))
        (currency_or_empty (Stake w)) (wageringStatusToDB (Status w))
        (amount_or_zero (Payout w)) (currency_or_empty (Payout w)) (OutcomeRef w) placed
        (SettledAt w) (CanceledAt w) (CancelReason w) occurred);
  mret (match r with Ok _ => None | Err e => Some e end).

Definition getWager (wagerID : string) : WM (res (option Wager)) :=
  enabled ← dbEnabled;
  if negb enabled then mret (Ok None) else
  r ← run_db (q_wager wagerID);
  mret (match r with Err e => Err e | Ok row => Ok (wager_of_row <$> row) end).

Definition wagering_loadIdempotencyResponse {R} `{!ProtoJSON R}
    (operation scopeID idemKey requestHash : string) : WM (res (option R)) :=
  enabled ← dbEnabled;
  if negb enabled then mret (Ok None) else
  r ← run_db (q_wagering_idempotency operation scopeID idemKey);
  mret (match r with
        | Err e => Err e
        | Ok None => Ok None
        | Ok (Some (storedHash, payload)) =>
            if decide (storedHash ≠ requestHash) then Err errIdempotencyRequestMismatch
            else match pj_Unmarshal payload with
                 | Ok out => Ok (Some out)
                 | Err e => Err e
                 end
        end).

Definition wagering_persistIdempotencyResponse {R} `{!ProtoJSON R}
    (operation scopeID idemKey requestHash : string) (resp : R) : WM (option error) :=
  enabled ← dbEnabled;
  if negb enabled then mret None else
  match pj_Marshal resp with
  | Err e => mret (Some e)
  | Ok payload =>
      r ← run_db (x_wagering_idempotency operation scopeID idemKey requestHash payload);
      mret (match r with Ok _ => None | Err e => Some e end)
  end.

(** ** Handlers *)

Definition place_reply meta code reason : WM PlaceWagerResponse :=
  m ← responseMeta meta code reason; mret (mkPlaceWagerResponse m None).
Definition settle_reply meta code reason : WM SettleWagerResponse :=
  m ← responseMeta meta code reason; mret (mkSettleWagerResponse m None).
Definition cancel_reply meta code reason : WM CancelWagerResponse :=
  m ← responseMeta meta code reason; mret (mkCancelWagerResponse m None).

(** [if s.useInMemoryCache() { cache[key] = clone(resp) }], and the same for the
    wager of a replayed response. *)
Definition wcache (f : WageringState → WageringState) : WM () :=
  use ← useInMemoryCache; if (use : bool) then mod_st f else mret ().

Definition mirror_replayed (w : option Wager) : WM () :=
  mirror ← useInMemoryWagerMirror;
  match w with
  | Some w => if (mirror : bool) then store_wager w else mret ()
  | None => mret ()
  end.

Definition PlaceWager (ctx : option Context) (req : option PlaceWagerRequest)
    : WM PlaceWagerResponse :=
  let required := "player_id, game_id, and valid stake are required" in
  match req with
  | None => place_reply None RESULT_CODE_INVALID required
  | Some req =>
  let meta := pw_Meta req in
  match pw_Stake req with
  | None => place_reply meta RESULT_CODE_INVALID required
  | Some stake =>
  if decide (pw_PlayerId req = "" ∨ pw_GameId req = "" ∨ invalidAmount (Some stake) = true)
  then place_reply meta RESULT_CODE_INVALID required
  else if decide (idempotency meta = "") then
    place_reply meta RESULT_CODE_INVALID "idempotency_key is required"
  else
  let '(ok, reason) := authorizePlace ctx meta (pw_PlayerId req) in
  if negb ok then
    wagering_appendAudit meta "" "place_wager" "{}" "{}" ResultDenied reason;;
    place_reply meta RESULT_CODE_DENIED reason
  else
  locked (
    let unavailable := place_reply meta RESULT_CODE_ERROR "persistence unavailable" in
    let idem := idempotency meta in
    let idemKey := pw_PlayerId req +:+ "|place|" +:+ idem in
    let requestHash := hashWageringRequest ["place"; pw_PlayerId req; pw_GameId req;
      Currency stake; FormatInt (AmountMinor stake)] in
    or_else (
      use ← useInMemoryCache;
      if (use : bool) then get_st (λ s, placeByIdempotency s !! idemKey) else mret None) $
    or_else (
      enabled ← dbEnabled;
      if negb enabled then mret None else
      found ← wagering_loadIdempotencyResponse "place" (pw_PlayerId req) idem requestHash;
      match found with
      | Err errIdempotencyRequestMismatch =>
          return_ (place_reply meta RESULT_CODE_INVALID
            "idempotency_key reused with different request")
      | Err _ => return_ unavailable
      | Ok (Some replay) =>
          wcache (λ s, s <| placeByIdempotency ::= insert idemKey replay |>);;
          mirror_replayed (pwr_Wager replay);; mret (Some replay)
      | Ok None => mret None
      end) $
    (t ← now;
    wagerID ← nextWagerIDLocked;
    let wager := mkWager wagerID (pw_PlayerId req) (pw_GameId req) (Some stake)
      WAGER_STATUS_PENDING None "" (FormatRFC3339Nano t) "" "" "" in
    mirror ← useInMemoryWagerMirror;
    (if (mirror : bool) then store_wager wager else mret ());;
    m ← responseMeta meta RESULT_CODE_OK "";
    let resp := mkPlaceWagerResponse m (Some wager) in
    wcache (λ s, s <| placeByIdempotency ::= insert idemKey resp |>);;
    e ← persistWager wager;
    match e with
    | Some _ => unavailable
    | None =>
    e ← wagering_persistIdempotencyResponse "place" (pw_PlayerId req) idem requestHash resp;
    match e with
    | Some _ => unavailable
    | None =>
    e ← wagering_appendAudit meta wagerID "place_wager" "{}" (json_wager wager)
          ResultSuccess "";
    match e with
    | Some _ => place_reply meta RESULT_CODE_ERROR "audit unavailable"
    | None => mret resp
    end end end))
  end end.

(** The wager a settlement or cancellation is about: the map's entry, or the
    database's row, of which the map gets a copy. *)
Definition load_wager (wagerID : string) : WM (res (option wagerPtr)) :=
  mirror ← useInMemoryWagerMirror;
  found ← (if (mirror : bool) then get_st (λ s, wagers s !! wagerID) else mret None);
  match found with
  | Some _ => mret (Ok (Some (WShared wagerID)))
  | None =>
      enabled ← dbEnabled;
      if negb enabled then mret (Ok None) else
      r ← getWager wagerID;
      match r with
      | Err e => mret (Err e)
      | Ok None => mret (Ok None)
      | Ok (Some w) =>
          mirror ← useInMemoryWagerMirror;
          (if (mirror : bool) then store_wager w else mret ());;
          mret (Ok (Some (WDetached w)))
      end
  end.

Definition SettleWager (ctx : option Context) (req : option SettleWagerRequest)
    : WM SettleWagerResponse :=
  let required := "wager_id, outcome_ref, and valid payout are required" in
  match req with
  | None => settle_reply None RESULT_CODE_INVALID required
  | Some req =>
  let meta := sw_Meta req in
  match sw_Payout req with
  | None => settle_reply meta RESULT_CODE_INVALID required
  | Some payout =>
  if decide (sw_WagerId req = "" ∨ sw_OutcomeRef req = "" ∨ invalidAmount (Some payout) = true)
  then settle_reply meta RESULT_CODE_INVALID required
  else if decide (idempotency meta = "") then
    settle_reply meta RESULT_CODE_INVALID "idempotency_key is required"
  else
  let '(ok, reason) := authorizeSettlement ctx meta in
  if negb ok then
    wagering_appendAudit meta (sw_WagerId req) "settle_wager" "{}" "{}" ResultDenied reason;;
    settle_reply meta RESULT_CODE_DENIED reason
  else
  locked (
    let unavailable := settle_reply meta RESULT_CODE_ERROR "persistence unavailable" in
    let idem := idempotency meta in
    let idemKey := sw_WagerId req +:+ "|settle|" +:+ idem in
    let requestHash := hashWageringRequest ["settle"; sw_WagerId req; Currency payout;
      FormatInt (AmountMinor payout); sw_OutcomeRef req] in
    or_else (
      use ← useInMemoryCache;
      if (use : bool) then get_st (λ s, settleByIdempotency s !! idemKey) else mret None) $
    or_else (
      enabled ← dbEnabled;
      if negb enabled then mret None else
      found ← wagering_loadIdempotencyResponse "settle" (sw_WagerId req) idem requestHash;
      match found with
      | Err errIdempotencyRequestMismatch =>
          return_ (settle_reply meta RESULT_CODE_INVALID
            "idempotency_key reused with different request")
      | Err _ => return_ unavailable
      | Ok (Some replay) =>
          wcache (λ s, s <| settleByIdempotency ::= insert idemKey replay |>);;
          mirror_replayed (swr_Wager replay);; mret (Some replay)
      | Ok None => mret None
      end) $
    (found ← load_wager (sw_WagerId req);
    match found with
    | Err _ => unavailable
    | Ok None => settle_reply meta RESULT_CODE_INVALID "wager not found"
    | Ok (Some wager) =>
    w ← wager_deref wager;
    if decide (Status w ≠ WAGER_STATUS_PENDING) then
      settle_reply meta RESULT_CODE_INVALID "wager is not pending"
    else
    let before := json_wager w in
    wager ← wager_update wager (λ w, w <| Status := WAGER_STATUS_SETTLED |>
              <| Payout := Some payout |> <| OutcomeRef := sw_OutcomeRef req |>);
    t ← now;
    wager ← wager_update wager (λ w, w <| SettledAt := FormatRFC3339Nano t |>);
    w ← wager_deref wager;
    let after := json_wager w in
    m ← responseMeta meta RESULT_CODE_OK "";
    let resp := mkSettleWagerResponse m (Some w) in
    wcache (λ s, s <| settleByIdempotency ::= insert idemKey resp |>);;
    e ← persistWager w;
    match e with
    | Some _ => unavailable
    | None =>
    e ← wagering_persistIdempotencyResponse "settle" (sw_WagerId req) idem requestHash resp;
    match e with
    | Some _ => unavailable
    | None =>
    e ← wagering_appendAudit meta (sw_WagerId req) "settle_wager" before after
          ResultSuccess "";
    match e with
    | Some _ => settle_reply meta RESULT_CODE_ERROR "audit unavailable"
    | None => mret resp
    end end end end))
  end end.

Definition CancelWager (ctx : option Context) (req : option CancelWagerRequest)
    : WM CancelWagerResponse :=
  let required := "wager_id and reason are required" in
  match req with
  | None => cancel_reply None RESULT_CODE_INVALID required
  | Some req =>
  let meta := cw_Meta req in
  if decide (cw_WagerId req = "" ∨ cw_Reason req = "")
  then cancel_reply meta RESULT_CODE_INVALID required
  else if decide (idempotency meta = "") then
    cancel_reply meta RESULT_CODE_INVALID "idempotency_key is required"
  else
  let '(ok, reason) := authorizeSettlement ctx meta in
  if negb ok then
    wagering_appendAudit meta (cw_WagerId req) "cancel_wager" "{}" "{}" ResultDenied reason;;
    cancel_reply meta RESULT_CODE_DENIED reason
  else
  locked (
    let unavailable := cancel_reply meta RESULT_CODE_ERROR "persistence unavailable" in
    let idem := idempotency meta in
    let idemKey := cw_WagerId req +:+ "|cancel|" +:+ idem in
    let requestHash := hashWageringRequest ["cancel"; cw_WagerId req; cw_Reason req] in
    or_else (
      use ← useInMemoryCache;
      if (use : bool) then get_st (λ s, cancelByIdempotency s !! idemKey) else mret None) $
    or_else (
      enabled ← dbEnabled;
      if negb enabled then mret None else
      found ← wagering_loadIdempotencyResponse "cancel" (cw_WagerId req) idem requestHash;
      match found with
      | Err errIdempotencyRequestMismatch =>
          return_ (cancel_reply meta RESULT_CODE_INVALID
            "idempotency_key reused with different request")
      | Err _ => return_ unavailable
      | Ok (Some replay) =>
          wcache (λ s, s <| cancelByIdempotency ::= insert idemKey replay |>);;
          mirror_replayed (cwr_Wager replay);; mret (Some replay)
      | Ok None => mret None
      end) $
    (found ← load_wager (cw_WagerId req);
    match found with
    | Err _ => unavailable
    | Ok None => cancel_reply meta RESULT_CODE_INVALID "wager not found"
    | Ok (Some wager) =>
    w ← wager_deref wager;
    if decide (Status w ≠ WAGER_STATUS_PENDING) then
      cancel_reply meta RESULT_CODE_INVALID "wager is not pending"
    else
    let before := json_wager w in
    wager ← wager_update wager (λ w, w <| Status := WAGER_STATUS_CANCELED |>
              <| CancelReason := cw_Reason req |>);
    t ← now;
    wager ← wager_update wager (λ w, w <| CanceledAt := FormatRFC3339Nano t |>);
    w ← wager_deref wager;
    let after := json_wager w in
    m ← responseMeta meta RESULT_CODE_OK "";
    let resp := mkCancelWagerResponse m (Some w) in
    wcache (λ s, s <| cancelByIdempotency ::= insert idemKey resp |>);;
    e ← persistWager w;
    match e with
    | Some _ => unavailable
    | None =>
    e ← wagering_persistIdempotencyResponse "cancel" (cw_WagerId req) idem requestHash resp;
    match e with
    | Some _ => unavailable
    | None =>
    e ← wagering_appendAudit meta (cw_WagerId req) "cancel_wager" before after
          ResultSuccess "";
    match e with
    | Some _ => cancel_reply meta RESULT_CODE_ERROR "audit unavailable"
    | None => mret resp
    end end end end))
  end.
End wagering.
