(* ===== verification/WageringProofs.v ===== *)
(** * Theorems about wagering

    Without a database the wagers form a state machine, [wstep]: a wager is
    placed pending, and settled or canceled at most once.  With a database the
    service mutates a copy that its map does not share, and a wager can be
    settled again; the last part evaluates such a run. *)

From S2P Require Import Prelude GoTime GoJson AuditTrail Service Ledger Env Wagering.
From Stdlib Require Import Ascii.

(** ** The life of a wager *)

Definition settled_wager (w : Wager) (payout : Money) (ref at_ : string) : Wager :=
  w <| Status := WAGER_STATUS_SETTLED |> <| Payout := Some payout |>
    <| OutcomeRef := ref |> <| SettledAt := at_ |>.

Definition canceled_wager (w : Wager) (reason at_ : string) : Wager :=
  w <| Status := WAGER_STATUS_CANCELED |> <| CancelReason := reason |>
    <| CanceledAt := at_ |>.

Inductive wstep : gmap string Wager → gmap string Wager → Prop :=
| ws_idle m : wstep m m
| ws_place m id w :
    m !! id = None → Status w = WAGER_STATUS_PENDING → WagerId w = id →
    wstep m (<[id := w]> m)
| ws_settle m id w payout ref at_ :
    m !! id = Some w → Status w = WAGER_STATUS_PENDING →
    wstep m (<[id := settled_wager w payout ref at_]> m)
| ws_cancel m id w reason at_ :
    m !! id = Some w → Status w = WAGER_STATUS_PENDING →
    wstep m (<[id := canceled_wager w reason at_]> m).

(** What may become of a wager: nothing, or from pending to a final status with
    its stake untouched. *)
Definition wager_evolves (w w' : Wager) : Prop :=
  w' = w ∨ Status w = WAGER_STATUS_PENDING ∧ Status w' ≠ WAGER_STATUS_PENDING
    ∧ WagerId w' = WagerId w ∧ PlayerId w' = PlayerId w ∧ GameId w' = GameId w
    ∧ Stake w' = Stake w ∧ PlacedAt w' = PlacedAt w.

#[global] Instance wager_evolves_preorder : PreOrder wager_evolves.
Proof.
  split; [by left|].
  intros w1 w2 w3 [->|H1] [->|H2]; [by left|by right|by right|].
  destruct H1 as (_ & ? & _), H2 as (? & _). congruence.
Qed.

Definition wagers_le (m m' : gmap string Wager) : Prop :=
  ∀ id w, m !! id = Some w → ∃ w', m' !! id = Some w' ∧ wager_evolves w w'.

#[global] Instance wagers_le_preorder : PreOrder wagers_le.
Proof.
  split.
  - intros m id w Hw. exists w. split; [done|by left].
  - intros m1 m2 m3 H12 H23 id w Hw. destruct (H12 id w Hw) as (w2 & Hw2 & He).
    destruct (H23 id w2 Hw2) as (w3 & Hw3 & He3). exists w3. split; [done|by etrans].
Qed.

Definition wager_id (t n : Z) : string := "wager-" +:+ FormatInt t +:+ "-" +:+ FormatInt n.

(** Wager ids are distinct because the counter at their end is. *)
Lemma wager_id_inj t t' n n' :
  0 ≤ n → 0 ≤ n' → wager_id t n = wager_id t' n' → n = n'.
Proof.
  intros Hn Hn' E. unfold wager_id in E. rewrite <- !str_app_assoc in E.
  rewrite (str_app_assoc _ "-" (FormatInt n)), (str_app_assoc _ "-" (FormatInt n')) in E.
  destruct (split_last _ _ _ (FormatInt n) (FormatInt n')
    (FormatInt_no_dash n Hn) (FormatInt_no_dash n' Hn') E) as [_ E'].
  by apply FormatInt_inj.
Qed.

Lemma wager_id_no_pipe t n : has_char "|"%char (wager_id t n) = false.
Proof. unfold wager_id. by rewrite !has_char_app, !FormatInt_no_pipe. Qed.

(** The settlements and the cancellations of a wager that were accepted: the
    service records the response of each under its idempotency key. *)
Definition settlements (σ : WageringState) (id : string) : gmap string SettleWagerResponse :=
  filter (λ kr, WagerId <$> swr_Wager kr.2 = Some id) (settleByIdempotency σ).
Definition cancellations (σ : WageringState) (id : string) : gmap string CancelWagerResponse :=
  filter (λ kr, WagerId <$> cwr_Wager kr.2 = Some id) (cancelByIdempotency σ).

(** What a wager rests on: it was placed, and it is as it was placed and nothing
    else was accepted for it, or it is what its one accepted settlement made of
    it, or what its one accepted cancellation made of it. *)
Definition wager_backed (σ : WageringState) (w : Wager) : Prop :=
  ∃ k r w0, placeByIdempotency σ !! k = Some r ∧ pwr_Wager r = Some w0
    ∧ Status w0 = WAGER_STATUS_PENDING ∧ Payout w0 = None ∧
  match Status w with
  | WAGER_STATUS_PENDING =>
      w = w0 ∧ settlements σ (WagerId w) = ∅ ∧ cancellations σ (WagerId w) = ∅
  | WAGER_STATUS_SETTLED =>
      cancellations σ (WagerId w) = ∅ ∧ ∃ k' r' payout ref at_,
        settlements σ (WagerId w) = {[ k' := r' ]} ∧ swr_Wager r' = Some w
        ∧ w = settled_wager w0 payout ref at_ ∧ 0 < AmountMinor payout
  | WAGER_STATUS_CANCELED =>
      settlements σ (WagerId w) = ∅ ∧ ∃ k' r' reason at_,
        cancellations σ (WagerId w) = {[ k' := r' ]} ∧ cwr_Wager r' = Some w
        ∧ w = canceled_wager w0 reason at_
  | WAGER_STATUS_UNSPECIFIED => False
  end.

Record winv (s : WageringState) : Prop := {
  wi_next : 0 ≤ nextWagerID s;
  wi_ids : ∀ id w, wagers s !! id = Some w →
    WagerId w = id ∧ ∃ t k, 1 ≤ k ≤ nextWagerID s ∧ id = wager_id t k;
  wi_life : ∀ id, match wagers s !! id with
    | Some w => wager_backed s w
    | None => settlements s id = ∅ ∧ cancellations s id = ∅ end;
  wi_settled : ∀ k r, settleByIdempotency s !! k = Some r →
    ∃ w key, swr_Wager r = Some w ∧ k = WagerId w +:+ "|settle|" +:+ key;
  wi_canceled : ∀ k r, cancelByIdempotency s !! k = Some r →
    ∃ w key, cwr_Wager r = Some w ∧ k = WagerId w +:+ "|cancel|" +:+ key }.

Lemma winv_fresh s t :
  winv s → wagers s !! wager_id t (nextWagerID s + 1) = None.
Proof.
  intros Hi. destruct (wagers s !! _) as [w|] eqn:E; [|done].
  destruct (wi_ids _ Hi _ _ E) as (_ & t' & k & Hk & Hid). pose proof (wi_next _ Hi).
  apply wager_id_inj in Hid; lia.
Qed.

Lemma winv_new : winv (mkWagering ∅ ∅ ∅ ∅ 0 false).
Proof. split; simpl; try (intros ? ?; by rewrite lookup_empty); [lia|]. intros id. by rewrite lookup_empty. Qed.

(** An accepted settlement adds to those of its wager only. *)
Lemma filter_record {A} (P : string * A → Prop) `{!∀ x, Decision (P x)} (m : gmap string A) k x :
  m !! k = None → filter P (<[k := x]> m) = if decide (P (k, x)) then <[k := x]> (filter P m) else filter P m.
Proof.
  intros Hk. case_decide as HP.
  - by apply map_filter_insert_True.
  - rewrite map_filter_insert_not' by (done || by rewrite Hk). done.
Qed.

(** What backs a wager does not depend on the records of the others. *)
Lemma wager_backed_mono σ σ' w :
  placeByIdempotency σ ⊆ placeByIdempotency σ' →
  settlements σ' (WagerId w) = settlements σ (WagerId w) →
  cancellations σ' (WagerId w) = cancellations σ (WagerId w) →
  wager_backed σ w → wager_backed σ' w.
Proof.
  unfold wager_backed. intros Hp -> -> (k & r & w0 & Hk & Hw). exists k, r, w0. split; [|done].
  by eapply lookup_weaken.
Qed.

(** A recorded settlement of an existing wager, found under the key of a
    request for that wager, is one of that wager. *)
Lemma key_wager (op : string) id id' (key key' : string) :
  has_char "|"%char id = false → has_char "|"%char id' = false →
  id +:+ String "|"%char (op +:+ key) = id' +:+ String "|"%char (op +:+ key') → id = id'.
Proof. intros H1 H2 [E _]%split_first; done. Qed.

Lemma WageringState_ext (σ σ' : WageringState) :
  wagers σ = wagers σ' → placeByIdempotency σ = placeByIdempotency σ' →
  settleByIdempotency σ = settleByIdempotency σ' →
  cancelByIdempotency σ = cancelByIdempotency σ' → nextWagerID σ = nextWagerID σ' →
  disableInMemCache σ = disableInMemCache σ' → σ = σ'.
Proof. destruct σ, σ'; simpl. intros. by subst. Qed.

(** ** Handlers in memory *)

Section mem.
Context {D : Type} `{!Wall, !Crypto, !JsonValid, !AuditDB D, !WageringDB D}.
Context `{!ProtoJSON PlaceWagerResponse, !ProtoJSON SettleWagerResponse,
  !ProtoJSON CancelWagerResponse}.
Implicit Types (σ : WageringState) (T : Time → Prop) (evs : list Event).

Lemma wspec_useCache T h σ evs (Q : bool → WageringState → list Event → Prop) :
  Q true σ evs → mspec (D := D) T useInMemoryCache h σ evs Q.
Proof. intros HQ. unfold useInMemoryCache. by msteps. Qed.

Lemma wspec_useMirror T h σ evs (Q : bool → WageringState → list Event → Prop) :
  Q true σ evs → mspec (D := D) T useInMemoryWagerMirror h σ evs Q.
Proof. intros HQ. unfold useInMemoryWagerMirror. by msteps. Qed.

Lemma wspec_wcache T f h σ evs (Q : () → WageringState → list Event → Prop) :
  Q () (f σ) evs → mspec (D := D) T (wcache f) h σ evs Q.
Proof. intros HQ. unfold wcache. mstep. apply wspec_useCache. by mstep. Qed.

Lemma wspec_persistWager T w h σ evs (Q : option error → WageringState → list Event → Prop) :
  Q None σ evs → mspec (D := D) T (persistWager w) h σ evs Q.
Proof. intros HQ. unfold persistWager. by msteps. Qed.

Lemma wspec_persistIdem {R} `{!ProtoJSON R} T op sc k hash (r : R) h σ evs
    (Q : option error → WageringState → list Event → Prop) :
  Q None σ evs →
  mspec (D := D) T (wagering_persistIdempotencyResponse op sc k hash r) h σ evs Q.
Proof. intros HQ. unfold wagering_persistIdempotencyResponse. by msteps. Qed.

Lemma wspec_nextWagerID T h σ evs (Q : string → WageringState → list Event → Prop) :
  (∀ t, Q (wager_id t (wrap64 (nextWagerID σ + 1)))
    (σ <| nextWagerID := wrap64 (nextWagerID σ + 1) |>) evs) →
  mspec (D := D) T nextWagerIDLocked h σ evs Q.
Proof. intros HQ. unfold nextWagerIDLocked. msteps. apply HQ. Qed.

Lemma wspec_load T id h σ evs (Q : res (option wagerPtr) → WageringState → list Event → Prop) :
  Q (Ok (match wagers σ !! id with Some _ => Some (WShared id) | None => None end)) σ evs →
  mspec (D := D) T (load_wager id) h σ evs Q.
Proof.
  intros HQ. unfold load_wager. mstep. apply wspec_useMirror. msteps.
  destruct (wagers σ !! id); by msteps.
Qed.

Lemma wspec_deref T id w h σ evs (Q : Wager → WageringState → list Event → Prop) :
  wagers σ !! id = Some w → Q w σ evs →
  mspec (D := D) T (wager_deref (WShared id)) h σ evs Q.
Proof. intros Hw HQ. simpl. msteps. rewrite Hw. by mstep. Qed.

Lemma wspec_update T id f h σ evs (Q : wagerPtr → WageringState → list Event → Prop) :
  Q (WShared id) (σ <| wagers ::= alter f id |>) evs →
  mspec (D := D) T (wager_update (WShared id) f) h σ evs Q.
Proof. intros HQ. simpl. by msteps. Qed.

(** A reply that carries only its envelope leaves the state alone. *)
Lemma wspec_place_reply T meta c x h σ evs
    (Q : PlaceWagerResponse → WageringState → list Event → Prop) :
  (∀ r, ResCode (pwr_Meta r) = c → DenialReason (pwr_Meta r) = x → Q r σ evs) →
  mspec (D := D) T (place_reply meta c x) h σ evs Q.
Proof. intros HQ. unfold place_reply. msteps. by apply HQ. Qed.

Lemma wspec_settle_reply T meta c x h σ evs
    (Q : SettleWagerResponse → WageringState → list Event → Prop) :
  (∀ r, ResCode (swr_Meta r) = c → DenialReason (swr_Meta r) = x → Q r σ evs) →
  mspec (D := D) T (settle_reply meta c x) h σ evs Q.
Proof. intros HQ. unfold settle_reply. msteps. by apply HQ. Qed.

Lemma wspec_cancel_reply T meta c x h σ evs
    (Q : CancelWagerResponse → WageringState → list Event → Prop) :
  (∀ r, ResCode (cwr_Meta r) = c → DenialReason (cwr_Meta r) = x → Q r σ evs) →
  mspec (D := D) T (cancel_reply meta c x) h σ evs Q.
Proof. intros HQ. unfold cancel_reply. msteps. by apply HQ. Qed.

Lemma wspec_appendAudit T meta oid action before after result reason h σ evs
    (Q : option error → WageringState → list Event → Prop) :
  (∀ e, audit_record meta "wager" oid action before after result reason e →
     Q None σ (evs ++ [e])) →
  mspec (D := D) T (wagering_appendAudit meta oid action before after result reason)
    h σ evs Q.
Proof. intros HQ. unfold wagering_appendAudit. mstep. by apply HQ. Qed.

(** PlaceWager refuses, replays, or adds one pending wager. *)
Definition placed (req : PlaceWagerRequest) (σ : WageringState) (r : PlaceWagerResponse)
    (σ' : WageringState) : Prop :=
  let key := pw_PlayerId req +:+ "|place|" +:+ idempotency (pw_Meta req) in
  ∃ w t stake, pwr_Wager r = Some w ∧ pw_Stake req = Some stake ∧ 0 < AmountMinor stake
    ∧ WagerId w = wager_id t (wrap64 (nextWagerID σ + 1))
    ∧ PlayerId w = pw_PlayerId req ∧ GameId w = pw_GameId req ∧ Stake w = Some stake
    ∧ Status w = WAGER_STATUS_PENDING ∧ Payout w = None ∧ ResCode (pwr_Meta r) = RESULT_CODE_OK
    ∧ placeByIdempotency σ !! key = None
    ∧ σ' = σ <| nextWagerID := wrap64 (nextWagerID σ + 1) |>
             <| wagers ::= insert (WagerId w) w |>
             <| placeByIdempotency ::= insert key r |>.

Lemma PlaceWager_spec T ctx req σ evs :
  mspec (D := D) T (PlaceWager ctx (Some req)) false σ evs (λ r σ' evs',
    evs `prefix_of` evs' ∧
    (σ' = σ ∧ refused_code (ResCode (pwr_Meta r))
     ∨ σ' = σ ∧ placeByIdempotency σ
         !! (pw_PlayerId req +:+ "|place|" +:+ idempotency (pw_Meta req)) = Some r
     ∨ placed req σ r σ')).
Proof.
  unfold PlaceWager; cbv zeta.
  destruct (pw_Stake req) as [stake|] eqn:Hst.
  2: { apply wspec_place_reply. intros r Hc _. split; [done|]. left. by split; [|left]. }
  case_decide as Hreq.
  { apply wspec_place_reply. intros r Hc _. split; [done|]. left. by split; [|left]. }
  case_decide.
  { apply wspec_place_reply. intros r Hc _. split; [done|]. left. by split; [|left]. }
  destruct (authorizePlace _ _ _) as [[|] reason]; simpl negb; cbv iota.
  2: { mstep. apply wspec_appendAudit. intros e _. apply wspec_place_reply. intros r Hc _.
    split; [by exists [e]|]. left. by split; [|right]. }
  mstep. apply mspec_or_else. mstep. apply wspec_useCache. msteps.
  destruct (placeByIdempotency σ !! _) as [prev|] eqn:Hc.
  { split; [done|]. right. by left. }
  apply mspec_or_else. msteps. apply wspec_nextWagerID. intros tw.
  mstep. apply wspec_useMirror. unfold store_wager. msteps. apply wspec_wcache.
  mstep. apply wspec_persistWager. mstep. apply wspec_persistIdem.
  mstep. apply wspec_appendAudit. intros e _. mstep. split; [by exists [e]|].
  right. right. eexists _, tw, stake. split_and!; try done.
  destruct (invalidAmount (Some stake)) eqn:Hinv; [tauto|].
  unfold invalidAmount in Hinv. apply orb_false_iff in Hinv as [?%Z.leb_gt _]. done.
Qed.

(** SettleWager refuses, replays, or settles one pending wager. *)
Definition settled (req : SettleWagerRequest) (σ : WageringState) (r : SettleWagerResponse)
    (σ' : WageringState) : Prop :=
  let key := sw_WagerId req +:+ "|settle|" +:+ idempotency (sw_Meta req) in
  ∃ w payout t, sw_Payout req = Some payout ∧ 0 < AmountMinor payout
    ∧ wagers σ !! sw_WagerId req = Some w ∧ Status w = WAGER_STATUS_PENDING
    ∧ settleByIdempotency σ !! key = None
    ∧ let w' := settled_wager w payout (sw_OutcomeRef req) (FormatRFC3339Nano t) in
      ResCode (swr_Meta r) = RESULT_CODE_OK ∧ swr_Wager r = Some w'
      ∧ σ' = σ <| wagers ::= insert (sw_WagerId req) w' |>
               <| settleByIdempotency ::= insert key r |>.

Lemma alter_twice_insert (f g : Wager → Wager) id w (m : gmap string Wager) :
  m !! id = Some w → alter g id (alter f id m) = <[id := g (f w)]> m.
Proof.
  intros Hw. apply map_eq. intros j. destruct (decide (j = id)) as [->|Hne].
  - by rewrite !lookup_alter_eq, lookup_insert_eq, Hw.
  - by rewrite !lookup_alter_ne, lookup_insert_ne by done.
Qed.

Lemma SettleWager_spec T ctx req σ evs :
  mspec (D := D) T (SettleWager ctx (Some req)) false σ evs (λ r σ' evs',
    evs `prefix_of` evs' ∧
    (σ' = σ ∧ refused_code (ResCode (swr_Meta r))
     ∨ σ' = σ ∧ settleByIdempotency σ
         !! (sw_WagerId req +:+ "|settle|" +:+ idempotency (sw_Meta req)) = Some r
     ∨ settled req σ r σ')).
Proof.
  unfold SettleWager; cbv zeta.
  destruct (sw_Payout req) as [payout|] eqn:Hst.
  2: { apply wspec_settle_reply. intros r Hc _. split; [done|]. left. by split; [|left]. }
  case_decide as Hreq.
  { apply wspec_settle_reply. intros r Hc _. split; [done|]. left. by split; [|left]. }
  case_decide.
  { apply wspec_settle_reply. intros r Hc _. split; [done|]. left. by split; [|left]. }
  destruct (authorizeSettlement _ _) as [[|] reason]; simpl negb; cbv iota.
  2: { mstep. apply wspec_appendAudit. intros e _. apply wspec_settle_reply. intros r Hc _.
    split; [by exists [e]|]. left. by split; [|right]. }
  mstep. apply mspec_or_else. mstep. apply wspec_useCache. msteps.
  destruct (settleByIdempotency σ !! _) as [prev|] eqn:Hc.
  { split; [done|]. right. by left. }
  apply mspec_or_else. msteps. apply wspec_load.
  destruct (wagers σ !! sw_WagerId req) as [w|] eqn:Hw.
  2: { apply wspec_settle_reply. intros r Hr _. split; [done|]. left. by split; [|left]. }
  mstep. eapply wspec_deref; [exact Hw|]. case_decide as Hp.
  { apply wspec_settle_reply. intros r Hr _. split; [done|]. left. by split; [|left]. }
  mstep. apply wspec_update. msteps. apply wspec_update. msteps.
  eapply wspec_deref; [simpl; rewrite (alter_twice_insert _ _ _ w) by done;
    apply lookup_insert_eq|].
  msteps. apply wspec_wcache. mstep. apply wspec_persistWager. mstep.
  apply wspec_persistIdem. mstep. apply wspec_appendAudit. intros e _. mstep.
  split; [by exists [e]|]. right. right. eexists w, payout, _.
  cbv zeta. split_and!; try done.
  - destruct (invalidAmount (Some payout)) eqn:Hinv; [tauto|].
    unfold invalidAmount in Hinv. apply orb_false_iff in Hinv as [?%Z.leb_gt _]. done.
  - apply WageringState_ext; try done. simpl. by rewrite (alter_twice_insert _ _ _ w).
Qed.

(** CancelWager refuses, replays, or cancels one pending wager. *)
Definition canceled (req : CancelWagerRequest) (σ : WageringState) (r : CancelWagerResponse)
    (σ' : WageringState) : Prop :=
  let key := cw_WagerId req +:+ "|cancel|" +:+ idempotency (cw_Meta req) in
  ∃ w t, wagers σ !! cw_WagerId req = Some w ∧ Status w = WAGER_STATUS_PENDING
    ∧ cancelByIdempotency σ !! key = None
    ∧ let w' := canceled_wager w (cw_Reason req) (FormatRFC3339Nano t) in
      ResCode (cwr_Meta r) = RESULT_CODE_OK ∧ cwr_Wager r = Some w'
      ∧ σ' = σ <| wagers ::= insert (cw_WagerId req) w' |>
               <| cancelByIdempotency ::= insert key r |>.

Lemma CancelWager_spec T ctx req σ evs :
  mspec (D := D) T (CancelWager ctx (Some req)) false σ evs (λ r σ' evs',
    evs `prefix_of` evs' ∧
    (σ' = σ ∧ refused_code (ResCode (cwr_Meta r))
     ∨ σ' = σ ∧ cancelByIdempotency σ
         !! (cw_WagerId req +:+ "|cancel|" +:+ idempotency (cw_Meta req)) = Some r
     ∨ canceled req σ r σ')).
Proof.
  unfold CancelWager; cbv zeta.
  case_decide as Hreq.
  { apply wspec_cancel_reply. intros r Hc _. split; [done|]. left. by split; [|left]. }
  case_decide.
  { apply wspec_cancel_reply. intros r Hc _. split; [done|]. left. by split; [|left]. }
  destruct (authorizeSettlement _ _) as [[|] reason]; simpl negb; cbv iota.
  2: { mstep. apply wspec_appendAudit. intros e _. apply wspec_cancel_reply. intros r Hc _.
    split; [by exists [e]|]. left. by split; [|right]. }
  mstep. apply mspec_or_else. mstep. apply wspec_useCache. msteps.
  destruct (cancelByIdempotency σ !! _) as [prev|] eqn:Hc.
  { split; [done|]. right. by left. }
  apply mspec_or_else. msteps. apply wspec_load.
  destruct (wagers σ !! cw_WagerId req) as [w|] eqn:Hw.
  2: { apply wspec_cancel_reply. intros r Hr _. split; [done|]. left. by split; [|left]. }
  mstep. eapply wspec_deref; [exact Hw|]. case_decide as Hp.
  { apply wspec_cancel_reply. intros r Hr _. split; [done|]. left. by split; [|left]. }
  mstep. apply wspec_update. msteps. apply wspec_update. msteps.
  eapply wspec_deref; [simpl; rewrite (alter_twice_insert _ _ _ w) by done;
    apply lookup_insert_eq|].
  msteps. apply wspec_wcache. mstep. apply wspec_persistWager. mstep.
  apply wspec_persistIdem. mstep. apply wspec_appendAudit. intros e _. mstep.
  split; [by exists [e]|]. right. right. eexists w, _.
  cbv zeta. split_and!; try done.
  apply WageringState_ext; try done. simpl. by rewrite (alter_twice_insert _ _ _ w).
Qed.
End mem.

(** ** Runs *)

Inductive wreq :=
| WPlace (ctx : option Context) (req : option PlaceWagerRequest)
| WSettle (ctx : option Context) (req : option SettleWagerRequest)
| WCancel (ctx : option Context) (req : option CancelWagerRequest).

Inductive wresp :=
| WPlaceResp (r : PlaceWagerResponse) | WSettleResp (r : SettleWagerResponse)
| WCancelResp (r : CancelWagerResponse).

(** The recorded responses only grow. *)
Definition caches_le (σ σ' : WageringState) : Prop :=
  placeByIdempotency σ ⊆ placeByIdempotency σ' ∧ settleByIdempotency σ ⊆ settleByIdempotency σ'
  ∧ cancelByIdempotency σ ⊆ cancelByIdempotency σ'.

#[global] Instance caches_le_preorder : PreOrder caches_le.
Proof.
  split; [by intros σ|]. intros σ1 σ2 σ3 (H1 & H2 & H3) (H1' & H2' & H3').
  split_and!; by etrans.
Qed.

(** The state of the service after a request, as the machine sees it. *)
Record wadvances (σ σ' : WageringState) : Prop := {
  wa_caches : caches_le σ σ';
  wa_inv : winv σ → nextWagerID σ < int64_max →
    winv σ' ∧ nextWagerID σ ≤ nextWagerID σ' ≤ nextWagerID σ + 1
    ∧ wstep (wagers σ) (wagers σ') }.

Lemma wadvances_refl σ : wadvances σ σ.
Proof.
  split; [done|]. intros Hi _. split; [done|]. split; [lia|]. constructor.
Qed.

Lemma wagers_le_insert (m : gmap string Wager) id w w' :
  m !! id = Some w → wager_evolves w w' → wagers_le m (<[id := w']> m).
Proof.
  intros Hw He id' v Hv. destruct (decide (id' = id)) as [->|Hne].
  - exists w'. rewrite lookup_insert_eq. split; [done|]. congruence.
  - exists v. rewrite lookup_insert_ne by done. split; [done|by left].
Qed.

(** A step lets every wager evolve as it may. *)
Lemma wstep_le m m' : wstep m m' → wagers_le m m'.
Proof.
  destruct 1 as [m|m id w Hn _ _|m id w payout ref at_ Hw Hp|m id w reason at_ Hw Hp].
  - done.
  - intros j v Hv. exists v. split; [|by left]. rewrite lookup_insert_ne; [done|].
    intros <-. congruence.
  - eapply wagers_le_insert; [done|]. by right.
  - eapply wagers_le_insert; [done|]. by right.
Qed.

Lemma placed_winv req σ r σ' :
  placed req σ r σ' → winv σ → nextWagerID σ < int64_max →
  winv σ' ∧ wstep (wagers σ) (wagers σ') ∧ nextWagerID σ' = nextWagerID σ + 1.
Proof.
  intros (w & t & stake & Hr & _ & _ & Hid & _ & _ & _ & Hp & Hpay & _ & Hc & ->) Hi Hn.
  pose proof (wi_next σ Hi).
  assert (wrap64 (nextWagerID σ + 1) = nextWagerID σ + 1) as Hw
    by (apply wrap64_id; unfold in_int64, int64_min, int64_max in *; lia).
  rewrite Hw in *. pose proof (winv_fresh σ t Hi) as Hfresh. rewrite <- Hid in Hfresh.
  assert (placeByIdempotency σ ⊆ <[pw_PlayerId req +:+ "|place|" +:+ idempotency (pw_Meta req) := r]>
    (placeByIdempotency σ)) as Hsub by by apply insert_subseteq.
  split; [|split; [by constructor|done]]. split; simpl.
  - lia.
  - intros j v. rewrite lookup_insert_Some. intros [[<- <-]|[_ Hv]].
    + split; [done|]. exists t, (nextWagerID σ + 1). split; [lia|done].
    + destruct (wi_ids σ Hi _ _ Hv) as (? & t' & k & ? & ?). split; [done|].
      exists t', k. split; [lia|done].
  - intros id. pose proof (wi_life σ Hi id) as Hl. destruct (decide (WagerId w = id)) as [<-|Hne].
    + rewrite lookup_insert_eq. rewrite Hfresh in Hl. eexists _, r, w.
      split; [apply lookup_insert_eq|]. split_and!; try done. by rewrite Hp.
    + rewrite lookup_insert_ne by done. destruct (wagers σ !! id) as [v|]; [|done].
      by eapply wager_backed_mono; [exact Hsub|..].
  - apply Hi.
  - apply Hi.
Qed.

Lemma settled_winv req σ r σ' :
  settled req σ r σ' → winv σ → winv σ' ∧ wstep (wagers σ) (wagers σ').
Proof.
  intros (w & payout & t & _ & Hpos & Hw & Hp & Hc & _ & Hr & ->) Hi.
  destruct (wi_ids σ Hi _ _ Hw) as [Hid Hform]. split; [|by econstructor].
  pose proof (filter_record (λ kr, WagerId <$> swr_Wager kr.2 = Some (sw_WagerId req)) _ _ r Hc) as Hown.
  simpl in Hown. rewrite Hr in Hown. simpl in Hown. rewrite decide_True in Hown by (by rewrite <- Hid).
  split; simpl.
  - apply Hi.
  - intros j v. rewrite lookup_insert_Some. intros [[<- <-]|[_ Hv]]; [done|by apply (wi_ids σ Hi)].
  - intros id. pose proof (wi_life σ Hi id) as Hl. destruct (decide (sw_WagerId req = id)) as [<-|Hne].
    + rewrite lookup_insert_eq. rewrite Hw in Hl.
      destruct Hl as (k & rp & w0 & Hk & Hrp & H0 & Hpay & Hm). rewrite Hp in Hm.
      destruct Hm as (-> & Hs & Hca). rewrite Hid in Hs, Hca.
      exists k, rp, w0. split_and!; try done. cbn. rewrite Hid. split; [exact Hca|].
      eexists _, r, payout, _, _. split; [|split; [exact Hr|done]].
      unfold settlements in Hs |- *. simpl. by rewrite Hown, Hs.
    + rewrite lookup_insert_ne by done.
      assert (settlements (σ <| wagers ::= insert (sw_WagerId req) (settled_wager w payout
        (sw_OutcomeRef req) (FormatRFC3339Nano t)) |> <| settleByIdempotency ::=
        insert (sw_WagerId req +:+ "|settle|" +:+ idempotency (sw_Meta req)) r |>) id
        = settlements σ id) as Es.
      { unfold settlements. simpl. rewrite filter_record by done. simpl. rewrite Hr. simpl.
        rewrite decide_False; [done|]. rewrite Hid. congruence. }
      destruct (wagers σ !! id) as [v|] eqn:Hv; [|by rewrite Es].
      destruct (wi_ids σ Hi _ _ Hv) as [Hvid _].
      apply (wager_backed_mono σ); [done|by rewrite Hvid|done|done].
  - intros k r'. rewrite lookup_insert_Some. intros [[<- <-]|[_ Hk]]; [|by apply (wi_settled σ Hi)].
    eexists _, _. split; [exact Hr|]. cbn. by rewrite Hid.
  - apply Hi.
Qed.

Lemma canceled_winv req σ r σ' :
  canceled req σ r σ' → winv σ → winv σ' ∧ wstep (wagers σ) (wagers σ').
Proof.
  intros (w & t & Hw & Hp & Hc & _ & Hr & ->) Hi.
  destruct (wi_ids σ Hi _ _ Hw) as [Hid Hform]. split; [|by econstructor].
  pose proof (filter_record (λ kr, WagerId <$> cwr_Wager kr.2 = Some (cw_WagerId req)) _ _ r Hc) as Hown.
  simpl in Hown. rewrite Hr in Hown. simpl in Hown. rewrite decide_True in Hown by (by rewrite <- Hid).
  split; simpl.
  - apply Hi.
  - intros j v. rewrite lookup_insert_Some. intros [[<- <-]|[_ Hv]]; [done|by apply (wi_ids σ Hi)].
  - intros id. pose proof (wi_life σ Hi id) as Hl. destruct (decide (cw_WagerId req = id)) as [<-|Hne].
    + rewrite lookup_insert_eq. rewrite Hw in Hl.
      destruct Hl as (k & rp & w0 & Hk & Hrp & H0 & Hpay & Hm). rewrite Hp in Hm.
      destruct Hm as (-> & Hs & Hca). rewrite Hid in Hs, Hca.
      exists k, rp, w0. split_and!; try done. cbn. rewrite Hid. split; [exact Hs|].
      eexists _, r, _, _. split; [|split; [exact Hr|done]].
      unfold cancellations in Hca |- *. simpl. by rewrite Hown, Hca.
    + rewrite lookup_insert_ne by done.
      assert (cancellations (σ <| wagers ::= insert (cw_WagerId req) (canceled_wager w
        (cw_Reason req) (FormatRFC3339Nano t)) |> <| cancelByIdempotency ::=
        insert (cw_WagerId req +:+ "|cancel|" +:+ idempotency (cw_Meta req)) r |>) id
        = cancellations σ id) as Es.
      { unfold cancellations. simpl. rewrite filter_record by done. simpl. rewrite Hr. simpl.
        rewrite decide_False; [done|]. rewrite Hid. congruence. }
      destruct (wagers σ !! id) as [v|] eqn:Hv; [|by rewrite Es].
      destruct (wi_ids σ Hi _ _ Hv) as [Hvid _].
      apply (wager_backed_mono σ); [done|done|by rewrite Hvid|done].
  - apply Hi.
  - intros k r'. rewrite lookup_insert_Some. intros [[<- <-]|[_ Hk]]; [|by apply (wi_canceled σ Hi)].
    eexists _, _. split; [exact Hr|]. cbn. by rewrite Hid.
Qed.

Lemma placed_advances req σ r σ' : placed req σ r σ' → wadvances σ σ'.
Proof.
  intros Hp. split.
  - destruct Hp as (w & t & stake & _ & _ & _ & _ & _ & _ & _ & _ & _ & _ & Hc & ->).
    split_and!; [by apply insert_subseteq|done..].
  - intros Hi Hn. destruct (placed_winv _ _ _ _ Hp Hi Hn) as (? & ? & ?). split_and!; [done|lia..|done].
Qed.

Lemma settled_advances req σ r σ' : settled req σ r σ' → wadvances σ σ'.
Proof.
  intros Hs. split.
  - destruct Hs as (w & payout & t & _ & _ & _ & _ & Hc & _ & _ & ->).
    split_and!; [done|by apply insert_subseteq|done].
  - intros Hi Hn. destruct (settled_winv _ _ _ _ Hs Hi) as (? & ?).
    destruct Hs as (w & payout & t & _ & _ & _ & _ & _ & _ & _ & ->).
    split_and!; [done|simpl; lia..|done].
Qed.

Lemma canceled_advances req σ r σ' : canceled req σ r σ' → wadvances σ σ'.
Proof.
  intros Hs. split.
  - destruct Hs as (w & t & _ & _ & Hc & _ & _ & ->).
    split_and!; [done|done|by apply insert_subseteq].
  - intros Hi Hn. destruct (canceled_winv _ _ _ _ Hs Hi) as (? & ?).
    destruct Hs as (w & t & _ & _ & _ & _ & _ & ->). split_and!; [done|simpl; lia..|done].
Qed.

Section runs.
Context {D : Type} `{!Wall, !Crypto, !JsonValid, !AuditDB D, !WageringDB D}.
Context `{!ProtoJSON PlaceWagerResponse, !ProtoJSON SettleWagerResponse,
  !ProtoJSON CancelWagerResponse}.
Implicit Types (s : Svc D WageringState) (σ : WageringState) (T : Time → Prop)
  (evs : list Event) (ctx : option Context).

Definition wserve (q : wreq) : M (Svc D WageringState) wresp :=
  match q with
  | WPlace ctx req => r ← PlaceWager ctx req; mret (WPlaceResp r)
  | WSettle ctx req => r ← SettleWager ctx req; mret (WSettleResp r)
  | WCancel ctx req => r ← CancelWager ctx req; mret (WCancelResp r)
  end.

Fixpoint wserve_all (qs : list wreq) : M (Svc D WageringState) (list wresp) :=
  match qs with
  | [] => mret []
  | q :: qs' => r ← wserve q; rs ← wserve_all qs'; mret (r :: rs)
  end.

(** A request answered OK has its response on record, under its own key. *)
Definition recorded σ (q : wreq) (r : wresp) : Prop :=
  match q, r with
  | WPlace _ (Some q), WPlaceResp r => ResCode (pwr_Meta r) = RESULT_CODE_OK →
      placeByIdempotency σ !! (pw_PlayerId q +:+ "|place|" +:+ idempotency (pw_Meta q)) = Some r
  | WSettle _ (Some q), WSettleResp r => ResCode (swr_Meta r) = RESULT_CODE_OK →
      settleByIdempotency σ !! (sw_WagerId q +:+ "|settle|" +:+ idempotency (sw_Meta q)) = Some r
  | WCancel _ (Some q), WCancelResp r => ResCode (cwr_Meta r) = RESULT_CODE_OK →
      cancelByIdempotency σ !! (cw_WagerId q +:+ "|cancel|" +:+ idempotency (cw_Meta q)) = Some r
  | WPlace _ None, WPlaceResp r => ResCode (pwr_Meta r) ≠ RESULT_CODE_OK
  | WSettle _ None, WSettleResp r => ResCode (swr_Meta r) ≠ RESULT_CODE_OK
  | WCancel _ None, WCancelResp r => ResCode (cwr_Meta r) ≠ RESULT_CODE_OK
  | _, _ => False
  end.

(** What is on record was there before or is among the responses [rs]. *)
Definition answers σ (rs : list wresp) σ' : Prop :=
  (∀ k x, placeByIdempotency σ' !! k = Some x → placeByIdempotency σ !! k = Some x ∨ WPlaceResp x ∈ rs)
  ∧ (∀ k x, settleByIdempotency σ' !! k = Some x →
       settleByIdempotency σ !! k = Some x ∨ WSettleResp x ∈ rs)
  ∧ (∀ k x, cancelByIdempotency σ' !! k = Some x →
       cancelByIdempotency σ !! k = Some x ∨ WCancelResp x ∈ rs).

Lemma recorded_mono σ σ' q r : caches_le σ σ' → recorded σ q r → recorded σ' q r.
Proof.
  intros (Hp & Hs & Hc). destruct q as [ctx [req|]|ctx [req|]|ctx [req|]], r; simpl; try done;
    intros Hr Hok; eapply lookup_weaken; eauto.
Qed.

Lemma answers_refl σ rs : answers σ rs σ.
Proof. split_and!; eauto. Qed.

Lemma answers_app σ1 rs1 σ2 rs2 σ3 : answers σ1 rs1 σ2 → answers σ2 rs2 σ3 → answers σ1 (rs1 ++ rs2) σ3.
Proof.
  intros (Hp & Hs & Hc) (Hp' & Hs' & Hc').
  split_and!; intros k x Hx; rewrite elem_of_app; naive_solver.
Qed.

Lemma refused_not_ok c : refused_code c → c ≠ RESULT_CODE_OK.
Proof. by intros [->| ->]. Qed.

Lemma wserve_advances T q σ evs :
  mspec T (wserve q) false σ evs (λ r σ' evs',
    wadvances σ σ' ∧ evs `prefix_of` evs' ∧ recorded σ' q r ∧ answers σ [r] σ').
Proof.
  destruct q as [ctx [req|]|ctx [req|]|ctx [req|]]; simpl; mstep.
  - eapply mspec_mono; [apply PlaceWager_spec|]. intros r σ' evs' [Hp H']. mstep.
    destruct H' as [[-> Hr]|[[-> Hc]|H']];
      [split_and!; [apply wadvances_refl|done|by intros ?%refused_not_ok|apply answers_refl]
      |split_and!; [apply wadvances_refl|done|done|apply answers_refl]|].
    split_and!; [by eapply placed_advances|done|..].
    all: destruct H' as (w & t & stake & _ & _ & _ & _ & _ & _ & _ & _ & _ & _ & _ & ->); simpl.
    + intros _. apply lookup_insert_eq.
    + split_and!; simpl; [|by eauto..]. intros k x [[_ <-]|[_ Hx]]%lookup_insert_Some; [|by left].
      right. by left.
  - unfold PlaceWager; cbv zeta. apply wspec_place_reply. intros r Hr _. mstep.
    split_and!; [apply wadvances_refl|done|simpl; congruence|apply answers_refl].
  - eapply mspec_mono; [apply SettleWager_spec|]. intros r σ' evs' [Hp H']. mstep.
    destruct H' as [[-> Hr]|[[-> Hc]|H']];
      [split_and!; [apply wadvances_refl|done|by intros ?%refused_not_ok|apply answers_refl]
      |split_and!; [apply wadvances_refl|done|done|apply answers_refl]|].
    split_and!; [by eapply settled_advances|done|..].
    all: destruct H' as (w & payout & t & _ & _ & _ & _ & _ & _ & _ & ->); simpl.
    + intros _. apply lookup_insert_eq.
    + split_and!; simpl; [by eauto| |by eauto]. intros k x [[_ <-]|[_ Hx]]%lookup_insert_Some; [|by left].
      right. by left.
  - unfold SettleWager; cbv zeta. apply wspec_settle_reply. intros r Hr _. mstep.
    split_and!; [apply wadvances_refl|done|simpl; congruence|apply answers_refl].
  - eapply mspec_mono; [apply CancelWager_spec|]. intros r σ' evs' [Hp H']. mstep.
    destruct H' as [[-> Hr]|[[-> Hc]|H']];
      [split_and!; [apply wadvances_refl|done|by intros ?%refused_not_ok|apply answers_refl]
      |split_and!; [apply wadvances_refl|done|done|apply answers_refl]|].
    split_and!; [by eapply canceled_advances|done|..].
    all: destruct H' as (w & t & _ & _ & _ & _ & _ & ->); simpl.
    + intros _. apply lookup_insert_eq.
    + split_and!; simpl; [by eauto..|]. intros k x [[_ <-]|[_ Hx]]%lookup_insert_Some; [|by left].
      right. by left.
  - unfold CancelWager; cbv zeta. apply wspec_cancel_reply. intros r Hr _. mstep.
    split_and!; [apply wadvances_refl|done|simpl; congruence|apply answers_refl].
Qed.

Definition wprogress (n : nat) (σ σ' : WageringState) : Prop :=
  caches_le σ σ'
  ∧ (winv σ → nextWagerID σ + Z.of_nat n ≤ int64_max →
     winv σ' ∧ nextWagerID σ' ≤ nextWagerID σ + Z.of_nat n
     ∧ wagers_le (wagers σ) (wagers σ')).

Lemma wserve_all_spec T qs σ evs :
  mspec T (wserve_all qs) false σ evs (λ rs σ' evs',
    Forall2 (recorded σ') qs rs ∧ answers σ rs σ'
    ∧ wprogress (length qs) σ σ' ∧ evs `prefix_of` evs').
Proof.
  revert σ evs. induction qs as [|q qs IH]; intros σ evs; simpl.
  { mstep. split; [constructor|]. split; [apply answers_refl|]. split; [|done]. split; [done|].
    intros Hi _. split; [done|]. by split; [lia|]. }
  mstep. eapply mspec_mono; [apply wserve_advances|].
  intros r σ1 evs1 ([Hc Hinv] & Hpre & Hrec & Hans).
  mstep. eapply mspec_mono; [apply IH|].
  intros rs σ2 evs2 (Hrs & Hans2 & (Hc2 & Hinv2) & Hpre2).
  mstep. split; [constructor; [by eapply recorded_mono|done]|].
  split; [by apply (answers_app σ [r] σ1 rs)|]. split; [|by etrans].
  split; [by etrans|]. intros Hi Hn. destruct Hinv as (Hi1 & Hn1 & Hst); [done|lia|].
  destruct Hinv2 as (Hi2 & Hn2 & Hle); [done|lia|].
  split; [done|]. split; [lia|]. etrans; [by apply wstep_le|done].
Qed.

Lemma wserve_all_run s qs rs s' :
  wserve_all qs s = Done rs s' → in_memory s →
  in_memory s' ∧ wprogress (length qs) (st s) (st s').
Proof.
  intros E Hm.
  destruct (mspec_run (λ _, True) _ _ _ _ _ E Hm (λ _, I) (wserve_all_spec _ _ _ _))
    as (? & _ & _ & _ & ? & ?). done.
Qed.

(** The wagers of a service that was started empty and served [qs]. *)
Definition wager_run clk (qs : list wreq) s : Prop :=
  ∃ rs, wserve_all qs (NewWageringService clk None) = Done rs s
    ∧ Z.of_nat (length qs) ≤ int64_max.

Lemma new_winv clk : winv (st (NewWageringService (D := D) clk None)).
Proof. apply winv_new. Qed.

Lemma wager_run_inv clk qs s : wager_run clk qs s → in_memory s ∧ winv (st s)
  ∧ nextWagerID (st s) ≤ Z.of_nat (length qs).
Proof.
  intros (rs & E & Hlen).
  destruct (wserve_all_run _ _ _ _ E (NewService_in_memory _ _)) as (Hm & _ & Hinv).
  destruct (Hinv (new_winv clk)) as (? & ? & _); simpl in *; [lia|]. auto.
Qed.


(** A wager only moves from pending to settled or canceled, keeping its
    player, game, stake and placement, and once it has left pending no later
    request changes it or removes it. *)
Theorem wager_final_is_final clk qs0 s qs rs s' id w :
  wager_run clk qs0 s → wserve_all qs s = Done rs s' →
  Z.of_nat (length qs0) + Z.of_nat (length qs) ≤ int64_max →
  wagers (st s) !! id = Some w →
  ∃ w', wagers (st s') !! id = Some w' ∧ wager_evolves w w'
    ∧ (Status w ≠ WAGER_STATUS_PENDING → w' = w).
Proof.
  intros Hrun E Hlen Hw. destruct (wager_run_inv _ _ _ Hrun) as (Hm & Hi & Hn).
  destruct (wserve_all_run _ _ _ _ E Hm) as (_ & _ & Hinv).
  destruct Hinv as (_ & _ & Hle); [done|lia|].
  destruct (Hle id w Hw) as (w' & Hw' & He). exists w'. split; [done|]. split; [done|].
  intros Hf. by destruct He as [->|[? _]].
Qed.

(** A recorded settlement under the key of a request for an existing wager is
    one of that wager. *)
Lemma recorded_settlement σ id key w r :
  winv σ → wagers σ !! id = Some w →
  settleByIdempotency σ !! (id +:+ "|settle|" +:+ key) = Some r →
  settlements σ id !! (id +:+ "|settle|" +:+ key) = Some r.
Proof.
  intros Hi Hw Hr. unfold settlements. apply map_lookup_filter_Some. split; [done|]. simpl.
  destruct (wi_settled σ Hi _ _ Hr) as (v & key' & Hv & E). rewrite Hv. simpl. f_equal.
  destruct (wi_ids σ Hi _ _ Hw) as (_ & t & n & _ & Hid).
  pose proof (wi_life σ Hi (WagerId v)) as Hl.
  destruct (wagers σ !! WagerId v) as [x|] eqn:Hx.
  - destruct (wi_ids σ Hi _ _ Hx) as (_ & t' & n' & _ & Hid').
    symmetry. apply (key_wager "settle|" _ _ key key'); [rewrite Hid; apply wager_id_no_pipe
      |rewrite Hid'; apply wager_id_no_pipe|exact E].
  - destruct Hl as [Hs _]. exfalso.
    assert (settlements σ (WagerId v) !! (id +:+ "|settle|" +:+ key) = Some r) as Hin.
    { apply map_lookup_filter_Some. split; [done|]. simpl. by rewrite Hv. }
    by rewrite Hs, lookup_empty in Hin.
Qed.

Lemma recorded_cancellation σ id key w r :
  winv σ → wagers σ !! id = Some w →
  cancelByIdempotency σ !! (id +:+ "|cancel|" +:+ key) = Some r →
  cancellations σ id !! (id +:+ "|cancel|" +:+ key) = Some r.
Proof.
  intros Hi Hw Hr. unfold cancellations. apply map_lookup_filter_Some. split; [done|]. simpl.
  destruct (wi_canceled σ Hi _ _ Hr) as (v & key' & Hv & E). rewrite Hv. simpl. f_equal.
  destruct (wi_ids σ Hi _ _ Hw) as (_ & t & n & _ & Hid).
  pose proof (wi_life σ Hi (WagerId v)) as Hl.
  destruct (wagers σ !! WagerId v) as [x|] eqn:Hx.
  - destruct (wi_ids σ Hi _ _ Hx) as (_ & t' & n' & _ & Hid').
    symmetry. apply (key_wager "cancel|" _ _ key key'); [rewrite Hid; apply wager_id_no_pipe
      |rewrite Hid'; apply wager_id_no_pipe|exact E].
  - destruct Hl as [_ Hs]. exfalso.
    assert (cancellations σ (WagerId v) !! (id +:+ "|cancel|" +:+ key) = Some r) as Hin.
    { apply map_lookup_filter_Some. split; [done|]. simpl. by rewrite Hv. }
    by rewrite Hs, lookup_empty in Hin.
Qed.

(** C17: in memory a wager is settled at most once and pays the payout of that
    settlement: when a settlement that is no replay is answered OK, the wager
    was pending and becomes what the response shows, settled with the payout and
    outcome of the request; after any further requests it still is; every other
    settlement of it that is answered OK then is the replay of that one, with
    the same response, and changes nothing; and no cancellation of it is
    answered OK. *)
Theorem wager_settled_once clk qs0 s ctx req r s1 qs rs s2 :
  wager_run clk qs0 s → SettleWager ctx (Some req) s = Done r s1 →
  ResCode (swr_Meta r) = RESULT_CODE_OK →
  settleByIdempotency (st s)
    !! (sw_WagerId req +:+ "|settle|" +:+ idempotency (sw_Meta req)) = None →
  wserve_all qs s1 = Done rs s2 →
  Z.of_nat (length qs0) + Z.of_nat (length qs) < int64_max →
  (∃ w payout at_, wagers (st s) !! sw_WagerId req = Some w ∧ Status w = WAGER_STATUS_PENDING
     ∧ sw_Payout req = Some payout ∧ 0 < AmountMinor payout
     ∧ let w' := settled_wager w payout (sw_OutcomeRef req) at_ in
       swr_Wager r = Some w' ∧ wagers (st s1) !! sw_WagerId req = Some w'
       ∧ wagers (st s2) !! sw_WagerId req = Some w')
  ∧ (∀ ctx' req' r' s3, SettleWager ctx' (Some req') s2 = Done r' s3 →
       sw_WagerId req' = sw_WagerId req → ResCode (swr_Meta r') = RESULT_CODE_OK →
       r' = r ∧ idempotency (sw_Meta req') = idempotency (sw_Meta req) ∧ st s3 = st s2)
  ∧ (∀ ctx' req' r' s3, CancelWager ctx' (Some req') s2 = Done r' s3 →
       cw_WagerId req' = sw_WagerId req →
       ResCode (cwr_Meta r') ≠ RESULT_CODE_OK ∧ st s3 = st s2).
Proof.
  intros Hrun E1 Hok Hfresh E2 Hlen. destruct (wager_run_inv _ _ _ Hrun) as (Hm & Hi & Hn).
  destruct (mspec_run (λ _, True) _ _ _ _ _ E1 Hm (λ _, I) (SettleWager_spec _ _ _ _ _))
    as (Hm1 & _ & _ & H').
  destruct H' as [[_ [Hc|Hc]]|[[_ Hc]|Hset]]; [congruence..|].
  destruct (settled_winv _ _ _ _ Hset Hi) as [Hi1 _].
  destruct Hset as (w & payout & t & Hpay & Hpos & Hw & Hp & _ & _ & Hr & Hst1).
  set (w' := settled_wager w payout (sw_OutcomeRef req) (FormatRFC3339Nano t)) in *.
  destruct (wserve_all_run _ _ _ _ E2 Hm1) as (Hm2 & (_ & Hcs & _) & Hinv).
  destruct Hinv as (Hi2 & _ & Hle); [done|rewrite Hst1; simpl; lia|].
  assert (wagers (st s1) !! sw_WagerId req = Some w') as Hw1
    by (rewrite Hst1; apply lookup_insert_eq).
  assert (wagers (st s2) !! sw_WagerId req = Some w') as Hw2.
  { destruct (Hle _ _ Hw1) as (w2 & Hw2 & [->|[Habs _]]); [done|]. discriminate Habs. }
  assert (settleByIdempotency (st s2)
    !! (sw_WagerId req +:+ "|settle|" +:+ idempotency (sw_Meta req)) = Some r) as Hr2.
  { eapply lookup_weaken; [|exact Hcs]. rewrite Hst1. apply lookup_insert_eq. }
  pose proof (wi_life _ Hi2 (sw_WagerId req)) as Hl. rewrite Hw2 in Hl.
  destruct Hl as (k & rp & w0 & _ & _ & _ & _ & Hl). simpl in Hl.
  destruct Hl as (Hcan & k' & r0 & _ & _ & _ & Hone & _).
  assert (WagerId w = sw_WagerId req) as Hid by apply (wi_ids _ Hi _ _ Hw). rewrite Hid in Hcan, Hone.
  pose proof (recorded_settlement _ _ _ _ _ Hi2 Hw2 Hr2) as Hf.
  rewrite Hone in Hf. apply lookup_singleton_Some in Hf as [Hk' Hr0].
  split_and!; [by exists w, payout, (FormatRFC3339Nano t)|..].
  - intros ctx' req' r' s3 E3 Hid' Hok'.
    destruct (mspec_run (λ _, True) _ _ _ _ _ E3 Hm2 (λ _, I) (SettleWager_spec _ _ _ _ _))
      as (_ & _ & _ & H'). destruct H' as [[_ [Hc|Hc]]|[[Hs3 Hrec]|Hset]]; [congruence..| |].
    + rewrite Hid' in Hrec. pose proof (recorded_settlement _ _ _ _ _ Hi2 Hw2 Hrec) as Hf.
      rewrite Hone in Hf. apply lookup_singleton_Some in Hf as [Hk'' Hr']. split_and!; [congruence| |done].
      rewrite Hk' in Hk''. apply str_app_inj_l, str_app_inj_l in Hk''. done.
    + destruct Hset as (w3 & _ & _ & _ & _ & Hw3 & Hp3 & _). exfalso.
      rewrite Hid', Hw2 in Hw3. injection Hw3 as <-. done.
  - intros ctx' req' r' s3 E3 Hid'.
    destruct (mspec_run (λ _, True) _ _ _ _ _ E3 Hm2 (λ _, I) (CancelWager_spec _ _ _ _ _))
      as (_ & _ & _ & H'). destruct H' as [[Hs3 Hc]|[[_ Hrec]|Hset]].
    + split; [by apply refused_not_ok|done].
    + exfalso. rewrite Hid' in Hrec. pose proof (recorded_cancellation _ _ _ _ _ Hi2 Hw2 Hrec) as Hf.
      by rewrite Hcan, lookup_empty in Hf.
    + destruct Hset as (w3 & _ & Hw3 & Hp3 & _). exfalso.
      rewrite Hid', Hw2 in Hw3. injection Hw3 as <-. done.
Qed.

(** Placing a wager again under the same player and idempotency key returns
    the wager placed the first time and places no other, whatever happened in
    between. *)
Theorem wager_placed_once s ctx req r s1 qs rs s2 ctx' req' r' s3 :
  in_memory s → PlaceWager ctx (Some req) s = Done r s1 →
  ResCode (pwr_Meta r) = RESULT_CODE_OK →
  wserve_all qs s1 = Done rs s2 →
  pw_PlayerId req' = pw_PlayerId req →
  idempotency (pw_Meta req') = idempotency (pw_Meta req) →
  PlaceWager ctx' (Some req') s2 = Done r' s3 →
  st s3 = st s2 ∧ (r' = r ∨ refused_code (ResCode (pwr_Meta r'))).
Proof.
  intros Hm E1 Hok E2 Hpl Hkey E3.
  destruct (mspec_run (λ _, True) _ _ _ _ _ E1 Hm (λ _, I) (PlaceWager_spec _ _ _ _ _))
    as (Hm1 & _ & _ & Hr1).
  assert (placeByIdempotency (st s1)
    !! (pw_PlayerId req +:+ "|place|" +:+ idempotency (pw_Meta req)) = Some r) as Hc1.
  { destruct Hr1 as [[_ [Hc|Hc]]|[[-> Hc]|Hpd]]; [congruence..|done|].
    destruct Hpd as (w & t & stake & _ & _ & _ & _ & _ & _ & _ & _ & _ & _ & _ & ->).
    simpl. by rewrite lookup_insert_eq. }
  destruct (wserve_all_run _ _ _ _ E2 Hm1) as (Hm2 & (Hsub & _) & _).
  pose proof (lookup_weaken _ _ _ _ Hc1 Hsub) as Hc2. rewrite <- Hpl, <- Hkey in Hc2.
  destruct (mspec_run (λ _, True) _ _ _ _ _ E3 Hm2 (λ _, I) (PlaceWager_spec _ _ _ _ _))
    as (_ & _ & _ & Hr3). destruct Hr3 as [[? ?]|[[? Hc3]|Hpd]].
  - split; [done|by right].
  - split; [done|left; congruence].
  - destruct Hpd as (w & t & stake & _ & _ & _ & _ & _ & _ & _ & _ & _ & _ & Hn3 & _).
    congruence.
Qed.
End runs.

(** ** Concrete instances *)

Import Concrete.

(** A wagers table, and an empty table of idempotency keys that accepts every
    insertion. *)
Definition wager_table := gmap string wager_row.

Definition parse_or_zero (v : string) : Time := default zero_time (ParseRFC3339Nano v).

#[export] Instance table_db : WageringDB wager_table := {|
  x_wager_upsert id player game stake cur status pay paycur outcome placed settled canceled
      reason _ d :=
    (Ok (), <[id := mkWagerRow id player game stake cur status pay paycur outcome
       (parse_or_zero placed) (ParseRFC3339Nano settled) (ParseRFC3339Nano canceled)
       reason]> d);
  q_wager id d := (Ok (d !! id), d);
  q_wagering_idempotency _ _ _ d := (Ok None, d);
  x_wagering_idempotency _ _ _ _ _ d := (Ok (), d) |}.

(** A database that is down. *)
#[export] Instance down_db : WageringDB () := {|
  x_wager_upsert _ _ _ _ _ _ _ _ _ _ _ _ _ _ d := (Err ErrDatabase, d);
  q_wager _ d := (Err ErrDatabase, d);
  q_wagering_idempotency _ _ _ d := (Ok None, d);
  x_wagering_idempotency _ _ _ _ _ d := (Err ErrDatabase, d) |}.

Definition ex_place : PlaceWagerRequest :=
  mkPlaceWagerRequest (operator_meta "p1") "alice" "slots" (usd 100).
Definition ex_settle (id key : string) (payout : Z) : SettleWagerRequest :=
  mkSettleWagerRequest (operator_meta key) id (usd payout) "outcome-1".

(** A service started on a database that holds one pending wager. *)
Definition pending_row : wager_row :=
  mkWagerRow "w-1" "alice" "slots" 100 "USD" "pending" 0 "" "" zero_time None None "".
Definition restarted : Svc wager_table WageringState :=
  NewWageringService None (Some {[ "w-1" := pending_row ]}).

(** With a database the wager read from it is settled, but the map keeps the
    pending copy, so that a second settlement under another key is accepted
    too, with another payout. *)
Theorem wager_settled_twice_with_database :
  match SettleWager None (Some (ex_settle "w-1" "k1" 500)) restarted with
  | Done r1 s1 =>
      match SettleWager None (Some (ex_settle "w-1" "k2" 900)) s1 with
      | Done r2 s2 =>
          ResCode (swr_Meta r1) = RESULT_CODE_OK ∧ ResCode (swr_Meta r2) = RESULT_CODE_OK
          ∧ (w ← swr_Wager r1; Payout w) = Some (mkMoney 500 "USD")
          ∧ (w ← swr_Wager r2; Payout w) = Some (mkMoney 900 "USD")
      | _ => False
      end
  | _ => False
  end.
Proof. vm_compute. split_and!; reflexivity. Qed.

(** PlaceWager caches its response before it persists the wager: when the
    database is down the first call reports an error, and a retry under the
    same key reports success for a wager that was never stored. *)
Theorem wager_retry_after_failed_persist :
  match PlaceWager None (Some ex_place) (NewWageringService (D := ()) None (Some ())) with
  | Done r1 s1 =>
      match PlaceWager None (Some ex_place) s1 with
      | Done r2 s2 =>
          ResCode (pwr_Meta r1) = RESULT_CODE_ERROR ∧ ResCode (pwr_Meta r2) = RESULT_CODE_OK
      | _ => False
      end
  | _ => False
  end.
Proof. vm_compute. split; reflexivity. Qed.

(** A service in memory with one wager placed. *)
Definition ex_wagering : Svc () WageringState := NewWageringService None None.
Definition ex_bets : list wreq := [WPlace None (Some ex_place)].
Lemma ex_wager_run rs s :
  wserve_all ex_bets ex_wagering = Done rs s → wager_run None ex_bets s.
Proof. intros E. exists rs. split; [exact E|]. vm_compute. discriminate. Qed.

Definition ex_wager_id : string := wager_id (1704067200 * Second + 1 * Second) 1.

(** A wager placed, settled, and then canceled in vain. *)
Definition ex_settled_bets : list wreq :=
  [WPlace None (Some ex_place); WSettle None (Some (ex_settle ex_wager_id "k1" 500));
   WCancel None (Some (mkCancelWagerRequest (operator_meta "k2") ex_wager_id "void"))].


Lemma wager_final_is_final_witness :
  match wserve_all ex_bets ex_wagering with
  | Done _ s =>
      match wserve_all [WSettle None (Some (ex_settle ex_wager_id "k1" 500))] s with
      | Done _ s' => ∃ w w', wagers (st s) !! ex_wager_id = Some w
          ∧ wagers (st s') !! ex_wager_id = Some w' ∧ wager_evolves w w'
      | _ => False
      end
  | _ => False
  end.
Proof.
  assert (match wserve_all ex_bets ex_wagering with
    | Done _ s => (match wserve_all [WSettle None (Some (ex_settle ex_wager_id "k1" 500))] s with
        Done _ _ => True | _ => False end) ∧ is_Some (wagers (st s) !! ex_wager_id)
    | _ => False end) as Hr by (vm_compute; split; [exact I|by eexists]).
  destruct (wserve_all ex_bets ex_wagering) as [rs s| |] eqn:E; [|done..].
  destruct Hr as [Hr [w Hw]].
  destruct (wserve_all _ s) as [rs' s'| |] eqn:E'; [|done..].
  destruct (wager_final_is_final None ex_bets s _ rs' s' ex_wager_id w
    (ex_wager_run _ _ E) E') as (w' & Hw' & He & _); [by vm_compute|exact Hw|].
  exists w, w'. split; [exact Hw|]. split; [exact Hw'|exact He].
Defined.

Lemma wager_settled_once_witness :
  match wserve_all ex_bets ex_wagering with
  | Done _ s =>
      match SettleWager None (Some (ex_settle ex_wager_id "k1" 500)) s with
      | Done r s1 =>
          (∃ w', wagers (st s1) !! ex_wager_id = Some w' ∧ Payout w' = Some (mkMoney 500 "USD"))
          ∧ ∀ ctx' req' r' s3, SettleWager ctx' (Some req') s1 = Done r' s3 →
              sw_WagerId req' = ex_wager_id → ResCode (swr_Meta r') = RESULT_CODE_OK →
              r' = r ∧ st s3 = st s1
      | _ => False
      end
  | _ => False
  end.
Proof.
  assert (match wserve_all ex_bets ex_wagering with
    | Done _ s => match SettleWager None (Some (ex_settle ex_wager_id "k1" 500)) s with
        | Done r _ => ResCode (swr_Meta r) = RESULT_CODE_OK | _ => False end
        ∧ settleByIdempotency (st s) !! (ex_wager_id +:+ "|settle|" +:+ "k1") = None
    | _ => False end) as Hr by (vm_compute; split; reflexivity).
  destruct (wserve_all ex_bets ex_wagering) as [rs s| |] eqn:E; [|done..].
  destruct Hr as [Hr Hf].
  destruct (SettleWager None (Some (ex_settle ex_wager_id "k1" 500)) s) as [r s1| |] eqn:E1;
    [|done..].
  destruct (wager_settled_once None ex_bets s None (ex_settle ex_wager_id "k1" 500) r s1
    [] [] s1 (ex_wager_run _ _ E) E1 Hr Hf eq_refl) as (Hw & Hs & _); [by vm_compute|].
  split.
  - destruct Hw as (w & payout & at_ & _ & _ & Hp & _ & _ & Hw & _).
    injection Hp as <-. eexists. split; [exact Hw|reflexivity].
  - intros ctx' req' r' s3 E3 Hid Hok.
    destruct (Hs ctx' req' r' s3 E3 Hid Hok) as (Hr' & _ & Hs3). split; [exact Hr'|exact Hs3].
Defined.

Lemma wager_placed_once_witness :
  match PlaceWager None (Some ex_place) ex_wagering with
  | Done r s1 =>
      match PlaceWager None (Some ex_place) s1 with
      | Done r' s3 => st s3 = st s1 ∧ (r' = r ∨ refused_code (ResCode (pwr_Meta r')))
      | _ => False
      end
  | _ => False
  end.
Proof.
  assert (match PlaceWager None (Some ex_place) ex_wagering with
    | Done r s1 => ResCode (pwr_Meta r) = RESULT_CODE_OK
        ∧ match PlaceWager None (Some ex_place) s1 with Done _ _ => True | _ => False end
    | _ => False end) as Hr by (vm_compute; split; [reflexivity|exact I]).
  destruct (PlaceWager None (Some ex_place) ex_wagering) as [r s1| |] eqn:E1; [|done..].
  destruct Hr as [Hok Hr].
  destruct (PlaceWager None (Some ex_place) s1) as [r' s3| |] eqn:E3; [|done..].
  apply (wager_placed_once ex_wagering None ex_place r s1 [] [] s1 None ex_place r' s3
    (NewService_in_memory _ _) E1 Hok eq_refl eq_refl eq_refl E3).
Defined.
