(* ===== verification/Sessions.v ===== *)
(** * Player sessions
    (internal/platform/server/sessions_grpc.go and sessions_postgres.go)

    A session is active until it is ended, or until it is read after its expiry
    time.  The handlers work on copies and store the changed copy. *)

From S2P Require Import Prelude GoTime GoJson AuditTrail Service.

(** ** Messages (api/proto/rgs/v1/sessions.proto) *)

Inductive SessionState :=
| SESSION_STATE_UNSPECIFIED | SESSION_STATE_ACTIVE | SESSION_STATE_ENDED
| SESSION_STATE_EXPIRED.

#[global] Instance SessionState_eq_dec : EqDecision SessionState.
Proof. solve_decision. Defined.

Record PlayerSession := mkSession {
  SessionId : string; SessPlayerId : string; DeviceId : string; State : SessionState;
  StartedAt : string; LastSeenAt : string; EndedAt : string; ExpiresAt : string;
  EndReason : string }.

#[global] Instance PlayerSession_eq_dec : EqDecision PlayerSession.
Proof. solve_decision. Defined.

#[global] Instance eta_PlayerSession : Eta PlayerSession := λ x,
  mkSession (SessionId x) (SessPlayerId x) (DeviceId x) (State x) (StartedAt x)
    (LastSeenAt x) (EndedAt x) (ExpiresAt x) (EndReason x).

Record StartSessionRequest := mkStartSessionRequest {
  ss_Meta : option RequestMeta; ss_PlayerId : string; ss_DeviceId : string;
  ss_TimeoutSeconds : Z }.
Record EndSessionRequest := mkEndSessionRequest {
  es_Meta : option RequestMeta; es_SessionId : string; es_Reason : string }.
Record GetSessionRequest := mkGetSessionRequest {
  gs_Meta : option RequestMeta; gs_SessionId : string }.

(** The three responses carry an envelope and a session. *)
Record SessionResponse := mkSessionResponse {
  sr_Meta : ResponseMeta; sr_Session : option PlayerSession }.

(** ** State *)

Record SessionsState := mkSessions {
  sessions : gmap string PlayerSession;
  defaultTimeout : Duration;
  disableInMemoryCache : bool }.

#[global] Instance eta_SessionsState : Eta SessionsState := λ s,
  mkSessions (sessions s) (defaultTimeout s) (disableInMemoryCache s).

Definition NewSessionsService {D} (clk : option (nat → Time)) (handle : option D)
    : Svc D SessionsState :=
  mkSvc (mkBase clk (Some NewInMemoryStore) false 0 handle 0) (mkSessions ∅ Hour false).

(** ** The database interface *)

Record session_row := mkSessionRow {
  sn_session_id : string; sn_player_id : string; sn_device_id : string; sn_state : string;
  sn_started_at : Time; sn_last_seen_at : Time; sn_ended_at : option Time;
  sn_expires_at : Time; sn_end_reason : string }.

Class SessionsDB (D : Type) := {
  (** INSERT INTO player_sessions ... ON CONFLICT (session_id) DO UPDATE: the
      nine parameters in order *)
  x_session_upsert : string → string → string → string → string → string → string →
    string → string → D → res () * D;
  (** SELECT ... FROM player_sessions WHERE session_id = $1 *)
  q_session : string → D → res (option session_row) * D;
}.

(** ** Pure helpers *)

Definition SessionState_number (v : SessionState) : Z :=
  match v with
  | SESSION_STATE_UNSPECIFIED => 0 | SESSION_STATE_ACTIVE => 1
  | SESSION_STATE_ENDED => 2 | SESSION_STATE_EXPIRED => 3
  end.

(** [None] is a nil session. *)
Definition playerSessionSnapshot (sess : option PlayerSession) : string :=
  match sess with
  | None => "{}"
  | Some x =>
      json_object (omit_string "session_id" (SessionId x)
        ++ omit_string "player_id" (SessPlayerId x) ++ omit_string "device_id" (DeviceId x)
        ++ omit_int "state" (SessionState_number (State x))
        ++ omit_string "started_at" (StartedAt x) ++ omit_string "last_seen_at" (LastSeenAt x)
        ++ omit_string "ended_at" (EndedAt x) ++ omit_string "expires_at" (ExpiresAt x)
        ++ omit_string "end_reason" (EndReason x))
  end.

(** The timeout seconds are an int32, so the product fits in an int64. *)
Definition timeoutForRequest (default_ : Duration) (req : StartSessionRequest) : Duration :=
  let timeout := if 0 <? ss_TimeoutSeconds req
                 then ss_TimeoutSeconds req * Second else default_ in
  let timeout := if timeout <=? 0 then Hour else timeout in
  if 24 * Hour <? timeout then 24 * Hour else timeout.

Definition authorizeStart (ctx : option Context) (meta : option RequestMeta)
    (playerID : string) : bool * string :=
  match resolveActor ctx meta with
  | inr reason => (false, reason)
  | inl actor =>
      match ActorTypeOf actor with
      | ACTOR_TYPE_PLAYER =>
          if decide (ActorId actor ≠ playerID)
          then (false, "player actor must match player_id") else (true, "")
      | ACTOR_TYPE_OPERATOR | ACTOR_TYPE_SERVICE => (true, "")
      | _ => (false, "unauthorized actor type")
      end
  end.

Definition authorizeAccess (ctx : option Context) (meta : option RequestMeta)
    (sess : PlayerSession) : bool * string :=
  match resolveActor ctx meta with
  | inr reason => (false, reason)
  | inl actor =>
      match ActorTypeOf actor with
      | ACTOR_TYPE_PLAYER =>
          if decide (ActorId actor ≠ SessPlayerId sess)
          then (false, "player actor unauthorized for session") else (true, "")
      | ACTOR_TYPE_OPERATOR | ACTOR_TYPE_SERVICE => (true, "")
      | _ => (false, "unauthorized actor type")
      end
  end.

Definition sessionStateToDB (v : SessionState) : string :=
  match v with
  | SESSION_STATE_ACTIVE => "ACTIVE"
  | SESSION_STATE_ENDED => "ENDED"
  | SESSION_STATE_EXPIRED => "EXPIRED"
  | SESSION_STATE_UNSPECIFIED => "UNSPECIFIED"
  end.

Definition sessionStateFromDB (v : string) : SessionState :=
  if decide (v = "ACTIVE") then SESSION_STATE_ACTIVE
  else if decide (v = "ENDED") then SESSION_STATE_ENDED
  else if decide (v = "EXPIRED") then SESSION_STATE_EXPIRED
  else SESSION_STATE_UNSPECIFIED.

Definition session_of_row (r : session_row) : PlayerSession :=
  mkSession (sn_session_id r) (sn_player_id r) (sn_device_id r)
    (sessionStateFromDB (sn_state r)) (FormatRFC3339Nano (sn_started_at r))
    (FormatRFC3339Nano (sn_last_seen_at r))
    (default "" (FormatRFC3339Nano <$> sn_ended_at r))
    (FormatRFC3339Nano (sn_expires_at r)) (sn_end_reason r).

(** The session after it was looked at at time [now]: the pure part of
    [touchAndExpireSessionIfNeeded]. *)
Definition touch (sess : PlayerSession) (now : Time) : PlayerSession :=
  let expiresAt := default now (ParseRFC3339Nano (ExpiresAt sess)) in
  let updated :=
    if decide (State sess = SESSION_STATE_ACTIVE ∧ time_After now expiresAt = true)
    then let u := sess <| State := SESSION_STATE_EXPIRED |>
                       <| EndedAt := FormatRFC3339Nano now |> in
         if decide (EndReason u = "") then u <| EndReason := "session timeout" |> else u
    else sess in
  if decide (State updated = SESSION_STATE_ACTIVE)
  then updated <| LastSeenAt := FormatRFC3339Nano now |> else updated.

Section sessions.
Context {D : Type} `{!Wall, !Crypto, !JsonValid, !Random, !AuditDB D, !SessionsDB D}.

Abbreviation SM := (M (Svc D SessionsState)).

Definition SetDisableInMemoryCache (disable : bool) : SM () :=
  locked (mod_st (λ s, s <| disableInMemoryCache := disable |>)).

Definition SetDefaultTimeout (timeout : Duration) : SM () :=
  if timeout <=? 0 then mret ()
  else locked (mod_st (λ s, s <| defaultTimeout := timeout |>)).

Definition sessions_appendAudit (meta : option RequestMeta)
    (objectID action before after : string) (result : Result) (reason : string)
    : SM (option error) :=
  appendAudit "sessions-audit-" meta "player_session" objectID action before after result reason.

(** ** sessions_postgres.go *)

Definition upsertSessionInDB (x : PlayerSession) : SM (option error) :=
  started ← nonEmptyTime (StartedAt x);
  seen ← nonEmptyTime (LastSeenAt x);
  expires ← nonEmptyTime (ExpiresAt x);
  r ← run_db (x_session_upsert (SessionId x) (SessPlayerId x) (DeviceId x)
        (sessionStateToDB (State x)) started seen (EndedAt x) expires (EndReason x));
  mret (match r with Ok _ => None | Err e => Some e end).

Definition getSessionFromDB (sessionID : string) : SM (res (option PlayerSession)) :=
  r ← run_db (q_session sessionID);
  mret (match r with Err e => Err e | Ok row => Ok (session_of_row <$> row) end).

(** ** sessions_grpc.go *)

Definition loadSession (sessionID : string) : SM (res (option PlayerSession)) :=
  enabled ← dbEnabled;
  if (enabled : bool) then getSessionFromDB sessionID
  else
    disabled ← get_st disableInMemoryCache;
    if (disabled : bool) then mret (Ok None)
    else x ← get_st (λ s, sessions s !! sessionID); mret (Ok x).

Definition persistSession (x : PlayerSession) : SM (option error) :=
  enabled ← dbEnabled;
  if (enabled : bool) then upsertSessionInDB x
  else
    disabled ← get_st disableInMemoryCache;
    if (disabled : bool) then mret (Some ErrConnDone)
    else mod_st (λ s, s <| sessions ::= insert (SessionId x) x |>);; mret None.

Definition touchAndExpireSessionIfNeeded (sess : PlayerSession) : SM (res PlayerSession) :=
  t ← now;
  let updated := touch sess t in
  if decide (updated ≠ sess) then
    e ← persistSession updated;
    match e with Some e => mret (Err e) | None => mret (Ok updated) end
  else mret (Ok updated).

Definition session_reply meta code reason : SM SessionResponse :=
  m ← responseMeta meta code reason; mret (mkSessionResponse m None).

Definition StartSession (ctx : option Context) (req : option StartSessionRequest)
    : SM SessionResponse :=
  match req with
  | None => session_reply None RESULT_CODE_INVALID "player_id and device_id are required"
  | Some req =>
  let meta := ss_Meta req in
  if decide (ss_PlayerId req = "" ∨ ss_DeviceId req = "") then
    session_reply None RESULT_CODE_INVALID "player_id and device_id are required"
  else
  let '(ok, reason) := authorizeStart ctx meta (ss_PlayerId req) in
  if negb ok then
    sessions_appendAudit meta "" "start_session" "{}" "{}" ResultDenied reason;;
    session_reply meta RESULT_CODE_DENIED reason
  else
  locked (
    enabled ← dbEnabled; disabled ← get_st disableInMemoryCache;
    if negb enabled && disabled then
      session_reply meta RESULT_CODE_ERROR "persistence unavailable" else
    tok ← randomToken;
    match tok with
    | Err _ => session_reply meta RESULT_CODE_ERROR "failed to create session id"
    | Ok rawToken =>
    t ← now;
    d ← get_st defaultTimeout;
    let timeout := timeoutForRequest d req in
    let sess := mkSession ("sess-" +:+ rawToken) (ss_PlayerId req) (ss_DeviceId req)
      SESSION_STATE_ACTIVE (FormatRFC3339Nano t) (FormatRFC3339Nano t) ""
      (FormatRFC3339Nano (t + timeout)) "" in
    e ← persistSession sess;
    match e with
    | Some _ => session_reply meta RESULT_CODE_ERROR "persistence unavailable"
    | None =>
    e ← sessions_appendAudit meta (SessionId sess) "start_session" "{}"
          (playerSessionSnapshot (Some sess)) ResultSuccess "";
    match e with
    | Some _ => session_reply meta RESULT_CODE_ERROR "audit unavailable"
    | None =>
    m ← responseMeta meta RESULT_CODE_OK ""; mret (mkSessionResponse m (Some sess))
    end end end)
  end.

Definition EndSession (ctx : option Context) (req : option EndSessionRequest)
    : SM SessionResponse :=
  match req with
  | None => session_reply None RESULT_CODE_INVALID "session_id is required"
  | Some req =>
  let meta := es_Meta req in
  if decide (es_SessionId req = "") then
    session_reply None RESULT_CODE_INVALID "session_id is required"
  else
  locked (
    loaded ← loadSession (es_SessionId req);
    match loaded with
    | Err _ => session_reply meta RESULT_CODE_ERROR "persistence unavailable"
    | Ok None => session_reply meta RESULT_CODE_INVALID "session not found"
    | Ok (Some sess) =>
    let '(ok, reason) := authorizeAccess ctx meta sess in
    if negb ok then
      sessions_appendAudit meta (es_SessionId req) "end_session" "{}" "{}" ResultDenied reason;;
      session_reply meta RESULT_CODE_DENIED reason
    else
    let before := playerSessionSnapshot (Some sess) in
    ended ← (if decide (State sess = SESSION_STATE_ACTIVE) then
        t ← now;
        let updated := sess <| State := SESSION_STATE_ENDED |>
          <| EndedAt := FormatRFC3339Nano t |>
          <| EndReason := if decide (es_Reason req ≠ "") then es_Reason req
                          else "ended by actor" |> in
        e ← persistSession updated;
        match e with Some e => mret (Err e) | None => mret (Ok updated) end
      else mret (Ok sess));
    match ended with
    | Err _ => session_reply meta RESULT_CODE_ERROR "persistence unavailable"
    | Ok updated =>
    e ← sessions_appendAudit meta (es_SessionId req) "end_session" before
          (playerSessionSnapshot (Some updated)) ResultSuccess (es_Reason req);
    match e with
    | Some _ => session_reply meta RESULT_CODE_ERROR "audit unavailable"
    | None =>
    m ← responseMeta meta RESULT_CODE_OK ""; mret (mkSessionResponse m (Some updated))
    end end end)
  end.

Definition GetSession (ctx : option Context) (req : option GetSessionRequest)
    : SM SessionResponse :=
  match req with
  | None => session_reply None RESULT_CODE_INVALID "session_id is required"
  | Some req =>
  let meta := gs_Meta req in
  if decide (gs_SessionId req = "") then
    session_reply None RESULT_CODE_INVALID "session_id is required"
  else
  locked (
    loaded ← loadSession (gs_SessionId req);
    match loaded with
    | Err _ => session_reply meta RESULT_CODE_ERROR "persistence unavailable"
    | Ok None => session_reply meta RESULT_CODE_INVALID "session not found"
    | Ok (Some sess) =>
    let '(ok, reason) := authorizeAccess ctx meta sess in
    if negb ok then
      sessions_appendAudit meta (gs_SessionId req) "get_session" "{}" "{}" ResultDenied reason;;
      session_reply meta RESULT_CODE_DENIED reason
    else
    touched ← touchAndExpireSessionIfNeeded sess;
    match touched with
    | Err _ => session_reply meta RESULT_CODE_ERROR "persistence unavailable"
    | Ok updated =>
    e ← sessions_appendAudit meta (gs_SessionId req) "get_session" "{}"
          (playerSessionSnapshot (Some updated)) ResultSuccess "";
    match e with
    | Some _ => session_reply meta RESULT_CODE_ERROR "audit unavailable"
    | None =>
    m ← responseMeta meta RESULT_CODE_OK ""; mret (mkSessionResponse m (Some updated))
    end end end)
  end.
End sessions.
