(* ===== verification/SessionsProofs.v ===== *)
(** * Theorems about player sessions

    Without a database: a session keeps its player, device and expiry time; it
    leaves the active state once, by ending or by being read after its expiry;
    timeouts are bounded; players only reach their own sessions. *)

From S2P Require Import Prelude GoTime GoJson AuditTrail Service Ledger Env Sessions.

(** ** The life of a session *)

(** What may become of a session. *)
Record session_evolves (x x' : PlayerSession) : Prop := {
  se_same : SessionId x' = SessionId x ∧ SessPlayerId x' = SessPlayerId x
    ∧ DeviceId x' = DeviceId x ∧ StartedAt x' = StartedAt x ∧ ExpiresAt x' = ExpiresAt x;
  se_final : State x ≠ SESSION_STATE_ACTIVE → x' = x }.

#[global] Instance session_evolves_preorder : PreOrder session_evolves.
Proof.
  split; [by intros x; split|].
  intros x y z [Hxy Hf] [Hyz Hg]. split; [naive_solver congruence|].
  intros Hx. rewrite (Hg ltac:(by rewrite Hf)). by apply Hf.
Qed.

(** The end of a session by an actor. *)
Definition ended (x : PlayerSession) (reason : string) (t : Time) : PlayerSession :=
  if decide (State x = SESSION_STATE_ACTIVE) then
    x <| State := SESSION_STATE_ENDED |> <| EndedAt := FormatRFC3339Nano t |>
      <| EndReason := if decide (reason ≠ "") then reason else "ended by actor" |>
  else x.

Lemma ended_evolves x reason t : session_evolves x (ended x reason t).
Proof. unfold ended. by case_decide; split. Qed.

Lemma touch_evolves x t : session_evolves x (touch x t).
Proof.
  unfold touch. split.
  - by repeat case_decide.
  - intros Hx. rewrite !(decide_False (P := State x = _ ∧ _)) by tauto.
    by rewrite decide_False.
Qed.

(** A session expired at a time. *)
Definition expired_at (x : PlayerSession) (t : Time) : PlayerSession :=
  x <| State := SESSION_STATE_EXPIRED |> <| EndedAt := FormatRFC3339Nano t |>
    <| EndReason := if decide (EndReason x = "") then "session timeout" else EndReason x |>.

(** Reading an active session at or before its expiry leaves it active; after
    it, the session is expired. *)
Lemma touch_in_time x t e :
  State x = SESSION_STATE_ACTIVE → ParseRFC3339Nano (ExpiresAt x) = Some e → t ≤ e →
  touch x t = x <| LastSeenAt := FormatRFC3339Nano t |>.
Proof.
  intros Hx He Hle. unfold touch. rewrite He. simpl.
  rewrite (decide_False (P := _ ∧ _)) by (unfold time_After; rewrite Z.ltb_lt; lia).
  by rewrite decide_True.
Qed.

Lemma touch_late x t e :
  State x = SESSION_STATE_ACTIVE → ParseRFC3339Nano (ExpiresAt x) = Some e → e < t →
  touch x t = expired_at x t.
Proof.
  intros Hx He Hlt. unfold touch, expired_at. rewrite He. simpl.
  rewrite (decide_True (P := _ ∧ _)) by (split; [done|]; apply Z.ltb_lt; lia).
  destruct x as [id p d sta st0 ls en ex re]; simpl in *. destruct (decide (re = "")) as [->|Hre]; simpl.
  - done.
  - done.
Qed.

Lemma timeout_bounds d req : 0 < timeoutForRequest d req ≤ 24 * Hour.
Proof.
  unfold timeoutForRequest, Hour, Minute, Second.
  destruct (Z.ltb_spec 0 (ss_TimeoutSeconds req)); repeat case_match; lia.
Qed.

(** Sessions are stored under their own id. *)
Definition sinv (σ : SessionsState) : Prop :=
  disableInMemoryCache σ = false
  ∧ ∀ id x, sessions σ !! id = Some x → SessionId x = id.

Section mem.
Context {D : Type} `{!Wall, !Crypto, !JsonValid, !Random, !AuditDB D, !SessionsDB D}.
Implicit Types (σ : SessionsState) (T : Time → Prop) (evs : list Event)
  (s : Svc D SessionsState) (ctx : option Context).

Lemma sspec_reply T meta c x h σ evs (Q : SessionResponse → SessionsState → list Event → Prop) :
  (∀ r, ResCode (sr_Meta r) = c → DenialReason (sr_Meta r) = x → sr_Session r = None →
     Q r σ evs) →
  mspec (D := D) T (session_reply meta c x) h σ evs Q.
Proof. intros HQ. unfold session_reply. msteps. by apply HQ. Qed.

Lemma sspec_appendAudit T meta oid action before after result reason h σ evs
    (Q : option error → SessionsState → list Event → Prop) :
  (∀ e, audit_record meta "player_session" oid action before after result reason e →
     Q None σ (evs ++ [e])) →
  mspec (D := D) T (sessions_appendAudit meta oid action before after result reason) h σ evs Q.
Proof. intros HQ. unfold sessions_appendAudit. mstep. by apply HQ. Qed.

Lemma sspec_load T id h σ evs (Q : res (option PlayerSession) → SessionsState → list Event → Prop) :
  disableInMemoryCache σ = false → Q (Ok (sessions σ !! id)) σ evs →
  mspec (D := D) T (loadSession id) h σ evs Q.
Proof. intros Hd HQ. unfold loadSession. msteps. rewrite Hd. by msteps. Qed.

Lemma sspec_persist T x h σ evs (Q : option error → SessionsState → list Event → Prop) :
  disableInMemoryCache σ = false →
  Q None (σ <| sessions ::= insert (SessionId x) x |>) evs →
  mspec (D := D) T (persistSession x) h σ evs Q.
Proof. intros Hd HQ. unfold persistSession. msteps. rewrite Hd. by msteps. Qed.

(** Storing a session that is there already changes nothing. *)
Lemma sessions_insert_id σ id x :
  sessions σ !! id = Some x → σ <| sessions ::= insert id x |> = σ.
Proof.
  intros Hx. destruct σ as [m d b]; unfold modify_field; simpl in *. by rewrite insert_id.
Qed.

Lemma sspec_touched T x id t h σ evs (Q : res PlayerSession → SessionsState → list Event → Prop) :
  disableInMemoryCache σ = false → sessions σ !! id = Some x → SessionId x = id →
  Q (Ok (touch x t)) (σ <| sessions ::= insert id (touch x t) |>) evs →
  mspec (D := D) T (if decide (touch x t ≠ x)
    then e ← persistSession (touch x t);
         match e with Some e => mret (Err e) | None => mret (Ok (touch x t)) end
    else mret (Ok (touch x t))) h σ evs Q.
Proof.
  intros Hd Hx Hid HQ. pose proof (se_same _ _ (touch_evolves x t)) as (Hi & _).
  case_decide as Hsame.
  - mstep. apply sspec_persist; [done|]. mstep. by rewrite Hi, Hid.
  - mstep. rewrite Hsame in *. by rewrite sessions_insert_id in HQ.
Qed.

Lemma sspec_touch T x id h σ evs (Q : res PlayerSession → SessionsState → list Event → Prop) :
  disableInMemoryCache σ = false → sessions σ !! id = Some x → SessionId x = id →
  (∀ t, T t → Q (Ok (touch x t)) (σ <| sessions ::= insert id (touch x t) |>) evs) →
  mspec (D := D) T (touchAndExpireSessionIfNeeded x) h σ evs Q.
Proof.
  intros Hd Hx Hid HQ. unfold touchAndExpireSessionIfNeeded. mstep. mstep. cbv zeta.
  eapply sspec_touched; [done..|]. by apply HQ.
Qed.

(** Why a session cannot be reached, and the code that says so. *)
Definition unreachable ctx meta id σ (c : ResultCode) : Prop :=
  (id = "" ∨ sessions σ !! id = None) ∧ c = RESULT_CODE_INVALID
  ∨ ∃ x, sessions σ !! id = Some x ∧ (authorizeAccess ctx meta x).1 = false
      ∧ c = RESULT_CODE_DENIED.

(** EndSession and GetSession refuse, or store what became of one session. *)
Lemma EndSession_spec T ctx req σ evs :
  sinv σ →
  mspec (D := D) T (EndSession ctx (Some req)) false σ evs (λ r σ' evs',
    evs `prefix_of` evs' ∧
    (σ' = σ ∧ sr_Session r = None
       ∧ unreachable ctx (es_Meta req) (es_SessionId req) σ (ResCode (sr_Meta r))
     ∨ ∃ x t, sessions σ !! es_SessionId req = Some x
         ∧ (authorizeAccess ctx (es_Meta req) x).1 = true
         ∧ ResCode (sr_Meta r) = RESULT_CODE_OK
         ∧ sr_Session r = Some (ended x (es_Reason req) t)
         ∧ σ' = σ <| sessions ::= insert (es_SessionId req) (ended x (es_Reason req) t) |>)).
Proof.
  intros [Hd Hids]. unfold EndSession; cbv zeta. case_decide.
  { apply sspec_reply. intros r Hc _ Hn. split; [done|]. left. split_and!; [done..|]. left. auto. }
  mstep. mstep. apply sspec_load; [done|].
  destruct (sessions σ !! es_SessionId req) as [x|] eqn:Hx.
  2: { apply sspec_reply. intros r Hc _ Hn. split; [done|]. left. split_and!; [done..|]. left. auto. }
  destruct (authorizeAccess _ _ _) as [[|] reason] eqn:Ha; simpl negb; cbv iota.
  2: { mstep. apply sspec_appendAudit. intros e _. apply sspec_reply. intros r Hc _ Hn.
    split; [by exists [e]|]. left. split_and!; [done..|]. right.
    exists x. by rewrite Ha. }
  mstep. case_decide as Hact.
  - mstep. mstep. mstep. apply sspec_persist; [done|]. msteps. apply sspec_appendAudit.
    intros e _. msteps. split; [by exists [e]|]. right. exists x, t. simpl.
    unfold ended. rewrite (decide_True (P := State x = SESSION_STATE_ACTIVE)) by done.
    by rewrite (Hids _ _ Hx), Ha.
  - msteps. apply sspec_appendAudit. intros e _. msteps. split; [by exists [e]|]. right.
    exists x, zero_time. unfold ended.
    rewrite (decide_False (P := State x = SESSION_STATE_ACTIVE)), Ha by done.
    by rewrite sessions_insert_id.
Qed.

Lemma GetSession_spec T ctx req σ evs :
  sinv σ →
  mspec (D := D) T (GetSession ctx (Some req)) false σ evs (λ r σ' evs',
    evs `prefix_of` evs' ∧
    (σ' = σ ∧ sr_Session r = None
       ∧ unreachable ctx (gs_Meta req) (gs_SessionId req) σ (ResCode (sr_Meta r))
     ∨ ∃ x t, T t ∧ sessions σ !! gs_SessionId req = Some x
         ∧ (authorizeAccess ctx (gs_Meta req) x).1 = true
         ∧ ResCode (sr_Meta r) = RESULT_CODE_OK
         ∧ sr_Session r = Some (touch x t)
         ∧ σ' = σ <| sessions ::= insert (gs_SessionId req) (touch x t) |>)).
Proof.
  intros [Hd Hids]. unfold GetSession; cbv zeta. case_decide.
  { apply sspec_reply. intros r Hc _ Hn. split; [done|]. left. split_and!; [done..|]. left. auto. }
  mstep. mstep. apply sspec_load; [done|].
  destruct (sessions σ !! gs_SessionId req) as [x|] eqn:Hx.
  2: { apply sspec_reply. intros r Hc _ Hn. split; [done|]. left. split_and!; [done..|]. left. auto. }
  destruct (authorizeAccess _ _ _) as [[|] reason] eqn:Ha; simpl negb; cbv iota.
  2: { mstep. apply sspec_appendAudit. intros e _. apply sspec_reply. intros r Hc _ Hn.
    split; [by exists [e]|]. left. split_and!; [done..|]. right.
    exists x. by rewrite Ha. }
  mstep. eapply sspec_touch; [done|exact Hx|by apply Hids|]. intros t Ht.
  mstep. apply sspec_appendAudit. intros e _. msteps. split; [by exists [e]|]. right.
  exists x, t. by rewrite Ha.
Qed.

(** StartSession refuses, fails to draw a token, or stores one new active
    session. *)
Lemma StartSession_spec T ctx req σ evs :
  sinv σ →
  mspec (D := D) T (StartSession ctx (Some req)) false σ evs (λ r σ' evs',
    evs `prefix_of` evs' ∧
    (σ' = σ ∧ sr_Session r = None ∧ ResCode (sr_Meta r) ≠ RESULT_CODE_OK
     ∨ ∃ raw t, T t ∧ ResCode (sr_Meta r) = RESULT_CODE_OK
         ∧ (authorizeStart ctx (ss_Meta req) (ss_PlayerId req)).1 = true
         ∧ let x := mkSession ("sess-" +:+ RawURLEncoding raw) (ss_PlayerId req)
             (ss_DeviceId req) SESSION_STATE_ACTIVE (FormatRFC3339Nano t)
             (FormatRFC3339Nano t) ""
             (FormatRFC3339Nano (t + timeoutForRequest (defaultTimeout σ) req)) "" in
           sr_Session r = Some x ∧ σ' = σ <| sessions ::= insert (SessionId x) x |>)).
Proof.
  intros [Hd Hids]. unfold StartSession; cbv zeta. case_decide.
  { apply sspec_reply. intros r Hc _ Hn. split; [done|]. left. split_and!; [done..|congruence]. }
  destruct (authorizeStart _ _ _) as [[|] reason] eqn:Ha; simpl negb; cbv iota.
  2: { mstep. apply sspec_appendAudit. intros e _. apply sspec_reply. intros r Hc _ Hn.
    split; [by exists [e]|]. left. split_and!; [done..|congruence]. }
  mstep. do 4 mstep. rewrite Hd. simpl andb. cbv iota. mstep. apply mspec_randomToken.
  2: { intros e. apply sspec_reply. intros r Hc _ Hn. split; [done|]. left.
    split_and!; [done..|congruence]. }
  intros raw. msteps. apply sspec_persist; [done|]. mstep. apply sspec_appendAudit.
  intros e _. msteps. split; [by exists [e]|]. right. by exists raw, t.
Qed.

(** ** Runs *)

Inductive sreq :=
| SStart (ctx : option Context) (req : option StartSessionRequest)
| SEnd (ctx : option Context) (req : option EndSessionRequest)
| SGet (ctx : option Context) (req : option GetSessionRequest).

(** The session a request started, if it was a start. *)
Definition sserve (q : sreq) : M (Svc D SessionsState) (SessionResponse * option PlayerSession) :=
  match q with
  | SStart ctx req => r ← StartSession ctx req; mret (r, sr_Session r)
  | SEnd ctx req => r ← EndSession ctx req; mret (r, None)
  | SGet ctx req => r ← GetSession ctx req; mret (r, None)
  end.

Fixpoint sserve_all (qs : list sreq)
    : M (Svc D SessionsState) (list (SessionResponse * option PlayerSession)) :=
  match qs with
  | [] => mret []
  | q :: qs' => r ← sserve q; rs ← sserve_all qs'; mret (r :: rs)
  end.

(** Unless a start drew the token of [id] again, the session [id] evolves as it
    may. *)
Definition not_restarted (id : string) (r : SessionResponse * option PlayerSession) : Prop :=
  ∀ x, r.2 = Some x → SessionId x ≠ id.

Lemma sserve_spec T q σ evs :
  sinv σ →
  mspec (D := D) T (sserve q) false σ evs (λ r σ' evs',
    sinv σ' ∧ evs `prefix_of` evs'
    ∧ ∀ id, not_restarted id r → ∀ x, sessions σ !! id = Some x →
        ∃ x', sessions σ' !! id = Some x' ∧ session_evolves x x').
Proof.
  intros Hinv. pose proof Hinv as [Hd Hids].
  assert (∀ (m : gmap string PlayerSession) id x x' j y,
    m !! id = Some x → session_evolves x x' → m !! j = Some y →
    ∃ y', <[id := x']> m !! j = Some y' ∧ session_evolves y y') as Hupd.
  { intros m id x x' j y Hx He Hy. destruct (decide (j = id)) as [->|Hne].
    - exists x'. rewrite lookup_insert_eq. split; [done|]. congruence.
    - exists y. by rewrite lookup_insert_ne. }
  assert (∀ (m : gmap string PlayerSession) j y, m !! j = Some y →
    ∃ y', m !! j = Some y' ∧ session_evolves y y') as Hsame by (intros m j y Hy; by exists y).
  destruct q as [ctx [req|]|ctx [req|]|ctx [req|]]; simpl; mstep.
  - eapply mspec_mono; [by apply StartSession_spec|]. intros r σ' evs' [Hpre Hr]. mstep.
    destruct Hr as [(-> & _ & _)|(raw & t & _ & _ & _ & Hs & ->)];
      [split_and!; [done..|by auto]|].
    split; [|split; [done|]].
    + split; [done|]. simpl. intros j y. rewrite lookup_insert_Some.
      intros [[<- <-]|[_ Hy]]; [done|by apply Hids].
    + intros id Hnot y Hy. exists y. split; [|done]. simpl.
      rewrite lookup_insert_ne; [done|]. by apply (Hnot _ Hs).
  - unfold StartSession. apply sspec_reply. intros r _ _ _. mstep. split_and!; [done..|by auto].
  - eapply mspec_mono; [by apply EndSession_spec|]. intros r σ' evs' [Hpre Hr]. mstep.
    destruct Hr as [(-> & _ & _)|(x & t & Hx & _ & _ & _ & ->)];
      [split_and!; [done..|by auto]|].
    split; [|split; [done|]].
    + split; [done|]. simpl. intros j y. rewrite lookup_insert_Some.
      intros [[<- <-]|[_ Hy]]; [|by apply Hids].
      destruct (se_same _ _ (ended_evolves x (es_Reason req) t)) as [-> _]. by apply Hids.
    + intros id _ y Hy. eapply Hupd; [exact Hx|apply ended_evolves|done].
  - unfold EndSession. apply sspec_reply. intros r _ _ _. mstep. split_and!; [done..|by auto].
  - eapply mspec_mono; [by apply GetSession_spec|]. intros r σ' evs' [Hpre Hr]. mstep.
    destruct Hr as [(-> & _ & _)|(x & t & _ & Hx & _ & _ & _ & ->)];
      [split_and!; [done..|by auto]|].
    split; [|split; [done|]].
    + split; [done|]. simpl. intros j y. rewrite lookup_insert_Some.
      intros [[<- <-]|[_ Hy]]; [|by apply Hids].
      destruct (se_same _ _ (touch_evolves x t)) as [-> _]. by apply Hids.
    + intros id _ y Hy. eapply Hupd; [exact Hx|apply touch_evolves|done].
  - unfold GetSession. apply sspec_reply. intros r _ _ _. mstep. split_and!; [done..|by auto].
Qed.

Lemma sserve_all_spec T qs σ evs :
  sinv σ →
  mspec (D := D) T (sserve_all qs) false σ evs (λ rs σ' evs',
    sinv σ' ∧ length rs = length qs
    ∧ ∀ id, Forall (not_restarted id) rs → ∀ x, sessions σ !! id = Some x →
        ∃ x', sessions σ' !! id = Some x' ∧ session_evolves x x').
Proof.
  revert σ evs. induction qs as [|q qs IH]; intros σ evs Hinv; simpl.
  { mstep. split_and!; [done..|]. intros id _ x Hx. by exists x. }
  mstep. eapply mspec_mono; [by apply sserve_spec|]. intros r σ1 evs1 (Hinv1 & _ & Hr).
  mstep. eapply mspec_mono; [by apply IH|]. intros rs σ2 evs2 (Hinv2 & Hlen & Hrs).
  mstep. split; [done|]. split; [by simpl; rewrite Hlen|].
  intros id Hnot x Hx. apply Forall_cons in Hnot as [Hn1 Hn2].
  destruct (Hr id Hn1 x Hx) as (x1 & Hx1 & He1).
  destruct (Hrs id Hn2 x1 Hx1) as (x2 & Hx2 & He2). exists x2. split; [done|by etrans].
Qed.

(** Over any further requests a session keeps its player, device, start and
    expiry time, and once it is no longer active nothing changes it, unless
    StartSession draws its 256-bit token a second time. *)
Theorem session_final_is_final s qs rs s' id x :
  in_memory s → sinv (st s) → sserve_all qs s = Done rs s' →
  Forall (not_restarted id) rs → sessions (st s) !! id = Some x →
  ∃ x', sessions (st s') !! id = Some x' ∧ session_evolves x x'.
Proof.
  intros Hm Hinv E Hnot Hx.
  destruct (mspec_run (λ _, True) _ _ _ _ _ E Hm (λ _, I) (sserve_all_spec _ _ _ _ Hinv))
    as (_ & _ & _ & _ & Hle). by apply (Hle id Hnot).
Qed.

(** A started session is active, bound to the requested player and device,
    and expires after at most 24 hours, and later than it started. *)
Theorem start_session_bounded s ctx req r s' :
  in_memory s → sinv (st s) → StartSession ctx (Some req) s = Done r s' →
  ResCode (sr_Meta r) = RESULT_CODE_OK →
  ∃ x t d, sr_Session r = Some x ∧ sessions (st s') !! SessionId x = Some x
    ∧ State x = SESSION_STATE_ACTIVE ∧ SessPlayerId x = ss_PlayerId req
    ∧ DeviceId x = ss_DeviceId req ∧ StartedAt x = FormatRFC3339Nano t
    ∧ ExpiresAt x = FormatRFC3339Nano (t + d) ∧ 0 < d ≤ 24 * Hour.
Proof.
  intros Hm Hinv E Hok.
  destruct (mspec_run (λ _, True) _ _ _ _ _ E Hm (λ _, I) (StartSession_spec _ _ _ _ _ Hinv))
    as (_ & _ & _ & [(_ & _ & ?)|(raw & t & _ & _ & _ & Hs & Hst)]); [done|].
  cbv zeta in Hs. eexists _, t, (timeoutForRequest (defaultTimeout (st s)) req).
  split; [exact Hs|]. rewrite Hst. simpl. rewrite lookup_insert_eq.
  split_and!; try done; apply timeout_bounds.
Qed.

(** The reading of the clock GetSession takes first decides. *)
Lemma get_session_reads s ctx req x :
  in_memory s → sinv (st s) → gs_SessionId req ≠ "" →
  sessions (st s) !! gs_SessionId req = Some x → (authorizeAccess ctx (gs_Meta req) x).1 = true →
  let x' := touch x (reading s (ticks (base s))) in
  ∃ r s', GetSession ctx (Some req) s = Done r s' ∧ ResCode (sr_Meta r) = RESULT_CODE_OK
    ∧ sr_Session r = Some x' ∧ st s' = (st s) <| sessions ::= insert (gs_SessionId req) x' |>.
Proof.
  intros Hm [Hd Hids] Hid Hx Hau x'. apply wp_done. unfold GetSession; cbv zeta.
  rewrite decide_False by done. pose proof (in_memory_mem_state (λ _, True) s Hm (λ _, I)) as Hs.
  unfold locked. apply post_bind. eapply post_done; [unfold lock; by rewrite (im_mu _ Hm)|].
  apply post_bind, post_on_panic, post_bind.
  eapply post_done.
  { unfold loadSession, dbEnabled, get_st, gets, mbind, M_bind. simpl. rewrite (im_db _ Hm). simpl.
    rewrite Hd. simpl. by rewrite Hx. }
  cbv beta iota. destruct (authorizeAccess ctx (gs_Meta req) x) as [ok why]. simpl in Hau. subst ok.
  cbn [negb]. apply post_bind. unfold touchAndExpireSessionIfNeeded. apply post_bind.
  eapply post_done; [apply now_eq|]. cbv zeta.
  match goal with |- context [touch x ?t] => change (touch x t) with x' end.
  eapply post_mono.
  { apply (sspec_touched (λ _, True) x (gs_SessionId req) (reading s (ticks (base s))) true (st s)
      (audit_events s)
      (λ a σ evs, a = Ok x' ∧ σ = (st s) <| sessions ::= insert (gs_SessionId req) x' |>));
      [done|done|by apply Hids|done|]. destruct Hs. by split. }
  intros a s2 (σ2 & evs2 & Hs2 & -> & ->). cbv beta iota.
  eapply post_mono.
  { assert (mspec (D := D) (λ _, True) (
      e ← sessions_appendAudit (gs_Meta req) (gs_SessionId req) "get_session" "{}"
            (playerSessionSnapshot (Some x')) ResultSuccess "";
      match e with
      | Some _ => session_reply (gs_Meta req) RESULT_CODE_ERROR "audit unavailable"
      | None => m ← responseMeta (gs_Meta req) RESULT_CODE_OK ""; mret (mkSessionResponse m (Some x'))
      end) true ((st s) <| sessions ::= insert (gs_SessionId req) x' |>) evs2
      (λ r σ _, ResCode (sr_Meta r) = RESULT_CODE_OK ∧ sr_Session r = Some x'
        ∧ σ = (st s) <| sessions ::= insert (gs_SessionId req) x' |>)) as Hrest.
    { mstep. apply sspec_appendAudit. intros e _. by msteps. }
    apply Hrest, Hs2. }
  intros r s3 (σ3 & evs3 & [_ _ Hst3 _ _] & Hok & Hr & Hσ3).
  apply post_bind, post_modify, post_ret. simpl. by rewrite Hst3, Hσ3.
Qed.

(** C33: in memory GetSession expires an active session exactly when the clock
    has passed its expiry time.  Let [t] be the reading of the clock the call
    takes.  At or before the expiry time the session stays as it was but for its
    last-seen time, which becomes [t]; after it the session is expired, ended at
    [t] with a reason, and otherwise as it was.  The answer is OK and shows the
    session so, and that is what is stored; no other session changes. *)
Theorem get_session_expires_exactly s ctx req x e :
  in_memory s → sinv (st s) → gs_SessionId req ≠ "" →
  sessions (st s) !! gs_SessionId req = Some x → State x = SESSION_STATE_ACTIVE →
  (authorizeAccess ctx (gs_Meta req) x).1 = true →
  ExpiresAt x = FormatRFC3339Nano e → 0 ≤ time_year e < 10000 →
  let t := reading s (ticks (base s)) in
  let x' := if decide (t ≤ e) then x <| LastSeenAt := FormatRFC3339Nano t |> else expired_at x t in
  ∃ r s', GetSession ctx (Some req) s = Done r s' ∧ ResCode (sr_Meta r) = RESULT_CODE_OK
    ∧ sr_Session r = Some x' ∧ st s' = (st s) <| sessions ::= insert (gs_SessionId req) x' |>.
Proof.
  intros Hm Hinv Hid Hx Hact Hau He Hyear t x'.
  assert (ParseRFC3339Nano (ExpiresAt x) = Some e) as Hparse
    by (rewrite He; by apply ParseRFC3339Nano_Format).
  assert (touch x t = x') as <-.
  { unfold x'. case_decide; [by apply (touch_in_time x t e)|apply (touch_late x t e); [done..|lia]]. }
  by apply get_session_reads.
Qed.

(** A player can neither read nor end somebody else's session: the request
    is denied without the session in the response, and nothing changes. *)
Theorem session_player_isolation s ctx p x :
  in_memory s → sinv (st s) → SessPlayerId x ≠ p →
  (∀ req r s', es_SessionId req ≠ "" → sessions (st s) !! es_SessionId req = Some x →
     resolveActor ctx (es_Meta req) = inl (mkActor p ACTOR_TYPE_PLAYER) →
     EndSession ctx (Some req) s = Done r s' →
     ResCode (sr_Meta r) = RESULT_CODE_DENIED ∧ sr_Session r = None ∧ st s' = st s)
  ∧ (∀ req r s', gs_SessionId req ≠ "" → sessions (st s) !! gs_SessionId req = Some x →
     resolveActor ctx (gs_Meta req) = inl (mkActor p ACTOR_TYPE_PLAYER) →
     GetSession ctx (Some req) s = Done r s' →
     ResCode (sr_Meta r) = RESULT_CODE_DENIED ∧ sr_Session r = None ∧ st s' = st s).
Proof.
  intros Hm Hinv Hne.
  assert (∀ meta, resolveActor ctx meta = inl (mkActor p ACTOR_TYPE_PLAYER) →
    (authorizeAccess ctx meta x).1 = false) as Hau.
  { intros meta E. unfold authorizeAccess. rewrite E. simpl. by rewrite decide_True. }
  split; intros req r s' Hid Hx Hact E.
  - destruct (mspec_run (λ _, True) _ _ _ _ _ E Hm (λ _, I) (EndSession_spec _ _ _ _ _ Hinv))
      as (_ & _ & _ & [(Hst & Hs & Hun)|(y & t & Hy & Hok & _)]).
    + destruct Hun as [[[?|?] _]|(y & ? & ? & ?)]; [congruence..|done].
    + rewrite Hx in Hy. injection Hy as <-. by rewrite Hau in Hok.
  - destruct (mspec_run (λ _, True) _ _ _ _ _ E Hm (λ _, I) (GetSession_spec _ _ _ _ _ Hinv))
      as (_ & _ & _ & [(Hst & Hs & Hun)|(y & t & _ & Hy & Hok & _)]).
    + destruct Hun as [[[?|?] _]|(y & ? & ? & ?)]; [congruence..|done].
    + rewrite Hx in Hy. injection Hy as <-. by rewrite Hau in Hok.
Qed.
End mem.

(** ** Concrete instances *)

Import Concrete.

#[export] Instance env_sessions_db : SessionsDB () := {|
  x_session_upsert _ _ _ _ _ _ _ _ _ d := (Ok (), d); q_session _ d := (Ok None, d) |}.

(** A session of alice's that expires at [ex_expiry], on a service whose clock
    stands at [t]. *)
Definition ex_start : Time := 1704067200 * Second.
Definition ex_expiry : Time := ex_start + Hour.
Definition ex_session : PlayerSession :=
  mkSession "sess-1" "alice" "dev-1" SESSION_STATE_ACTIVE (FormatRFC3339Nano ex_start)
    (FormatRFC3339Nano ex_start) "" (FormatRFC3339Nano ex_expiry) "".
Definition ex_sessions (t : Time) : Svc () SessionsState :=
  mkSvc (base (NewSessionsService (D := ()) (Some (λ _, t)) None))
    (mkSessions {[ "sess-1" := ex_session ]} Hour false).
Definition ex_get : GetSessionRequest := mkGetSessionRequest (operator_meta "") "sess-1".

Lemma ex_sessions_ok t : in_memory (ex_sessions t) ∧ sinv (st (ex_sessions t)).
Proof.
  split; [apply NewService_in_memory|]. split; [done|]. simpl. intros id x.
  rewrite lookup_singleton_Some. by intros [<- <-].
Qed.

Lemma not_restarted_None id (rs : list (SessionResponse * option PlayerSession)) :
  (snd <$> rs) = [None] → Forall (not_restarted id) rs.
Proof.
  destruct rs as [|[r o] [|? ?]]; [done| |done]. intros [= ->].
  by repeat constructor.
Qed.

Lemma session_final_is_final_witness :
  match sserve_all [SGet None (Some ex_get)] (ex_sessions ex_expiry) with
  | Done rs s' => ∃ x', sessions (st s') !! "sess-1" = Some x' ∧ session_evolves ex_session x'
  | _ => False
  end.
Proof.
  assert (match sserve_all [SGet None (Some ex_get)] (ex_sessions ex_expiry) with
    | Done rs _ => (snd <$> rs) = [None] | _ => False end) as Hr by (vm_compute; reflexivity).
  destruct (sserve_all _ _) as [rs s'| |] eqn:E; [|exact Hr..].
  exact (session_final_is_final (ex_sessions ex_expiry) [SGet None (Some ex_get)] rs s'
    "sess-1" ex_session (proj1 (ex_sessions_ok _)) (proj2 (ex_sessions_ok _)) E
    (not_restarted_None _ _ Hr) eq_refl).
Defined.

Lemma start_session_bounded_witness :
  match StartSession None (Some (mkStartSessionRequest (operator_meta "") "bob" "dev-2" 60))
          (ex_sessions ex_start) with
  | Done r s' => ∃ x t d, sr_Session r = Some x ∧ sessions (st s') !! SessionId x = Some x
      ∧ State x = SESSION_STATE_ACTIVE ∧ SessPlayerId x = "bob" ∧ DeviceId x = "dev-2"
      ∧ StartedAt x = FormatRFC3339Nano t ∧ ExpiresAt x = FormatRFC3339Nano (t + d)
      ∧ 0 < d ≤ 24 * Hour
  | _ => False
  end.
Proof.
  assert (match StartSession None (Some (mkStartSessionRequest (operator_meta "") "bob" "dev-2" 60))
    (ex_sessions ex_start) with
    | Done r _ => ResCode (sr_Meta r) = RESULT_CODE_OK | _ => False end) as Hr
    by (vm_compute; reflexivity).
  destruct (StartSession _ _ _) as [r s'| |] eqn:E; [|exact Hr..].
  exact (start_session_bounded _ _ _ _ _ (proj1 (ex_sessions_ok _)) (proj2 (ex_sessions_ok _)) E Hr).
Defined.

(** A session started by StartSession on a new service whose clock moves 25
    minutes with every reading: the session lasts half an hour, and the reading
    the next GetSession takes is past its end. *)
Definition ex_clock (n : nat) : Time := ex_start + Z.of_nat n * (25 * 60 * Second).
Definition ex_start_session : StartSessionRequest :=
  mkStartSessionRequest (operator_meta "") "bob" "dev-2" 1800.
Definition ex_started : Svc () SessionsState :=
  match sserve_all [SStart None (Some ex_start_session)] (NewSessionsService (Some ex_clock) None) with
  | Done _ s => s
  | _ => NewSessionsService None None
  end.
Definition ex_started_id : string :=
  match map_to_list (sessions (st ex_started)) with (id, _) :: _ => id | [] => "" end.
Definition ex_due : Time := ex_clock 1 + 1800 * Second.
Definition ex_get_started : GetSessionRequest := mkGetSessionRequest (operator_meta "") ex_started_id.

Lemma ex_started_ok : in_memory ex_started ∧ sinv (st ex_started).
Proof.
  assert (sinv (st (NewSessionsService (D := ()) (Some ex_clock) None))) as Hi
    by (split; [done|]; intros id x; simpl; by rewrite lookup_empty).
  destruct (mspec_call (D := ()) (λ _, True) (sserve_all [SStart None (Some ex_start_session)])
    (NewSessionsService (Some ex_clock) None) _ (NewService_in_memory _ _) (λ _, I)
    (sserve_all_spec _ _ _ _ Hi)) as (r & s & E & Hm & _ & Hs & _).
  unfold ex_started. rewrite E. by split.
Qed.

Lemma get_session_expires_exactly_witness :
  ∃ x r s', sessions (st ex_started) !! ex_started_id = Some x ∧ State x = SESSION_STATE_ACTIVE
    ∧ GetSession None (Some ex_get_started) ex_started = Done r s'
    ∧ sr_Session r = Some (expired_at x (reading ex_started (ticks (base ex_started))))
    ∧ sessions (st s') !! ex_started_id
      = Some (expired_at x (reading ex_started (ticks (base ex_started)))).
Proof.
  assert (match sessions (st ex_started) !! ex_started_id with
    | Some x => State x = SESSION_STATE_ACTIVE ∧ ExpiresAt x = FormatRFC3339Nano ex_due
    | None => False end) as Hr by (vm_compute; split; reflexivity).
  destruct (sessions (st ex_started) !! ex_started_id) as [x|] eqn:Hx; [|exact (False_ind _ Hr)].
  destruct Hr as [Hst He].
  destruct (get_session_expires_exactly ex_started None ex_get_started x ex_due
    (proj1 ex_started_ok) (proj2 ex_started_ok)) as (r & s' & E & _ & Hs & Hs');
    [vm_compute; discriminate|exact Hx|exact Hst|vm_compute; reflexivity|exact He
    |split; [vm_compute; discriminate|vm_compute; reflexivity]|].
  rewrite (decide_False (P := reading ex_started (ticks (base ex_started)) ≤ ex_due)) in Hs, Hs'
    by (vm_compute; intros Hle; exact (Hle eq_refl)).
  exists x, r, s'. split; [reflexivity|]. split; [exact Hst|]. split; [exact E|]. split; [exact Hs|].
  rewrite Hs'. apply lookup_insert_eq.
Defined.

Definition ex_mallory : GetSessionRequest :=
  mkGetSessionRequest (Some (mkRequestMeta "r" "" (Some (mkActor "mallory" ACTOR_TYPE_PLAYER))))
    "sess-1".

Lemma session_player_isolation_witness :
  match GetSession None (Some ex_mallory) (ex_sessions ex_start) with
  | Done r s' => ResCode (sr_Meta r) = RESULT_CODE_DENIED ∧ sr_Session r = None
      ∧ st s' = st (ex_sessions ex_start)
  | _ => False
  end.
Proof.
  destruct (session_player_isolation (ex_sessions ex_start) None "mallory" ex_session)
    as [_ Hget]; [apply ex_sessions_ok|apply ex_sessions_ok|done|].
  assert (match GetSession None (Some ex_mallory) (ex_sessions ex_start) with
    | Done _ _ => True | _ => False end) as Hr by (vm_compute; exact I).
  specialize (Hget ex_mallory).
  destruct (GetSession _ _ _) as [r s'| |]; [|exact Hr..].
  apply (Hget r s'); [discriminate|reflexivity..].
Defined.
