(* ===== verification/Registry.v ===== *)
(** * The equipment registry
    (internal/platform/server/registry_grpc.go and registry_postgres.go)

    Equipment records by id, written whole by UpsertEquipment.  The service
    keeps them in its map, or, if it has a database, only there. *)

From S2P Require Import Prelude GoTime GoJson AuditTrail Service Listing.

(** ** Messages (api/proto/rgs/v1/registry.proto) *)

Inductive EquipmentStatus :=
| EQUIPMENT_STATUS_UNSPECIFIED | EQUIPMENT_STATUS_ACTIVE | EQUIPMENT_STATUS_INACTIVE
| EQUIPMENT_STATUS_MAINTENANCE | EQUIPMENT_STATUS_DISABLED | EQUIPMENT_STATUS_RETIRED
| EQUIPMENT_STATUS_OTHER (n : Z).

#[global] Instance EquipmentStatus_eq_dec : EqDecision EquipmentStatus.
Proof. solve_decision. Defined.

Record Equipment := mkEquipment {
  EquipmentId : string; ExternalReference : string; Location : string;
  EqStatus : EquipmentStatus; TheoreticalRtpBps : string; ControlProgramVersion : string;
  ConfigVersion : string; EqCreatedAt : string; EqUpdatedAt : string;
  Attributes : gmap string string }.

#[global] Instance eta_Equipment : Eta Equipment := λ x,
  mkEquipment (EquipmentId x) (ExternalReference x) (Location x) (EqStatus x)
    (TheoreticalRtpBps x) (ControlProgramVersion x) (ConfigVersion x) (EqCreatedAt x)
    (EqUpdatedAt x) (Attributes x).

Record UpsertEquipmentRequest := mkUpsertEquipmentRequest {
  ue_Meta : option RequestMeta; ue_Equipment : option Equipment; ue_Reason : string }.
Record GetEquipmentRequest := mkGetEquipmentRequest {
  ge_Meta : option RequestMeta; ge_EquipmentId : string }.
Record ListEquipmentRequest := mkListEquipmentRequest {
  le_Meta : option RequestMeta; le_PageSize : Z; le_PageToken : string;
  le_StatusFilter : EquipmentStatus }.

(** The responses of UpsertEquipment and GetEquipment. *)
Record EquipmentResponse := mkEquipmentResponse {
  eqr_Meta : ResponseMeta; eqr_Equipment : option Equipment }.
Record ListEquipmentResponse := mkListEquipmentResponse {
  ler_Meta : ResponseMeta; ler_Equipment : list Equipment; ler_NextPageToken : string }.

(** ** State *)

Record RegistryState := mkRegistry {
  equipment : gmap string Equipment;
  reg_disableInMemoryCache : bool }.

#[global] Instance eta_RegistryState : Eta RegistryState := λ s,
  mkRegistry (equipment s) (reg_disableInMemoryCache s).

Definition NewRegistryService {D} (clk : option (nat → Time)) (handle : option D)
    : Svc D RegistryState :=
  mkSvc (mkBase clk (Some NewInMemoryStore) false 0 handle 0) (mkRegistry ∅ false).

(** ** The database interface *)

Record equipment_row := mkEquipmentRow {
  er_equipment_id : string; er_external_reference : string; er_location : string;
  er_status : string; er_theoretical_rtp_bps : option Z; er_control_program_version : string;
  er_config_version : string; er_attributes : string; er_created_at : Time;
  er_updated_at : Time }.

Class RegistryDB (D : Type) := {
  (** INSERT INTO equipment_registry ... ON CONFLICT DO UPDATE: the ten
      parameters in order *)
  x_equipment_upsert : string → string → string → string → option Z → string → string →
    string → string → string → D → res () * D;
  (** SELECT ... WHERE equipment_id = $1 *)
  q_equipment : string → D → res (option equipment_row) * D;
  (** SELECT ... WHERE ($1 = '' OR status = $1) ... LIMIT $2 OFFSET $3 *)
  q_equipment_list : string → Z → Z → D → res (list equipment_row) * D;
}.

(** The map [json.Unmarshal] leaves in an empty [map[string]string]; the
    caller ignores its error. *)
Class JsonDecodeMap := json_decode_map : string → gmap string string.

(** ** Pure helpers *)

Definition EquipmentStatus_number (v : EquipmentStatus) : Z :=
  match v with
  | EQUIPMENT_STATUS_UNSPECIFIED => 0 | EQUIPMENT_STATUS_ACTIVE => 1
  | EQUIPMENT_STATUS_INACTIVE => 2 | EQUIPMENT_STATUS_MAINTENANCE => 3
  | EQUIPMENT_STATUS_DISABLED => 4 | EQUIPMENT_STATUS_RETIRED => 5
  | EQUIPMENT_STATUS_OTHER n => n
  end.

(** [None] is nil. *)
Definition equipmentSnapshot (eq : option Equipment) : string :=
  match eq with
  | None => "{}"
  | Some x =>
      json_object (omit_string "equipment_id" (EquipmentId x)
        ++ omit_string "external_reference" (ExternalReference x)
        ++ omit_string "location" (Location x)
        ++ omit_int "status" (EquipmentStatus_number (EqStatus x))
        ++ omit_string "theoretical_rtp_bps" (TheoreticalRtpBps x)
        ++ omit_string "control_program_version" (ControlProgramVersion x)
        ++ omit_string "config_version" (ConfigVersion x)
        ++ omit_string "created_at" (EqCreatedAt x) ++ omit_string "updated_at" (EqUpdatedAt x)
        ++ omit_map "attributes" (Attributes x))
  end.

Definition registry_authorize : option Context → option RequestMeta → bool * string :=
  operators_only.

Definition equipmentStatusToDB (v : EquipmentStatus) : string :=
  match v with
  | EQUIPMENT_STATUS_ACTIVE => "active"
  | EQUIPMENT_STATUS_INACTIVE => "inactive"
  | EQUIPMENT_STATUS_MAINTENANCE => "maintenance"
  | EQUIPMENT_STATUS_DISABLED => "disabled"
  | EQUIPMENT_STATUS_RETIRED => "retired"
  | _ => "active"
  end.

Definition equipmentStatusFromDB (v : string) : EquipmentStatus :=
  let v := ToLower v in
  if decide (v = "active") then EQUIPMENT_STATUS_ACTIVE
  else if decide (v = "inactive") then EQUIPMENT_STATUS_INACTIVE
  else if decide (v = "maintenance") then EQUIPMENT_STATUS_MAINTENANCE
  else if decide (v = "disabled") then EQUIPMENT_STATUS_DISABLED
  else if decide (v = "retired") then EQUIPMENT_STATUS_RETIRED
  else EQUIPMENT_STATUS_UNSPECIFIED.

(** [strconv.ParseInt(raw, 10, 32)] of the trimmed text. *)
Definition parseOptionalRTP (v : string) : option Z :=
  let raw := TrimSpace v in
  if decide (raw = "") then None
  else p ← Atoi raw; if (- 2 ^ 31 <=? p) && (p <? 2 ^ 31) then Some p else None.

(** The record a row is read into. *)
Definition equipment_of_row `{!JsonDecodeMap} (r : equipment_row) : Equipment :=
  mkEquipment (er_equipment_id r) (er_external_reference r) (er_location r)
    (equipmentStatusFromDB (er_status r))
    (match er_theoretical_rtp_bps r with Some n => FormatInt n | None => "" end)
    (er_control_program_version r) (er_config_version r)
    (FormatRFC3339Nano (er_created_at r)) (FormatRFC3339Nano (er_updated_at r))
    (if decide (er_attributes r = "") then ∅ else json_decode_map (er_attributes r)).

(** The record UpsertEquipment stores at time [now]. *)
Definition upsert_record (existing : option Equipment) (eq : Equipment) (now : string)
    : Equipment :=
  let upsert :=
    if decide (EqCreatedAt eq = "") then
      match existing with
      | Some x => if decide (EqCreatedAt x ≠ "") then eq <| EqCreatedAt := EqCreatedAt x |>
                  else eq <| EqCreatedAt := now |>
      | None => eq <| EqCreatedAt := now |>
      end
    else eq in
  upsert <| EqUpdatedAt := now |>.

(** The loop of ListEquipment over the sorted ids. *)
Definition filter_equipment (filter : EquipmentStatus) (items : list Equipment) : list Equipment :=
  List.filter (λ eq, negb (bool_decide (filter ≠ EQUIPMENT_STATUS_UNSPECIFIED
    ∧ EqStatus eq ≠ filter))) items.

Section registry.
Context {D : Type} `{!Wall, !Crypto, !JsonValid, !JsonDecodeMap, !AuditDB D, !RegistryDB D}.

Abbreviation RM := (M (Svc D RegistryState)).

Definition registry_SetDisableInMemoryCache (disable : bool) : RM () :=
  locked (mod_st (λ s, s <| reg_disableInMemoryCache := disable |>)).

Definition registry_appendAudit (meta : option RequestMeta)
    (objectID action before after : string) (result : Result) (reason : string)
    : RM (option error) :=
  appendAudit "registry-audit-" meta "equipment" objectID action before after result reason.

(** ** registry_postgres.go *)

Definition nonEmptyTimestamp (v : string) : RM string :=
  if decide (TrimSpace v = "") then t ← time_Now; mret (FormatRFC3339Nano t) else mret v.

(** [json.Marshal] of an empty map that the request left out is [null]. *)
Definition upsertEquipmentInDB (eq : Equipment) : RM (option error) :=
  with_tx (
    let attrs := if decide (Attributes eq = ∅) then "null" else json_map (Attributes eq) in
    created ← nonEmptyTimestamp (EqCreatedAt eq);
    updated ← nonEmptyTimestamp (EqUpdatedAt eq);
    exec_db (x_equipment_upsert (EquipmentId eq) (ExternalReference eq) (Location eq)
      (equipmentStatusToDB (EqStatus eq)) (parseOptionalRTP (TheoreticalRtpBps eq))
      (ControlProgramVersion eq) (ConfigVersion eq) attrs created updated)).

Definition getEquipmentFromDB (equipmentID : string) : RM (res (option Equipment)) :=
  r ← run_db (q_equipment equipmentID);
  mret (match r with Err e => Err e | Ok row => Ok (equipment_of_row <$> row) end).

Definition listEquipmentFromDB (filter : EquipmentStatus) (limit offset : Z)
    : RM (res (list Equipment)) :=
  let status := if decide (filter = EQUIPMENT_STATUS_UNSPECIFIED) then ""
                else equipmentStatusToDB filter in
  r ← run_db (q_equipment_list status limit offset);
  mret (match r with Err e => Err e | Ok rows => Ok (equipment_of_row <$> rows) end).

(** ** registry_grpc.go *)

Definition equipment_reply meta code reason : RM EquipmentResponse :=
  m ← responseMeta meta code reason; mret (mkEquipmentResponse m None).

Definition UpsertEquipment (ctx : option Context) (req : option UpsertEquipmentRequest)
    : RM EquipmentResponse :=
  let invalid := equipment_reply None RESULT_CODE_INVALID "equipment.equipment_id is required" in
  match req with
  | None | Some (mkUpsertEquipmentRequest _ None _) => invalid
  | Some (mkUpsertEquipmentRequest meta (Some eq) reqReason) =>
  let id := EquipmentId eq in
  if decide (id = "") then invalid else
  let '(ok, reason) := registry_authorize ctx meta in
  if negb ok then
    registry_appendAudit meta id "upsert_equipment" "{}" "{}" ResultDenied reason;;
    equipment_reply meta RESULT_CODE_DENIED reason
  else
  locked (
    cached ← get_st (λ s, equipment s !! id);
    enabled ← dbEnabled;
    loaded ← (if (enabled : bool) then getEquipmentFromDB id else mret (Ok cached));
    match loaded with
    | Err _ => equipment_reply meta RESULT_CODE_ERROR "persistence unavailable"
    | Ok existing =>
    let before := equipmentSnapshot existing in
    t ← now;
    let upsert := upsert_record existing eq (FormatRFC3339Nano t) in
    e ← registry_appendAudit meta (EquipmentId upsert) "upsert_equipment" before
          (equipmentSnapshot (Some upsert)) ResultSuccess reqReason;
    match e with
    | Some _ => equipment_reply meta RESULT_CODE_ERROR "audit unavailable"
    | None =>
    e ← (if (enabled : bool) then upsertEquipmentInDB upsert
         else
           disabled ← get_st reg_disableInMemoryCache;
           (if (disabled : bool) then mret ()
            else mod_st (λ s, s <| equipment ::= insert (EquipmentId upsert) upsert |>));;
           mret None);
    match e with
    | Some _ => equipment_reply meta RESULT_CODE_ERROR "persistence unavailable"
    | None =>
    m ← responseMeta meta RESULT_CODE_OK ""; mret (mkEquipmentResponse m (Some upsert))
    end end end)
  end.

Definition GetEquipment (ctx : option Context) (req : option GetEquipmentRequest)
    : RM EquipmentResponse :=
  match req with
  | None => equipment_reply None RESULT_CODE_INVALID "equipment_id is required"
  | Some req =>
  let meta := ge_Meta req in
  let id := ge_EquipmentId req in
  if decide (id = "") then equipment_reply None RESULT_CODE_INVALID "equipment_id is required" else
  let '(ok, reason) := registry_authorize ctx meta in
  if negb ok then
    registry_appendAudit meta id "get_equipment" "{}" "{}" ResultDenied reason;;
    equipment_reply meta RESULT_CODE_DENIED reason
  else
  let found eq := m ← responseMeta meta RESULT_CODE_OK ""; mret (mkEquipmentResponse m (Some eq)) in
  let not_found := equipment_reply meta RESULT_CODE_INVALID "equipment not found" in
  enabled ← dbEnabled;
  if (enabled : bool) then
    r ← getEquipmentFromDB id;
    match r with
    | Err _ => equipment_reply meta RESULT_CODE_ERROR "persistence unavailable"
    | Ok None => not_found
    | Ok (Some eq) => found eq
    end
  else
  disabled ← get_st reg_disableInMemoryCache;
  if (disabled : bool) then not_found
  else locked (
    eq ← get_st (λ s, equipment s !! id);
    match eq with None => not_found | Some eq => found eq end)
  end.

Definition equipment_list_reply meta code reason : RM ListEquipmentResponse :=
  m ← responseMeta meta code reason; mret (mkListEquipmentResponse m [] "").

Definition ListEquipment (ctx : option Context) (req : option ListEquipmentRequest)
    : RM ListEquipmentResponse :=
  let req := default (mkListEquipmentRequest None 0 "" EQUIPMENT_STATUS_UNSPECIFIED) req in
  let meta := le_Meta req in
  let '(ok, reason) := registry_authorize ctx meta in
  if negb ok then
    registry_appendAudit meta "" "list_equipment" "{}" "{}" ResultDenied reason;;
    equipment_list_reply meta RESULT_CODE_DENIED reason
  else
  let start := pageStart (le_PageToken req) in
  let pageSize := pageSizeOr 50 (le_PageSize req) in
  enabled ← dbEnabled;
  if (enabled : bool) then
    r ← listEquipmentFromDB (le_StatusFilter req) pageSize start;
    match r with
    | Err _ => equipment_list_reply meta RESULT_CODE_ERROR "persistence unavailable"
    | Ok items =>
        m ← responseMeta meta RESULT_CODE_OK "";
        mret (mkListEquipmentResponse m items (nextFromDB start pageSize (length items)))
    end
  else
  disabled ← get_st reg_disableInMemoryCache;
  if (disabled : bool) then equipment_list_reply meta RESULT_CODE_OK ""
  else locked (
    m ← get_st equipment;
    let filtered := filter_equipment (le_StatusFilter req) (sorted_values m) in
    p ← page filtered start pageSize;
    m ← responseMeta meta RESULT_CODE_OK "";
    mret (mkListEquipmentResponse m p.1 p.2)).
End registry.
