(* ===== verification/RegistryProofs.v ===== *)
(** * Theorems about the equipment registry

    Without a database: a read returns the last record that was acknowledged
    for its id, the first creation time stays, and walking along the pages of
    the listing ends with every record, each once, in the order of the ids. *)

From S2P Require Import Prelude GoTime GoJson AuditTrail Service Listing Ledger Env Registry.
From Stdlib Require Import Sorting.Sorted.

(** ** What an upsert keeps *)

(** The record written for a request: the request's, but for the two times. *)
Record written_for (existing : option Equipment) (eq x : Equipment) : Prop := {
  wf_fields : x = eq <| EqCreatedAt := EqCreatedAt x |> <| EqUpdatedAt := EqUpdatedAt x |>;
  wf_given : EqCreatedAt eq ≠ "" → EqCreatedAt x = EqCreatedAt eq;
  wf_kept y : EqCreatedAt eq = "" → existing = Some y → EqCreatedAt y ≠ "" →
    EqCreatedAt x = EqCreatedAt y }.

Lemma upsert_record_written existing eq now :
  written_for existing eq (upsert_record existing eq now).
Proof.
  unfold upsert_record. split.
  - destruct eq, existing as [[]|]; unfold modify_field; simpl; repeat case_decide; done.
  - intros Hne. by rewrite decide_False.
  - intros y He -> Hy. rewrite decide_True by done. by rewrite decide_True.
Qed.

Lemma upsert_record_id existing eq now :
  EquipmentId (upsert_record existing eq now) = EquipmentId eq.
Proof. by rewrite (wf_fields _ _ _ (upsert_record_written existing eq now)). Qed.

(** Records are stored under their ids, and the map is in use. *)
Definition reg_inv (σ : RegistryState) : Prop :=
  reg_disableInMemoryCache σ = false
  ∧ ∀ id x, equipment σ !! id = Some x → EquipmentId x = id.

Lemma reg_inv_new : reg_inv (mkRegistry ∅ false).
Proof. by split. Qed.

Inductive reg_req :=
| RUpsert (ctx : option Context) (req : option UpsertEquipmentRequest)
| RGet (ctx : option Context) (req : option GetEquipmentRequest)
| RList (ctx : option Context) (req : option ListEquipmentRequest).

(** Applies the acknowledged records in order. *)
Definition acknowledge (m : gmap string Equipment) (acked : list Equipment)
    : gmap string Equipment :=
  foldl (λ m x, <[EquipmentId x := x]> m) m acked.

(** The last acknowledged record of an id. *)
Definition last_acked (id : string) (acked : list Equipment) : option Equipment :=
  last (List.filter (λ x, bool_decide (EquipmentId x = id)) acked).

Lemma acknowledge_app m l l' : acknowledge m (l ++ l') = acknowledge (acknowledge m l) l'.
Proof. apply foldl_app. Qed.

Lemma acknowledge_lookup l id :
  acknowledge ∅ l !! id = last_acked id l.
Proof.
  unfold acknowledge, last_acked. induction l as [|x l IH] using rev_ind; [done|].
  rewrite foldl_app, List.filter_app. simpl. case_bool_decide as E.
  - by rewrite last_snoc, <- E, lookup_insert_eq.
  - by rewrite app_nil_r, lookup_insert_ne.
Qed.

Section mem.
Context {D : Type} `{!Wall, !Crypto, !JsonValid, !JsonDecodeMap, !AuditDB D, !RegistryDB D}.
Implicit Types (σ : RegistryState) (T : Time → Prop) (evs : list Event)
  (s : Svc D RegistryState) (ctx : option Context).

Lemma rspec_reply T meta c x h σ evs (Q : EquipmentResponse → RegistryState → list Event → Prop) :
  (∀ r, ResCode (eqr_Meta r) = c → eqr_Equipment r = None → Q r σ evs) →
  mspec (D := D) T (equipment_reply meta c x) h σ evs Q.
Proof. intros HQ. unfold equipment_reply. msteps. by apply HQ. Qed.

Lemma rspec_denied {A} T meta oid action reason (k : M (Svc D RegistryState) A) h σ evs Q :
  (∀ e, mspec T k h σ (evs ++ [e]) Q) →
  mspec (D := D) T (registry_appendAudit meta oid action "{}" "{}" ResultDenied reason;; k)
    h σ evs Q.
Proof. intros HQ. unfold registry_appendAudit. msteps. apply HQ. Qed.

(** UpsertEquipment refuses, or stores and returns one record. *)
Lemma UpsertEquipment_spec T ctx req σ evs :
  reg_inv σ →
  mspec (D := D) T (UpsertEquipment ctx req) false σ evs (λ r σ' evs',
    σ' = σ ∧ eqr_Equipment r = None ∧ ResCode (eqr_Meta r) ≠ RESULT_CODE_OK
    ∨ ∃ meta eq reason x e, req = Some (mkUpsertEquipmentRequest meta (Some eq) reason)
        ∧ (registry_authorize ctx meta).1 = true ∧ EquipmentId eq ≠ ""
        ∧ ResCode (eqr_Meta r) = RESULT_CODE_OK ∧ eqr_Equipment r = Some x
        ∧ EquipmentId x = EquipmentId eq
        ∧ written_for (equipment σ !! EquipmentId eq) eq x
        ∧ σ' = σ <| equipment ::= insert (EquipmentId x) x |>
        ∧ evs' = evs ++ [e]
        ∧ audit_record meta "equipment" (EquipmentId eq) "upsert_equipment"
            (equipmentSnapshot (equipment σ !! EquipmentId eq)) (equipmentSnapshot (Some x))
            ResultSuccess reason e).
Proof.
  intros [Hd Hids]. unfold UpsertEquipment; cbv zeta.
  destruct req as [[meta [eq|] reason]|];
    [|apply rspec_reply; intros r Hc Hn; left; split_and!; [done..|congruence]|
      apply rspec_reply; intros r Hc Hn; left; split_and!; [done..|congruence]].
  case_decide as Hid.
  { apply rspec_reply. intros r Hc Hn. left. split_and!; [done..|congruence]. }
  destruct (registry_authorize ctx meta) as [[|] why] eqn:Ha; simpl negb; cbv iota.
  2:{ apply rspec_denied. intros e. apply rspec_reply. intros r Hc Hn.
      left. split_and!; [done..|congruence]. }
  msteps. set (x := upsert_record _ _ _). unfold registry_appendAudit. msteps.
  rewrite Hd. msteps. right. exists meta, eq, reason, x, e.
  pose proof (upsert_record_id (equipment σ !! EquipmentId eq) eq (FormatRFC3339Nano t)) as Hx.
  fold x in Hx. rewrite Ha. split_and!; try done; [apply upsert_record_written|].
  by rewrite <- Hx at 1.
Qed.

Lemma GetEquipment_spec T ctx req σ evs :
  reg_inv σ →
  mspec (D := D) T (GetEquipment ctx req) false σ evs (λ r σ' evs',
    σ' = σ ∧ ∀ q, req = Some q → (registry_authorize ctx (ge_Meta q)).1 = true →
      ge_EquipmentId q ≠ "" →
      eqr_Equipment r = equipment σ !! ge_EquipmentId q
      ∧ ResCode (eqr_Meta r)
        = match equipment σ !! ge_EquipmentId q with
          | Some _ => RESULT_CODE_OK | None => RESULT_CODE_INVALID end).
Proof.
  intros [Hd Hids]. unfold GetEquipment; cbv zeta.
  destruct req as [req|]; [|apply rspec_reply; intros r _ _; by split].
  case_decide as Hid.
  { apply rspec_reply. intros r Hc Hn. split; [done|]. by intros q [= <-]. }
  destruct (registry_authorize ctx (ge_Meta req)) as [[|] why] eqn:Ha; simpl negb; cbv iota.
  2:{ apply rspec_denied. intros e. apply rspec_reply. intros r Hc Hn.
      split; [done|]. intros q [= <-]. by rewrite Ha. }
  msteps. rewrite Hd. msteps. destruct (equipment σ !! ge_EquipmentId req) as [x|] eqn:Hx.
  - msteps. split; [done|]. intros q [= <-] _ _. by rewrite Hx.
  - apply rspec_reply. intros r Hc Hn. split; [done|]. intros q [= <-] _ _. by rewrite Hx.
Qed.

Lemma ListEquipment_spec T ctx req σ evs :
  reg_inv σ →
  mspec (D := D) T (ListEquipment ctx req) false σ evs (λ r σ' evs',
    σ' = σ ∧ ∀ q, req = Some q → (registry_authorize ctx (le_Meta q)).1 = true →
      evs' = evs ∧ ResCode (ler_Meta r) = RESULT_CODE_OK
      ∧ (ler_Equipment r, ler_NextPageToken r)
        = page_at (filter_equipment (le_StatusFilter q) (sorted_values (equipment σ)))
            (pageStart (le_PageToken q)) (pageSizeOr 50 (le_PageSize q))).
Proof.
  intros [Hd Hids]. unfold ListEquipment; cbv zeta.
  set (q := default _ req).
  destruct (registry_authorize ctx (le_Meta q)) as [[|] why] eqn:Ha; simpl negb; cbv iota.
  2:{ apply rspec_denied. intros e. unfold equipment_list_reply. msteps. split; [done|].
      intros q' ->. change q with q' in Ha. by rewrite Ha. }
  msteps. rewrite Hd. msteps. pose proof (pageSizeOr_pos 50 (le_PageSize q)).
  apply mspec_page; [apply pageStart_nonneg|lia|]. msteps. split; [done|].
  intros q' ->. done.
Qed.

(** ** Runs *)

(** The record a response to an upsert acknowledges. *)
Definition reg_serve (q : reg_req) : M (Svc D RegistryState) (option Equipment) :=
  match q with
  | RUpsert ctx req => r ← UpsertEquipment ctx req; mret (eqr_Equipment r)
  | RGet ctx req => GetEquipment ctx req;; mret None
  | RList ctx req => ListEquipment ctx req;; mret None
  end.

Fixpoint reg_serve_all (qs : list reg_req) : M (Svc D RegistryState) (list Equipment) :=
  match qs with
  | [] => mret []
  | q :: qs => a ← reg_serve q; l ← reg_serve_all qs; mret (option_list a ++ l)
  end.

Lemma reg_inv_insert σ x :
  reg_inv σ → reg_inv (σ <| equipment ::= insert (EquipmentId x) x |>).
Proof.
  intros [Hd Hids]. split; [done|]. intros id y. simpl. rewrite lookup_insert_Some.
  intros [[<- <-]|[_ Hy]]; [done|by apply Hids].
Qed.

Lemma reg_serve_spec T q σ evs :
  reg_inv σ →
  mspec (D := D) T (reg_serve q) false σ evs (λ a σ' _,
    reg_inv σ' ∧ equipment σ' = acknowledge (equipment σ) (option_list a)).
Proof.
  intros Hinv. destruct q as [ctx req|ctx req|ctx req]; simpl; mstep.
  - eapply mspec_mono; [by apply UpsertEquipment_spec|].
    intros r σ' evs' [(-> & -> & _)|(meta & eq & reason & x & e & _ & _ & _ & _ & -> & _ & _ & -> & _)];
      mstep; [done|]. split; [by apply reg_inv_insert|done].
  - eapply mspec_mono; [by apply GetEquipment_spec|]. intros r σ' evs' [-> _]. by mstep.
  - eapply mspec_mono; [by apply ListEquipment_spec|]. intros r σ' evs' [-> _]. by mstep.
Qed.

Lemma reg_serve_all_spec T qs σ evs :
  reg_inv σ →
  mspec (D := D) T (reg_serve_all qs) false σ evs (λ l σ' _,
    reg_inv σ' ∧ equipment σ' = acknowledge (equipment σ) l).
Proof.
  revert σ evs. induction qs as [|q qs IH]; intros σ evs Hinv; simpl; [by mstep|].
  mstep. eapply mspec_mono; [by apply reg_serve_spec|]. intros a σ1 evs1 (Hinv1 & E1).
  mstep. eapply mspec_mono; [by apply IH|]. intros l σ2 evs2 (Hinv2 & E2). mstep.
  split; [done|]. by rewrite E2, E1, acknowledge_app.
Qed.

Lemma reg_run clk qs :
  ∃ l s, reg_serve_all qs (NewRegistryService (D := D) clk None) = Done l s
    ∧ in_memory s ∧ reg_inv (st s) ∧ equipment (st s) = acknowledge ∅ l.
Proof.
  destruct (mspec_call (λ _, True) (reg_serve_all qs) (NewRegistryService clk None) _
    (NewService_in_memory _ _) (λ _, I) (reg_serve_all_spec _ _ _ _ reg_inv_new))
    as (l & s & E & Hm & _ & Hinv & Heq). by exists l, s.
Qed.

(** The registry is a map from ids to records: whatever requests reach a
    new service without a database, all are answered, and GetEquipment then
    tells an operator or a service exactly the record that UpsertEquipment
    acknowledged last for that id, or that there is none. *)
Theorem registry_reads_last_write clk qs ctx req :
  (registry_authorize ctx (ge_Meta req)).1 = true → ge_EquipmentId req ≠ "" →
  ∃ acked s r s', reg_serve_all qs (NewRegistryService (D := D) clk None) = Done acked s
    ∧ GetEquipment ctx (Some req) s = Done r s'
    ∧ eqr_Equipment r = last_acked (ge_EquipmentId req) acked
    ∧ ResCode (eqr_Meta r) = match last_acked (ge_EquipmentId req) acked with
        | Some _ => RESULT_CODE_OK | None => RESULT_CODE_INVALID end.
Proof.
  intros Hauth Hid. destruct (reg_run clk qs) as (acked & s & E & Hm & Hinv & Heq).
  destruct (mspec_call (λ _, True) _ s _ Hm (λ _, I)
    (GetEquipment_spec _ ctx (Some req) _ _ Hinv)) as (r & s' & E' & _ & _ & _ & Hr).
  exists acked, s, r, s'. destruct (Hr req eq_refl Hauth Hid) as [Hr1 Hr2].
  rewrite Heq, acknowledge_lookup in Hr1, Hr2. done.
Qed.

(** An accepted UpsertEquipment stores the request's record under its id
    with nothing but the two times filled in: the given creation time if there
    is one, else the creation time of the record it replaces; it leaves every
    other record alone, and its audit record holds the record before and
    after. *)
Theorem registry_upsert_exact s ctx req r s' :
  in_memory s → reg_inv (st s) → UpsertEquipment ctx (Some req) s = Done r s' →
  ResCode (eqr_Meta r) = RESULT_CODE_OK →
  ∃ eq x e, ue_Equipment req = Some eq ∧ eqr_Equipment r = Some x
    ∧ (registry_authorize ctx (ue_Meta req)).1 = true
    ∧ written_for (equipment (st s) !! EquipmentId eq) eq x
    ∧ equipment (st s') = <[EquipmentId eq := x]> (equipment (st s))
    ∧ audit_events s' = audit_events s ++ [e]
    ∧ audit_record (ue_Meta req) "equipment" (EquipmentId eq) "upsert_equipment"
        (equipmentSnapshot (equipment (st s) !! EquipmentId eq)) (equipmentSnapshot (Some x))
        ResultSuccess (ue_Reason req) e.
Proof.
  intros Hm Hinv E Hok.
  destruct (mspec_run (λ _, True) _ _ _ _ _ E Hm (λ _, I) (UpsertEquipment_spec _ ctx _ _ _ Hinv))
    as (_ & _ & [(_ & _ & ?)|(meta & eq & reason & x & e & [= ->] & Ha & _ & _ & Hr & Hid & Hw & Hst & Hev & He)]);
    [done|].
  exists eq, x, e. rewrite Hst, <- Hid. rewrite <- Hid in Hw, He. split_and!; done.
Qed.

(** One page of the listing, by its token. *)
Definition list_equipment_page ctx meta size filter (token : string)
    : M (Svc D RegistryState) (list Equipment * string) :=
  r ← ListEquipment ctx (Some (mkListEquipmentRequest meta size token filter));
  mret (ler_Equipment r, ler_NextPageToken r).

(** C32: a client that follows the page tokens of ListEquipment from the first
    page on is done after at most one call per record plus one, whatever the
    page size, and has then seen exactly the records with the wanted status,
    each once, in the order of their ids. *)
Theorem registry_listing_terminates s ctx meta size filter :
  let items := filter_equipment filter (sorted_values (equipment (st s))) in
  in_memory s → reg_inv (st s) → (registry_authorize ctx meta).1 = true →
  Z.of_nat (length items) ≤ int64_max →
  (∃ s', walk_pages (list_equipment_page ctx meta size filter) (S (length items)) "" s
     = Done items s')
  ∧ NoDup (EquipmentId <$> items)
  ∧ StronglySorted (not_after String.ltb) (EquipmentId <$> items)
  ∧ ∀ x, x ∈ items ↔ equipment (st s) !! EquipmentId x = Some x
      ∧ (filter = EQUIPMENT_STATUS_UNSPECIFIED ∨ EqStatus x = filter).
Proof.
  intros items Hm Hinv Hauth Hlen.
  assert (EquipmentId <$> items `sublist_of` sorted_keys (equipment (st s))) as Hsub.
  { rewrite <- (sorted_values_keys EquipmentId _ (proj2 Hinv)).
    apply sublist_fmap_filter. }
  split_and!.
  - destruct (mspec_walk (λ _, True) (list_equipment_page ctx meta size filter) items
      (pageSizeOr 50 size) (st s) (audit_events s) s (S (length items)))
      as (s' & E & _); try done; [by apply pageSizeOr_pos|lia| |by exists s'].
    intros token start Htok. unfold list_equipment_page. mstep.
    eapply mspec_mono; [by apply ListEquipment_spec|]. intros r σ' evs' [-> Hr].
    destruct (Hr _ eq_refl Hauth) as (-> & _ & Hp). mstep. rewrite Hp. simpl.
    by rewrite (pageStart_token _ _ Htok).
  - exact (sublist_NoDup _ _ (NoDup_sorted_keys (equipment (st s))) Hsub).
  - eapply StronglySorted_sublist; [exact Hsub|apply sort_Strings_sorted].
  - intros x. unfold items, filter_equipment.
    rewrite list_elem_of_In, filter_In, <- list_elem_of_In, elem_of_sorted_values.
    rewrite negb_true_iff, bool_decide_eq_false. split.
    + intros [[k Hk] Hf]. rewrite (proj2 Hinv _ _ Hk). split; [done|].
      destruct (decide (filter = EQUIPMENT_STATUS_UNSPECIFIED)); [by left|right].
      destruct (decide (EqStatus x = filter)); [done|]. by destruct Hf.
    + intros [Hk Hf]. split; [by eexists|]. intros [? ?]. by destruct Hf.
Qed.
End mem.

(** ** Concrete instances *)

Import Concrete.

#[export] Instance env_json_map : JsonDecodeMap := λ _, ∅.
#[export] Instance env_registry_db : RegistryDB () := {|
  x_equipment_upsert _ _ _ _ _ _ _ _ _ _ d := (Ok (), d);
  q_equipment _ d := (Ok None, d); q_equipment_list _ _ _ d := (Ok [], d) |}.

Definition ex_equipment (id : string) (status : EquipmentStatus) : Equipment :=
  mkEquipment id "" "floor-1" status "9650" "1.0" "7" "" "" {[ "vendor" := "acme" ]}.
Definition ex_upsert id status : reg_req :=
  RUpsert None (Some (mkUpsertEquipmentRequest (operator_meta "")
    (Some (ex_equipment id status)) "install")).
Definition ex_reg_run : list reg_req :=
  [ex_upsert "eq-2" EQUIPMENT_STATUS_ACTIVE; ex_upsert "eq-1" EQUIPMENT_STATUS_DISABLED;
   ex_upsert "eq-2" EQUIPMENT_STATUS_RETIRED].
Definition ex_registry : Svc () RegistryState :=
  match reg_serve_all ex_reg_run (NewRegistryService None None) with
  | Done _ s => s
  | _ => NewRegistryService None None
  end.

Lemma ex_registry_ok : in_memory ex_registry ∧ reg_inv (st ex_registry).
Proof.
  unfold ex_registry. by destruct (reg_run (D := ()) None ex_reg_run) as (l & s & -> & ? & ? & _).
Qed.

Lemma registry_reads_last_write_witness :
  match reg_serve_all ex_reg_run (NewRegistryService (D := ()) None None) with
  | Done acked s =>
      match GetEquipment None (Some (mkGetEquipmentRequest (operator_meta "") "eq-2")) s with
      | Done r _ => EqStatus <$> eqr_Equipment r = Some EQUIPMENT_STATUS_RETIRED
          ∧ eqr_Equipment r = last_acked "eq-2" acked
      | _ => False
      end
  | _ => False
  end.
Proof.
  assert (match reg_serve_all ex_reg_run (NewRegistryService (D := ()) None None) with
    | Done acked _ => EqStatus <$> last_acked "eq-2" acked = Some EQUIPMENT_STATUS_RETIRED
    | _ => False end) as Hl by (vm_compute; reflexivity).
  destruct (registry_reads_last_write (D := ()) None ex_reg_run None
    (mkGetEquipmentRequest (operator_meta "") "eq-2") eq_refl)
    as (acked & s & r & s' & E & E' & Hr & _); [discriminate|].
  rewrite E in *. rewrite E', Hr. split; [exact Hl|reflexivity].
Defined.

Definition ex_repair : UpsertEquipmentRequest :=
  mkUpsertEquipmentRequest (operator_meta "")
    (Some (ex_equipment "eq-1" EQUIPMENT_STATUS_ACTIVE)) "repair".

Lemma registry_upsert_exact_witness :
  ∃ r s' x, UpsertEquipment None (Some ex_repair) ex_registry = Done r s'
    ∧ eqr_Equipment r = Some x
    ∧ written_for (equipment (st ex_registry) !! "eq-1")
        (ex_equipment "eq-1" EQUIPMENT_STATUS_ACTIVE) x
    ∧ equipment (st s') = <["eq-1" := x]> (equipment (st ex_registry)).
Proof.
  assert (match UpsertEquipment None (Some ex_repair) ex_registry with
    | Done r _ => ResCode (eqr_Meta r) = RESULT_CODE_OK | _ => False end) as Hok
    by (vm_compute; reflexivity).
  destruct (UpsertEquipment None (Some ex_repair) ex_registry) as [r s'| |] eqn:E; [|exact (False_ind _ Hok)..].
  destruct (registry_upsert_exact ex_registry None ex_repair r s' (proj1 ex_registry_ok)
    (proj2 ex_registry_ok) E Hok) as (eq & x & e & [= <-] & Hr & _ & Hw & Hst & _).
  exists r, s', x. split; [reflexivity|]. split; [exact Hr|]. split; [exact Hw|exact Hst].
Defined.

Lemma registry_listing_terminates_witness :
  ∃ l s', walk_pages (list_equipment_page None (operator_meta "") 1 EQUIPMENT_STATUS_UNSPECIFIED)
      3 "" ex_registry = Done l s' ∧ EquipmentId <$> l = ["eq-1"; "eq-2"].
Proof.
  destruct (registry_listing_terminates ex_registry None (operator_meta "") 1
    EQUIPMENT_STATUS_UNSPECIFIED (proj1 ex_registry_ok) (proj2 ex_registry_ok) eq_refl)
    as [[s' E] _]; [vm_compute; discriminate|].
  eexists _, s'. split; [exact E|]. vm_compute. reflexivity.
Defined.
