(* ===== verification/Config.v ===== *)
(** * Configuration changes and the download library
    (internal/platform/server/config_grpc.go and config_postgres.go)

    A configuration change is proposed, approved and applied, in that order;
    applying it sets the current value of its key.  Changes of the download
    library are logged; activating an entry needs a signature. *)

From S2P Require Import Prelude GoTime GoJson AuditTrail Service Listing.
From Stdlib Require Import Ascii.

(** ** Messages (api/proto/rgs/v1/config.proto) *)

(** The status of a change is never read from a request, so only the declared
    values arise. *)
Inductive ConfigChangeStatus :=
| CONFIG_CHANGE_STATUS_UNSPECIFIED | CONFIG_CHANGE_STATUS_PROPOSED
| CONFIG_CHANGE_STATUS_APPROVED | CONFIG_CHANGE_STATUS_APPLIED
| CONFIG_CHANGE_STATUS_REJECTED.

Inductive DownloadAction :=
| DOWNLOAD_ACTION_UNSPECIFIED | DOWNLOAD_ACTION_ADD | DOWNLOAD_ACTION_UPDATE
| DOWNLOAD_ACTION_DELETE | DOWNLOAD_ACTION_ACTIVATE | DOWNLOAD_ACTION_OTHER (n : Z).

#[global] Instance ConfigChangeStatus_eq_dec : EqDecision ConfigChangeStatus.
Proof. solve_decision. Defined.
#[global] Instance DownloadAction_eq_dec : EqDecision DownloadAction.
Proof. solve_decision. Defined.

Record ConfigChange := mkConfigChange {
  cc_ChangeId : string; cc_ConfigNamespace : string; cc_ConfigKey : string;
  cc_ProposedValue : string; cc_PreviousValue : string; cc_Reason : string;
  cc_Status : ConfigChangeStatus; cc_ProposerId : string; cc_ApproverId : string;
  cc_AppliedBy : string; cc_CreatedAt : string; cc_ApprovedAt : string; cc_AppliedAt : string }.

#[global] Instance eta_ConfigChange : Eta ConfigChange := λ x,
  mkConfigChange (cc_ChangeId x) (cc_ConfigNamespace x) (cc_ConfigKey x) (cc_ProposedValue x)
    (cc_PreviousValue x) (cc_Reason x) (cc_Status x) (cc_ProposerId x) (cc_ApproverId x)
    (cc_AppliedBy x) (cc_CreatedAt x) (cc_ApprovedAt x) (cc_AppliedAt x).

Record DownloadLibraryEntry := mkDownloadLibraryEntry {
  dl_EntryId : string; dl_LibraryPath : string; dl_Checksum : string; dl_Version : string;
  dl_Action : DownloadAction; dl_ChangedBy : string; dl_Reason : string;
  dl_OccurredAt : string; dl_SignerKid : string; dl_Signature : string;
  dl_SignatureAlg : string }.

#[global] Instance eta_DownloadLibraryEntry : Eta DownloadLibraryEntry := λ x,
  mkDownloadLibraryEntry (dl_EntryId x) (dl_LibraryPath x) (dl_Checksum x) (dl_Version x)
    (dl_Action x) (dl_ChangedBy x) (dl_Reason x) (dl_OccurredAt x) (dl_SignerKid x)
    (dl_Signature x) (dl_SignatureAlg x).

Record ProposeConfigChangeRequest := mkProposeConfigChangeRequest {
  pc_Meta : option RequestMeta; pc_ConfigNamespace : string; pc_ConfigKey : string;
  pc_ProposedValue : string; pc_Reason : string }.
Record ApproveConfigChangeRequest := mkApproveConfigChangeRequest {
  ap_Meta : option RequestMeta; ap_ChangeId : string; ap_Reason : string }.
Record ApplyConfigChangeRequest := mkApplyConfigChangeRequest {
  al_Meta : option RequestMeta; al_ChangeId : string; al_Reason : string }.
Record ListConfigHistoryRequest := mkListConfigHistoryRequest {
  lh_Meta : option RequestMeta; lh_ConfigNamespaceFilter : string; lh_PageSize : Z;
  lh_PageToken : string }.
Record RecordDownloadLibraryChangeRequest := mkRecordDownloadLibraryChangeRequest {
  rd_Meta : option RequestMeta; rd_Entry : option DownloadLibraryEntry }.
Record ListDownloadLibraryChangesRequest := mkListDownloadLibraryChangesRequest {
  ld_Meta : option RequestMeta; ld_PageSize : Z; ld_PageToken : string }.

(** The responses of the three steps of a change. *)
Record ConfigChangeResponse := mkConfigChangeResponse {
  ccr_Meta : ResponseMeta; ccr_Change : option ConfigChange }.
Record ListConfigHistoryResponse := mkListConfigHistoryResponse {
  lhr_Meta : ResponseMeta; lhr_Changes : list ConfigChange; lhr_NextPageToken : string }.
Record RecordDownloadLibraryChangeResponse := mkRecordDownloadLibraryChangeResponse {
  rdr_Meta : ResponseMeta; rdr_Entry : option DownloadLibraryEntry }.
Record ListDownloadLibraryChangesResponse := mkListDownloadLibraryChangesResponse {
  ldr_Meta : ResponseMeta; ldr_Entries : list DownloadLibraryEntry; ldr_NextPageToken : string }.

(** ** State *)

Record ConfigState := mkConfig {
  changes : gmap string ConfigChange;
  changeOrder : list string;
  nextChangeID : Z;
  currentValues : gmap string string;
  downloadEntries : gmap string DownloadLibraryEntry;
  downloadOrder : list string;
  nextEntryID : Z;
  downloadSigKeys : gmap string string;
  cfg_disableInMemoryCache : bool }.

#[global] Instance eta_ConfigState : Eta ConfigState := λ s,
  mkConfig (changes s) (changeOrder s) (nextChangeID s) (currentValues s) (downloadEntries s)
    (downloadOrder s) (nextEntryID s) (downloadSigKeys s) (cfg_disableInMemoryCache s).

Definition NewConfigState : ConfigState := mkConfig ∅ [] 0 ∅ ∅ [] 0 ∅ false.

Definition NewConfigService {D} (clk : option (nat → Time)) (handle : option D)
    : Svc D ConfigState :=
  mkSvc (mkBase clk (Some NewInMemoryStore) false 0 handle 0) NewConfigState.

(** ** The database interface *)

Record config_row := mkConfigRow {
  cr_change_id : string; cr_namespace : string; cr_key : string; cr_proposed_value : string;
  cr_previous_value : string; cr_reason : string; cr_status : string; cr_proposer_id : string;
  cr_approver_id : string; cr_applied_by : string; cr_created_at : Time;
  cr_approved_at : option Time; cr_applied_at : option Time }.

Record download_row := mkDownloadRow {
  dr_entry_id : string; dr_library_path : string; dr_checksum : string; dr_version : string;
  dr_action : string; dr_changed_by : string; dr_reason : string; dr_occurred_at : Time;
  dr_signer_kid : string; dr_signature : string; dr_signature_alg : string }.

Class ConfigDB (D : Type) := {
  (** INSERT INTO config_changes ... ON CONFLICT (change_id) DO UPDATE: the
      thirteen parameters in order; [None] is NULL *)
  x_config_change : string → string → string → string → string → string → string → string →
    string → string → option string → option string → option string → D → res () * D;
  (** INSERT INTO config_current_values ... ON CONFLICT DO UPDATE *)
  x_config_value : string → string → string → string → D → res () * D;
  (** INSERT INTO download_library_changes ... ON CONFLICT (entry_id) DO UPDATE *)
  x_download : string → string → string → string → string → string → string →
    option string → string → string → string → D → res () * D;
  q_config_value : string → string → D → res (option string) * D;
  q_config_change : string → D → res (option config_row) * D;
  q_config_history : string → Z → Z → D → res (list config_row) * D;
  q_downloads : Z → Z → D → res (list download_row) * D;
}.

(** ** Pure helpers *)

Definition ConfigChangeStatus_number (v : ConfigChangeStatus) : Z :=
  match v with
  | CONFIG_CHANGE_STATUS_UNSPECIFIED => 0 | CONFIG_CHANGE_STATUS_PROPOSED => 1
  | CONFIG_CHANGE_STATUS_APPROVED => 2 | CONFIG_CHANGE_STATUS_APPLIED => 3
  | CONFIG_CHANGE_STATUS_REJECTED => 4
  end.

Definition DownloadAction_number (v : DownloadAction) : Z :=
  match v with
  | DOWNLOAD_ACTION_UNSPECIFIED => 0 | DOWNLOAD_ACTION_ADD => 1 | DOWNLOAD_ACTION_UPDATE => 2
  | DOWNLOAD_ACTION_DELETE => 3 | DOWNLOAD_ACTION_ACTIVATE => 4 | DOWNLOAD_ACTION_OTHER n => n
  end.

Definition DownloadAction_String (v : DownloadAction) : string :=
  match v with
  | DOWNLOAD_ACTION_UNSPECIFIED => "DOWNLOAD_ACTION_UNSPECIFIED"
  | DOWNLOAD_ACTION_ADD => "DOWNLOAD_ACTION_ADD"
  | DOWNLOAD_ACTION_UPDATE => "DOWNLOAD_ACTION_UPDATE"
  | DOWNLOAD_ACTION_DELETE => "DOWNLOAD_ACTION_DELETE"
  | DOWNLOAD_ACTION_ACTIVATE => "DOWNLOAD_ACTION_ACTIVATE"
  | DOWNLOAD_ACTION_OTHER n => FormatInt n
  end.

(** [json.Marshal] of a change and of an entry. *)
Definition change_json (c : ConfigChange) : string :=
  json_object (omit_string "change_id" (cc_ChangeId c)
    ++ omit_string "config_namespace" (cc_ConfigNamespace c)
    ++ omit_string "config_key" (cc_ConfigKey c)
    ++ omit_string "proposed_value" (cc_ProposedValue c)
    ++ omit_string "previous_value" (cc_PreviousValue c)
    ++ omit_string "reason" (cc_Reason c)
    ++ omit_int "status" (ConfigChangeStatus_number (cc_Status c))
    ++ omit_string "proposer_id" (cc_ProposerId c)
    ++ omit_string "approver_id" (cc_ApproverId c)
    ++ omit_string "applied_by" (cc_AppliedBy c)
    ++ omit_string "created_at" (cc_CreatedAt c)
    ++ omit_string "approved_at" (cc_ApprovedAt c)
    ++ omit_string "applied_at" (cc_AppliedAt c)).

Definition download_json (e : DownloadLibraryEntry) : string :=
  json_object (omit_string "entry_id" (dl_EntryId e)
    ++ omit_string "library_path" (dl_LibraryPath e)
    ++ omit_string "checksum" (dl_Checksum e) ++ omit_string "version" (dl_Version e)
    ++ omit_int "action" (DownloadAction_number (dl_Action e))
    ++ omit_string "changed_by" (dl_ChangedBy e) ++ omit_string "reason" (dl_Reason e)
    ++ omit_string "occurred_at" (dl_OccurredAt e)
    ++ omit_string "signer_kid" (dl_SignerKid e) ++ omit_string "signature" (dl_Signature e)
    ++ omit_string "signature_alg" (dl_SignatureAlg e)).

(** crypto/hmac over SHA-256, whose blocks have 64 bytes. *)
Fixpoint xor_bytes (n : N) (s : string) : string :=
  match s with
  | EmptyString => EmptyString
  | String c s => String (ascii_of_N (N.lxor n (N_of_ascii c))) (xor_bytes n s)
  end.
Fixpoint zero_bytes (n : nat) : string :=
  match n with O => EmptyString | S n => String (ascii_of_N 0) (zero_bytes n) end.
Definition hmac_key `{!Crypto} (key : string) : string :=
  let k := if (64 <? String.length key)%nat then sha256 key else key in
  k +:+ zero_bytes (64 - String.length k).
Definition hmac_sha256 `{!Crypto} (key msg : string) : string :=
  sha256 (xor_bytes 92 (hmac_key key) +:+ sha256 (xor_bytes 54 (hmac_key key) +:+ msg)).

Definition downloadSignaturePayload (e : DownloadLibraryEntry) : string :=
  Join "|" [TrimSpace (dl_LibraryPath e); TrimSpace (dl_Checksum e); TrimSpace (dl_Version e);
    DownloadAction_String (dl_Action e)].

Definition verifyDownloadSignature `{!Crypto} (e : DownloadLibraryEntry) (secret : string) : bool :=
  if decide (secret = "") then false
  else
    let expected := RawStdEncoding (hmac_sha256 secret (downloadSignaturePayload e)) in
    bool_decide (expected = TrimSpace (dl_Signature e)).

(** The loop of SetDownloadSignatureKeys over the keys, in the order of the
    range loop. *)
Definition install_keys (keys : list (string * string)) : gmap string string :=
  foldl (λ m '(kid, secret),
    let kid := TrimSpace kid in
    if decide (kid = "" ∨ secret = "") then m else <[kid := secret]> m) ∅ keys.

Definition config_authorize : option Context → option RequestMeta → bool * string :=
  operators_only.

Definition keyFor (namespace key : string) : string := namespace +:+ "::" +:+ key.

Definition configStatusToDB (v : ConfigChangeStatus) : string :=
  match v with
  | CONFIG_CHANGE_STATUS_PROPOSED => "proposed"
  | CONFIG_CHANGE_STATUS_APPROVED => "approved"
  | CONFIG_CHANGE_STATUS_APPLIED => "applied"
  | CONFIG_CHANGE_STATUS_REJECTED => "rejected"
  | CONFIG_CHANGE_STATUS_UNSPECIFIED => "proposed"
  end.

Definition configStatusFromDB (v : string) : ConfigChangeStatus :=
  if decide (v = "proposed") then CONFIG_CHANGE_STATUS_PROPOSED
  else if decide (v = "approved") then CONFIG_CHANGE_STATUS_APPROVED
  else if decide (v = "applied") then CONFIG_CHANGE_STATUS_APPLIED
  else if decide (v = "rejected") then CONFIG_CHANGE_STATUS_REJECTED
  else CONFIG_CHANGE_STATUS_UNSPECIFIED.

Definition downloadActionToDB (v : DownloadAction) : string :=
  match v with
  | DOWNLOAD_ACTION_ADD => "add"
  | DOWNLOAD_ACTION_UPDATE => "update"
  | DOWNLOAD_ACTION_DELETE => "delete"
  | DOWNLOAD_ACTION_ACTIVATE => "activate"
  | _ => "add"
  end.

Definition downloadActionFromDB (v : string) : DownloadAction :=
  if decide (v = "add") then DOWNLOAD_ACTION_ADD
  else if decide (v = "update") then DOWNLOAD_ACTION_UPDATE
  else if decide (v = "delete") then DOWNLOAD_ACTION_DELETE
  else if decide (v = "activate") then DOWNLOAD_ACTION_ACTIVATE
  else DOWNLOAD_ACTION_UNSPECIFIED.

(** [None] is NULL. *)
Definition nullIfEmpty (v : string) : option string :=
  if decide (TrimSpace v = "") then None else Some v.

Definition change_of_row (r : config_row) : ConfigChange :=
  mkConfigChange (cr_change_id r) (cr_namespace r) (cr_key r) (cr_proposed_value r)
    (cr_previous_value r) (cr_reason r) (configStatusFromDB (cr_status r)) (cr_proposer_id r)
    (cr_approver_id r) (cr_applied_by r) (FormatRFC3339Nano (cr_created_at r))
    (default "" (FormatRFC3339Nano <$> cr_approved_at r))
    (default "" (FormatRFC3339Nano <$> cr_applied_at r)).

Definition download_of_row (r : download_row) : DownloadLibraryEntry :=
  mkDownloadLibraryEntry (dr_entry_id r) (dr_library_path r) (dr_checksum r) (dr_version r)
    (downloadActionFromDB (dr_action r)) (dr_changed_by r) (dr_reason r)
    (FormatRFC3339Nano (dr_occurred_at r)) (dr_signer_kid r) (dr_signature r)
    (dr_signature_alg r).

(** The order of ListDownloadLibraryChanges. *)
Definition download_less : DownloadLibraryEntry → DownloadLibraryEntry → bool :=
  newer_first dl_OccurredAt dl_EntryId.

(** The loop of ListConfigHistory, newest first. *)
Definition history (filter : string) (m : gmap string ConfigChange) (order : list string)
    : list ConfigChange :=
  List.filter (λ c, negb (bool_decide (filter ≠ "" ∧ cc_ConfigNamespace c ≠ filter)))
    (omap (λ id, m !! id) (reverse order)).

Section config.
Context {D : Type} `{!Wall, !Crypto, !JsonValid, !AuditDB D, !ConfigDB D}.

Abbreviation CM := (M (Svc D ConfigState)).

Definition config_SetDisableInMemoryCache (disable : bool) : CM () :=
  locked (mod_st (λ s, s <| cfg_disableInMemoryCache := disable |>)).

Definition SetDownloadSignatureKeys (keys : list (string * string)) : CM () :=
  locked (mod_st (λ s, s <| downloadSigKeys := install_keys keys |>)).

Definition nextChangeIDLocked : CM string :=
  mod_st (λ s, s <| nextChangeID ::= λ n, wrap64 (n + 1) |>);;
  n ← get_st nextChangeID; mret ("cfg-" +:+ FormatInt n).

Definition nextEntryIDLocked : CM string :=
  mod_st (λ s, s <| nextEntryID ::= λ n, wrap64 (n + 1) |>);;
  n ← get_st nextEntryID; mret ("dll-" +:+ FormatInt n).

Definition config_appendAudit (meta : option RequestMeta)
    (objectType objectID action before after : string) (result : Result) (reason : string)
    : CM (option error) :=
  appendAudit "config-audit-" meta objectType objectID action before after result reason.

(** [req.Meta.Actor.ActorId], a nil dereference without an actor. *)
Definition metaActorId (meta : option RequestMeta) : CM string :=
  match (m ← meta; MetaActor m) with Some a => mret (ActorId a) | None => panic end.

(** ** config_postgres.go *)

Definition persistConfigChange (c : ConfigChange) : CM (option error) :=
  enabled ← dbEnabled;
  if negb enabled then mret None
  else exec_db (x_config_change (cc_ChangeId c) (cc_ConfigNamespace c) (cc_ConfigKey c)
    (cc_ProposedValue c) (cc_PreviousValue c) (cc_Reason c) (configStatusToDB (cc_Status c))
    (cc_ProposerId c) (cc_ApproverId c) (cc_AppliedBy c) (nullIfEmpty (cc_CreatedAt c))
    (nullIfEmpty (cc_ApprovedAt c)) (nullIfEmpty (cc_AppliedAt c))).

Definition persistCurrentValue (namespace key value updatedBy : string) : CM (option error) :=
  enabled ← dbEnabled;
  if negb enabled then mret None else exec_db (x_config_value namespace key value updatedBy).

Definition persistDownloadEntry (e : DownloadLibraryEntry) : CM (option error) :=
  enabled ← dbEnabled;
  if negb enabled then mret None
  else exec_db (x_download (dl_EntryId e) (dl_LibraryPath e) (dl_Checksum e) (dl_Version e)
    (downloadActionToDB (dl_Action e)) (dl_ChangedBy e) (dl_Reason e)
    (nullIfEmpty (dl_OccurredAt e)) (dl_SignerKid e) (dl_Signature e) (dl_SignatureAlg e)).

Definition getCurrentValue (namespace key : string) : CM (res string) :=
  r ← run_db (q_config_value namespace key);
  mret (match r with Err e => Err e | Ok row => Ok (default "" row) end).

Definition getConfigChange (changeID : string) : CM (res (option ConfigChange)) :=
  r ← run_db (q_config_change changeID);
  mret (match r with Err e => Err e | Ok row => Ok (change_of_row <$> row) end).

Definition listConfigHistoryFromDB (namespaceFilter : string) (limit offset : Z)
    : CM (res (list ConfigChange)) :=
  r ← run_db (q_config_history namespaceFilter limit offset);
  mret (match r with Err e => Err e | Ok rows => Ok (change_of_row <$> rows) end).

Definition listDownloadEntriesFromDB (limit offset : Z) : CM (res (list DownloadLibraryEntry)) :=
  r ← run_db (q_downloads limit offset);
  mret (match r with Err e => Err e | Ok rows => Ok (download_of_row <$> rows) end).

(** ** config_grpc.go *)

Definition change_reply meta code reason : CM ConfigChangeResponse :=
  m ← responseMeta meta code reason; mret (mkConfigChangeResponse m None).

Definition ProposeConfigChange (ctx : option Context) (req : option ProposeConfigChangeRequest)
    : CM ConfigChangeResponse :=
  let invalid := change_reply None RESULT_CODE_INVALID
    "config_namespace, config_key and proposed_value are required" in
  match req with
  | None => invalid
  | Some req =>
  let meta := pc_Meta req in
  if decide (pc_ConfigNamespace req = "" ∨ pc_ConfigKey req = "" ∨ pc_ProposedValue req = "")
  then invalid else
  let '(ok, reason) := config_authorize ctx meta in
  if negb ok then
    config_appendAudit meta "config_change" "" "propose_config_change" "{}" "{}"
      ResultDenied reason;;
    change_reply meta RESULT_CODE_DENIED reason
  else
  locked (
    t ← now;
    id ← nextChangeIDLocked;
    curr ← get_st (λ s, map_get "" (currentValues s)
             (keyFor (pc_ConfigNamespace req) (pc_ConfigKey req)));
    enabled ← dbEnabled;
    loaded ← (if (enabled : bool)
              then getCurrentValue (pc_ConfigNamespace req) (pc_ConfigKey req)
              else mret (Ok curr));
    match loaded with
    | Err _ => change_reply meta RESULT_CODE_ERROR "persistence unavailable"
    | Ok curr =>
    proposer ← metaActorId meta;
    let change := mkConfigChange id (pc_ConfigNamespace req) (pc_ConfigKey req)
      (pc_ProposedValue req) curr (pc_Reason req) CONFIG_CHANGE_STATUS_PROPOSED
      proposer "" "" (FormatRFC3339Nano t) "" "" in
    e ← config_appendAudit meta "config_change" id "propose_config_change" "{}"
          (change_json change) ResultSuccess (pc_Reason req);
    match e with
    | Some _ => change_reply meta RESULT_CODE_ERROR "audit unavailable"
    | None =>
    e ← persistConfigChange change;
    match e with
    | Some _ => change_reply meta RESULT_CODE_ERROR "persistence unavailable"
    | None =>
    disabled ← get_st cfg_disableInMemoryCache;
    (if (disabled : bool) then mret ()
     else mod_st (λ s, s <| changes ::= insert id change |>
                         <| changeOrder ::= λ l, l ++ [id] |>));;
    m ← responseMeta meta RESULT_CODE_OK ""; mret (mkConfigChangeResponse m (Some change))
    end end end)
  end.

(** The change a step works on, from the map or else from the database.  The
    flag says whether the pointer is also in the map, so that writes through it
    are writes to the map. *)
Definition load_change (id : string) : CM (res (option (ConfigChange * bool))) :=
  cached ← get_st (λ s, changes s !! id);
  enabled ← dbEnabled;
  match cached with
  | Some c => mret (Ok (Some (c, true)))
  | None =>
      if negb enabled then mret (Ok None) else
      loaded ← getConfigChange id;
      match loaded with
      | Err e => mret (Err e)
      | Ok None => mret (Ok None)
      | Ok (Some c) =>
          disabled ← get_st cfg_disableInMemoryCache;
          if (disabled : bool) then mret (Ok (Some (c, false)))
          else mod_st (λ s, s <| changes ::= insert id c |>);; mret (Ok (Some (c, true)))
      end
  end.

(** A write through the pointer.  The fields are assigned one by one: a step
    that panics halfway leaves the ones assigned before. *)
Definition write_change (id : string) (shared : bool) (c : ConfigChange) : CM () :=
  if shared then mod_st (λ s, s <| changes ::= insert id c |>) else mret ().

Definition ApproveConfigChange (ctx : option Context) (req : option ApproveConfigChangeRequest)
    : CM ConfigChangeResponse :=
  match req with
  | None => change_reply None RESULT_CODE_INVALID "change_id is required"
  | Some req =>
  let meta := ap_Meta req in
  let id := ap_ChangeId req in
  if decide (id = "") then change_reply None RESULT_CODE_INVALID "change_id is required" else
  let '(ok, reason) := config_authorize ctx meta in
  if negb ok then
    config_appendAudit meta "config_change" id "approve_config_change" "{}" "{}"
      ResultDenied reason;;
    change_reply meta RESULT_CODE_DENIED reason
  else
  locked (
    loaded ← load_change id;
    match loaded with
    | Err _ => change_reply meta RESULT_CODE_ERROR "persistence unavailable"
    | Ok None => change_reply meta RESULT_CODE_INVALID "change not found"
    | Ok (Some (change, shared)) =>
    if decide (cc_Status change ≠ CONFIG_CHANGE_STATUS_PROPOSED) then
      change_reply meta RESULT_CODE_DENIED "change is not in proposed state"
    else
    let before := change_json change in
    let change := change <| cc_Status := CONFIG_CHANGE_STATUS_APPROVED |> in
    write_change id shared change;;
    approver ← metaActorId meta;
    let change := change <| cc_ApproverId := approver |> in
    write_change id shared change;;
    t ← now;
    let change := change <| cc_ApprovedAt := FormatRFC3339Nano t |> in
    write_change id shared change;;
    e ← config_appendAudit meta "config_change" (cc_ChangeId change) "approve_config_change"
          before (change_json change) ResultSuccess (ap_Reason req);
    match e with
    | Some _ => change_reply meta RESULT_CODE_ERROR "audit unavailable"
    | None =>
    e ← persistConfigChange change;
    match e with
    | Some _ => change_reply meta RESULT_CODE_ERROR "persistence unavailable"
    | None =>
    m ← responseMeta meta RESULT_CODE_OK ""; mret (mkConfigChangeResponse m (Some change))
    end end end)
  end.

Definition ApplyConfigChange (ctx : option Context) (req : option ApplyConfigChangeRequest)
    : CM ConfigChangeResponse :=
  match req with
  | None => change_reply None RESULT_CODE_INVALID "change_id is required"
  | Some req =>
  let meta := al_Meta req in
  let id := al_ChangeId req in
  if decide (id = "") then change_reply None RESULT_CODE_INVALID "change_id is required" else
  let '(ok, reason) := config_authorize ctx meta in
  if negb ok then
    config_appendAudit meta "config_change" id "apply_config_change" "{}" "{}"
      ResultDenied reason;;
    change_reply meta RESULT_CODE_DENIED reason
  else
  locked (
    loaded ← load_change id;
    match loaded with
    | Err _ => change_reply meta RESULT_CODE_ERROR "persistence unavailable"
    | Ok None => change_reply meta RESULT_CODE_INVALID "change not found"
    | Ok (Some (change, shared)) =>
    if decide (cc_Status change ≠ CONFIG_CHANGE_STATUS_APPROVED) then
      change_reply meta RESULT_CODE_DENIED "change is not approved"
    else
    let before := change_json change in
    let change := change <| cc_Status := CONFIG_CHANGE_STATUS_APPLIED |> in
    write_change id shared change;;
    applier ← metaActorId meta;
    let change := change <| cc_AppliedBy := applier |> in
    write_change id shared change;;
    t ← now;
    let change := change <| cc_AppliedAt := FormatRFC3339Nano t |> in
    write_change id shared change;;
    disabled ← get_st cfg_disableInMemoryCache;
    (if (disabled : bool) then mret ()
     else mod_st (λ s, s <| currentValues ::=
            insert (keyFor (cc_ConfigNamespace change) (cc_ConfigKey change))
              (cc_ProposedValue change) |>));;
    e ← config_appendAudit meta "config_change" (cc_ChangeId change) "apply_config_change"
          before (change_json change) ResultSuccess (al_Reason req);
    match e with
    | Some _ => change_reply meta RESULT_CODE_ERROR "audit unavailable"
    | None =>
    e ← persistConfigChange change;
    match e with
    | Some _ => change_reply meta RESULT_CODE_ERROR "persistence unavailable"
    | None =>
    e ← persistCurrentValue (cc_ConfigNamespace change) (cc_ConfigKey change)
          (cc_ProposedValue change) (cc_AppliedBy change);
    match e with
    | Some _ => change_reply meta RESULT_CODE_ERROR "persistence unavailable"
    | None =>
    m ← responseMeta meta RESULT_CODE_OK ""; mret (mkConfigChangeResponse m (Some change))
    end end end end)
  end.

Definition history_reply meta code reason : CM ListConfigHistoryResponse :=
  m ← responseMeta meta code reason; mret (mkListConfigHistoryResponse m [] "").

Definition ListConfigHistory (ctx : option Context) (req : option ListConfigHistoryRequest)
    : CM ListConfigHistoryResponse :=
  let req := default (mkListConfigHistoryRequest None "" 0 "") req in
  let meta := lh_Meta req in
  let '(ok, reason) := config_authorize ctx meta in
  if negb ok then
    config_appendAudit meta "config_change" "" "list_config_history" "{}" "{}"
      ResultDenied reason;;
    history_reply meta RESULT_CODE_DENIED reason
  else
  let start := pageStart (lh_PageToken req) in
  let size := pageSizeOr 50 (lh_PageSize req) in
  enabled ← dbEnabled;
  if (enabled : bool) then
    r ← listConfigHistoryFromDB (lh_ConfigNamespaceFilter req) size start;
    match r with
    | Err _ => history_reply meta RESULT_CODE_ERROR "persistence unavailable"
    | Ok items =>
        m ← responseMeta meta RESULT_CODE_OK "";
        mret (mkListConfigHistoryResponse m items (nextFromDB start size (length items)))
    end
  else locked (
    cs ← get_st changes; order ← get_st changeOrder;
    p ← page (history (lh_ConfigNamespaceFilter req) cs order) start size;
    m ← responseMeta meta RESULT_CODE_OK "";
    mret (mkListConfigHistoryResponse m p.1 p.2)).

Definition download_reply meta code reason : CM RecordDownloadLibraryChangeResponse :=
  m ← responseMeta meta code reason; mret (mkRecordDownloadLibraryChangeResponse m None).

(** The defaults RecordDownloadLibraryChange fills in. *)
Definition fill_entry_id (entry : DownloadLibraryEntry) : CM DownloadLibraryEntry :=
  if decide (dl_EntryId entry = "")
  then id ← nextEntryIDLocked; mret (entry <| dl_EntryId := id |>) else mret entry.
Definition fill_changed_by (meta : option RequestMeta) (entry : DownloadLibraryEntry)
    : CM DownloadLibraryEntry :=
  if decide (dl_ChangedBy entry = "")
  then a ← metaActorId meta; mret (entry <| dl_ChangedBy := a |>) else mret entry.
Definition fill_occurred_at (entry : DownloadLibraryEntry) : CM DownloadLibraryEntry :=
  if decide (dl_OccurredAt entry = "")
  then t ← now; mret (entry <| dl_OccurredAt := FormatRFC3339Nano t |>) else mret entry.
Definition complete_entry (meta : option RequestMeta) (entry : DownloadLibraryEntry)
    : CM DownloadLibraryEntry :=
  entry ← fill_entry_id entry; entry ← fill_changed_by meta entry; fill_occurred_at entry.

(** The check of an activation: a refusal, or the entry to record. *)
Definition check_activation (meta : option RequestMeta) (entry : DownloadLibraryEntry)
    : CM (RecordDownloadLibraryChangeResponse + DownloadLibraryEntry) :=
  if decide (dl_Action entry = DOWNLOAD_ACTION_ACTIVATE) then
    if decide (dl_SignerKid entry = "" ∨ dl_Signature entry = "") then
      r ← download_reply meta RESULT_CODE_INVALID "activation requires signer_kid and signature";
      mret (inl r)
    else
    secret ← get_st (λ s, map_get "" (downloadSigKeys s) (dl_SignerKid entry));
    if negb (verifyDownloadSignature entry secret) then
      config_appendAudit meta "download_library_entry" (dl_EntryId entry)
        "record_download_library_change" "{}" "{}" ResultDenied "invalid download signature";;
      r ← download_reply meta RESULT_CODE_DENIED "invalid download signature";
      mret (inl r)
    else mret (inr (if decide (dl_SignatureAlg entry = "")
                    then entry <| dl_SignatureAlg := "HMAC-SHA256" |> else entry))
  else mret (inr entry).

(** Records the entry. *)
Definition record_entry (meta : option RequestMeta) (entry : DownloadLibraryEntry)
    : CM RecordDownloadLibraryChangeResponse :=
  e ← config_appendAudit meta "download_library_entry" (dl_EntryId entry)
        "record_download_library_change" "{}" (download_json entry) ResultSuccess
        (dl_Reason entry);
  match e with
  | Some _ => download_reply meta RESULT_CODE_ERROR "audit unavailable"
  | None =>
  e ← persistDownloadEntry entry;
  match e with
  | Some _ => download_reply meta RESULT_CODE_ERROR "persistence unavailable"
  | None =>
  disabled ← get_st cfg_disableInMemoryCache;
  (if (disabled : bool) then mret ()
   else mod_st (λ s, s <| downloadEntries ::= insert (dl_EntryId entry) entry |>
                       <| downloadOrder ::= λ l, l ++ [dl_EntryId entry] |>));;
  m ← responseMeta meta RESULT_CODE_OK "";
  mret (mkRecordDownloadLibraryChangeResponse m (Some entry))
  end end.

Definition RecordDownloadLibraryChange (ctx : option Context)
    (req : option RecordDownloadLibraryChangeRequest) : CM RecordDownloadLibraryChangeResponse :=
  let invalid := download_reply None RESULT_CODE_INVALID
    "entry library_path/checksum/version are required" in
  match req with
  | None | Some (mkRecordDownloadLibraryChangeRequest _ None) => invalid
  | Some (mkRecordDownloadLibraryChangeRequest meta (Some entry)) =>
  if decide (dl_LibraryPath entry = "" ∨ dl_Checksum entry = "" ∨ dl_Version entry = "")
  then invalid else
  let '(ok, reason) := config_authorize ctx meta in
  if negb ok then
    config_appendAudit meta "download_library_entry" "" "record_download_library_change"
      "{}" "{}" ResultDenied reason;;
    download_reply meta RESULT_CODE_DENIED reason
  else
  locked (
    entry ← complete_entry meta entry;
    checked ← check_activation meta entry;
    match checked with
    | inl r => mret r
    | inr entry => record_entry meta entry
    end)
  end.

Definition downloads_reply meta code reason : CM ListDownloadLibraryChangesResponse :=
  m ← responseMeta meta code reason; mret (mkListDownloadLibraryChangesResponse m [] "").

(** Every id in the order has an entry, so no nil entry is sorted. *)
Definition ListDownloadLibraryChanges (ctx : option Context)
    (req : option ListDownloadLibraryChangesRequest) : CM ListDownloadLibraryChangesResponse :=
  let req := default (mkListDownloadLibraryChangesRequest None 0 "") req in
  let meta := ld_Meta req in
  let '(ok, reason) := config_authorize ctx meta in
  if negb ok then
    config_appendAudit meta "download_library_entry" "" "list_download_library_changes"
      "{}" "{}" ResultDenied reason;;
    downloads_reply meta RESULT_CODE_DENIED reason
  else
  let start := pageStart (ld_PageToken req) in
  let size := pageSizeOr 50 (ld_PageSize req) in
  enabled ← dbEnabled;
  if (enabled : bool) then
    r ← listDownloadEntriesFromDB size start;
    match r with
    | Err _ => downloads_reply meta RESULT_CODE_ERROR "persistence unavailable"
    | Ok items =>
        m ← responseMeta meta RESULT_CODE_OK "";
        mret (mkListDownloadLibraryChangesResponse m items (nextFromDB start size (length items)))
    end
  else locked (
    es ← get_st downloadEntries; order ← get_st downloadOrder;
    let entries := SliceStable download_less (omap (λ id, es !! id) order) in
    p ← page entries start size;
    m ← responseMeta meta RESULT_CODE_OK "";
    mret (mkListDownloadLibraryChangesResponse m p.1 p.2)).
End config.
