(* ===== verification/ConfigProofs.v ===== *)
(** * Theorems about configuration changes and the download library

    Without a database: every change goes through proposal, approval and
    application in that order and once each; the current values are those of
    the applied changes; a proposed change can always be completed.  With any
    database: nothing is activated without a valid signature. *)

From S2P Require Import Prelude GoTime GoJson AuditTrail Service Listing Ledger Env Config.
From Stdlib Require Import Ascii Sorting.Sorted.

(** ** The life of a change *)

(** The steps the service acknowledges, each with the change it returns. *)
Inductive ack := Proposed (c : ConfigChange) | Approved (c : ConfigChange)
| Applied (c : ConfigChange).

Definition ack_change (a : ack) : ConfigChange :=
  match a with Proposed c | Approved c | Applied c => c end.

Definition approve_with (c : ConfigChange) (actor at_ : string) : ConfigChange :=
  c <| cc_Status := CONFIG_CHANGE_STATUS_APPROVED |> <| cc_ApproverId := actor |>
    <| cc_ApprovedAt := at_ |>.
Definition apply_with (c : ConfigChange) (actor at_ : string) : ConfigChange :=
  c <| cc_Status := CONFIG_CHANGE_STATUS_APPLIED |> <| cc_AppliedBy := actor |>
    <| cc_AppliedAt := at_ |>.

(** A change as it is proposed. *)
Definition proposal (c : ConfigChange) : Prop :=
  cc_Status c = CONFIG_CHANGE_STATUS_PROPOSED ∧ cc_ConfigNamespace c ≠ "" ∧ cc_ConfigKey c ≠ ""
  ∧ cc_ProposedValue c ≠ "" ∧ cc_ProposerId c ≠ "" ∧ cc_CreatedAt c ≠ "" ∧ cc_ApproverId c = ""
  ∧ cc_ApprovedAt c = "" ∧ cc_AppliedBy c = "" ∧ cc_AppliedAt c = "".

(** The steps a change has gone through, and what became of it. *)
Inductive lifecycle : list ack → ConfigChange → Prop :=
| lc_proposed c : proposal c → lifecycle [Proposed c] c
| lc_approved h c actor at_ :
    lifecycle h c → cc_Status c = CONFIG_CHANGE_STATUS_PROPOSED → actor ≠ "" → at_ ≠ "" →
    lifecycle (h ++ [Approved (approve_with c actor at_)]) (approve_with c actor at_)
| lc_applied h c actor at_ :
    lifecycle h c → cc_Status c = CONFIG_CHANGE_STATUS_APPROVED → actor ≠ "" → at_ ≠ "" →
    lifecycle (h ++ [Applied (apply_with c actor at_)]) (apply_with c actor at_).

(** What a step leaves as it was proposed. *)
Definition content (c : ConfigChange) : string * string * string * string * string :=
  (cc_ChangeId c, cc_ConfigNamespace c, cc_ConfigKey c, cc_ProposedValue c, cc_ProposerId c).

(** The fields a change has in each status. *)
Definition change_typed (c : ConfigChange) : Prop :=
  cc_ConfigNamespace c ≠ "" ∧ cc_ConfigKey c ≠ "" ∧ cc_ProposedValue c ≠ ""
  ∧ cc_ProposerId c ≠ "" ∧ cc_CreatedAt c ≠ "" ∧
  match cc_Status c with
  | CONFIG_CHANGE_STATUS_PROPOSED =>
      cc_ApproverId c = "" ∧ cc_ApprovedAt c = "" ∧ cc_AppliedBy c = "" ∧ cc_AppliedAt c = ""
  | CONFIG_CHANGE_STATUS_APPROVED =>
      cc_ApproverId c ≠ "" ∧ cc_ApprovedAt c ≠ "" ∧ cc_AppliedBy c = "" ∧ cc_AppliedAt c = ""
  | CONFIG_CHANGE_STATUS_APPLIED =>
      cc_ApproverId c ≠ "" ∧ cc_ApprovedAt c ≠ "" ∧ cc_AppliedBy c ≠ "" ∧ cc_AppliedAt c ≠ ""
  | _ => False
  end.

Lemma lifecycle_typed h c : lifecycle h c → change_typed c.
Proof.
  induction 1 as [c Hc|h c actor at_ Hl IH Hs|h c actor at_ Hl IH Hs]; unfold change_typed in *.
  - destruct Hc as (-> & ? & ? & ? & ? & ? & ? & ? & ? & ?). done.
  - rewrite Hs in IH. simpl. naive_solver.
  - rewrite Hs in IH. simpl. naive_solver.
Qed.

(** The steps of a change, by its status. *)
Lemma lifecycle_shape h c :
  lifecycle h c →
  match cc_Status c with
  | CONFIG_CHANGE_STATUS_PROPOSED => h = [Proposed c]
  | CONFIG_CHANGE_STATUS_APPROVED =>
      ∃ c0 by1 at1, h = [Proposed c0; Approved c] ∧ c = approve_with c0 by1 at1
  | CONFIG_CHANGE_STATUS_APPLIED =>
      ∃ c0 c1 by1 at1 by2 at2, h = [Proposed c0; Approved c1; Applied c]
        ∧ c1 = approve_with c0 by1 at1 ∧ c = apply_with c1 by2 at2
  | _ => False
  end.
Proof.
  induction 1 as [c Hc|h c actor at_ Hl IH Hs|h c actor at_ Hl IH Hs].
  - by destruct Hc as (-> & _).
  - rewrite Hs in IH. subst h. by exists c, actor, at_.
  - rewrite Hs in IH. destruct IH as (c0 & by1 & at1 & -> & Hc). by exists c0, c, by1, at1, actor, at_.
Qed.

Lemma lifecycle_applied h1 c h2 x :
  lifecycle (h1 ++ Applied c :: h2) x →
  ∃ c0 c1 by1 at1 by2 at2, h1 = [Proposed c0; Approved c1] ∧ h2 = [] ∧ x = c
    ∧ c1 = approve_with c0 by1 at1 ∧ c = apply_with c1 by2 at2.
Proof.
  intros Hl%lifecycle_shape. destruct (cc_Status x); try done.
  - destruct h1 as [|a [|]]; naive_solver.
  - destruct Hl as (c0 & by1 & at1 & E & _). destruct h1 as [|a1 [|a2 [|]]]; naive_solver.
  - destruct Hl as (c0 & c1 & by1 & at1 & by2 & at2 & E & ? & ?).
    destruct h1 as [|a1 [|a2 [|a3 [|]]]]; try discriminate E. injection E as -> -> -> ->.
    by exists c0, c1, by1, at1, by2, at2.
Qed.

(** The steps of one change. *)
Definition steps_of (id : string) (acks : list ack) : list ack :=
  List.filter (λ a, bool_decide (cc_ChangeId (ack_change a) = id)) acks.

Lemma steps_of_app id l l' : steps_of id (l ++ l') = steps_of id l ++ steps_of id l'.
Proof. apply List.filter_app. Qed.

Lemma steps_of_one id a :
  steps_of id [a] = if decide (cc_ChangeId (ack_change a) = id) then [a] else [].
Proof. unfold steps_of. simpl. by rewrite bool_decide_decide; case_decide. Qed.

(** The current values after the acknowledged steps. *)
Definition apply_value (m : gmap string string) (a : ack) : gmap string string :=
  match a with
  | Applied c => <[keyFor (cc_ConfigNamespace c) (cc_ConfigKey c) := cc_ProposedValue c]> m
  | _ => m
  end.
Definition values_after (acks : list ack) : gmap string string := foldl apply_value ∅ acks.

(** The id of the n-th proposal. *)
Definition change_id (n : Z) : string := "cfg-" +:+ FormatInt n.

Lemma change_id_inj n n' : change_id n = change_id n' → n = n'.
Proof. intros [= E]. by apply FormatInt_inj. Qed.

(** What holds after the steps [acks]. *)
Record cfg_inv (acks : list ack) (σ : ConfigState) : Prop := {
  ci_cache : cfg_disableInMemoryCache σ = false;
  ci_next : 0 ≤ nextChangeID σ;
  ci_order : changeOrder σ = change_id <$> seqZ 1 (nextChangeID σ);
  ci_dom id : is_Some (changes σ !! id) ↔ id ∈ changeOrder σ;
  ci_life id : match changes σ !! id with
    | Some c => cc_ChangeId c = id ∧ lifecycle (steps_of id acks) c
    | None => steps_of id acks = [] end;
  ci_values : currentValues σ = values_after acks }.

Lemma cfg_inv_new : cfg_inv [] NewConfigState.
Proof. split; try done. intros id. simpl. rewrite lookup_empty. by split; [intros []|intros ?%not_elem_of_nil]. Qed.

(** The state after a proposal, and after a later step. *)
Definition after_propose (σ : ConfigState) (c : ConfigChange) : ConfigState :=
  σ <| nextChangeID ::= λ n, n + 1 |> <| changes ::= insert (cc_ChangeId c) c |>
    <| changeOrder ::= λ l, l ++ [cc_ChangeId c] |>.
Definition after_step (σ : ConfigState) (a : ack) : ConfigState :=
  σ <| changes ::= insert (cc_ChangeId (ack_change a)) (ack_change a) |>
    <| currentValues ::= λ m, apply_value m a |>.

Lemma steps_of_snoc id acks a :
  steps_of id (acks ++ [a])
  = steps_of id acks ++ if decide (cc_ChangeId (ack_change a) = id) then [a] else [].
Proof. by rewrite steps_of_app, steps_of_one. Qed.

Lemma fresh_change_id acks σ :
  cfg_inv acks σ → changes σ !! change_id (nextChangeID σ + 1) = None.
Proof.
  intros H. apply eq_None_not_Some. rewrite (ci_dom _ _ H), (ci_order _ _ H).
  intros (n & E%change_id_inj & Hn)%list_elem_of_fmap. apply elem_of_seqZ in Hn. lia.
Qed.

Lemma cfg_inv_propose acks σ c :
  cfg_inv acks σ → proposal c → cc_ChangeId c = change_id (nextChangeID σ + 1) →
  cfg_inv (acks ++ [Proposed c]) (after_propose σ c).
Proof.
  intros H Hc Hid. pose proof (fresh_change_id _ _ H) as Hfresh. rewrite <- Hid in Hfresh.
  pose proof (ci_next _ _ H) as Hn. split; simpl.
  - apply H.
  - lia.
  - rewrite (ci_order _ _ H), Hid, seqZ_app by lia. rewrite fmap_app. do 2 f_equal.
    unfold seqZ. simpl. f_equal. f_equal. lia.
  - intros id. rewrite elem_of_app, list_elem_of_singleton, lookup_insert_is_Some.
    rewrite (ci_dom _ _ H). destruct (decide (id = cc_ChangeId c)); naive_solver.
  - intros id. rewrite steps_of_snoc. simpl. pose proof (ci_life _ _ H id) as Hl.
    destruct (decide (cc_ChangeId c = id)) as [<-|Hne].
    + rewrite lookup_insert_eq. rewrite Hfresh in Hl. rewrite Hl. split; [done|].
      by constructor.
    + rewrite lookup_insert_ne by done. by rewrite app_nil_r.
  - rewrite (ci_values _ _ H). unfold values_after. by rewrite foldl_app.
Qed.

Lemma cfg_inv_step acks σ id c a :
  cfg_inv acks σ → changes σ !! id = Some c → cc_ChangeId (ack_change a) = id →
  lifecycle (steps_of id acks ++ [a]) (ack_change a) →
  cfg_inv (acks ++ [a]) (after_step σ a).
Proof.
  intros H Hc Hid Hl. split; simpl; try apply H.
  - intros id'. rewrite lookup_insert_is_Some, Hid, <- (ci_dom _ _ H).
    destruct (decide (id = id')) as [<-|]; [|naive_solver]. rewrite Hc. naive_solver.
  - intros id'. rewrite steps_of_snoc, Hid. pose proof (ci_life _ _ H id') as Hl'.
    destruct (decide (id = id')) as [<-|Hne].
    + by rewrite lookup_insert_eq.
    + rewrite lookup_insert_ne by done. by rewrite app_nil_r.
  - rewrite (ci_values _ _ H). unfold values_after. by rewrite foldl_app.
Qed.

Lemma FormatRFC3339Nano_nonempty t : FormatRFC3339Nano t ≠ "".
Proof.
  intros E. assert (has_char "T"%char (FormatRFC3339Nano t) = true) as Ht.
  { unfold FormatRFC3339Nano. by rewrite has_char_app, orb_comm. }
  by rewrite E in Ht.
Qed.

(** An authorized request has a named actor, if it has one in its envelope. *)
Lemma authorized_actor ctx meta a :
  (config_authorize ctx meta).1 = true → (m ← meta; MetaActor m) = Some a → ActorId a ≠ "".
Proof.
  unfold config_authorize, operators_only, resolveActor. intros Hauth Ha. rewrite Ha in Hauth.
  destruct (c ← ctx; ActorFromContext c) as [x|]; repeat case_decide; simpl in *; try done;
    [|tauto]. destruct (decide (ActorId a = AuthID x)) as [->|]; tauto.
Qed.

(** Requests whose envelope names an actor. *)
Definition carries_actor (meta : option RequestMeta) : Prop := is_Some (m ← meta; MetaActor m).

(** ** Requests *)

(** The elements related to a part of a list are a part of the other. *)
Lemma Forall2_sublist_r {A B} (R : A → B → Prop) xs ys ys' :
  Forall2 R xs ys → ys' `sublist_of` ys → ∃ xs', xs' `sublist_of` xs ∧ Forall2 R xs' ys'.
Proof.
  intros HR Hs. revert xs HR. induction Hs as [|y ys' ys Hs IH|y ys' ys Hs IH]; intros xs HR.
  - exists []. split; [apply sublist_nil_l|done].
  - apply Forall2_cons_inv_r in HR as (x & xs0 & Hx & HR & ->).
    destruct (IH _ HR) as (xs' & ? & ?). exists (x :: xs'). split; by constructor.
  - apply Forall2_cons_inv_r in HR as (x & xs0 & Hx & HR & ->).
    destruct (IH _ HR) as (xs' & ? & ?). exists xs'. split; [by constructor|done].
Qed.

Lemma steps_of_sublist id acks : steps_of id acks `sublist_of` acks.
Proof.
  induction acks as [|a acks IH]; [done|]. unfold steps_of. simpl.
  destruct (bool_decide _); by constructor.
Qed.

Inductive cfg_req :=
| CPropose (ctx : option Context) (req : option ProposeConfigChangeRequest)
| CApprove (ctx : option Context) (req : option ApproveConfigChangeRequest)
| CApply (ctx : option Context) (req : option ApplyConfigChangeRequest)
| CHistory (ctx : option Context) (req : option ListConfigHistoryRequest)
| CRecord (ctx : option Context) (req : option RecordDownloadLibraryChangeRequest)
| CDownloads (ctx : option Context) (req : option ListDownloadLibraryChangesRequest).

(** The name of the actor in an envelope. *)
Definition actor_name (meta : option RequestMeta) : option string :=
  ActorId <$> (m ← meta; MetaActor m).

(** The step is the one the request asks for, the actor the request names is
    recorded for it, and the request is authorized for that actor. *)
Definition performs (q : cfg_req) (a : ack) : Prop :=
  match q, a with
  | CPropose ctx (Some r), Proposed c =>
      (config_authorize ctx (pc_Meta r)).1 = true ∧ actor_name (pc_Meta r) = Some (cc_ProposerId c)
      ∧ cc_ConfigNamespace c = pc_ConfigNamespace r ∧ cc_ConfigKey c = pc_ConfigKey r
      ∧ cc_ProposedValue c = pc_ProposedValue r
  | CApprove ctx (Some r), Approved c =>
      (config_authorize ctx (ap_Meta r)).1 = true ∧ actor_name (ap_Meta r) = Some (cc_ApproverId c)
      ∧ cc_ChangeId c = ap_ChangeId r
  | CApply ctx (Some r), Applied c =>
      (config_authorize ctx (al_Meta r)).1 = true ∧ actor_name (al_Meta r) = Some (cc_AppliedBy c)
      ∧ cc_ChangeId c = al_ChangeId r
  | _, _ => False
  end.

(** The map of changes holds each change under its own id. *)
Definition keyed (σ : ConfigState) : Prop :=
  cfg_disableInMemoryCache σ = false
  ∧ ∀ id c, changes σ !! id = Some c → cc_ChangeId c = id.

Lemma cfg_inv_keyed acks σ : cfg_inv acks σ → keyed σ.
Proof.
  intros H. split; [apply H|]. intros id c Hc. pose proof (ci_life _ _ H id) as Hl.
  rewrite Hc in Hl. apply Hl.
Qed.

Section mem.
Context {D : Type} `{!Wall, !Crypto, !JsonValid, !AuditDB D, !ConfigDB D}.
Implicit Types (σ : ConfigState) (T : Time → Prop) (evs : list Event)
  (s : Svc D ConfigState) (ctx : option Context).

Lemma cspec_reply T meta c x h σ evs (Q : ConfigChangeResponse → ConfigState → list Event → Prop) :
  (∀ r, ResCode (ccr_Meta r) = c → ccr_Change r = None → Q r σ evs) →
  mspec (D := D) T (change_reply meta c x) h σ evs Q.
Proof. intros HQ. unfold change_reply. msteps. by apply HQ. Qed.

Lemma cspec_denied {A} T meta ot oid action reason (k : M (Svc D ConfigState) A) h σ evs Q :
  (∀ e, mspec T k h σ (evs ++ [e]) Q) →
  mspec (D := D) T (config_appendAudit meta ot oid action "{}" "{}" ResultDenied reason;; k)
    h σ evs Q.
Proof. intros HQ. unfold config_appendAudit. msteps. apply HQ. Qed.

Lemma cspec_audit T meta ot oid action before after reason h σ evs
    (Q : option error → ConfigState → list Event → Prop) :
  (∀ e, audit_record meta ot oid action before after ResultSuccess reason e →
     Q None σ (evs ++ [e])) →
  mspec (D := D) T (config_appendAudit meta ot oid action before after ResultSuccess reason)
    h σ evs Q.
Proof. intros HQ. unfold config_appendAudit. mstep. by apply HQ. Qed.

Lemma cspec_actor T meta a h σ evs (Q : string → ConfigState → list Event → Prop) :
  (m ← meta; MetaActor m) = Some a → Q (ActorId a) σ evs →
  mspec (D := D) T (metaActorId meta) h σ evs Q.
Proof. intros Ha HQ. unfold metaActorId. rewrite Ha. by mstep. Qed.

Lemma cspec_persist T c h σ evs (Q : option error → ConfigState → list Event → Prop) :
  Q None σ evs → mspec (D := D) T (persistConfigChange c) h σ evs Q.
Proof. intros HQ. unfold persistConfigChange. by msteps. Qed.

Lemma cspec_persistValue T a b c d h σ evs (Q : option error → ConfigState → list Event → Prop) :
  Q None σ evs → mspec (D := D) T (persistCurrentValue a b c d) h σ evs Q.
Proof. intros HQ. unfold persistCurrentValue. by msteps. Qed.

Lemma cspec_load T id h σ evs
    (Q : res (option (ConfigChange * bool)) → ConfigState → list Event → Prop) :
  Q (Ok ((λ c, (c, true)) <$> changes σ !! id)) σ evs →
  mspec (D := D) T (load_change id) h σ evs Q.
Proof. intros HQ. unfold load_change. msteps. destruct (changes σ !! id); by msteps. Qed.

(** ProposeConfigChange refuses, or records a new change with the value it
    would replace. *)
Lemma ProposeConfigChange_spec T ctx req σ evs acks :
  cfg_inv acks σ → nextChangeID σ < int64_max → (∀ q, req = Some q → carries_actor (pc_Meta q)) →
  mspec (D := D) T (ProposeConfigChange ctx req) false σ evs (λ r σ' _,
    ccr_Change r = None ∧ ResCode (ccr_Meta r) ≠ RESULT_CODE_OK ∧ σ' = σ
    ∨ ∃ q c, req = Some q ∧ ResCode (ccr_Meta r) = RESULT_CODE_OK ∧ ccr_Change r = Some c
        ∧ proposal c ∧ cc_ChangeId c = change_id (nextChangeID σ + 1)
        ∧ cc_ProposedValue c = pc_ProposedValue q
        ∧ cc_PreviousValue c
          = map_get "" (currentValues σ) (keyFor (pc_ConfigNamespace q) (pc_ConfigKey q))
        ∧ performs (CPropose ctx req) (Proposed c) ∧ σ' = after_propose σ c).
Proof.
  intros Hinv Hmax Hact. unfold ProposeConfigChange; cbv zeta.
  destruct req as [req|]; [|apply cspec_reply; intros r Hc Hn; left; split_and!; [done|congruence|done]].
  destruct (Hact req eq_refl) as [a Ha]. case_decide as Hne.
  { apply cspec_reply. intros r Hc Hn. left. split_and!; [done|congruence|done]. }
  destruct (config_authorize ctx (pc_Meta req)) as [[|] why] eqn:Hauth; simpl negb; cbv iota.
  2:{ apply cspec_denied. intros e. apply cspec_reply. intros r Hc Hn.
      left. split_and!; [done|congruence|done]. }
  msteps. unfold nextChangeIDLocked. msteps.
  apply (cspec_actor _ _ a); [done|]. mstep. apply cspec_audit. intros e _.
  mstep. apply cspec_persist. msteps. simpl. rewrite (ci_cache _ _ Hinv). msteps.
  right. exists req. eexists. split_and!; try done; simpl.
  - unfold proposal. simpl. pose proof (FormatRFC3339Nano_nonempty t).
    assert (ActorId a ≠ "") by (eapply authorized_actor; [by rewrite Hauth|done]).
    split_and!; try done; tauto.
  - pose proof (ci_next _ _ Hinv). rewrite wrap64_id by (unfold in_int64, int64_min; lia). done.
  - by rewrite Hauth.
  - unfold actor_name. by rewrite Ha.
  - pose proof (ci_next _ _ Hinv). unfold after_propose, modify_field. simpl.
    rewrite wrap64_id by (unfold in_int64, int64_min; lia). done.
Qed.

(** ApproveConfigChange approves a proposed change, and refuses everything
    else. *)
Lemma ApproveConfigChange_spec T ctx req σ evs :
  keyed σ → (∀ q, req = Some q → carries_actor (ap_Meta q)) →
  mspec (D := D) T (ApproveConfigChange ctx req) false σ evs (λ r σ' _,
    ccr_Change r = None ∧ ResCode (ccr_Meta r) ≠ RESULT_CODE_OK ∧ σ' = σ
      ∧ (∀ q c, req = Some q → (config_authorize ctx (ap_Meta q)).1 = true → ap_ChangeId q ≠ "" →
           changes σ !! ap_ChangeId q = Some c → cc_Status c ≠ CONFIG_CHANGE_STATUS_PROPOSED)
    ∨ ∃ q c actor at_, let c' := approve_with c actor at_ in
        req = Some q ∧ ResCode (ccr_Meta r) = RESULT_CODE_OK ∧ ccr_Change r = Some c'
        ∧ changes σ !! ap_ChangeId q = Some c ∧ cc_Status c = CONFIG_CHANGE_STATUS_PROPOSED
        ∧ actor ≠ "" ∧ at_ ≠ "" ∧ performs (CApprove ctx req) (Approved c')
        ∧ σ' = after_step σ (Approved c')).
Proof.
  intros [Hcache Hids] Hact. unfold ApproveConfigChange; cbv zeta.
  destruct req as [req|]; [|apply cspec_reply; intros r Hc Hn; left; split_and!; [done|congruence|done..]].
  destruct (Hact req eq_refl) as [a Ha]. case_decide as Hne.
  { apply cspec_reply. intros r Hc Hn. left. split_and!; [done|congruence|done|naive_solver]. }
  destruct (config_authorize ctx (ap_Meta req)) as [[|] why] eqn:Hauth; simpl negb; cbv iota.
  2:{ apply cspec_denied. intros e. apply cspec_reply. intros r Hc Hn. left.
      split_and!; [done|congruence|done|]. intros q c [= <-]. by rewrite Hauth. }
  mstep. mstep. apply cspec_load. destruct (changes σ !! ap_ChangeId req) as [c|] eqn:Hc; simpl.
  2:{ apply cspec_reply. intros r Hr Hn. left. split_and!; [done|congruence|done|].
      intros q c [= <-] _ _. congruence. }
  case_decide as Hst.
  { apply cspec_reply. intros r Hr Hn. left. split_and!; [done|congruence|done|].
    intros q c' [= <-] _ _. congruence. }
  unfold write_change. msteps. apply (cspec_actor _ _ a); [done|]. msteps. apply cspec_audit. intros e _. mstep. apply cspec_persist. msteps.
  right. exists req, c, (ActorId a), (FormatRFC3339Nano t). split_and!; try done.
  - eapply authorized_actor; [by rewrite Hauth|done].
  - apply FormatRFC3339Nano_nonempty.
  - by rewrite Hauth.
  - unfold actor_name. by rewrite Ha.
  - by apply Hids.
  - unfold after_step. simpl. rewrite (Hids _ _ Hc). unfold modify_field. simpl.
    by rewrite !insert_insert_eq.
Qed.

(** ApplyConfigChange applies an approved change, and refuses everything
    else. *)
Lemma ApplyConfigChange_spec T ctx req σ evs :
  keyed σ → (∀ q, req = Some q → carries_actor (al_Meta q)) →
  mspec (D := D) T (ApplyConfigChange ctx req) false σ evs (λ r σ' _,
    ccr_Change r = None ∧ ResCode (ccr_Meta r) ≠ RESULT_CODE_OK ∧ σ' = σ
      ∧ (∀ q c, req = Some q → (config_authorize ctx (al_Meta q)).1 = true → al_ChangeId q ≠ "" →
           changes σ !! al_ChangeId q = Some c → cc_Status c ≠ CONFIG_CHANGE_STATUS_APPROVED)
    ∨ ∃ q c actor at_, let c' := apply_with c actor at_ in
        req = Some q ∧ ResCode (ccr_Meta r) = RESULT_CODE_OK ∧ ccr_Change r = Some c'
        ∧ changes σ !! al_ChangeId q = Some c ∧ cc_Status c = CONFIG_CHANGE_STATUS_APPROVED
        ∧ actor ≠ "" ∧ at_ ≠ "" ∧ performs (CApply ctx req) (Applied c')
        ∧ σ' = after_step σ (Applied c')).
Proof.
  intros [Hcache Hids] Hact. unfold ApplyConfigChange; cbv zeta.
  destruct req as [req|]; [|apply cspec_reply; intros r Hc Hn; left; split_and!; [done|congruence|done..]].
  destruct (Hact req eq_refl) as [a Ha]. case_decide as Hne.
  { apply cspec_reply. intros r Hc Hn. left. split_and!; [done|congruence|done|naive_solver]. }
  destruct (config_authorize ctx (al_Meta req)) as [[|] why] eqn:Hauth; simpl negb; cbv iota.
  2:{ apply cspec_denied. intros e. apply cspec_reply. intros r Hc Hn. left.
      split_and!; [done|congruence|done|]. intros q c [= <-]. by rewrite Hauth. }
  mstep. mstep. apply cspec_load. destruct (changes σ !! al_ChangeId req) as [c|] eqn:Hc; simpl.
  2:{ apply cspec_reply. intros r Hr Hn. left. split_and!; [done|congruence|done|].
      intros q c [= <-] _ _. congruence. }
  case_decide as Hst.
  { apply cspec_reply. intros r Hr Hn. left. split_and!; [done|congruence|done|].
    intros q c' [= <-] _ _. congruence. }
  unfold write_change. msteps. apply (cspec_actor _ _ a); [done|]. msteps. simpl. rewrite Hcache. msteps.
  apply cspec_audit. intros e _. mstep. apply cspec_persist. mstep. apply cspec_persistValue.
  msteps. right. exists req, c, (ActorId a), (FormatRFC3339Nano t). split_and!; try done.
  - eapply authorized_actor; [by rewrite Hauth|done].
  - apply FormatRFC3339Nano_nonempty.
  - by rewrite Hauth.
  - unfold actor_name. by rewrite Ha.
  - by apply Hids.
  - unfold after_step. simpl. rewrite (Hids _ _ Hc). unfold modify_field. simpl.
    by rewrite !insert_insert_eq.
Qed.

(** The fields of the workflow. *)
Definition same_workflow σ σ' : Prop :=
  changes σ' = changes σ ∧ changeOrder σ' = changeOrder σ ∧ nextChangeID σ' = nextChangeID σ
  ∧ currentValues σ' = currentValues σ
  ∧ cfg_disableInMemoryCache σ' = cfg_disableInMemoryCache σ.

Lemma cfg_inv_same acks σ σ' : same_workflow σ σ' → cfg_inv acks σ → cfg_inv acks σ'.
Proof.
  intros (Hc & Ho & Hn & Hv & Hd) []. split; rewrite ?Hc, ?Ho, ?Hn, ?Hv, ?Hd; try done.
Qed.

Lemma cspec_complete_entry T meta entry h σ evs
    (Q : DownloadLibraryEntry → ConfigState → list Event → Prop) :
  carries_actor meta →
  (∀ entry' σ', same_workflow σ σ' → Q entry' σ' evs) →
  mspec (D := D) T (complete_entry meta entry) h σ evs Q.
Proof.
  intros [a Ha] HQ. unfold complete_entry. mstep.
  apply mspec_mono with (P := λ _ σ' evs', same_workflow σ σ' ∧ evs' = evs).
  { unfold fill_entry_id, nextEntryIDLocked. case_decide; by msteps. }
  clear entry. intros entry σ' evs' [Hs ->]. mstep.
  apply mspec_mono with (P := λ _ σ'' evs', σ'' = σ' ∧ evs' = evs).
  { unfold fill_changed_by. case_decide; [|by mstep]. mstep.
    apply (cspec_actor _ _ a); [done|]. by mstep. }
  clear entry. intros entry σ'' evs' [-> ->]. unfold fill_occurred_at.
  case_decide; msteps; by apply HQ.
Qed.

Lemma cspec_record_entry T meta entry h σ evs :
  mspec (D := D) T (record_entry meta entry) h σ evs (λ _ σ' _, same_workflow σ σ').
Proof.
  unfold record_entry, config_appendAudit, persistDownloadEntry. msteps.
  destruct (cfg_disableInMemoryCache σ); by msteps.
Qed.

Lemma RecordDownloadLibraryChange_spec T ctx req σ evs :
  (∀ q, req = Some q → carries_actor (rd_Meta q)) →
  mspec (D := D) T (RecordDownloadLibraryChange ctx req) false σ evs
    (λ r σ' _, same_workflow σ σ').
Proof.
  intros Hact. unfold RecordDownloadLibraryChange, download_reply; cbv zeta.
  destruct req as [[meta [entry|]]|]; [|by msteps..].
  specialize (Hact _ eq_refl). simpl in Hact. case_decide as Hc; [by msteps|].
  destruct (config_authorize ctx meta) as [[|] why]; simpl negb; cbv iota.
  2:{ apply cspec_denied. intros e. by msteps. }
  mstep. mstep. apply cspec_complete_entry; [done|]. clear entry Hc. intros entry σ' Hs.
  assert (∀ entry, mspec (D := D) T (record_entry meta entry) true σ' evs
    (λ _ σ'' _, same_workflow σ σ'')) as Hrec.
  { intros entry'. eapply mspec_mono; [apply cspec_record_entry|].
    unfold same_workflow in *. naive_solver congruence. }
  mstep. unfold check_activation, download_reply, config_appendAudit.
  case_decide; [|mstep; apply Hrec]. case_decide; [by msteps|]. msteps.
  destruct (negb _); msteps; [done|]. apply Hrec.
Qed.

Lemma ListConfigHistory_spec T ctx req σ evs :
  mspec (D := D) T (ListConfigHistory ctx req) false σ evs (λ r σ' evs',
    σ' = σ ∧ ∀ q, req = Some q → (config_authorize ctx (lh_Meta q)).1 = true →
      evs' = evs ∧ ResCode (lhr_Meta r) = RESULT_CODE_OK
      ∧ (lhr_Changes r, lhr_NextPageToken r)
        = page_at (history (lh_ConfigNamespaceFilter q) (changes σ) (changeOrder σ))
            (pageStart (lh_PageToken q)) (pageSizeOr 50 (lh_PageSize q))).
Proof.
  unfold ListConfigHistory; cbv zeta. set (q := default _ req).
  destruct (config_authorize ctx (lh_Meta q)) as [[|] why] eqn:Ha; simpl negb; cbv iota.
  2:{ apply cspec_denied. intros e. unfold history_reply. msteps. split; [done|].
      intros q' ->. change q with q' in Ha. by rewrite Ha. }
  msteps. pose proof (pageSizeOr_pos 50 (lh_PageSize q)).
  apply mspec_page; [apply pageStart_nonneg|lia|]. msteps. split; [done|].
  intros q' ->. done.
Qed.

Lemma ListDownloadLibraryChanges_spec T ctx req σ evs :
  mspec (D := D) T (ListDownloadLibraryChanges ctx req) false σ evs (λ r σ' _, σ' = σ).
Proof.
  unfold ListDownloadLibraryChanges, downloads_reply; cbv zeta. set (q := default _ req).
  destruct (config_authorize ctx (ld_Meta q)) as [[|] why]; simpl negb; cbv iota.
  2:{ apply cspec_denied. intros e. by msteps. }
  msteps. pose proof (pageSizeOr_pos 50 (ld_PageSize q)).
  apply mspec_page; [apply pageStart_nonneg|lia|]. by msteps.
Qed.

(** ** Runs *)

(** The handlers that write dereference the actor of the envelope. *)
Definition names_actor (q : cfg_req) : Prop :=
  match q with
  | CPropose _ req => ∀ q, req = Some q → carries_actor (pc_Meta q)
  | CApprove _ req => ∀ q, req = Some q → carries_actor (ap_Meta q)
  | CApply _ req => ∀ q, req = Some q → carries_actor (al_Meta q)
  | CRecord _ req => ∀ q, req = Some q → carries_actor (rd_Meta q)
  | CHistory _ _ | CDownloads _ _ => True
  end.

(** Whether a request is about the change [id]. *)
Definition touches (id : string) (q : cfg_req) : Prop :=
  match q with
  | CApprove _ (Some q) => ap_ChangeId q = id
  | CApply _ (Some q) => al_ChangeId q = id
  | _ => False
  end.

(** The step a response acknowledges. *)
Definition cfg_serve (q : cfg_req) : M (Svc D ConfigState) (list ack) :=
  match q with
  | CPropose ctx req => r ← ProposeConfigChange ctx req;
      mret (option_list (Proposed <$> ccr_Change r))
  | CApprove ctx req => r ← ApproveConfigChange ctx req;
      mret (option_list (Approved <$> ccr_Change r))
  | CApply ctx req => r ← ApplyConfigChange ctx req;
      mret (option_list (Applied <$> ccr_Change r))
  | CHistory ctx req => ListConfigHistory ctx req;; mret []
  | CRecord ctx req => RecordDownloadLibraryChange ctx req;; mret []
  | CDownloads ctx req => ListDownloadLibraryChanges ctx req;; mret []
  end.

Fixpoint cfg_serve_all (qs : list cfg_req) : M (Svc D ConfigState) (list ack) :=
  match qs with
  | [] => mret []
  | q :: qs => a ← cfg_serve q; l ← cfg_serve_all qs; mret (a ++ l)
  end.

(** What requests that do not touch a change leave of it. *)
Definition unmoved (P : string → Prop) σ σ' : Prop :=
  ∀ id c, P id → changes σ !! id = Some c → changes σ' !! id = Some c.

Lemma unmoved_same P σ σ' : same_workflow σ σ' → unmoved P σ σ'.
Proof. intros [E _] id c _ Hc. by rewrite E. Qed.

Lemma cfg_serve_spec T q σ evs acks :
  cfg_inv acks σ → nextChangeID σ < int64_max → names_actor q →
  mspec (D := D) T (cfg_serve q) false σ evs (λ a σ' _,
    cfg_inv (acks ++ a) σ' ∧ nextChangeID σ' ≤ nextChangeID σ + 1
    ∧ unmoved (λ id, ¬ touches id q) σ σ'
    ∧ ∃ qs, qs `sublist_of` [q] ∧ Forall2 performs qs a).
Proof.
  intros Hinv Hmax Hq.
  assert (∀ P σ', same_workflow σ σ' → cfg_inv (acks ++ []) σ' ∧ nextChangeID σ' ≤ nextChangeID σ + 1
    ∧ unmoved P σ σ' ∧ ∃ qs, qs `sublist_of` [q] ∧ Forall2 performs qs []) as Hsame.
  { intros P σ' Hs. rewrite app_nil_r.
    split_and!; [by eapply cfg_inv_same| |by apply unmoved_same|exists []; split; [apply sublist_nil_l|done]].
    destruct Hs as (_ & _ & -> & _). lia. }
  assert (∀ a, performs q a → ∃ qs, qs `sublist_of` [q] ∧ Forall2 performs qs [a]) as Hone.
  { intros a Ha. exists [q]. by repeat constructor. }
  pose proof (cfg_inv_keyed _ _ Hinv) as Hkeyed.
  destruct q as [ctx req|ctx req|ctx req|ctx req|ctx req|ctx req]; simpl; mstep.
  - eapply mspec_mono; [by apply (ProposeConfigChange_spec _ _ _ _ _ acks)|].
    intros r σ' evs' [(-> & _ & ->)|(q & c & _ & _ & -> & Hc & Hid & _ & _ & Hp & ->)]; mstep;
      [by apply Hsame|]. simpl. split; [by apply cfg_inv_propose|]. split; [lia|].
    split; [|by apply Hone]. intros id c' _ Hc'. simpl. rewrite lookup_insert_ne; [done|].
    pose proof (fresh_change_id _ _ Hinv). congruence.
  - eapply mspec_mono; [by apply ApproveConfigChange_spec|].
    intros r σ' evs' [(-> & _ & -> & _)|(q & c & actor & at_ & -> & _ & -> & Hc & Hst & Ha & Hat & Hp & ->)];
      mstep; [by apply Hsame|].
    pose proof (ci_life _ _ Hinv (ap_ChangeId q)) as Hl. rewrite Hc in Hl. destruct Hl as [Hid Hl].
    split; [eapply cfg_inv_step; [done|exact Hc|done|by constructor]|]. split; [simpl; lia|].
    split; [|by apply Hone]. intros id c' Hid' Hc'. simpl. by rewrite Hid, lookup_insert_ne.
  - eapply mspec_mono; [by apply ApplyConfigChange_spec|].
    intros r σ' evs' [(-> & _ & -> & _)|(q & c & actor & at_ & -> & _ & -> & Hc & Hst & Ha & Hat & Hp & ->)];
      mstep; [by apply Hsame|].
    pose proof (ci_life _ _ Hinv (al_ChangeId q)) as Hl. rewrite Hc in Hl. destruct Hl as [Hid Hl].
    split; [eapply cfg_inv_step; [done|exact Hc|done|by constructor]|]. split; [simpl; lia|].
    split; [|by apply Hone]. intros id c' Hid' Hc'. simpl. by rewrite Hid, lookup_insert_ne.
  - eapply mspec_mono; [apply ListConfigHistory_spec|]. intros r σ' evs' [-> _]. mstep.
    by apply Hsame.
  - eapply mspec_mono; [by apply RecordDownloadLibraryChange_spec|]. intros r σ' evs' Hs. mstep.
    by apply Hsame.
  - eapply mspec_mono; [apply ListDownloadLibraryChanges_spec|]. intros r σ' evs' ->. mstep.
    by apply Hsame.
Qed.

Lemma cfg_serve_all_spec T qs σ evs acks :
  cfg_inv acks σ → nextChangeID σ + Z.of_nat (length qs) ≤ int64_max → Forall names_actor qs →
  mspec (D := D) T (cfg_serve_all qs) false σ evs (λ l σ' _,
    cfg_inv (acks ++ l) σ' ∧ nextChangeID σ' ≤ nextChangeID σ + Z.of_nat (length qs)
    ∧ unmoved (λ id, Forall (λ q, ¬ touches id q) qs) σ σ'
    ∧ ∃ qs', qs' `sublist_of` qs ∧ Forall2 performs qs' l).
Proof.
  revert σ evs acks. induction qs as [|q qs IH]; intros σ evs acks Hinv Hmax Hact; simpl.
  { mstep. rewrite app_nil_r. split_and!; [done|lia|by intros id c _ Hc|by exists []]. }
  simpl in Hmax. apply Forall_cons in Hact as [Hq Hqs].
  mstep. eapply mspec_mono; [apply (cfg_serve_spec _ _ _ _ acks); [done|lia|done]|].
  intros a σ1 evs1 (Hinv1 & Hn1 & Hu1 & qs1 & Hq1 & Hp1). mstep.
  eapply mspec_mono; [apply (IH _ _ (acks ++ a)); [done|lia|done]|].
  intros l σ2 evs2 (Hinv2 & Hn2 & Hu2 & qs2 & Hq2 & Hp2). mstep. rewrite app_assoc.
  split_and!; [done|lia| |].
  - intros id c [Hid1 Hid2]%Forall_cons Hc. by apply Hu2, Hu1.
  - exists (qs1 ++ qs2). split; [by apply (sublist_app qs1 [q] qs2 qs)|by apply Forall2_app].
Qed.

Lemma cfg_run clk qs :
  Z.of_nat (length qs) ≤ int64_max → Forall names_actor qs →
  ∃ acks s, cfg_serve_all qs (NewConfigService (D := D) clk None) = Done acks s
    ∧ in_memory s ∧ cfg_inv acks (st s)
    ∧ ∃ qs', qs' `sublist_of` qs ∧ Forall2 performs qs' acks.
Proof.
  intros Hlen Hact.
  destruct (mspec_call (λ _, True) (cfg_serve_all qs) (NewConfigService clk None) _
    (NewService_in_memory _ _) (λ _, I)
    (cfg_serve_all_spec _ _ _ _ _ cfg_inv_new Hlen Hact)) as (l & s & E & Hm & _ & Hinv & _ & _ & Hp).
  by exists l, s.
Qed.

(** C28: whatever requests that name their actor reach a new service without a
    database, all are answered, and every change it then holds is well typed:
    it has a namespace, key, value, proposer and creation time; approver and
    approval time are set exactly from the approval on, applier and application
    time exactly from the application on; and no other status occurs. *)
Theorem config_changes_typed clk qs :
  Z.of_nat (length qs) ≤ int64_max → Forall names_actor qs →
  ∃ acks s, cfg_serve_all qs (NewConfigService (D := D) clk None) = Done acks s
    ∧ map_Forall (λ id c, cc_ChangeId c = id ∧ change_typed c) (changes (st s)).
Proof.
  intros Hlen Hact. destruct (cfg_run clk qs Hlen Hact) as (acks & s & E & _ & Hinv & _).
  exists acks, s. split; [done|]. intros id c Hc. pose proof (ci_life _ _ Hinv id) as Hl.
  rewrite Hc in Hl. destruct Hl as [? Hl]. split; [done|]. by eapply lifecycle_typed.
Qed.

(** The value applied last for a key. *)
Definition last_applied (key : string) (acks : list ack) : option string :=
  last (omap (λ a, match a with
    | Applied c => if decide (keyFor (cc_ConfigNamespace c) (cc_ConfigKey c) = key)
                   then Some (cc_ProposedValue c) else None
    | _ => None end) acks).

Lemma values_after_lookup acks key : values_after acks !! key = last_applied key acks.
Proof.
  unfold values_after, last_applied. induction acks as [|a acks IH] using rev_ind; [done|].
  rewrite foldl_app, omap_app. destruct a as [c|c|c]; simpl; rewrite ?app_nil_r; [done..|].
  case_decide as Hk; simpl.
  - by rewrite last_snoc, Hk, lookup_insert_eq.
  - by rewrite app_nil_r, lookup_insert_ne.
Qed.

(** The change a value in force comes from. *)
Lemma values_after_split acks key v :
  values_after acks !! key = Some v →
  ∃ l1 c l2, acks = l1 ++ Applied c :: l2 ∧ cc_ProposedValue c = v
    ∧ keyFor (cc_ConfigNamespace c) (cc_ConfigKey c) = key
    ∧ ∀ c', Applied c' ∈ l2 → keyFor (cc_ConfigNamespace c') (cc_ConfigKey c') ≠ key.
Proof.
  unfold values_after. induction acks as [|a acks IH] using rev_ind; [done|].
  rewrite foldl_app. simpl. intros Hv.
  assert ((∃ c, a = Applied c ∧ keyFor (cc_ConfigNamespace c) (cc_ConfigKey c) = key)
    ∨ ¬ ∃ c, a = Applied c ∧ keyFor (cc_ConfigNamespace c) (cc_ConfigKey c) = key)
    as [(c & -> & Hk)|Hno].
  { destruct a as [c|c|c]; [right; naive_solver..|].
    destruct (decide (keyFor (cc_ConfigNamespace c) (cc_ConfigKey c) = key)); naive_solver. }
  - exists acks, c, []. simpl in Hv. rewrite Hk, lookup_insert_eq in Hv.
    split_and!; [done|congruence|done|]. by intros c' ?%not_elem_of_nil.
  - assert (foldl apply_value ∅ acks !! key = Some v) as Hv'.
    { destruct a as [c|c|c]; simpl in Hv; [done..|]. rewrite lookup_insert_ne in Hv; [done|naive_solver]. }
    destruct (IH Hv') as (l1 & c & l2 & -> & ? & ? & Hl). exists l1, c, (l2 ++ [a]).
    split_and!; [by rewrite <- app_assoc|done..|].
    intros c' [?|<-%list_elem_of_singleton]%elem_of_app; [by apply Hl|naive_solver].
Qed.

(** How a change came to be applied between the steps [l1] and [l2] of a run of
    the requests [qs]: three of them, one after the other, proposed, approved and
    applied it, each authorized and each recorded with the actor it names; what
    was applied is what was proposed and approved; and there was no other step
    of the change. *)
Definition controlled (qs : list cfg_req) (l1 : list ack) (c : ConfigChange) (l2 : list ack) : Prop :=
  ∃ c0 c1 q0 q1 q2, [q0; q1; q2] `sublist_of` qs
    ∧ performs q0 (Proposed c0) ∧ performs q1 (Approved c1) ∧ performs q2 (Applied c)
    ∧ steps_of (cc_ChangeId c) l1 = [Proposed c0; Approved c1] ∧ steps_of (cc_ChangeId c) l2 = []
    ∧ content c0 = content c ∧ content c1 = content c ∧ cc_ApproverId c1 = cc_ApproverId c.

Lemma cfg_inv_controlled qs qs' l1 c l2 σ :
  cfg_inv (l1 ++ Applied c :: l2) σ → qs' `sublist_of` qs →
  Forall2 performs qs' (l1 ++ Applied c :: l2) →
  controlled qs l1 c l2 ∧ changes σ !! cc_ChangeId c = Some c.
Proof.
  intros Hinv Hqs Hp. pose proof (ci_life _ _ Hinv (cc_ChangeId c)) as Hl.
  assert (steps_of (cc_ChangeId c) (l1 ++ Applied c :: l2)
    = steps_of (cc_ChangeId c) l1 ++ Applied c :: steps_of (cc_ChangeId c) l2) as Es.
  { rewrite steps_of_app, (steps_of_app _ [Applied c] l2), steps_of_one. simpl. by rewrite decide_True. }
  rewrite Es in Hl.
  destruct (changes σ !! cc_ChangeId c) as [x|]; [|by destruct (steps_of _ l1)]. destruct Hl as [_ Hl].
  destruct (lifecycle_applied _ _ _ _ Hl)
    as (c0 & c1 & by1 & at1 & by2 & at2 & E1 & E2 & -> & Hc1 & Hc). split; [|done].
  rewrite E1, E2 in Es. simpl in Es.
  destruct (Forall2_sublist_r performs qs' _ _ Hp (steps_of_sublist (cc_ChangeId c) _)) as (qs3 & Hs & H3).
  rewrite Es in H3.
  apply Forall2_cons_inv_r in H3 as (q0 & r0 & Hp0 & H3 & ->).
  apply Forall2_cons_inv_r in H3 as (q1 & r1 & Hp1 & H3 & ->).
  apply Forall2_cons_inv_r in H3 as (q2 & r2 & Hp2 & H3 & ->). apply Forall2_nil_inv_r in H3 as ->.
  exists c0, c1, q0, q1, q2. split_and!; try done; [by etrans|rewrite Hc, Hc1; done|by rewrite Hc..].
Qed.

(** C18: change control: every change applied in any run was proposed, then
    approved, then applied, once each and in this order, by three authorized
    requests whose actors are the proposer, the approver and the applier it
    records, with the same namespace, key and value throughout; and a value in
    force for a key is that of such a change, still recorded as it was applied,
    after which no other change of that key was applied. *)
Theorem config_change_control clk qs acks s :
  Z.of_nat (length qs) ≤ int64_max → Forall names_actor qs →
  cfg_serve_all qs (NewConfigService (D := D) clk None) = Done acks s →
  (∀ l1 c l2, acks = l1 ++ Applied c :: l2 → controlled qs l1 c l2)
  ∧ ∀ key v, currentValues (st s) !! key = Some v →
      ∃ l1 c l2, acks = l1 ++ Applied c :: l2 ∧ controlled qs l1 c l2
        ∧ keyFor (cc_ConfigNamespace c) (cc_ConfigKey c) = key ∧ cc_ProposedValue c = v
        ∧ changes (st s) !! cc_ChangeId c = Some c
        ∧ ∀ c', Applied c' ∈ l2 → keyFor (cc_ConfigNamespace c') (cc_ConfigKey c') ≠ key.
Proof.
  intros Hlen Hact E. destruct (cfg_run clk qs Hlen Hact) as (acks' & s' & E' & _ & Hinv & qs' & Hqs & Hp).
  rewrite E in E'. injection E' as <- <-. clear E. split.
  - intros l1 c l2 ->. by apply (cfg_inv_controlled _ _ _ _ _ _ Hinv Hqs Hp).
  - intros key v. rewrite (ci_values _ _ Hinv).
    intros (l1 & c & l2 & -> & Hv & Hk & Hlast)%values_after_split.
    destruct (cfg_inv_controlled _ _ _ _ _ _ Hinv Hqs Hp) as [Hc Hs]. by exists l1, c, l2.
Qed.

(** After any run, a proposal reports as previous value exactly the value
    of the change applied last for its namespace and key, or the empty string
    if there is none. *)
Theorem config_previous_value_exact clk qs acks s ctx req r s' c :
  Z.of_nat (length qs) < int64_max → Forall names_actor qs →
  cfg_serve_all qs (NewConfigService (D := D) clk None) = Done acks s →
  carries_actor (pc_Meta req) → ProposeConfigChange ctx (Some req) s = Done r s' →
  ccr_Change r = Some c →
  cc_PreviousValue c
  = default "" (last_applied (keyFor (pc_ConfigNamespace req) (pc_ConfigKey req)) acks).
Proof.
  intros Hlen Hact E Hreq Er Hc.
  assert (nextChangeID NewConfigState + Z.of_nat (length qs) ≤ int64_max) as Hmax by (simpl; lia).
  destruct (mspec_run (λ _, True) _ _ _ _ _ E (NewService_in_memory _ _) (λ _, I)
    (cfg_serve_all_spec _ _ _ _ _ cfg_inv_new Hmax Hact))
    as (Hm & _ & Hinv & Hn & _ & _). simpl in Hinv, Hn.
  assert (nextChangeID (st s) < int64_max) as Hmax' by lia.
  assert (∀ q, Some req = Some q → carries_actor (pc_Meta q)) as Hreq' by by intros q [= <-].
  destruct (mspec_run (λ _, True) _ _ _ _ _ Er Hm (λ _, I)
    (ProposeConfigChange_spec _ ctx (Some req) _ _ acks Hinv Hmax' Hreq'))
    as (_ & _ & [(? & _)|(q & c' & [= <-] & _ & Hc' & _ & _ & _ & Hp & _ & _)]); [congruence|].
  assert (c' = c) as -> by congruence.
  rewrite Hp, (ci_values _ _ Hinv). unfold map_get. by rewrite values_after_lookup.
Qed.

Lemma cfg_serve_all_app qs qs' s :
  cfg_serve_all (qs ++ qs') s
  = (a ← cfg_serve_all qs; b ← cfg_serve_all qs'; mret (a ++ b)) s.
Proof.
  revert s. induction qs as [|q qs IH]; intros s; simpl.
  - unfold mbind, M_bind, mret, M_ret. by destruct (cfg_serve_all qs' s).
  - unfold mbind, M_bind, mret, M_ret in *. destruct (cfg_serve q s) as [a s1| |]; [|done..].
    rewrite IH. destruct (cfg_serve_all qs s1) as [b s2| |]; [|done..].
    destruct (cfg_serve_all qs' s2) as [b' s3| |]; [|done..]. by rewrite app_assoc.
Qed.

(** A service after some run. *)
Definition cfg_reached s : Prop := in_memory s ∧ ∃ acks, cfg_inv acks (st s).

Lemma mspec_serve_app T qs qs' h σ evs Q :
  mspec T (cfg_serve_all qs) h σ evs (λ a σ' evs',
    mspec T (b ← cfg_serve_all qs'; mret (a ++ b)) h σ' evs' Q) →
  mspec (D := D) T (cfg_serve_all (qs ++ qs')) h σ evs Q.
Proof.
  intros Hm s Hs. unfold post. rewrite cfg_serve_all_app. by apply (mspec_bind T _ _ _ _ _ _ Hm).
Qed.

(** Approving a proposed change, and applying an approved one. *)
Lemma cfg_serve_approve T ctx ap c σ evs acks :
  cfg_inv acks σ → changes σ !! ap_ChangeId ap = Some c →
  cc_Status c = CONFIG_CHANGE_STATUS_PROPOSED → carries_actor (ap_Meta ap) →
  (config_authorize ctx (ap_Meta ap)).1 = true → ap_ChangeId ap ≠ "" →
  mspec (D := D) T (cfg_serve (CApprove ctx (Some ap))) false σ evs (λ l σ' _,
    ∃ actor at_, let c' := approve_with c actor at_ in
      l = [Approved c'] ∧ cfg_inv (acks ++ l) σ' ∧ nextChangeID σ' = nextChangeID σ
      ∧ changes σ' !! ap_ChangeId ap = Some c').
Proof.
  intros Hinv Hc Hst Hact Hauth Hne. cbn [cfg_serve]. mstep.
  eapply mspec_mono; [apply ApproveConfigChange_spec; [by eapply cfg_inv_keyed|by intros q [= <-]]|].
  intros r σ' evs' [(_ & _ & _ & Hno)|
    (q & c' & actor & at_ & [= <-] & _ & -> & Hc' & _ & Ha & Hat & _ & ->)].
  { by destruct (Hno ap c). }
  assert (c' = c) as -> by congruence. mstep. exists actor, at_. split; [done|].
  pose proof (ci_life _ _ Hinv (ap_ChangeId ap)) as Hl. rewrite Hc in Hl. destruct Hl as [Hid Hl].
  split_and!; [eapply cfg_inv_step; [done|exact Hc|done|by constructor]|done|].
  simpl. by rewrite Hid, lookup_insert_eq.
Qed.

Lemma cfg_serve_apply T ctx al c σ evs acks :
  cfg_inv acks σ → changes σ !! al_ChangeId al = Some c →
  cc_Status c = CONFIG_CHANGE_STATUS_APPROVED → carries_actor (al_Meta al) →
  (config_authorize ctx (al_Meta al)).1 = true → al_ChangeId al ≠ "" →
  mspec (D := D) T (cfg_serve (CApply ctx (Some al))) false σ evs (λ l σ' _,
    ∃ actor at_, let c' := apply_with c actor at_ in
      l = [Applied c'] ∧ changes σ' !! al_ChangeId al = Some c'
      ∧ currentValues σ' !! keyFor (cc_ConfigNamespace c) (cc_ConfigKey c)
        = Some (cc_ProposedValue c)).
Proof.
  intros Hinv Hc Hst Hact Hauth Hne. cbn [cfg_serve]. mstep.
  eapply mspec_mono; [apply ApplyConfigChange_spec; [by eapply cfg_inv_keyed|by intros q [= <-]]|].
  intros r σ' evs' [(_ & _ & _ & Hno)|
    (q & c' & actor & at_ & [= <-] & _ & -> & Hc' & _ & Ha & Hat & _ & ->)].
  { by destruct (Hno al c). }
  assert (c' = c) as -> by congruence. mstep. exists actor, at_. split; [done|].
  pose proof (ci_life _ _ Hinv (al_ChangeId al)) as Hl. rewrite Hc in Hl. destruct Hl as [Hid _].
  split; simpl; [by rewrite Hid, lookup_insert_eq|by rewrite lookup_insert_eq].
Qed.

Lemma completes_spec T id c qs1 qs2 ctx1 ctx2 ap al σ evs acks :
  cfg_inv acks σ → changes σ !! id = Some c → cc_Status c = CONFIG_CHANGE_STATUS_PROPOSED →
  nextChangeID σ + Z.of_nat (length qs1 + length qs2) + 2 ≤ int64_max →
  Forall (λ q, names_actor q ∧ ¬ touches id q) qs1 →
  Forall (λ q, names_actor q ∧ ¬ touches id q) qs2 →
  ap_ChangeId ap = id → carries_actor (ap_Meta ap) →
  (config_authorize ctx1 (ap_Meta ap)).1 = true →
  al_ChangeId al = id → carries_actor (al_Meta al) →
  (config_authorize ctx2 (al_Meta al)).1 = true → id ≠ "" →
  mspec (D := D) T
    (cfg_serve_all (qs1 ++ CApprove ctx1 (Some ap) :: qs2 ++ [CApply ctx2 (Some al)]))
    false σ evs (λ l σ' _, ∃ c1 c2,
      Approved c1 ∈ l ∧ last l = Some (Applied c2) ∧ content c2 = content c
      ∧ changes σ' !! id = Some c2
      ∧ currentValues σ' !! keyFor (cc_ConfigNamespace c) (cc_ConfigKey c)
        = Some (cc_ProposedValue c)).
Proof.
  intros Hinv Hc Hst Hmax [Ha1 Ht1]%Forall_and [Ha2 Ht2]%Forall_and Hap Hap1 Hap2 Hal Hal1 Hal2 Hne.
  apply mspec_serve_app.
  eapply mspec_mono; [apply (cfg_serve_all_spec _ _ _ _ acks); [done|lia|done]|].
  intros l1 σ1 evs1 (Hinv1 & Hn1 & Hu1 & _). pose proof (Hu1 id c Ht1 Hc) as Hc1. clear Hu1.
  cbn [cfg_serve_all]. mstep. mstep. subst id.
  eapply mspec_mono; [eapply cfg_serve_approve; [exact Hinv1|exact Hc1|done..]|].
  intros l2 σ2 evs2 (actor & at_ & -> & Hinv2 & Hn2 & Hc2). mstep.
  apply mspec_serve_app.
  eapply mspec_mono; [eapply cfg_serve_all_spec; [exact Hinv2|lia|done]|].
  intros l3 σ3 evs3 (Hinv3 & Hn3 & Hu3 & _). pose proof (Hu3 _ _ Ht2 Hc2) as Hc3. clear Hu3.
  cbn [cfg_serve_all]. mstep. mstep. rewrite <- Hal in Hc3, Hne.
  eapply mspec_mono; [eapply cfg_serve_apply; [exact Hinv3|exact Hc3|done..]|].
  intros l4 σ4 evs4 (actor' & at' & -> & Hc4 & Hv). rewrite Hal in Hc4. msteps.
  eexists _, _. split_and!; [|by rewrite !app_assoc, app_nil_r, last_snoc|done|exact Hc4|exact Hv].
  apply elem_of_app. right. by left.
Qed.

(** C29: a proposed change can be completed: whatever other requests arrive in
    between, when an operator or a service approves the change and later
    applies it, both steps succeed, the change ends up applied with its content
    unchanged, and its value is the current value of its key. *)
Theorem config_change_completes s id c qs1 qs2 ctx1 ctx2 ap al :
  cfg_reached s → changes (st s) !! id = Some c → cc_Status c = CONFIG_CHANGE_STATUS_PROPOSED →
  nextChangeID (st s) + Z.of_nat (length qs1 + length qs2) + 2 ≤ int64_max →
  Forall (λ q, names_actor q ∧ ¬ touches id q) (qs1 ++ qs2) →
  ap_ChangeId ap = id → carries_actor (ap_Meta ap) →
  (config_authorize ctx1 (ap_Meta ap)).1 = true →
  al_ChangeId al = id → carries_actor (al_Meta al) →
  (config_authorize ctx2 (al_Meta al)).1 = true → id ≠ "" →
  ∃ acks s' c1 c2,
    cfg_serve_all (qs1 ++ CApprove ctx1 (Some ap) :: qs2 ++ [CApply ctx2 (Some al)]) s
      = Done acks s'
    ∧ Approved c1 ∈ acks ∧ last acks = Some (Applied c2) ∧ content c2 = content c
    ∧ changes (st s') !! id = Some c2
    ∧ currentValues (st s') !! keyFor (cc_ConfigNamespace c) (cc_ConfigKey c)
      = Some (cc_ProposedValue c).
Proof.
  intros [Hm [acks Hinv]] Hc Hst Hmax Hqs Hap Hap1 Hap2 Hal Hal1 Hal2 Hne.
  apply Forall_app in Hqs as [Hq1 Hq2].
  destruct (mspec_call (λ _, True) _ s _ Hm (λ _, I)
    (completes_spec _ id c qs1 qs2 ctx1 ctx2 ap al _ _ acks Hinv Hc Hst Hmax Hq1 Hq2 Hap Hap1
      Hap2 Hal Hal1 Hal2 Hne)) as (l & s' & E & _ & _ & c1 & c2 & ?). by exists l, s', c1, c2.
Qed.
End mem.

(** ** With any database *)

Section any_db.
Context {D : Type} `{!Wall, !Crypto, !JsonValid, !AuditDB D, !ConfigDB D}.
Implicit Types s : Svc D ConfigState.

(** The parts of an entry that its signature depends on. *)
Definition signed_part (e : DownloadLibraryEntry) : DownloadAction * string * string * string :=
  (dl_Action e, dl_SignerKid e, dl_Signature e, downloadSignaturePayload e).

Lemma complete_entry_keeps meta entry s :
  wlp (complete_entry meta entry) (λ e s', signed_part e = signed_part entry
    ∧ downloadSigKeys (st s') = downloadSigKeys (st s)) s.
Proof.
  unfold complete_entry, fill_entry_id, fill_changed_by, fill_occurred_at.
  eapply post_seq with (P := λ e s', signed_part e = signed_part entry
    ∧ downloadSigKeys (st s') = downloadSigKeys (st s)).
  { case_decide; [|by apply post_ret]. unfold nextEntryIDLocked.
    apply post_bind, post_bind, post_modify, post_bind, post_gets, post_ret. by apply post_ret. }
  intros e1 s1 [He1 Hs1].
  eapply post_seq with (P := λ e s', signed_part e = signed_part entry
    ∧ downloadSigKeys (st s') = downloadSigKeys (st s)).
  { case_decide; [|by apply post_ret]. unfold metaActorId.
    destruct (m ← meta; MetaActor m); [|done]. apply post_bind, post_ret. by apply post_ret. }
  intros e2 s2 [He2 Hs2]. case_decide; [|by apply post_ret].
  apply post_bind. eapply post_done; [apply now_eq|]. by apply post_ret.
Qed.

(** A valid signature of the entry under the installed keys. *)
Definition signed (keys : gmap string string) (e : DownloadLibraryEntry) : Prop :=
  ∃ secret, keys !! dl_SignerKid e = Some secret ∧ secret ≠ ""
    ∧ TrimSpace (dl_Signature e) = RawStdEncoding (hmac_sha256 secret (downloadSignaturePayload e)).

Lemma verifyDownloadSignature_signed keys e :
  verifyDownloadSignature e (map_get "" keys (dl_SignerKid e)) = true → signed keys e.
Proof.
  unfold verifyDownloadSignature, map_get. case_decide as Hne; [done|].
  rewrite bool_decide_eq_true. destruct (keys !! dl_SignerKid e) as [secret|] eqn:E; [|done].
  intros Heq. exists secret. split; [done|]. split; [exact Hne|symmetry; exact Heq].
Qed.

Lemma wlp_download_reply meta code reason s :
  wlp (download_reply meta code reason) (λ r (_ : Svc D ConfigState), ResCode (rdr_Meta r) = code) s.
Proof.
  unfold download_reply. eapply post_seq; [apply wlp_responseMeta|].
  intros m s' Hm. by apply post_ret.
Qed.

Lemma check_activation_sound meta entry s :
  wlp (check_activation meta entry) (λ r _,
    match r with
    | inl r => ResCode (rdr_Meta r) ≠ RESULT_CODE_OK
    | inr _ => dl_Action entry = DOWNLOAD_ACTION_ACTIVATE →
        signed (downloadSigKeys (st s)) entry
    end) s.
Proof.
  unfold check_activation. case_decide as Ha; [|by apply post_ret]. case_decide.
  { eapply post_seq; [apply wlp_download_reply|]. intros r s1 Hr. apply post_ret. congruence. }
  apply post_bind, post_gets.
  destruct (verifyDownloadSignature _ _) eqn:Hv; cbn [negb].
  - apply post_ret. intros _. by apply verifyDownloadSignature_signed.
  - apply wlp_skip. intros a s1. eapply post_seq; [apply wlp_download_reply|].
    intros r s2 Hr. apply post_ret. congruence.
Qed.

Lemma signed_part_signed keys e e' : signed_part e = signed_part e' → signed keys e → signed keys e'.
Proof. intros [= _ Hk Hs Hp] (secret & ? & ? & ?). exists secret. by rewrite <- Hk, <- Hs, <- Hp. Qed.

(** With any database, an activation of a library entry is only ever
    acknowledged if a key is installed for its signer and its signature is the
    base64 HMAC-SHA256 of path, checksum, version and action under that key. *)
Theorem activation_needs_signature s ctx meta entry r s' :
  RecordDownloadLibraryChange ctx (Some (mkRecordDownloadLibraryChangeRequest meta (Some entry))) s
    = Done r s' →
  ResCode (rdr_Meta r) = RESULT_CODE_OK → dl_Action entry = DOWNLOAD_ACTION_ACTIVATE →
  signed (downloadSigKeys (st s)) entry.
Proof.
  intros E Hok Hact. revert Hok.
  eapply (post_elim True _ (λ r _, ResCode (rdr_Meta r) = RESULT_CODE_OK →
    signed (downloadSigKeys (st s)) entry)); [|exact E]. clear r s' E.
  unfold RecordDownloadLibraryChange; cbv zeta.
  assert (∀ meta code reason s0, code ≠ RESULT_CODE_OK →
    wlp (download_reply meta code reason) (λ r (_ : Svc D ConfigState),
      ResCode (rdr_Meta r) = RESULT_CODE_OK → signed (downloadSigKeys (st s)) entry) s0) as Hno.
  { intros m0 code reason s0 Hc. eapply post_mono; [apply wlp_download_reply|].
    intros r s1 Hr Hok. congruence. }
  case_decide; [by apply Hno|].
  destruct (config_authorize ctx meta) as [[|] why]; cbn [negb].
  2:{ apply wlp_skip. intros a s1. by apply Hno. }
  unfold locked. apply post_bind. unfold lock, post at 1. destruct (mu (base s)); [done|].
  apply post_bind, post_on_panic, post_bind. eapply post_mono; [apply complete_entry_keeps|].
  intros e1 s1 [He1 Hs1]. apply post_bind. eapply post_mono; [apply check_activation_sound|].
  intros [r|e2] s2 Hr.
  - apply post_ret, wlp_skip. intros [] s3. by apply post_ret.
  - eapply post_mono; [apply wlp_true|]. intros r s3 _. apply wlp_skip. intros [] s4.
    apply post_ret. intros _. rewrite Hs1 in Hr. eapply signed_part_signed; [exact He1|].
    apply Hr. injection He1 as -> _ _ _. done.
Qed.

(** A panic under the lock releases it. *)
Lemma locked_panics {A} (m : M (Svc D ConfigState) A) s s' :
  mu (base s) = false → m (s <| base ::= λ b, b <| mu := true |> |>) = Panic s' →
  locked m s = Panic (unlocked s').
Proof. intros Hmu Hm. unfold locked, lock, on_panic, mbind, M_bind. by rewrite Hmu, Hm. Qed.

(** The same request to ApproveConfigChange panics after the status is
    written. *)
Lemma approve_panics_without_actor s ctx req c :
  db (base s) = None → mu (base s) = false →
  (config_authorize ctx (ap_Meta req)).1 = true → (m ← ap_Meta req; MetaActor m) = None →
  ap_ChangeId req ≠ "" → changes (st s) !! ap_ChangeId req = Some c →
  cc_Status c = CONFIG_CHANGE_STATUS_PROPOSED →
  ApproveConfigChange ctx (Some req) s
  = Panic (s <| st ::= λ σ, σ <| changes ::= insert (ap_ChangeId req)
      (c <| cc_Status := CONFIG_CHANGE_STATUS_APPROVED |>) |> |>).
Proof.
  intros Hdb Hmu Hauth Hact Hid Hc Hst. unfold ApproveConfigChange; cbv zeta.
  rewrite decide_False by done.
  destruct (config_authorize ctx (ap_Meta req)) as [ok why]. simpl in Hauth. subst ok. cbn [negb].
  destruct s as [[clk store held n d tk] σ]. simpl in Hdb, Hmu, Hc. subst d held.
  etrans; [apply locked_panics; [done|]|].
  { eapply panic_bind; [unfold load_change, mbind, M_bind, get_st, gets, dbEnabled; simpl; by rewrite Hc|].
    cbv beta iota. rewrite decide_False by (rewrite Hst; tauto).
    eapply panic_bind; [done|]. unfold metaActorId. rewrite Hact. done. }
  done.
Qed.

(** An operator whose token is accepted but whose request has no actor in
    its envelope makes ProposeConfigChange dereference nil: the handler panics
    instead of answering. *)
Theorem propose_panics_without_actor s ctx req :
  db (base s) = None → mu (base s) = false →
  (config_authorize ctx (pc_Meta req)).1 = true → (m ← pc_Meta req; MetaActor m) = None →
  pc_ConfigNamespace req ≠ "" → pc_ConfigKey req ≠ "" → pc_ProposedValue req ≠ "" →
  ∃ s', ProposeConfigChange ctx (Some req) s = Panic s' ∧ mu (base s') = false
    ∧ changes (st s') = changes (st s).
Proof.
  intros Hdb Hmu Hauth Hact Hns Hkey Hval. unfold ProposeConfigChange; cbv zeta.
  rewrite decide_False by tauto.
  destruct (config_authorize ctx (pc_Meta req)) as [ok why]. simpl in Hauth. subst ok. cbn [negb].
  eexists. split; [|split].
  { apply locked_panics; [done|]. eapply panic_bind; [apply now_eq|].
    eapply panic_bind; [done|]. eapply panic_bind; [done|].
    eapply panic_bind; [unfold dbEnabled, gets; simpl; by rewrite Hdb|]. cbv beta iota.
    eapply panic_bind; [done|]. cbv beta iota. unfold metaActorId. by rewrite Hact. }
  all: done.
Qed.

(** C40: a request that carries no actor in its envelope breaks the change
    control: in any state a service without a database can reach, an approval
    of a proposed change by a caller whose token authorizes it panics after the
    status is written, and releases the lock; the change is then approved
    without an approver, and the next application of it succeeds and puts its
    value in force. *)
Theorem panic_leaves_change_approved s id c ctx ap ctx' al :
  cfg_reached s → changes (st s) !! id = Some c → cc_Status c = CONFIG_CHANGE_STATUS_PROPOSED →
  ap_ChangeId ap = id → (config_authorize ctx (ap_Meta ap)).1 = true →
  (m ← ap_Meta ap; MetaActor m) = None → id ≠ "" →
  al_ChangeId al = id → (config_authorize ctx' (al_Meta al)).1 = true → carries_actor (al_Meta al) →
  ∃ s1 r s2 c', ApproveConfigChange ctx (Some ap) s = Panic s1
    ∧ mu (base s1) = false
    ∧ changes (st s1) !! id = Some (c <| cc_Status := CONFIG_CHANGE_STATUS_APPROVED |>)
    ∧ ApplyConfigChange ctx' (Some al) s1 = Done r s2
    ∧ ResCode (ccr_Meta r) = RESULT_CODE_OK ∧ ccr_Change r = Some c'
    ∧ cc_ApproverId c' = "" ∧ cc_ApprovedAt c' = "" ∧ changes (st s2) !! id = Some c'
    ∧ currentValues (st s2) !! keyFor (cc_ConfigNamespace c) (cc_ConfigKey c)
      = Some (cc_ProposedValue c).
Proof.
  intros [Hm [acks Hinv]] Hc Hst <- Hauth Hno Hid Hal Hauth' Hact.
  pose proof (approve_panics_without_actor s ctx ap c (im_db _ Hm) (im_mu _ Hm) Hauth Hno Hid Hc Hst) as E.
  set (s1 := s <| st ::= _ |>) in E.
  assert (in_memory s1) as Hm1 by (destruct Hm; by split).
  pose proof (ci_life _ _ Hinv (ap_ChangeId ap)) as Hl. rewrite Hc in Hl. destruct Hl as [Hcid Hl].
  apply lifecycle_typed in Hl. unfold change_typed in Hl. rewrite Hst in Hl.
  assert (changes (st s1) !! ap_ChangeId ap
    = Some (c <| cc_Status := CONFIG_CHANGE_STATUS_APPROVED |>)) as Hc1 by apply lookup_insert_eq.
  assert (keyed (st s1)) as Hk1.
  { destruct (cfg_inv_keyed _ _ Hinv) as [Hk1 Hk2]. split; [exact Hk1|]. intros id x Hx.
    destruct (decide (ap_ChangeId ap = id)) as [<-|Hne].
    - rewrite Hc1 in Hx. injection Hx as <-. exact Hcid.
    - apply Hk2. rewrite <- Hx. symmetry. by apply lookup_insert_ne. }
  assert (∀ q, Some al = Some q → carries_actor (al_Meta q)) as Hact' by by intros q [= <-].
  destruct (mspec_call (λ _, True) _ s1 _ Hm1 (λ _, I)
    (ApplyConfigChange_spec _ ctx' (Some al) _ _ Hk1 Hact')) as (r & s2 & E2 & _ & _ & Hr).
  destruct Hr as [(_ & _ & _ & Hno')|
    (q & c' & actor & at_ & [= <-] & Hok & Hch & Hc' & _ & Ha & Hat & _ & Hs2)].
  { destruct (Hno' al _ eq_refl Hauth' ltac:(congruence) ltac:(by rewrite Hal)). done. }
  rewrite Hal, Hc1 in Hc'. injection Hc' as <-.
  eexists s1, r, s2, _. split_and!; [exact E|apply Hm1|exact Hc1|exact E2|exact Hok|exact Hch|..].
  - simpl. tauto.
  - simpl. tauto.
  - rewrite Hs2. simpl. rewrite Hcid. apply lookup_insert_eq.
  - rewrite Hs2. simpl. apply lookup_insert_eq.
Qed.
End any_db.

(** Two namespaces with the same current value: the key of the map of current
    values joins namespace and key with a separator that either may contain. *)
Lemma config_keys_collide : keyFor "games::slots" "rtp" = keyFor "games" "slots::rtp".
Proof. reflexivity. Qed.

(** The signature does not separate the fields it covers: a signature of one
    path and checksum is a signature of another. *)
Lemma signature_fields_collide version action :
  downloadSignaturePayload (mkDownloadLibraryEntry "" "lib|a" "b" version action "" "" "" "" "" "")
  = downloadSignaturePayload (mkDownloadLibraryEntry "" "lib" "a|b" version action "" "" "" "" "" "").
Proof. reflexivity. Qed.

(** ** Concrete instances *)

Import Concrete.

(** A database with the statements of config_postgres.go on two tables: the
    upsert of a change keeps the first namespace, key, value, proposer and
    creation time of a change id. *)
Module CfgTable.
Record tables := mkTables {
  change_rows : gmap string config_row; value_rows : gmap (string * string) string }.
Definition parse (t : option string) : option Time := v ← t; ParseRFC3339Nano v.

#[export] Instance config_db : ConfigDB tables := {|
  x_config_change id ns key val prev reason status proposer approver applier created approved applied d :=
    let row := match change_rows d !! id with
      | None => mkConfigRow id ns key val prev reason status proposer approver applier
          (default 0 (parse created)) (parse approved) (parse applied)
      | Some r => mkConfigRow (cr_change_id r) (cr_namespace r) (cr_key r) (cr_proposed_value r)
          (cr_previous_value r) reason status (cr_proposer_id r) approver applier
          (cr_created_at r) (parse approved) (parse applied)
      end in
    (Ok (), mkTables (<[id := row]> (change_rows d)) (value_rows d));
  x_config_value ns key val _ d :=
    (Ok (), mkTables (change_rows d) (<[(ns, key) := val]> (value_rows d)));
  x_download _ _ _ _ _ _ _ _ _ _ _ d := (Ok (), d);
  q_config_value ns key d := (Ok (value_rows d !! (ns, key)), d);
  q_config_change id d := (Ok (change_rows d !! id), d);
  q_config_history _ _ _ d := (Ok ((map_to_list (change_rows d)).*2), d);
  q_downloads _ _ d := (Ok [], d) |}.
End CfgTable.
Import CfgTable.

Definition ex_propose (ns key val : string) : cfg_req :=
  CPropose None (Some (mkProposeConfigChangeRequest (operator_meta "") ns key val "tuning")).
Definition ex_approve (id : string) : ApproveConfigChangeRequest :=
  mkApproveConfigChangeRequest (operator_meta "") id "".
Definition ex_apply (id : string) : ApplyConfigChangeRequest :=
  mkApplyConfigChangeRequest (operator_meta "") id "".
(** One change from proposal to application. *)
Definition ex_change (ns key val id : string) : list cfg_req :=
  [ex_propose ns key val; CApprove None (Some (ex_approve id)); CApply None (Some (ex_apply id))].

(** A service that keeps its state in the database only, as in strict
    production. *)
Definition strict_service (d : tables) : Svc tables ConfigState :=
  mkSvc (mkBase None (Some NewInMemoryStore) false 0 (Some d) 0)
    (NewConfigState <| cfg_disableInMemoryCache := true |>).

(** Change ids restart with the process: after a restart on the same
    database the first proposal gets the id of the first change ever made.  Its
    row is reset to proposed but keeps the old content, so approving and
    applying the new change acknowledges the old one, and the proposed value is
    never set. *)
Theorem config_ids_restart :
  match cfg_serve_all (ex_change "limits" "max_bet" "100" "cfg-1")
    (strict_service (mkTables ∅ ∅)) with
  | Done _ s1 =>
      match cfg_serve_all (ex_change "games" "rtp" "97" "cfg-1")
        (strict_service (default (mkTables ∅ ∅) (db (base s1)))) with
      | Done acks s2 =>
          (λ a, (cc_ConfigKey (ack_change a), cc_ProposedValue (ack_change a))) <$> acks
            = [("rtp", "97"); ("max_bet", "100"); ("max_bet", "100")]
          ∧ match db (base s2) with
            | Some d => size (change_rows d) = 1%nat ∧ value_rows d !! ("games", "rtp") = None
            | None => False
            end
      | _ => False
      end
  | _ => False
  end.
Proof. vm_compute. done. Qed.

Definition ex_cfg_run : list cfg_req :=
  ex_change "limits" "max_bet" "100" "cfg-1" ++ [ex_propose "limits" "max_bet" "200"].
Definition ex_config : Svc tables ConfigState :=
  match cfg_serve_all ex_cfg_run (NewConfigService None None) with
  | Done _ s => s
  | _ => NewConfigService None None
  end.

Lemma operator_carries key : carries_actor (operator_meta key).
Proof. by eexists. Qed.

Lemma ex_cfg_run_actors : Forall names_actor ex_cfg_run.
Proof. repeat (apply Forall_cons; split; [simpl; intros q [= <-]; apply operator_carries|]). by apply Forall_nil. Qed.

Lemma ex_config_reached : cfg_reached ex_config.
Proof.
  unfold ex_config. destruct (cfg_run (D := tables) None ex_cfg_run) as (l & s & -> & Hm & Hinv & _);
    [vm_compute; discriminate|apply ex_cfg_run_actors|]. split; [done|by exists l].
Qed.

Lemma config_changes_typed_witness :
  ∃ acks s, cfg_serve_all ex_cfg_run (NewConfigService (D := tables) None None) = Done acks s
    ∧ map_Forall (λ id c, cc_ChangeId c = id ∧ change_typed c) (changes (st s)).
Proof.
  apply (config_changes_typed (D := tables) None ex_cfg_run);
    [vm_compute; discriminate|exact ex_cfg_run_actors].
Defined.

Lemma config_change_control_witness :
  match cfg_serve_all ex_cfg_run (NewConfigService (D := tables) None None) with
  | Done acks s =>
      currentValues (st s) !! keyFor "limits" "max_bet" = Some "100"
      ∧ ∃ l1 c l2, acks = l1 ++ Applied c :: l2 ∧ controlled ex_cfg_run l1 c l2
          ∧ cc_ProposedValue c = "100"
  | _ => False
  end.
Proof.
  assert (match cfg_serve_all ex_cfg_run (NewConfigService (D := tables) None None) with
    | Done _ s => currentValues (st s) !! keyFor "limits" "max_bet" = Some "100"
    | _ => False end) as Hr by (vm_compute; reflexivity).
  destruct (cfg_serve_all ex_cfg_run (NewConfigService (D := tables) None None))
    as [acks s| |] eqn:E; [|exact (False_ind _ Hr)..].
  split; [exact Hr|].
  destruct (config_change_control (D := tables) None ex_cfg_run acks s) as [_ Hv];
    [vm_compute; discriminate|exact ex_cfg_run_actors|exact E|].
  destruct (Hv _ _ Hr) as (l1 & c & l2 & Ea & Hc & _ & Hval & _).
  exists l1, c, l2. split; [exact Ea|]. split; [exact Hc|exact Hval].
Defined.

Definition ex_next : ProposeConfigChangeRequest :=
  mkProposeConfigChangeRequest (operator_meta "") "limits" "max_bet" "300" "".

Lemma config_previous_value_exact_witness :
  match cfg_serve_all ex_cfg_run (NewConfigService (D := tables) None None) with
  | Done acks s =>
      match ProposeConfigChange None (Some ex_next) s with
      | Done r _ => match ccr_Change r with
          | Some c => cc_PreviousValue c = default "" (last_applied (keyFor "limits" "max_bet") acks)
              ∧ cc_PreviousValue c = "100"
          | None => False end
      | _ => False
      end
  | _ => False
  end.
Proof.
  assert (match cfg_serve_all ex_cfg_run (NewConfigService (D := tables) None None) with
    | Done acks s =>
        match ProposeConfigChange None (Some ex_next) s with
        | Done r _ => match ccr_Change r with Some c => cc_PreviousValue c = "100" | None => False end
        | _ => False
        end
    | _ => False end) as Hr by (vm_compute; reflexivity).
  destruct (cfg_serve_all ex_cfg_run _) as [acks s| |] eqn:E; [|exact (False_ind _ Hr)..].
  destruct (ProposeConfigChange None (Some ex_next) s) as [r s'| |] eqn:Er; [|exact (False_ind _ Hr)..].
  destruct (ccr_Change r) as [c|] eqn:Hc; [|exact (False_ind _ Hr)].
  split; [|exact Hr].
  refine (config_previous_value_exact (D := tables) None ex_cfg_run acks s None ex_next r s' c _
    ex_cfg_run_actors E (operator_carries "") Er Hc). vm_compute. reflexivity.
Defined.

Lemma config_change_completes_witness :
  ∃ acks s' c1 c2,
    cfg_serve_all ([CDownloads None None] ++ CApprove None (Some (ex_approve "cfg-2"))
      :: [ex_propose "games" "rtp" "97"] ++ [CApply None (Some (ex_apply "cfg-2"))]) ex_config
      = Done acks s'
    ∧ Approved c1 ∈ acks ∧ last acks = Some (Applied c2)
    ∧ currentValues (st s') !! keyFor "limits" "max_bet" = Some "200".
Proof.
  assert (match changes (st ex_config) !! "cfg-2" with
    | Some c => cc_Status c = CONFIG_CHANGE_STATUS_PROPOSED ∧ cc_ConfigNamespace c = "limits"
        ∧ cc_ConfigKey c = "max_bet" ∧ cc_ProposedValue c = "200"
    | None => False end) as Hr by (vm_compute; done).
  destruct (changes (st ex_config) !! "cfg-2") as [c|] eqn:Hc; [|exact (False_ind _ Hr)].
  destruct Hr as (Hst & Hns & Hkey & Hval).
  destruct (config_change_completes ex_config "cfg-2" c [CDownloads None None]
    [ex_propose "games" "rtp" "97"] None None (ex_approve "cfg-2") (ex_apply "cfg-2")
    ex_config_reached Hc Hst) as (acks & s' & c1 & c2 & E & H1 & H2 & _ & _ & Hv);
    [vm_compute; discriminate| |reflexivity|apply operator_carries|reflexivity|reflexivity
    |apply operator_carries|reflexivity|discriminate|].
  - repeat (apply Forall_cons; split; [split; [|by intros []]|]);
      [exact I|simpl; intros q [= <-]; apply operator_carries|by apply Forall_nil].
  - exists acks, s', c1, c2. rewrite Hns, Hkey, Hval in Hv.
    split; [exact E|]. split; [exact H1|]. split; [exact H2|exact Hv].
Defined.

(** An activation signed with an installed key. *)
Definition ex_entry (sig : string) : DownloadLibraryEntry :=
  mkDownloadLibraryEntry "" "games/slots.bin" "abc" "1.0" DOWNLOAD_ACTION_ACTIVATE "" "" ""
    "k1" sig "".
Definition ex_signature : string :=
  RawStdEncoding (hmac_sha256 "secret" (downloadSignaturePayload (ex_entry ""))).
Definition ex_signing : Svc tables ConfigState :=
  mkSvc (mkBase None (Some NewInMemoryStore) false 0 None 0)
    (NewConfigState <| downloadSigKeys := {[ "k1" := "secret" ]} |>).

Lemma activation_needs_signature_witness :
  match RecordDownloadLibraryChange None (Some (mkRecordDownloadLibraryChangeRequest
      (operator_meta "") (Some (ex_entry ex_signature)))) ex_signing with
  | Done r _ => ResCode (rdr_Meta r) = RESULT_CODE_OK
  | _ => False
  end ∧ signed (downloadSigKeys (st ex_signing)) (ex_entry ex_signature).
Proof.
  assert (match RecordDownloadLibraryChange None (Some (mkRecordDownloadLibraryChangeRequest
      (operator_meta "") (Some (ex_entry ex_signature)))) ex_signing with
    | Done r _ => ResCode (rdr_Meta r) = RESULT_CODE_OK
    | _ => False end) as Hr by (vm_compute; reflexivity).
  split; [exact Hr|].
  destruct (RecordDownloadLibraryChange None _ ex_signing) as [r s'| |] eqn:E; [|exact (False_ind _ Hr)..].
  exact (activation_needs_signature ex_signing None (operator_meta "") (ex_entry ex_signature) r s'
    E Hr eq_refl).
Defined.

(** The first operator below sends an approval without an envelope; the second
    applies the change. *)
Definition ex_operator : option Context := Some (mkContext (Some (mkAuthActor "op" "operator"))).

Lemma panic_leaves_change_approved_witness :
  ∃ s1 r s2 c', ApproveConfigChange ex_operator (Some (mkApproveConfigChangeRequest None "cfg-2" ""))
      ex_config = Panic s1
    ∧ ApplyConfigChange None (Some (ex_apply "cfg-2")) s1 = Done r s2
    ∧ ccr_Change r = Some c' ∧ cc_ApproverId c' = ""
    ∧ currentValues (st s2) !! keyFor "limits" "max_bet" = Some "200".
Proof.
  assert (match changes (st ex_config) !! "cfg-2" with
    | Some c => cc_Status c = CONFIG_CHANGE_STATUS_PROPOSED ∧ cc_ConfigNamespace c = "limits"
        ∧ cc_ConfigKey c = "max_bet" ∧ cc_ProposedValue c = "200"
    | None => False end) as Hr by (vm_compute; done).
  destruct (changes (st ex_config) !! "cfg-2") as [c|] eqn:Hc; [|exact (False_ind _ Hr)].
  destruct Hr as (Hst & Hns & Hkey & Hval).
  destruct (panic_leaves_change_approved ex_config "cfg-2" c ex_operator
    (mkApproveConfigChangeRequest None "cfg-2" "") None (ex_apply "cfg-2")
    ex_config_reached Hc Hst) as (s1 & r & s2 & c' & E1 & _ & _ & E2 & _ & Hr & Ha & _ & _ & Hv);
    [reflexivity..|discriminate|reflexivity|reflexivity|apply operator_carries|].
  exists s1, r, s2, c'. rewrite Hns, Hkey, Hval in Hv.
  split; [exact E1|]. split; [exact E2|]. split; [exact Hr|]. split; [exact Ha|exact Hv].
Defined.

Lemma propose_panics_without_actor_witness :
  ∃ s', ProposeConfigChange ex_operator
    (Some (mkProposeConfigChangeRequest None "limits" "max_bet" "1" ""))
    (NewConfigService (D := tables) None None) = Panic s' ∧ mu (base s') = false
    ∧ changes (st s') = ∅.
Proof.
  exact (propose_panics_without_actor (NewConfigService (D := tables) None None) ex_operator
    (mkProposeConfigChangeRequest None "limits" "max_bet" "1" "") eq_refl eq_refl eq_refl eq_refl
    ltac:(discriminate) ltac:(discriminate) ltac:(discriminate)).
Defined.
