(* ===== verification/Events.v ===== *)
(** * Significant events and meters
    (internal/platform/server/events_grpc.go and events_postgres.go)

    Ingestion of events and meter records, each kept once under its own id.
    Every submission first takes a place in a bounded buffer and gives it back
    once the record is stored; when the buffer is full, ingestion is disabled. *)

From S2P Require Import Prelude GoTime GoJson AuditTrail Service Listing Ledger.

(** ** Messages (api/proto/rgs/v1/events.proto) *)

Inductive EventSeverity :=
| EVENT_SEVERITY_UNSPECIFIED | EVENT_SEVERITY_INFO | EVENT_SEVERITY_WARN
| EVENT_SEVERITY_CRITICAL | EVENT_SEVERITY_OTHER (n : Z).

Inductive MeterRecordType :=
| METER_RECORD_TYPE_UNSPECIFIED | METER_RECORD_TYPE_SNAPSHOT | METER_RECORD_TYPE_DELTA
| METER_RECORD_TYPE_OTHER (n : Z).

#[global] Instance EventSeverity_eq_dec : EqDecision EventSeverity.
Proof. solve_decision. Defined.
#[global] Instance MeterRecordType_eq_dec : EqDecision MeterRecordType.
Proof. solve_decision. Defined.

Record SignificantEvent := mkSignificantEvent {
  se_EventId : string; se_EquipmentId : string; se_EventCode : string;
  se_LocalizedDescription : string; se_Severity : EventSeverity; se_OccurredAt : string;
  se_ReceivedAt : string; se_RecordedAt : string; se_Tags : gmap string string }.

#[global] Instance eta_SignificantEvent : Eta SignificantEvent := λ x,
  mkSignificantEvent (se_EventId x) (se_EquipmentId x) (se_EventCode x)
    (se_LocalizedDescription x) (se_Severity x) (se_OccurredAt x) (se_ReceivedAt x)
    (se_RecordedAt x) (se_Tags x).

Record MeterRecord := mkMeterRecord {
  mr_MeterId : string; mr_EquipmentId : string; mr_MeterLabel : string;
  mr_MonetaryUnit : string; mr_RecordType : MeterRecordType; mr_ValueMinor : Z;
  mr_DeltaMinor : Z; mr_OccurredAt : string; mr_ReceivedAt : string; mr_RecordedAt : string;
  mr_Tags : gmap string string }.

#[global] Instance eta_MeterRecord : Eta MeterRecord := λ x,
  mkMeterRecord (mr_MeterId x) (mr_EquipmentId x) (mr_MeterLabel x) (mr_MonetaryUnit x)
    (mr_RecordType x) (mr_ValueMinor x) (mr_DeltaMinor x) (mr_OccurredAt x) (mr_ReceivedAt x)
    (mr_RecordedAt x) (mr_Tags x).

Record SubmitSignificantEventRequest := mkSubmitSignificantEventRequest {
  sse_Meta : option RequestMeta; sse_Event : option SignificantEvent }.
(** The requests of SubmitMeterSnapshot and SubmitMeterDelta. *)
Record SubmitMeterRequest := mkSubmitMeterRequest {
  sm_Meta : option RequestMeta; sm_Meter : option MeterRecord }.
Record ListEventsRequest := mkListEventsRequest {
  lev_Meta : option RequestMeta; lev_EquipmentId : string; lev_FromTime : string;
  lev_ToTime : string; lev_PageSize : Z; lev_PageToken : string }.
Record ListMetersRequest := mkListMetersRequest {
  lm_Meta : option RequestMeta; lm_EquipmentId : string; lm_MeterLabel : string;
  lm_FromTime : string; lm_ToTime : string; lm_PageSize : Z; lm_PageToken : string }.

Record SubmitSignificantEventResponse := mkSubmitSignificantEventResponse {
  sser_Meta : ResponseMeta; sser_Event : option SignificantEvent }.
Record SubmitMeterResponse := mkSubmitMeterResponse {
  smr_Meta : ResponseMeta; smr_Meter : option MeterRecord }.
Record ListEventsResponse := mkListEventsResponse {
  levr_Meta : ResponseMeta; levr_Events : list SignificantEvent; levr_NextPageToken : string }.
Record ListMetersResponse := mkListMetersResponse {
  lmr_Meta : ResponseMeta; lmr_Meters : list MeterRecord; lmr_NextPageToken : string }.

(** ** State *)

Inductive bufferStatus := bufferQueued | bufferAcknowledged.

#[global] Instance bufferStatus_eq_dec : EqDecision bufferStatus.
Proof. solve_decision. Defined.

Record ingestionBufferRecord := mkBuffer {
  bufferID : string; recordKind : string; buf_equipmentID : string; sourceRecordID : string;
  buf_status : bufferStatus; buf_occurredAt : string; buf_receivedAt : string;
  buf_recordedAt : string }.

#[global] Instance eta_ingestionBufferRecord : Eta ingestionBufferRecord := λ x,
  mkBuffer (bufferID x) (recordKind x) (buf_equipmentID x) (sourceRecordID x) (buf_status x)
    (buf_occurredAt x) (buf_receivedAt x) (buf_recordedAt x).

Record EventsState := mkEvents {
  sig_events : gmap string SignificantEvent;
  meters : gmap string MeterRecord;
  eventOrder : list string;
  meterOrder : list string;
  buffers : list ingestionBufferRecord;
  bufferCap : Z;
  ingest_disabled : bool;
  nextBuffer : Z;
  ev_disableInMemoryCache : bool }.

#[global] Instance eta_EventsState : Eta EventsState := λ s,
  mkEvents (sig_events s) (meters s) (eventOrder s) (meterOrder s) (buffers s) (bufferCap s)
    (ingest_disabled s) (nextBuffer s) (ev_disableInMemoryCache s).

Definition NewEventsState : EventsState := mkEvents ∅ ∅ [] [] [] 1024 false 0 false.

Definition NewEventsService {D} (clk : option (nat → Time)) (handle : option D)
    : Svc D EventsState :=
  mkSvc (mkBase clk (Some NewInMemoryStore) false 0 handle 0) NewEventsState.

(** ** The database interface *)

Record event_row := mkEventRow {
  evr_event_id : string; evr_equipment_id : string; evr_event_code : string;
  evr_description : string; evr_severity : string; evr_occurred_at : Time;
  evr_received_at : Time; evr_recorded_at : Time }.

Record meter_row := mkMeterRow {
  mtr_meter_id : string; mtr_equipment_id : string; mtr_meter_label : string;
  mtr_monetary_unit : string; mtr_record_kind : string; mtr_value_minor : Z;
  mtr_delta_minor : Z; mtr_occurred_at : Time; mtr_received_at : Time; mtr_recorded_at : Time }.

Class EventsDB (D : Type) := {
  (** INSERT INTO equipment_registry ... ON CONFLICT DO NOTHING *)
  x_ensure_equipment : string → D → res () * D;
  (** INSERT INTO significant_events ... ON CONFLICT (event_id) DO NOTHING: the
      fourteen parameters in order *)
  x_event_insert : string → string → string → string → string → string → string → string →
    string → string → string → string → string → string → D → res () * D;
  (** INSERT INTO meter_records ... ON CONFLICT (meter_id) DO NOTHING *)
  x_meter_insert : string → string → string → string → string → Z → Z → string → string →
    string → string → string → string → string → string → string → D → res () * D;
  (** INSERT INTO ingestion_buffers *)
  x_buffer_insert : string → string → string → string → string → string → string → string →
    D → res () * D;
  q_events : string → Z → Z → D → res (list event_row) * D;
  q_meters : string → string → Z → Z → D → res (list meter_row) * D;
}.

(** ** Pure helpers *)

Definition EventSeverity_number (v : EventSeverity) : Z :=
  match v with
  | EVENT_SEVERITY_UNSPECIFIED => 0 | EVENT_SEVERITY_INFO => 1 | EVENT_SEVERITY_WARN => 2
  | EVENT_SEVERITY_CRITICAL => 3 | EVENT_SEVERITY_OTHER n => n
  end.
Definition EventSeverity_String (v : EventSeverity) : string :=
  match v with
  | EVENT_SEVERITY_UNSPECIFIED => "EVENT_SEVERITY_UNSPECIFIED"
  | EVENT_SEVERITY_INFO => "EVENT_SEVERITY_INFO"
  | EVENT_SEVERITY_WARN => "EVENT_SEVERITY_WARN"
  | EVENT_SEVERITY_CRITICAL => "EVENT_SEVERITY_CRITICAL"
  | EVENT_SEVERITY_OTHER n => FormatInt n
  end.
Definition MeterRecordType_number (v : MeterRecordType) : Z :=
  match v with
  | METER_RECORD_TYPE_UNSPECIFIED => 0 | METER_RECORD_TYPE_SNAPSHOT => 1
  | METER_RECORD_TYPE_DELTA => 2 | METER_RECORD_TYPE_OTHER n => n
  end.

(** [json.Marshal] of an event and of a meter record. *)
Definition event_json (e : SignificantEvent) : string :=
  json_object (omit_string "event_id" (se_EventId e)
    ++ omit_string "equipment_id" (se_EquipmentId e)
    ++ omit_string "event_code" (se_EventCode e)
    ++ omit_string "localized_description" (se_LocalizedDescription e)
    ++ omit_int "severity" (EventSeverity_number (se_Severity e))
    ++ omit_string "occurred_at" (se_OccurredAt e)
    ++ omit_string "received_at" (se_ReceivedAt e)
    ++ omit_string "recorded_at" (se_RecordedAt e) ++ omit_map "tags" (se_Tags e)).
Definition meter_json (m : MeterRecord) : string :=
  json_object (omit_string "meter_id" (mr_MeterId m)
    ++ omit_string "equipment_id" (mr_EquipmentId m)
    ++ omit_string "meter_label" (mr_MeterLabel m)
    ++ omit_string "monetary_unit" (mr_MonetaryUnit m)
    ++ omit_int "record_type" (MeterRecordType_number (mr_RecordType m))
    ++ omit_int "value_minor" (mr_ValueMinor m) ++ omit_int "delta_minor" (mr_DeltaMinor m)
    ++ omit_string "occurred_at" (mr_OccurredAt m)
    ++ omit_string "received_at" (mr_ReceivedAt m)
    ++ omit_string "recorded_at" (mr_RecordedAt m) ++ omit_map "tags" (mr_Tags m)).

Definition authorizeWrite : option Context → option RequestMeta → bool * string :=
  operators_only.
Definition authorizeRead (ctx : option Context) (meta : option RequestMeta) : bool * string :=
  authorizeWrite ctx meta.

Definition meterKindToDB (v : MeterRecordType) : string :=
  match v with
  | METER_RECORD_TYPE_SNAPSHOT => "meter_snapshot"
  | METER_RECORD_TYPE_DELTA => "meter_delta"
  | _ => "meter_snapshot"
  end.
Definition meterKindFromDB (v : string) : MeterRecordType :=
  if decide (v = "meter_snapshot") then METER_RECORD_TYPE_SNAPSHOT
  else if decide (v = "meter_delta") then METER_RECORD_TYPE_DELTA
  else METER_RECORD_TYPE_UNSPECIFIED.
Definition eventSeverityFromDB (v : string) : EventSeverity :=
  let v := ToUpper v in
  if decide (v = "EVENT_SEVERITY_INFO" ∨ v = "INFO") then EVENT_SEVERITY_INFO
  else if decide (v = "EVENT_SEVERITY_WARN" ∨ v = "WARN") then EVENT_SEVERITY_WARN
  else if decide (v = "EVENT_SEVERITY_CRITICAL" ∨ v = "CRITICAL") then EVENT_SEVERITY_CRITICAL
  else EVENT_SEVERITY_UNSPECIFIED.

Definition event_of_row (r : event_row) : SignificantEvent :=
  mkSignificantEvent (evr_event_id r) (evr_equipment_id r) (evr_event_code r)
    (evr_description r) (eventSeverityFromDB (evr_severity r))
    (FormatRFC3339Nano (evr_occurred_at r)) (FormatRFC3339Nano (evr_received_at r))
    (FormatRFC3339Nano (evr_recorded_at r)) ∅.
Definition meter_of_row (r : meter_row) : MeterRecord :=
  mkMeterRecord (mtr_meter_id r) (mtr_equipment_id r) (mtr_meter_label r)
    (mtr_monetary_unit r) (meterKindFromDB (mtr_record_kind r)) (mtr_value_minor r)
    (mtr_delta_minor r) (FormatRFC3339Nano (mtr_occurred_at r))
    (FormatRFC3339Nano (mtr_received_at r)) (FormatRFC3339Nano (mtr_recorded_at r)) ∅.

(** The envelope's actor as the statements record it. *)
Definition meta_actor (meta : option RequestMeta) : string * string :=
  match (m ← meta; MetaActor m) with
  | Some a => (ActorId a, ActorTyp_String (ActorTypeOf a))
  | None => ("", "")
  end.

(** The queued places of the buffer. *)
Definition queued (l : list ingestionBufferRecord) : Z :=
  Z.of_nat (length (List.filter (λ b, bool_decide (buf_status b = bufferQueued)) l)).

(** The loop of [acknowledgeBufferLocked]: the first record with the id. *)
Fixpoint acknowledge_buffer (id : string) (l : list ingestionBufferRecord)
    : list ingestionBufferRecord :=
  match l with
  | [] => []
  | b :: l => if decide (bufferID b = id) then b <| buf_status := bufferAcknowledged |> :: l
              else b :: acknowledge_buffer id l
  end.

(** The record of an event or meter as it is stored at time [now]. *)
Definition stamp_event (e : SignificantEvent) (now : string) : SignificantEvent :=
  (if decide (se_OccurredAt e = "") then e <| se_OccurredAt := now |> else e)
    <| se_ReceivedAt := now |> <| se_RecordedAt := now |>.
Definition stamp_meter (m : MeterRecord) (kind : MeterRecordType) (now : string) : MeterRecord :=
  (if decide (mr_OccurredAt m = "") then m <| mr_OccurredAt := now |> else m)
    <| mr_RecordType := kind |> <| mr_ReceivedAt := now |> <| mr_RecordedAt := now |>.

(** The loops of ListEvents and ListMeters, sorted. *)
Definition sig_event_less : SignificantEvent → SignificantEvent → bool :=
  older_first se_RecordedAt se_EventId.
Definition meter_less : MeterRecord → MeterRecord → bool :=
  older_first mr_RecordedAt mr_MeterId.
Definition select_events (equipmentID : string) (m : gmap string SignificantEvent)
    (order : list string) : list SignificantEvent :=
  SliceStable sig_event_less
    (List.filter (λ e, negb (bool_decide (equipmentID ≠ "" ∧ se_EquipmentId e ≠ equipmentID)))
      (omap (λ id, m !! id) order)).
Definition select_meters (equipmentID label : string) (m : gmap string MeterRecord)
    (order : list string) : list MeterRecord :=
  SliceStable meter_less
    (List.filter (λ x, negb (bool_decide (equipmentID ≠ "" ∧ mr_EquipmentId x ≠ equipmentID))
        && negb (bool_decide (label ≠ "" ∧ mr_MeterLabel x ≠ label)))
      (omap (λ id, m !! id) order)).

Section events.
Context {D : Type} `{!Wall, !Crypto, !JsonValid, !UnicodeUpper, !AuditDB D, !EventsDB D}.

Abbreviation EM := (M (Svc D EventsState)).

Definition events_SetDisableInMemoryCache (disable : bool) : EM () :=
  locked (mod_st (λ s, s <| ev_disableInMemoryCache := disable |>)).

Definition nextBufferIDLocked : EM string :=
  mod_st (λ s, s <| nextBuffer ::= λ n, wrap64 (n + 1) |>);;
  n ← get_st nextBuffer; mret ("buf-" +:+ FormatInt n).

Definition events_appendAudit (meta : option RequestMeta)
    (objectType objectID action before after : string) (result : Result) (reason : string)
    : EM (option error) :=
  appendAudit "events-audit-" meta objectType objectID action before after result reason.

Definition submitBlocked (meta : option RequestMeta)
    (objectType objectID action reason : string) : EM () :=
  events_appendAudit meta objectType objectID action "{}" "{}" ResultDenied reason;; mret ().

(** [None] is the result false. *)
Definition queueBufferLocked (kind equipmentID sourceID occurredAt : string)
    : EM (option ingestionBufferRecord) :=
  disabled ← get_st ingest_disabled;
  if (disabled : bool) then mret None else
  l ← get_st buffers; cap ← get_st bufferCap;
  if cap <=? queued l then
    mod_st (λ s, s <| ingest_disabled := true |>);; mret None
  else
  t ← now;
  id ← nextBufferIDLocked;
  let record := mkBuffer id kind equipmentID sourceID bufferQueued occurredAt
    (FormatRFC3339Nano t) (FormatRFC3339Nano t) in
  mod_st (λ s, s <| buffers ::= λ l, l ++ [record] |>);;
  mret (Some record).

Definition acknowledgeBufferLocked (id : string) : EM () :=
  mod_st (λ s, s <| buffers ::= acknowledge_buffer id |>).

(** ** events_postgres.go *)

Definition nonEmptyTS (v : string) : EM string :=
  if decide (TrimSpace v = "") then t ← time_Now; mret (FormatRFC3339Nano t) else mret v.

Definition ensureEquipmentRowTx (equipmentID : string) : EM (option error) :=
  if decide (TrimSpace equipmentID = "") then mret None
  else exec_db (x_ensure_equipment equipmentID).

Definition persistBufferTx (kind : string) (buffer : ingestionBufferRecord) (requestID : string)
    : EM (option error) :=
  occurred ← nonEmptyTS (buf_occurredAt buffer);
  received ← nonEmptyTS (buf_receivedAt buffer);
  exec_db (x_buffer_insert kind "acknowledged" (buf_equipmentID buffer) (sourceRecordID buffer)
    requestID occurred received "{}").

(** [if err != nil { return err }]. *)
Definition then_ok (m k : EM (option error)) : EM (option error) :=
  e ← m; match e with Some e => mret (Some e) | None => k end.

Definition persistSignificantEvent (meta : option RequestMeta) (e : SignificantEvent)
    (buffer : ingestionBufferRecord) : EM (option error) :=
  enabled ← dbEnabled;
  if negb enabled then mret None else
  with_tx (
    then_ok (ensureEquipmentRowTx (se_EquipmentId e)) (
    let '(actorID, actorType) := meta_actor meta in
    occurred ← nonEmptyTS (se_OccurredAt e);
    received ← nonEmptyTS (se_ReceivedAt e);
    recorded ← nonEmptyTS (se_RecordedAt e);
    then_ok (exec_db (x_event_insert (se_EventId e) (se_EquipmentId e) (se_EventCode e)
      (se_LocalizedDescription e) (EventSeverity_String (se_Severity e)) occurred received
      recorded (se_EventId e) (requestID meta) actorID actorType "{}" "{}")) (
    persistBufferTx "significant_event" buffer (requestID meta)))).

(** The buffer row of a delta also gets the kind of a snapshot. *)
Definition persistMeterRecord (meta : option RequestMeta) (m : MeterRecord)
    (buffer : ingestionBufferRecord) : EM (option error) :=
  enabled ← dbEnabled;
  if negb enabled then mret None else
  with_tx (
    then_ok (ensureEquipmentRowTx (mr_EquipmentId m)) (
    let '(actorID, actorType) := meta_actor meta in
    occurred ← nonEmptyTS (mr_OccurredAt m);
    received ← nonEmptyTS (mr_ReceivedAt m);
    recorded ← nonEmptyTS (mr_RecordedAt m);
    then_ok (exec_db (x_meter_insert (mr_MeterId m) (mr_EquipmentId m) (mr_MeterLabel m)
      (unicode_ToUpper (mr_MonetaryUnit m)) (meterKindToDB (mr_RecordType m))
      (mr_ValueMinor m) (mr_DeltaMinor m) occurred received recorded (mr_MeterId m)
      (requestID meta) actorID actorType "{}" "{}")) (
    persistBufferTx "meter_snapshot" buffer (requestID meta)))).

Definition listEventsFromDB (equipmentID : string) (limit offset : Z)
    : EM (res (list SignificantEvent)) :=
  r ← run_db (q_events equipmentID limit offset);
  mret (match r with Err e => Err e | Ok rows => Ok (event_of_row <$> rows) end).

Definition listMetersFromDB (equipmentID meterLabel : string) (limit offset : Z)
    : EM (res (list MeterRecord)) :=
  r ← run_db (q_meters equipmentID meterLabel limit offset);
  mret (match r with Err e => Err e | Ok rows => Ok (meter_of_row <$> rows) end).

(** ** events_grpc.go *)

Definition event_reply meta code reason : EM SubmitSignificantEventResponse :=
  m ← responseMeta meta code reason; mret (mkSubmitSignificantEventResponse m None).

Definition SubmitSignificantEvent (ctx : option Context)
    (req : option SubmitSignificantEventRequest) : EM SubmitSignificantEventResponse :=
  let invalid := event_reply None RESULT_CODE_INVALID "event_id and equipment_id are required" in
  match req with
  | None | Some (mkSubmitSignificantEventRequest _ None) => invalid
  | Some (mkSubmitSignificantEventRequest meta (Some ev)) =>
  if decide (se_EventId ev = "" ∨ se_EquipmentId ev = "") then invalid else
  let '(ok, reason) := authorizeWrite ctx meta in
  if negb ok then
    submitBlocked meta "significant_event" (se_EventId ev) "submit_significant_event" reason;;
    event_reply meta RESULT_CODE_DENIED reason
  else
  locked (
    known ← get_st (λ s, sig_events s !! se_EventId ev);
    match known with
    | Some e =>
        m ← responseMeta meta RESULT_CODE_OK "";
        mret (mkSubmitSignificantEventResponse m (Some e))
    | None =>
    place ← queueBufferLocked "significant_event" (se_EquipmentId ev) (se_EventId ev)
              (se_OccurredAt ev);
    match place with
    | None =>
        submitBlocked meta "significant_event" (se_EventId ev) "submit_significant_event"
          "ingestion buffer exhausted";;
        event_reply meta RESULT_CODE_DENIED "ingestion buffer exhausted"
    | Some buffer =>
    t ← now;
    let e := stamp_event ev (FormatRFC3339Nano t) in
    err ← events_appendAudit meta "significant_event" (se_EventId e) "submit_significant_event"
            "{}" (event_json e) ResultSuccess "";
    match err with
    | Some _ => event_reply meta RESULT_CODE_ERROR "audit unavailable"
    | None =>
    err ← persistSignificantEvent meta e buffer;
    match err with
    | Some _ => event_reply meta RESULT_CODE_ERROR "persistence unavailable"
    | None =>
    nocache ← get_st ev_disableInMemoryCache;
    (if (nocache : bool) then mret ()
     else mod_st (λ s, s <| sig_events ::= insert (se_EventId e) e |>
                         <| eventOrder ::= λ l, l ++ [se_EventId e] |>));;
    acknowledgeBufferLocked (bufferID buffer);;
    m ← responseMeta meta RESULT_CODE_OK "";
    mret (mkSubmitSignificantEventResponse m (Some e))
    end end end end)
  end.

Definition meter_reply meta code reason : EM SubmitMeterResponse :=
  m ← responseMeta meta code reason; mret (mkSubmitMeterResponse m None).

Definition submitMeter (ctx : option Context) (meta : option RequestMeta)
    (meter : option MeterRecord) (kind : MeterRecordType) : EM SubmitMeterResponse :=
  let invalid := meter_reply None RESULT_CODE_INVALID
    "meter_id, equipment_id, and meter_label are required" in
  match meter with
  | None => invalid
  | Some meter =>
  if decide (mr_MeterId meter = "" ∨ mr_EquipmentId meter = "" ∨ mr_MeterLabel meter = "")
  then invalid else
  let '(ok, reason) := authorizeWrite ctx meta in
  if negb ok then
    submitBlocked meta "meter_record" (mr_MeterId meter) "submit_meter" reason;;
    meter_reply meta RESULT_CODE_DENIED reason
  else
  locked (
    known ← get_st (λ s, meters s !! mr_MeterId meter);
    match known with
    | Some m0 =>
        m ← responseMeta meta RESULT_CODE_OK ""; mret (mkSubmitMeterResponse m (Some m0))
    | None =>
    place ← queueBufferLocked "meter" (mr_EquipmentId meter) (mr_MeterId meter)
              (mr_OccurredAt meter);
    match place with
    | None =>
        submitBlocked meta "meter_record" (mr_MeterId meter) "submit_meter"
          "ingestion buffer exhausted";;
        meter_reply meta RESULT_CODE_DENIED "ingestion buffer exhausted"
    | Some buffer =>
    t ← now;
    let x := stamp_meter meter kind (FormatRFC3339Nano t) in
    err ← events_appendAudit meta "meter_record" (mr_MeterId x) "submit_meter" "{}"
            (meter_json x) ResultSuccess "";
    match err with
    | Some _ => meter_reply meta RESULT_CODE_ERROR "audit unavailable"
    | None =>
    err ← persistMeterRecord meta x buffer;
    match err with
    | Some _ => meter_reply meta RESULT_CODE_ERROR "persistence unavailable"
    | None =>
    nocache ← get_st ev_disableInMemoryCache;
    (if (nocache : bool) then mret ()
     else mod_st (λ s, s <| meters ::= insert (mr_MeterId x) x |>
                         <| meterOrder ::= λ l, l ++ [mr_MeterId x] |>));;
    acknowledgeBufferLocked (bufferID buffer);;
    m ← responseMeta meta RESULT_CODE_OK ""; mret (mkSubmitMeterResponse m (Some x))
    end end end end)
  end.

(** The two read the fields of the request before any check: a nil request is
    a nil dereference. *)
Definition SubmitMeterSnapshot (ctx : option Context) (req : option SubmitMeterRequest)
    : EM SubmitMeterResponse :=
  match req with
  | None => panic
  | Some req => submitMeter ctx (sm_Meta req) (sm_Meter req) METER_RECORD_TYPE_SNAPSHOT
  end.
Definition SubmitMeterDelta (ctx : option Context) (req : option SubmitMeterRequest)
    : EM SubmitMeterResponse :=
  match req with
  | None => panic
  | Some req => submitMeter ctx (sm_Meta req) (sm_Meter req) METER_RECORD_TYPE_DELTA
  end.

Definition list_events_reply meta code reason : EM ListEventsResponse :=
  m ← responseMeta meta code reason; mret (mkListEventsResponse m [] "").

(** Every id in the order has a record, so no nil record is sorted. *)
Definition ListEvents (ctx : option Context) (req : option ListEventsRequest)
    : EM ListEventsResponse :=
  let req := default (mkListEventsRequest None "" "" "" 0 "") req in
  let meta := lev_Meta req in
  let '(ok, reason) := authorizeRead ctx meta in
  if negb ok then
    submitBlocked meta "significant_event" "" "list_events" reason;;
    list_events_reply meta RESULT_CODE_DENIED reason
  else locked (
    let start := pageStart (lev_PageToken req) in
    let size := pageSizeOr 100 (lev_PageSize req) in
    enabled ← dbEnabled;
    if (enabled : bool) then
      r ← listEventsFromDB (lev_EquipmentId req) size start;
      match r with
      | Err _ => list_events_reply meta RESULT_CODE_ERROR "persistence unavailable"
      | Ok items =>
          m ← responseMeta meta RESULT_CODE_OK "";
          mret (mkListEventsResponse m items (nextFromDB start size (length items)))
      end
    else
    nocache ← get_st ev_disableInMemoryCache;
    if (nocache : bool) then list_events_reply meta RESULT_CODE_OK "" else
    es ← get_st sig_events; order ← get_st eventOrder;
    p ← page (select_events (lev_EquipmentId req) es order) start size;
    m ← responseMeta meta RESULT_CODE_OK "";
    mret (mkListEventsResponse m p.1 p.2)).

Definition list_meters_reply meta code reason : EM ListMetersResponse :=
  m ← responseMeta meta code reason; mret (mkListMetersResponse m [] "").

Definition ListMeters (ctx : option Context) (req : option ListMetersRequest)
    : EM ListMetersResponse :=
  let req := default (mkListMetersRequest None "" "" "" "" 0 "") req in
  let meta := lm_Meta req in
  let '(ok, reason) := authorizeRead ctx meta in
  if negb ok then
    submitBlocked meta "meter_record" "" "list_meters" reason;;
    list_meters_reply meta RESULT_CODE_DENIED reason
  else locked (
    let start := pageStart (lm_PageToken req) in
    let size := pageSizeOr 100 (lm_PageSize req) in
    enabled ← dbEnabled;
    if (enabled : bool) then
      r ← listMetersFromDB (lm_EquipmentId req) (lm_MeterLabel req) size start;
      match r with
      | Err _ => list_meters_reply meta RESULT_CODE_ERROR "persistence unavailable"
      | Ok items =>
          m ← responseMeta meta RESULT_CODE_OK "";
          mret (mkListMetersResponse m items (nextFromDB start size (length items)))
      end
    else
    nocache ← get_st ev_disableInMemoryCache;
    if (nocache : bool) then list_meters_reply meta RESULT_CODE_OK "" else
    ms ← get_st meters; order ← get_st meterOrder;
    p ← page (select_meters (lm_EquipmentId req) (lm_MeterLabel req) ms order) start size;
    m ← responseMeta meta RESULT_CODE_OK "";
    mret (mkListMetersResponse m p.1 p.2)).
End events.
