(* ===== verification/EventsProofs.v ===== *)
(** * Theorems about events and meters

    Without a database: ingestion never stalls, keeps every record once and
    unchanged, and lists all of them.  With any database: the buffer stays
    within its capacity, and once it was full ingestion stays disabled. *)

From S2P Require Import Prelude GoTime GoJson AuditTrail Service Listing Ledger Env Events.
From Stdlib Require Import Sorting.Sorted.

(** ** The buffer *)

Definition buffer_id (n : Z) : string := "buf-" +:+ FormatInt n.

Lemma buffer_id_inj n n' : buffer_id n = buffer_id n' → n = n'.
Proof. intros [= E]. by apply FormatInt_inj. Qed.

Lemma queued_app l l' : queued (l ++ l') = queued l + queued l'.
Proof. unfold queued. rewrite List.filter_app, length_app. lia. Qed.

Lemma queued_nonneg l : 0 ≤ queued l.
Proof. unfold queued. lia. Qed.

Lemma acknowledge_buffer_ids id l : bufferID <$> acknowledge_buffer id l = bufferID <$> l.
Proof. induction l as [|b l IH]; [done|]. cbn [acknowledge_buffer]. case_decide; [done|]. rewrite !fmap_cons. by rewrite IH. Qed.

Lemma queued_cons b l :
  queued (b :: l) = (if decide (buf_status b = bufferQueued) then 1 else 0) + queued l.
Proof.
  unfold queued. cbn [List.filter]. rewrite bool_decide_decide. case_decide; simpl length; lia.
Qed.

Lemma acknowledge_buffer_queued id l :
  queued l - 1 ≤ queued (acknowledge_buffer id l) ≤ queued l.
Proof.
  induction l as [|b l IH]; [done|]. cbn [acknowledge_buffer].
  case_decide; rewrite !queued_cons; simpl; repeat case_decide; lia.
Qed.

Lemma acknowledge_buffer_last id l b :
  id ∉ bufferID <$> l → bufferID b = id →
  acknowledge_buffer id (l ++ [b]) = l ++ [b <| buf_status := bufferAcknowledged |>].
Proof.
  intros Hid Hb. induction l as [|x l IH]; simpl; [by rewrite decide_True|].
  rewrite fmap_cons in Hid. apply not_elem_of_cons in Hid as [Hx Hid].
  rewrite decide_False by congruence. by rewrite IH.
Qed.

(** ** The stores *)

(** Records under their ids, in an order without repetition. *)
Record store_ok {A} (key : A → string) (m : gmap string A) (order : list string) : Prop := {
  so_key id x : m !! id = Some x → key x = id;
  so_nodup : NoDup order;
  so_dom id : id ∈ order ↔ is_Some (m !! id) }.

Lemma store_ok_insert {A} (key : A → string) m order x :
  store_ok key m order → m !! key x = None →
  store_ok key (<[key x := x]> m) (order ++ [key x]).
Proof.
  intros [Hk Hn Hd] Hx. split.
  - intros id y. rewrite lookup_insert_Some. naive_solver.
  - apply NoDup_app. split_and!; [done| |apply NoDup_singleton].
    intros id Hid ->%list_elem_of_singleton. apply Hd in Hid as [? ?]. congruence.
  - intros id. rewrite elem_of_app, list_elem_of_singleton, lookup_insert_is_Some, Hd.
    destruct (decide (id = key x)); naive_solver.
Qed.

(** What the records selected from such a store are. *)
Lemma store_ok_omap {A} (key : A → string) m order :
  store_ok key m order → key <$> omap (λ id, m !! id) order = order.
Proof.
  intros [Hk _ Hd]. assert (Forall (λ id, is_Some (m !! id)) order) as Hall.
  { apply Forall_forall. intros id. apply Hd. }
  clear Hd. induction Hall as [|id l [x Hx] Hl IH]; [done|]. cbn [omap list_omap].
  rewrite Hx, fmap_cons, (Hk _ _ Hx). f_equal. exact IH.
Qed.

Lemma store_ok_elem {A} (key : A → string) m order x :
  store_ok key m order → x ∈ omap (λ id, m !! id) order ↔ m !! key x = Some x.
Proof.
  intros H. rewrite list_elem_of_omap. split.
  - intros (id & _ & Hx). by rewrite (so_key _ _ _ H _ _ Hx).
  - intros Hx. exists (key x). split; [|done]. apply (so_dom _ _ _ H). by eexists.
Qed.

(** A selection of the records of a store, sorted. *)
Lemma store_ok_select {A} (key : A → string) less (P : A → bool) m order :
  store_ok key m order →
  let l := SliceStable less (List.filter P (omap (λ id, m !! id) order)) in
  (length l ≤ length order)%nat ∧ NoDup (key <$> l)
  ∧ ∀ x, x ∈ l ↔ m !! key x = Some x ∧ P x = true.
Proof.
  intros Hok l. pose proof (sublist_fmap_filter key P (omap (λ id, m !! id) order)) as Hsub.
  rewrite (store_ok_omap key _ _ Hok) in Hsub.
  assert (l ≡ₚ List.filter P (omap (λ id, m !! id) order)) as Hp by apply SliceStable_perm.
  split_and!.
  - rewrite Hp. apply sublist_length in Hsub. by rewrite length_fmap in Hsub.
  - rewrite Hp. exact (sublist_NoDup _ _ (so_nodup _ _ _ Hok) Hsub).
  - intros x. rewrite Hp, list_elem_of_In, filter_In, <- list_elem_of_In.
    by rewrite (store_ok_elem key m order x Hok).
Qed.

(** What holds between the requests to a service without a database. *)
Record ev_inv (σ : EventsState) : Prop := {
  ei_cache : ev_disableInMemoryCache σ = false;
  ei_enabled : ingest_disabled σ = false;
  ei_cap : 0 < bufferCap σ;
  ei_idle : queued (buffers σ) = 0;
  ei_next : 0 ≤ nextBuffer σ;
  ei_ids : bufferID <$> buffers σ = buffer_id <$> seqZ 1 (nextBuffer σ);
  ei_events : store_ok se_EventId (sig_events σ) (eventOrder σ);
  ei_meters : store_ok mr_MeterId (meters σ) (meterOrder σ) }.

Lemma store_ok_empty {A} (key : A → string) : store_ok key ∅ [].
Proof.
  split; [intros id x; by rewrite lookup_empty|constructor|].
  intros id. rewrite lookup_empty. split; [by intros ?%not_elem_of_nil|by intros []].
Qed.

Lemma ev_inv_new : ev_inv NewEventsState.
Proof. split; try done; apply store_ok_empty. Qed.

(** The state after a place was taken and given back. *)
Definition ingested (σ : EventsState) (b : ingestionBufferRecord) : EventsState :=
  σ <| nextBuffer ::= λ n, n + 1 |>
    <| buffers ::= λ l, l ++ [b <| buf_status := bufferAcknowledged |>] |>.
Definition store_event (σ : EventsState) (e : SignificantEvent) : EventsState :=
  σ <| sig_events ::= insert (se_EventId e) e |> <| eventOrder ::= λ l, l ++ [se_EventId e] |>.
Definition store_meter (σ : EventsState) (m : MeterRecord) : EventsState :=
  σ <| meters ::= insert (mr_MeterId m) m |> <| meterOrder ::= λ l, l ++ [mr_MeterId m] |>.

Lemma fresh_buffer_id σ : ev_inv σ → buffer_id (nextBuffer σ + 1) ∉ bufferID <$> buffers σ.
Proof.
  intros H. rewrite (ei_ids _ H). intros (n & E%buffer_id_inj & Hn)%list_elem_of_fmap.
  apply elem_of_seqZ in Hn. lia.
Qed.

Lemma ev_inv_ingested σ b :
  ev_inv σ → bufferID b = buffer_id (nextBuffer σ + 1) → ev_inv (ingested σ b).
Proof.
  intros H Hb. pose proof (ei_next _ H). split; simpl; try apply H.
  - rewrite queued_app, (ei_idle _ H). done.
  - lia.
  - rewrite fmap_app, (ei_ids _ H), seqZ_app, fmap_app by lia. f_equal. simpl.
    rewrite Hb. do 2 f_equal. lia.
Qed.

Lemma ev_inv_event σ e :
  ev_inv σ → sig_events σ !! se_EventId e = None → ev_inv (store_event σ e).
Proof. intros H He. split; simpl; try apply H. apply store_ok_insert; [apply H|done]. Qed.

Lemma ev_inv_meter σ m :
  ev_inv σ → meters σ !! mr_MeterId m = None → ev_inv (store_meter σ m).
Proof. intros H Hm. split; simpl; try apply H. apply store_ok_insert; [apply H|done]. Qed.

Section mem.
Context {D : Type} `{!Wall, !Crypto, !JsonValid, !UnicodeUpper, !AuditDB D, !EventsDB D}.
Implicit Types (σ : EventsState) (T : Time → Prop) (evs : list Event)
  (s : Svc D EventsState) (ctx : option Context).

Lemma espec_blocked {A} T meta ot oid action reason (k : M (Svc D EventsState) A) h σ evs Q :
  (∀ e, mspec T k h σ (evs ++ [e]) Q) →
  mspec (D := D) T (submitBlocked meta ot oid action reason;; k) h σ evs Q.
Proof. intros HQ. unfold submitBlocked, events_appendAudit. msteps. apply HQ. Qed.

Lemma espec_audit T meta ot oid action before after reason h σ evs
    (Q : option error → EventsState → list Event → Prop) :
  (∀ e, audit_record meta ot oid action before after ResultSuccess reason e →
     Q None σ (evs ++ [e])) →
  mspec (D := D) T (events_appendAudit meta ot oid action before after ResultSuccess reason)
    h σ evs Q.
Proof. intros HQ. unfold events_appendAudit. mstep. by apply HQ. Qed.

(** A place in the buffer. *)
Definition place σ (b : ingestionBufferRecord) : Prop :=
  bufferID b = buffer_id (nextBuffer σ + 1).

Lemma espec_queue T kind eq src occ h σ evs
    (Q : option ingestionBufferRecord → EventsState → list Event → Prop) :
  ev_inv σ → nextBuffer σ < int64_max →
  (∀ b, place σ b → Q (Some b)
     (σ <| nextBuffer ::= λ n, n + 1 |> <| buffers ::= λ l, l ++ [b] |>) evs) →
  mspec (D := D) T (queueBufferLocked kind eq src occ) h σ evs Q.
Proof.
  intros Hinv Hmax HQ. unfold queueBufferLocked. msteps. rewrite (ei_enabled _ Hinv). msteps.
  rewrite (ei_idle _ Hinv), (proj2 (Z.leb_gt _ _)) by apply Hinv.
  unfold nextBufferIDLocked. msteps. pose proof (ei_next _ Hinv).
  assert (σ <| nextBuffer ::= λ n, wrap64 (n + 1) |> = σ <| nextBuffer ::= λ n, n + 1 |>) as ->.
  { unfold modify_field. simpl. by rewrite wrap64_id by (unfold in_int64, int64_min; lia). }
  by apply HQ.
Qed.

Lemma espec_persistEvent T meta e b h σ evs (Q : option error → EventsState → list Event → Prop) :
  Q None σ evs → mspec (D := D) T (persistSignificantEvent meta e b) h σ evs Q.
Proof. intros HQ. unfold persistSignificantEvent. by msteps. Qed.

Lemma espec_persistMeter T meta m b h σ evs (Q : option error → EventsState → list Event → Prop) :
  Q None σ evs → mspec (D := D) T (persistMeterRecord meta m b) h σ evs Q.
Proof. intros HQ. unfold persistMeterRecord. by msteps. Qed.

(** Whether a submission is complete and authorized. *)
Definition event_admissible ctx meta (ev : SignificantEvent) : Prop :=
  se_EventId ev ≠ "" ∧ se_EquipmentId ev ≠ "" ∧ (authorizeWrite ctx meta).1 = true.
Definition meter_admissible ctx meta (m : MeterRecord) : Prop :=
  mr_MeterId m ≠ "" ∧ mr_EquipmentId m ≠ "" ∧ mr_MeterLabel m ≠ ""
  ∧ (authorizeWrite ctx meta).1 = true.

(** SubmitSignificantEvent refuses, returns the event it knows, or stores the
    event with the time of its arrival. *)
Lemma SubmitSignificantEvent_spec T ctx req σ evs :
  ev_inv σ → nextBuffer σ < int64_max →
  mspec (D := D) T (SubmitSignificantEvent ctx req) false σ evs (λ r σ' evs',
    σ' = σ ∧ sser_Event r = None ∧ ResCode (sser_Meta r) ≠ RESULT_CODE_OK
      ∧ (∀ meta ev, req = Some (mkSubmitSignificantEventRequest meta (Some ev)) →
           ¬ event_admissible ctx meta ev)
    ∨ ∃ meta ev e, req = Some (mkSubmitSignificantEventRequest meta (Some ev))
        ∧ ResCode (sser_Meta r) = RESULT_CODE_OK ∧ sser_Event r = Some e
        ∧ (sig_events σ !! se_EventId ev = Some e ∧ σ' = σ
           ∨ sig_events σ !! se_EventId ev = None
             ∧ ∃ t b, T t ∧ e = stamp_event ev (FormatRFC3339Nano t) ∧ place σ b
                 ∧ σ' = store_event (ingested σ b) e)).
Proof.
  intros Hinv Hmax. unfold SubmitSignificantEvent, event_reply; cbv zeta.
  assert (∀ r, ResCode r ≠ RESULT_CODE_OK →
    ResCode (sser_Meta (mkSubmitSignificantEventResponse r None)) ≠ RESULT_CODE_OK) as Hc by done.
  destruct req as [[meta [ev|]]|]; [|msteps; left; split_and!; [done..|naive_solver]|
    msteps; left; split_and!; [done..|naive_solver]].
  case_decide as Hne; [msteps; left; unfold event_admissible; split_and!; [done..|naive_solver]|].
  destruct (authorizeWrite ctx meta) as [[|] why] eqn:Hauth; simpl negb; cbv iota.
  2:{ apply espec_blocked. intros e. msteps. left. split_and!; [done..|].
      intros m' ev' [= <- <-] (_ & _ & Ha). by rewrite Hauth in Ha. }
  msteps. destruct (sig_events σ !! se_EventId ev) as [e|] eqn:Hk.
  { msteps. right. exists meta, ev, e. split_and!; [done..|]. left. done. }
  mstep. apply espec_queue; [done..|]. intros b Hb. msteps.
  set (e := stamp_event ev _). apply espec_audit. intros a _. mstep. apply espec_persistEvent.
  msteps. simpl. rewrite (ei_cache _ Hinv). unfold acknowledgeBufferLocked. msteps. right.
  exists meta, ev, e. split_and!; [done..|]. right. split; [done|]. exists t, b.
  split_and!; [done..|]. unfold store_event, ingested, modify_field. simpl.
  rewrite acknowledge_buffer_last; [done| |done]. rewrite Hb. by apply fresh_buffer_id.
Qed.

Lemma submitMeter_spec T ctx meta meter kind σ evs :
  ev_inv σ → nextBuffer σ < int64_max →
  mspec (D := D) T (submitMeter ctx meta meter kind) false σ evs (λ r σ' evs',
    σ' = σ ∧ smr_Meter r = None ∧ ResCode (smr_Meta r) ≠ RESULT_CODE_OK
      ∧ (∀ m, meter = Some m → ¬ meter_admissible ctx meta m)
    ∨ ∃ m x, meter = Some m ∧ ResCode (smr_Meta r) = RESULT_CODE_OK ∧ smr_Meter r = Some x
        ∧ (meters σ !! mr_MeterId m = Some x ∧ σ' = σ
           ∨ meters σ !! mr_MeterId m = None
             ∧ ∃ t b, T t ∧ x = stamp_meter m kind (FormatRFC3339Nano t) ∧ place σ b
                 ∧ σ' = store_meter (ingested σ b) x)).
Proof.
  intros Hinv Hmax. unfold submitMeter, meter_reply; cbv zeta.
  destruct meter as [m|]; [|msteps; left; split_and!; [done..|naive_solver]].
  case_decide as Hne; [msteps; left; unfold meter_admissible; split_and!; [done..|naive_solver]|].
  destruct (authorizeWrite ctx meta) as [[|] why] eqn:Hauth; simpl negb; cbv iota.
  2:{ apply espec_blocked. intros e. msteps. left. split_and!; [done..|].
      intros m' [= <-] (_ & _ & _ & Ha). by rewrite Hauth in Ha. }
  msteps. destruct (meters σ !! mr_MeterId m) as [x|] eqn:Hk.
  { msteps. right. exists m, x. split_and!; [done..|]. left. done. }
  mstep. apply espec_queue; [done..|]. intros b Hb. msteps.
  set (x := stamp_meter m _ _). apply espec_audit. intros a _. mstep. apply espec_persistMeter.
  msteps. simpl. rewrite (ei_cache _ Hinv). unfold acknowledgeBufferLocked. msteps. right.
  exists m, x. split_and!; [done..|]. right. split; [done|]. exists t, b.
  split_and!; [done..|]. unfold store_meter, ingested, modify_field. simpl.
  rewrite acknowledge_buffer_last; [done| |done]. rewrite Hb. by apply fresh_buffer_id.
Qed.

Lemma ListEvents_spec T ctx req σ evs :
  ev_inv σ →
  mspec (D := D) T (ListEvents ctx req) false σ evs (λ r σ' evs',
    σ' = σ ∧ ∀ q, req = Some q → (authorizeRead ctx (lev_Meta q)).1 = true →
      evs' = evs ∧ (levr_Events r, levr_NextPageToken r)
        = page_at (select_events (lev_EquipmentId q) (sig_events σ) (eventOrder σ))
            (pageStart (lev_PageToken q)) (pageSizeOr 100 (lev_PageSize q))).
Proof.
  intros Hinv. unfold ListEvents; cbv zeta. set (q := default _ req).
  destruct (authorizeRead ctx (lev_Meta q)) as [[|] why] eqn:Ha; simpl negb; cbv iota.
  2:{ apply espec_blocked. intros e. unfold list_events_reply. msteps. split; [done|].
      intros q' ->. change q with q' in Ha. by rewrite Ha. }
  msteps. rewrite (ei_cache _ Hinv). msteps. pose proof (pageSizeOr_pos 100 (lev_PageSize q)).
  apply mspec_page; [apply pageStart_nonneg|lia|]. msteps. split; [done|].
  intros q' ->. done.
Qed.

Lemma ListMeters_spec T ctx req σ evs :
  ev_inv σ →
  mspec (D := D) T (ListMeters ctx req) false σ evs (λ r σ' evs',
    σ' = σ ∧ ∀ q, req = Some q → (authorizeRead ctx (lm_Meta q)).1 = true →
      evs' = evs ∧ (lmr_Meters r, lmr_NextPageToken r)
        = page_at (select_meters (lm_EquipmentId q) (lm_MeterLabel q) (meters σ) (meterOrder σ))
            (pageStart (lm_PageToken q)) (pageSizeOr 100 (lm_PageSize q))).
Proof.
  intros Hinv. unfold ListMeters; cbv zeta. set (q := default _ req).
  destruct (authorizeRead ctx (lm_Meta q)) as [[|] why] eqn:Ha; simpl negb; cbv iota.
  2:{ apply espec_blocked. intros e. unfold list_meters_reply. msteps. split; [done|].
      intros q' ->. change q with q' in Ha. by rewrite Ha. }
  msteps. rewrite (ei_cache _ Hinv). msteps. pose proof (pageSizeOr_pos 100 (lm_PageSize q)).
  apply mspec_page; [apply pageStart_nonneg|lia|]. msteps. split; [done|].
  intros q' ->. done.
Qed.

(** ** Runs *)

Inductive ev_req :=
| EEvent (ctx : option Context) (req : option SubmitSignificantEventRequest)
| ESnapshot (ctx : option Context) (req : SubmitMeterRequest)
| EDelta (ctx : option Context) (req : SubmitMeterRequest)
| EListEvents (ctx : option Context) (req : option ListEventsRequest)
| EListMeters (ctx : option Context) (req : option ListMetersRequest).

(** The record a response returns to the sender. *)
Inductive ev_ack := AckEvent (e : SignificantEvent) | AckMeter (m : MeterRecord).

Definition ev_serve (q : ev_req) : M (Svc D EventsState) (list ev_ack) :=
  match q with
  | EEvent ctx req => r ← SubmitSignificantEvent ctx req;
      mret (option_list (AckEvent <$> sser_Event r))
  | ESnapshot ctx req => r ← SubmitMeterSnapshot ctx (Some req);
      mret (option_list (AckMeter <$> smr_Meter r))
  | EDelta ctx req => r ← SubmitMeterDelta ctx (Some req);
      mret (option_list (AckMeter <$> smr_Meter r))
  | EListEvents ctx req => ListEvents ctx req;; mret []
  | EListMeters ctx req => ListMeters ctx req;; mret []
  end.

Fixpoint ev_serve_all (qs : list ev_req) : M (Svc D EventsState) (list ev_ack) :=
  match qs with
  | [] => mret []
  | q :: qs => a ← ev_serve q; l ← ev_serve_all qs; mret (a ++ l)
  end.

(** The stores only grow, and hold what was acknowledged. *)
Record ev_grows (acks : list ev_ack) σ σ' : Prop := {
  eg_events : sig_events σ ⊆ sig_events σ';
  eg_meters : meters σ ⊆ meters σ';
  eg_acked_event e : AckEvent e ∈ acks → sig_events σ' !! se_EventId e = Some e;
  eg_acked_meter m : AckMeter m ∈ acks → meters σ' !! mr_MeterId m = Some m;
  eg_only_event id e : sig_events σ' !! id = Some e →
    sig_events σ !! id = Some e ∨ AckEvent e ∈ acks;
  eg_only_meter id m : meters σ' !! id = Some m →
    meters σ !! id = Some m ∨ AckMeter m ∈ acks }.

Lemma ev_grows_refl σ : ev_grows [] σ σ.
Proof. split; auto; by intros ? ?%not_elem_of_nil. Qed.

Lemma ev_grows_trans a b σ1 σ2 σ3 :
  ev_grows a σ1 σ2 → ev_grows b σ2 σ3 → ev_grows (a ++ b) σ1 σ3.
Proof.
  intros [He Hm Hae Ham Hoe Hom] [He' Hm' Hae' Ham' Hoe' Hom'].
  split; [by etrans|by etrans|..].
  - intros e [Hin|Hin]%elem_of_app; [|by apply Hae'].
    by eapply lookup_weaken; [apply Hae|].
  - intros m [Hin|Hin]%elem_of_app; [|by apply Ham'].
    by eapply lookup_weaken; [apply Ham|].
  - intros id e He3. rewrite elem_of_app. destruct (Hoe' _ _ He3) as [He2|]; [|auto].
    destruct (Hoe _ _ He2); auto.
  - intros id m Hm3. rewrite elem_of_app. destruct (Hom' _ _ Hm3) as [Hm2|]; [|auto].
    destruct (Hom _ _ Hm2); auto.
Qed.

Lemma ev_grows_event σ b e :
  sig_events σ !! se_EventId e = None →
  ev_grows [AckEvent e] σ (store_event (ingested σ b) e).
Proof.
  intros He. split; simpl; auto.
  - by apply insert_subseteq.
  - intros e' [= ->]%list_elem_of_singleton. by rewrite lookup_insert_eq.
  - by intros m ?%list_elem_of_singleton.
  - intros id e'. rewrite lookup_insert_Some, list_elem_of_singleton. naive_solver.
Qed.

Lemma ev_grows_meter σ b m :
  meters σ !! mr_MeterId m = None →
  ev_grows [AckMeter m] σ (store_meter (ingested σ b) m).
Proof.
  intros Hm. split; simpl; auto.
  - by apply insert_subseteq.
  - by intros e ?%list_elem_of_singleton.
  - intros m' [= ->]%list_elem_of_singleton. by rewrite lookup_insert_eq.
  - intros id m'. rewrite lookup_insert_Some, list_elem_of_singleton. naive_solver.
Qed.

Lemma ev_grows_known_event σ e id :
  ev_inv σ → sig_events σ !! id = Some e → ev_grows [AckEvent e] σ σ.
Proof.
  intros Hinv He. split; auto.
  - intros e' [= ->]%list_elem_of_singleton. by rewrite (so_key _ _ _ (ei_events _ Hinv) _ _ He).
  - by intros m ?%list_elem_of_singleton.
Qed.

Lemma ev_grows_known_meter σ m id :
  ev_inv σ → meters σ !! id = Some m → ev_grows [AckMeter m] σ σ.
Proof.
  intros Hinv Hm. split; auto.
  - by intros e ?%list_elem_of_singleton.
  - intros m' [= ->]%list_elem_of_singleton. by rewrite (so_key _ _ _ (ei_meters _ Hinv) _ _ Hm).
Qed.

Lemma stamp_event_id e now : se_EventId (stamp_event e now) = se_EventId e.
Proof. unfold stamp_event. by case_decide. Qed.
Lemma stamp_meter_id m kind now : mr_MeterId (stamp_meter m kind now) = mr_MeterId m.
Proof. unfold stamp_meter. by case_decide. Qed.

(** What one request does. *)
Definition ev_step σ (a : list ev_ack) σ' : Prop :=
  ev_inv σ' ∧ nextBuffer σ' ≤ nextBuffer σ + 1 ∧ ev_grows a σ σ'.

Lemma ev_step_same σ : ev_inv σ → ev_step σ [] σ.
Proof. intros Hinv. split_and!; [done|lia|apply ev_grows_refl]. Qed.

Lemma submitMeter_step T ctx meta meter kind σ evs :
  ev_inv σ → nextBuffer σ < int64_max →
  mspec (D := D) T (r ← submitMeter ctx meta meter kind;
    mret (option_list (AckMeter <$> smr_Meter r))) false σ evs (λ a σ' _, ev_step σ a σ').
Proof.
  intros Hinv Hmax. mstep. eapply mspec_mono; [by apply submitMeter_spec|].
  intros r σ' evs' [(-> & -> & _)|(m & x & _ & _ & -> & [[Hk ->]|(Hk & t & b & _ & -> & Hb & ->)])];
    mstep; simpl.
  - by apply ev_step_same.
  - split_and!; [done|lia|]. by eapply ev_grows_known_meter.
  - rewrite <- (stamp_meter_id m kind (FormatRFC3339Nano t)) in Hk.
    split_and!; [|simpl; lia|by apply ev_grows_meter].
    apply ev_inv_meter; [by apply ev_inv_ingested|done].
Qed.

Lemma ev_serve_spec T q σ evs :
  ev_inv σ → nextBuffer σ < int64_max →
  mspec (D := D) T (ev_serve q) false σ evs (λ a σ' _, ev_step σ a σ').
Proof.
  intros Hinv Hmax.
  destruct q as [ctx req|ctx req|ctx req|ctx req|ctx req]; cbn [ev_serve];
    [|by apply submitMeter_step..|mstep|mstep].
  - mstep. eapply mspec_mono; [by apply SubmitSignificantEvent_spec|].
    intros r σ' evs'
      [(-> & -> & _)|(m & ev & e & _ & _ & -> & [[Hk ->]|(Hk & t & b & _ & -> & Hb & ->)])];
      mstep; simpl.
    + by apply ev_step_same.
    + split_and!; [done|lia|]. by eapply ev_grows_known_event.
    + rewrite <- (stamp_event_id ev (FormatRFC3339Nano t)) in Hk.
      split_and!; [|simpl; lia|by apply ev_grows_event].
      apply ev_inv_event; [by apply ev_inv_ingested|done].
  - eapply mspec_mono; [by apply ListEvents_spec|]. intros r σ' evs' [-> _]. mstep.
    by apply ev_step_same.
  - eapply mspec_mono; [by apply ListMeters_spec|]. intros r σ' evs' [-> _]. mstep.
    by apply ev_step_same.
Qed.

Lemma ev_serve_all_spec T qs σ evs :
  ev_inv σ → nextBuffer σ + Z.of_nat (length qs) ≤ int64_max →
  mspec (D := D) T (ev_serve_all qs) false σ evs (λ a σ' _,
    ev_inv σ' ∧ nextBuffer σ' ≤ nextBuffer σ + Z.of_nat (length qs) ∧ ev_grows a σ σ').
Proof.
  revert σ evs. induction qs as [|q qs IH]; intros σ evs Hinv Hmax; simpl.
  { mstep. split_and!; [done|lia|apply ev_grows_refl]. }
  simpl in Hmax. mstep. eapply mspec_mono; [apply ev_serve_spec; [done|lia]|].
  intros a σ1 evs1 (Hinv1 & Hn1 & Hg1). mstep.
  eapply mspec_mono; [apply IH; [done|lia]|]. intros l σ2 evs2 (Hinv2 & Hn2 & Hg2). mstep.
  split_and!; [done|lia|]. by eapply ev_grows_trans.
Qed.

Lemma ev_run clk qs :
  Z.of_nat (length qs) ≤ int64_max →
  ∃ acks s, ev_serve_all qs (NewEventsService (D := D) clk None) = Done acks s
    ∧ in_memory s ∧ ev_inv (st s) ∧ nextBuffer (st s) ≤ Z.of_nat (length qs)
    ∧ ev_grows acks NewEventsState (st s).
Proof.
  intros Hlen. assert (nextBuffer NewEventsState + Z.of_nat (length qs) ≤ int64_max) as Hmax by done.
  destruct (mspec_call (λ _, True) (ev_serve_all qs) (NewEventsService clk None) _
    (NewService_in_memory _ _) (λ _, I) (ev_serve_all_spec _ _ _ _ ev_inv_new Hmax))
    as (l & s & E & Hm & _ & Hinv & Hn & Hg). by exists l, s.
Qed.

(** Ingestion without a database never stalls: whatever at most 2^63 - 2
    requests came before, a complete submission by an operator or a service is
    acknowledged, with the event as sent but for the arrival times, or, if its id
    is known, with the event first stored under that id; and then the event is
    in the store. *)
Theorem event_submission_accepted clk qs ctx meta ev :
  Z.of_nat (length qs) < int64_max → event_admissible ctx meta ev →
  ∃ acks s r s' e, ev_serve_all qs (NewEventsService (D := D) clk None) = Done acks s
    ∧ SubmitSignificantEvent ctx (Some (mkSubmitSignificantEventRequest meta (Some ev))) s = Done r s'
    ∧ ResCode (sser_Meta r) = RESULT_CODE_OK ∧ sser_Event r = Some e
    ∧ sig_events (st s') !! se_EventId ev = Some e
    ∧ (sig_events (st s) !! se_EventId ev = Some e ∧ st s' = st s
       ∨ sig_events (st s) !! se_EventId ev = None ∧ ∃ t, e = stamp_event ev (FormatRFC3339Nano t)).
Proof.
  intros Hlen Had. assert (Z.of_nat (length qs) ≤ int64_max) as Hlen' by lia.
  destruct (ev_run clk qs Hlen') as (acks & s & E & Hm & Hinv & Hn & _).
  assert (nextBuffer (st s) < int64_max) as Hmax by lia.
  destruct (mspec_call (λ _, True) _ s _ Hm (λ _, I) (SubmitSignificantEvent_spec _ ctx
    (Some (mkSubmitSignificantEventRequest meta (Some ev))) _ _ Hinv Hmax))
    as (r & s' & E' & _ & _ & [(_ & _ & _ & Hno)|(m & ev' & e & [= <- <-] & Hok & Hr & Hcase)]).
  { by destruct (Hno meta ev). }
  exists acks, s, r, s', e. split_and!; [done..| |].
  - destruct Hcase as [[Hk ->]|(Hk & t & b & _ & -> & _ & ->)]; [done|].
    rewrite <- (stamp_event_id ev (FormatRFC3339Nano t)). apply lookup_insert_eq.
  - destruct Hcase as [[Hk Hs]|(Hk & t & b & _ & -> & _ & ->)]; [by left|right]. eauto.
Qed.

(** One page of the events, by its token. *)
Definition list_events_page ctx meta eq size (token : string)
    : M (Svc D EventsState) (list SignificantEvent * string) :=
  r ← ListEvents ctx (Some (mkListEventsRequest meta eq "" "" size token));
  mret (levr_Events r, levr_NextPageToken r).

(** C30: events are kept once: after any run, a client that follows the page
    tokens of ListEvents is done after at most one call per event plus one, and
    has then seen exactly the events that were acknowledged to a sender, of the
    wanted equipment, each id once, in the order of recording. *)
Theorem events_listed_once clk qs acks s ctx meta eq size :
  Z.of_nat (length qs) ≤ int64_max →
  ev_serve_all qs (NewEventsService (D := D) clk None) = Done acks s →
  (authorizeRead ctx meta).1 = true →
  Z.of_nat (length (eventOrder (st s))) ≤ int64_max →
  ∃ l s', walk_pages (list_events_page ctx meta eq size)
      (S (length (eventOrder (st s)))) "" s = Done l s'
    ∧ NoDup (se_EventId <$> l) ∧ StronglySorted (not_after sig_event_less) l
    ∧ ∀ e, e ∈ l ↔ AckEvent e ∈ acks ∧ (eq = "" ∨ se_EquipmentId e = eq).
Proof.
  intros Hlen E Hauth Hfit.
  destruct (ev_run clk qs Hlen) as (acks' & s0 & E0 & Hm & Hinv & _ & Hg).
  rewrite E in E0. injection E0 as <- <-.
  set (l := select_events eq (sig_events (st s)) (eventOrder (st s))).
  destruct (store_ok_select se_EventId sig_event_less _ _ _ (ei_events _ Hinv) :
    (length l ≤ _)%nat ∧ NoDup (se_EventId <$> l) ∧ ∀ x, x ∈ l ↔ _) as (Hl & Hnd & Hin).
  destruct (mspec_walk (λ _, True) (list_events_page ctx meta eq size) l (pageSizeOr 100 size)
    (st s) (audit_events s) s (S (length (eventOrder (st s))))) as (s' & Ew & _); try done.
  - by apply pageSizeOr_pos.
  - lia.
  - lia.
  - intros token start Htok. unfold list_events_page. mstep.
    eapply mspec_mono; [by apply ListEvents_spec|]. intros r σ' evs' [-> Hr].
    destruct (Hr _ eq_refl Hauth) as (-> & Hp). mstep. rewrite Hp. simpl.
    by rewrite (pageStart_token _ _ Htok).
  - exists l, s'. split_and!; [done..|apply older_first_sorted|]. intros e. rewrite Hin.
    rewrite negb_true_iff, bool_decide_eq_false. split.
    + intros [Hk Hf]. split.
      * destruct (eg_only_event _ _ _ Hg _ _ Hk) as [Hbad|]; [|done]. by destruct (lookup_empty_Some _ _ Hbad).
      * destruct (decide (eq = "")); [by left|right].
        destruct (decide (se_EquipmentId e = eq)); [done|]. by destruct Hf.
    + intros [Ha Hf]. split; [by apply (eg_acked_event _ _ _ Hg)|]. intros [? ?]. by destruct Hf.
Qed.
End mem.

(** ** With any database *)

Section any_db.
Context {D : Type} `{!Wall, !Crypto, !JsonValid, !UnicodeUpper, !AuditDB D, !EventsDB D}.
Implicit Types s : Svc D EventsState.

(** The buffer stays within its capacity. *)
Definition bounded (σ σ' : EventsState) : Prop :=
  bufferCap σ' = bufferCap σ ∧ (queued (buffers σ) ≤ bufferCap σ → queued (buffers σ') ≤ bufferCap σ).

#[local] Instance bounded_preorder : PreOrder bounded.
Proof.
  split; [by intros σ|]. intros σ1 σ2 σ3 [Hc Hq] [Hc' Hq']. split; [congruence|].
  intros Hb. rewrite Hc in Hq'. auto.
Qed.

Lemma keeps_queue kind eq src occ :
  keeps (D := D) (field_frame bounded) (queueBufferLocked kind eq src occ).
Proof.
  unfold queueBufferLocked. intros s. apply post_bind, post_gets.
  destruct (ingest_disabled (st s)); [by apply post_ret|].
  apply post_bind, post_gets, post_bind, post_gets.
  destruct (Z.leb_spec (bufferCap (st s)) (queued (buffers (st s)))) as [|Hlt].
  { apply post_bind, post_modify. by apply post_ret. }
  apply post_bind. eapply post_done; [apply now_eq|].
  apply post_bind, post_bind, post_modify, post_bind, post_gets, post_ret.
  apply post_bind, post_modify, post_ret. split; [done|]. intros _. simpl.
  rewrite queued_app. unfold queued at 2. simpl. lia.
Qed.

Ltac esteps :=
  repeat match goal with
  | |- keeps _ (queueBufferLocked _ _ _ _) => apply keeps_queue
  | |- _ => progress (unfold submitBlocked, events_appendAudit, event_reply, meter_reply,
      acknowledgeBufferLocked, persistSignificantEvent, persistMeterRecord, then_ok,
      ensureEquipmentRowTx, persistBufferTx, nonEmptyTS, list_events_reply, list_meters_reply,
      listEventsFromDB, listMetersFromDB, page)
  | |- _ => fstep
  end.

Lemma bounded_acknowledge id σ : bounded σ (σ <| buffers ::= acknowledge_buffer id |>).
Proof. split; [done|]. simpl. pose proof (acknowledge_buffer_queued id (buffers σ)). lia. Qed.

Lemma keeps_submit_event ctx req :
  keeps (D := D) (field_frame bounded) (SubmitSignificantEvent ctx req).
Proof. unfold SubmitSignificantEvent. cbv zeta. esteps; [done|apply bounded_acknowledge]. Qed.

Lemma keeps_submit_meter ctx meta meter kind :
  keeps (D := D) (field_frame bounded) (submitMeter ctx meta meter kind).
Proof. unfold submitMeter. cbv zeta. esteps; [done|apply bounded_acknowledge]. Qed.

(** Listing changes nothing. *)
Lemma keeps_list_events P `{!PreOrder P} ctx req :
  keeps (D := D) (field_frame P) (ListEvents ctx req).
Proof. unfold ListEvents. cbv zeta. esteps. Qed.

Lemma keeps_list_meters P `{!PreOrder P} ctx req :
  keeps (D := D) (field_frame P) (ListMeters ctx req).
Proof. unfold ListMeters. cbv zeta. esteps. Qed.

Lemma keeps_ev_serve q : keeps (D := D) (field_frame bounded) (ev_serve q).
Proof.
  destruct q; cbn [ev_serve]; (refine (keeps_bind _ _ _ _ _); [|intros ?; refine (keeps_ret _ _)]);
    [apply keeps_submit_event|apply keeps_submit_meter..|by apply keeps_list_events, _
    |by apply keeps_list_meters, _].
Qed.

Lemma keeps_ev_serve_all qs : keeps (D := D) (field_frame bounded) (ev_serve_all qs).
Proof.
  induction qs as [|q qs IH]; cbn [ev_serve_all]; [refine (keeps_ret _ _)|].
  refine (keeps_bind _ _ _ _ _); [apply keeps_ev_serve|]. intros a.
  refine (keeps_bind _ _ _ _ _); [exact IH|]. intros l. refine (keeps_ret _ _).
Qed.

(** C31: with any database, however it fails, at most 1024 submissions are ever
    waiting in the ingestion buffer of a service. *)
Theorem ingestion_buffer_bounded clk handle qs acks s :
  ev_serve_all qs (NewEventsService (D := D) clk handle) = Done acks s →
  queued (buffers (st s)) ≤ 1024.
Proof.
  intros E. destruct (post_elim True _ _ _ _ _ (keeps_ev_serve_all qs _) E) as [_ Hq].
  apply Hq. done.
Qed.

(** A record the service already holds. *)
Definition held (σ : EventsState) (a : ev_ack) : Prop :=
  match a with
  | AckEvent e => ∃ id, sig_events σ !! id = Some e
  | AckMeter m => ∃ id, meters σ !! id = Some m
  end.

Lemma disabled_queue kind eq src occ s :
  ingest_disabled (st s) = true →
  queueBufferLocked kind eq src occ s = Done None s.
Proof. intros Hd. unfold queueBufferLocked, get_st, gets, mbind, M_bind. by rewrite Hd. Qed.

Lemma blocked_frozen meta ot oid action reason s :
  wlp (submitBlocked meta ot oid action reason) (λ _ (s' : Svc D EventsState), st s' = st s) s.
Proof.
  eapply (post_mono _ _ (λ _ s', st s = st s')); [|by intros a s' ->].
  assert (keeps (D := D) (field_frame eq) (submitBlocked meta ot oid action reason)) as Hk by esteps.
  apply Hk.
Qed.

Lemma disabled_submit_event ctx req s :
  ingest_disabled (st s) = true →
  wlp (SubmitSignificantEvent ctx req) (λ r s', st s' = st s
    ∧ ∀ e, sser_Event r = Some e → held (st s) (AckEvent e)) s.
Proof.
  intros Hd. unfold SubmitSignificantEvent; cbv zeta.
  assert (∀ meta code reason s0, st s0 = st s →
    wlp (event_reply meta code reason) (λ r s', st s' = st s
      ∧ ∀ e, sser_Event r = Some e → held (st s) (AckEvent e)) s0) as Hreply.
  { intros meta code reason s0 Hs. apply post_bind. eapply post_done; [apply responseMeta_eq|].
    by apply post_ret. }
  destruct req as [[meta [ev|]]|]; [|by apply Hreply..].
  case_decide; [by apply Hreply|].
  destruct (authorizeWrite ctx meta) as [[|] why]; cbn [negb].
  2:{ eapply post_seq; [apply blocked_frozen|]. intros [] s1 Hs1. by apply Hreply. }
  apply (wlp_locked _ (λ r σ', σ' = st s ∧ ∀ e, sser_Event r = Some e → held (st s) (AckEvent e))).
  intros s0 Hs0. apply post_bind, post_gets. rewrite Hs0.
  destruct (sig_events (st s) !! se_EventId ev) as [e|] eqn:He.
  { apply post_bind. eapply post_done; [apply responseMeta_eq|]. apply post_ret.
    split; [done|]. intros e' [= <-]. by eexists. }
  apply post_bind. eapply post_done; [apply disabled_queue; by rewrite Hs0|].
  eapply post_seq; [apply blocked_frozen|]. intros [] s1 Hs1. apply Hreply. congruence.
Qed.

Lemma disabled_submit_meter ctx meta meter kind s :
  ingest_disabled (st s) = true →
  wlp (submitMeter ctx meta meter kind) (λ r s', st s' = st s
    ∧ ∀ m, smr_Meter r = Some m → held (st s) (AckMeter m)) s.
Proof.
  intros Hd. unfold submitMeter; cbv zeta.
  assert (∀ meta code reason s0, st s0 = st s →
    wlp (meter_reply meta code reason) (λ r s', st s' = st s
      ∧ ∀ m, smr_Meter r = Some m → held (st s) (AckMeter m)) s0) as Hreply.
  { intros m0 code reason s0 Hs. apply post_bind. eapply post_done; [apply responseMeta_eq|].
    by apply post_ret. }
  destruct meter as [m|]; [|by apply Hreply].
  case_decide; [by apply Hreply|].
  destruct (authorizeWrite ctx meta) as [[|] why]; cbn [negb].
  2:{ eapply post_seq; [apply blocked_frozen|]. intros [] s1 Hs1. by apply Hreply. }
  apply (wlp_locked _ (λ r σ', σ' = st s ∧ ∀ x, smr_Meter r = Some x → held (st s) (AckMeter x))).
  intros s0 Hs0. apply post_bind, post_gets. rewrite Hs0.
  destruct (meters (st s) !! mr_MeterId m) as [x|] eqn:Hx.
  { apply post_bind. eapply post_done; [apply responseMeta_eq|]. apply post_ret.
    split; [done|]. intros x' [= <-]. by eexists. }
  apply post_bind. eapply post_done; [apply disabled_queue; by rewrite Hs0|].
  eapply post_seq; [apply blocked_frozen|]. intros [] s1 Hs1. apply Hreply. congruence.
Qed.

Lemma disabled_serve q s :
  ingest_disabled (st s) = true →
  wlp (ev_serve q) (λ a s', st s' = st s ∧ Forall (held (st s)) a) s.
Proof.
  intros Hd.
  assert (∀ A (m : M (Svc D EventsState) A), keeps (field_frame eq) m →
    wlp (m;; mret []) (λ a s', st s' = st s ∧ Forall (held (st s)) a) s) as Hlist.
  { intros A m Hm. eapply post_seq; [apply Hm|]. intros a s' Hs. apply post_ret.
    split; [by symmetry|constructor]. }
  destruct q as [ctx req|ctx req|ctx req|ctx req|ctx req]; cbn [ev_serve].
  - eapply post_seq; [by apply disabled_submit_event|]. intros r s' [Hs Hr]. apply post_ret.
    split; [done|]. destruct (sser_Event r); constructor; [by apply Hr|constructor].
  - eapply post_seq; [by apply disabled_submit_meter|]. intros r s' [Hs Hr]. apply post_ret.
    split; [done|]. destruct (smr_Meter r); constructor; [by apply Hr|constructor].
  - eapply post_seq; [by apply disabled_submit_meter|]. intros r s' [Hs Hr]. apply post_ret.
    split; [done|]. destruct (smr_Meter r); constructor; [by apply Hr|constructor].
  - apply Hlist. apply keeps_list_events, _.
  - apply Hlist. apply keeps_list_meters, _.
Qed.

(** Nothing enables ingestion again: with any database, once the buffer was
    found full, whatever requests follow, the service stores and acknowledges
    no record it did not hold before, and stays disabled. *)
Theorem ingestion_disabled_forever qs s acks s' :
  ingest_disabled (st s) = true → ev_serve_all qs s = Done acks s' →
  st s' = st s ∧ Forall (held (st s)) acks.
Proof.
  intros Hd E. eapply (post_elim True (ev_serve_all qs)
    (λ acks s', st s' = st s ∧ Forall (held (st s)) acks)); [|exact E]. clear acks s' E.
  revert s Hd. induction qs as [|q qs IH]; intros s Hd; cbn [ev_serve_all].
  { apply post_ret. by split. }
  eapply post_seq; [by apply disabled_serve|]. intros a s1 [Hs1 Ha].
  eapply post_seq; [apply IH; by rewrite Hs1|]. rewrite Hs1. intros l s2 [Hs2 Hl].
  apply post_ret. split; [done|]. by apply Forall_app.
Qed.
End any_db.

(** ** Concrete instances *)

Import Concrete.

(** A database that is either up or down. *)
Module EvTable.
#[export] Instance audit_db : AuditDB bool := {|
  db_begin (d : bool) := (if d then Ok () else Err ErrDatabase, d); db_commit d := (Ok (), d);
  db_rollback d := d; q_audit_last _ d := (Ok None, d); x_audit_insert _ d := (Ok (), d) |}.
#[export] Instance events_db : EventsDB bool := {|
  x_ensure_equipment _ d := (Ok (), d);
  x_event_insert _ _ _ _ _ _ _ _ _ _ _ _ _ _ d := (Ok (), d);
  x_meter_insert _ _ _ _ _ _ _ _ _ _ _ _ _ _ _ _ d := (Ok (), d);
  x_buffer_insert _ _ _ _ _ _ _ _ d := (Ok (), d);
  q_events _ _ _ d := (Ok [], d); q_meters _ _ _ _ d := (Ok [], d) |}.
End EvTable.
Import EvTable.

Definition ex_sig (id : string) : SignificantEvent :=
  mkSignificantEvent id "eq-1" "E001" "door open" EVENT_SEVERITY_WARN "" "" "" ∅.
Definition ex_submit (id : string) : ev_req :=
  EEvent None (Some (mkSubmitSignificantEventRequest (operator_meta "") (Some (ex_sig id)))).

(** A database outage of 1024 submissions. *)
Definition outage : list ev_req := (λ n, ex_submit ("e-" +:+ FormatInt n)) <$> seqZ 1 1025.

(** A transient outage is permanent: 1025 submissions while the database is
    down fill the buffer, and after the database is back the next submission is
    still refused. *)
Theorem outage_disables_ingestion :
  match ev_serve_all outage (NewEventsService None (Some false)) with
  | Done acks s =>
      acks = [] ∧ ingest_disabled (st s) = true ∧
      match SubmitSignificantEvent None (Some (mkSubmitSignificantEventRequest (operator_meta "")
          (Some (ex_sig "later")))) (s <| base ::= λ b, b <| db := Some true |> |>) with
      | Done r _ => ResCode (sser_Meta r) = RESULT_CODE_DENIED
          ∧ DenialReason (sser_Meta r) = "ingestion buffer exhausted"
      | _ => False
      end
  | _ => False
  end.
Proof. vm_compute. done. Qed.

Lemma ingestion_buffer_bounded_witness :
  match ev_serve_all outage (NewEventsService None (Some false)) with
  | Done _ s => queued (buffers (st s)) = 1024 ∧ queued (buffers (st s)) ≤ 1024
  | _ => False
  end.
Proof.
  assert (match ev_serve_all outage (NewEventsService None (Some false)) with
    | Done _ s => queued (buffers (st s)) = 1024 | _ => False end) as Hq
    by (vm_compute; reflexivity).
  destruct (ev_serve_all outage (NewEventsService None (Some false))) as [acks s| |] eqn:E;
    [|exact Hq..].
  split; [exact Hq|]. exact (ingestion_buffer_bounded None (Some false) outage acks s E).
Defined.

(** A service whose buffer was found full and whose database is back. *)
Definition ex_stuck : Svc bool EventsState :=
  mkSvc (base (NewEventsService None (Some true)))
    (NewEventsState <| ingest_disabled := true |>
       <| sig_events := {[ "e-1" := ex_sig "e-1" ]} |> <| eventOrder := ["e-1"] |>).

Lemma ingestion_disabled_forever_witness :
  match ev_serve_all [ex_submit "e-1"; ex_submit "e-2"] ex_stuck with
  | Done acks s => acks = [AckEvent (ex_sig "e-1")] ∧ st s = st ex_stuck
      ∧ Forall (held (st ex_stuck)) acks
  | _ => False
  end.
Proof.
  assert (match ev_serve_all [ex_submit "e-1"; ex_submit "e-2"] ex_stuck with
    | Done acks _ => acks = [AckEvent (ex_sig "e-1")] | _ => False end) as Hr
    by (vm_compute; reflexivity).
  destruct (ev_serve_all [ex_submit "e-1"; ex_submit "e-2"] ex_stuck) as [acks s| |] eqn:E;
    [|exact Hr..].
  split; [exact Hr|]. exact (ingestion_disabled_forever _ ex_stuck acks s eq_refl E).
Defined.

(** Three submissions in memory, one of them a repetition. *)
Definition ex_ingest : list ev_req := [ex_submit "e-1"; ex_submit "e-2"; ex_submit "e-1"].

Lemma event_submission_accepted_witness :
  ∃ acks s r s' e, ev_serve_all ex_ingest (NewEventsService (D := bool) None None) = Done acks s
    ∧ SubmitSignificantEvent None (Some (mkSubmitSignificantEventRequest (operator_meta "")
        (Some (ex_sig "e-3")))) s = Done r s'
    ∧ sser_Event r = Some e ∧ sig_events (st s') !! "e-3" = Some e.
Proof.
  destruct (event_submission_accepted (D := bool) None ex_ingest None (operator_meta "")
    (ex_sig "e-3")) as (acks & s & r & s' & e & E & E' & _ & Hr & Hl & _).
  - vm_compute. reflexivity.
  - vm_compute. repeat split; discriminate.
  - exists acks, s, r, s', e. split; [exact E|]. split; [exact E'|]. split; [exact Hr|exact Hl].
Defined.

Lemma events_listed_once_witness :
  match ev_serve_all ex_ingest (NewEventsService (D := bool) None None) with
  | Done acks s => length acks = 3%nat
      ∧ ∃ l s', walk_pages (list_events_page None (operator_meta "") "eq-1" 1) 3 "" s = Done l s'
        ∧ NoDup (se_EventId <$> l)
        ∧ ∀ e, e ∈ l ↔ AckEvent e ∈ acks ∧ ("eq-1" = "" ∨ se_EquipmentId e = "eq-1")
  | _ => False
  end.
Proof.
  assert (match ev_serve_all ex_ingest (NewEventsService (D := bool) None None) with
    | Done acks s => length acks = 3%nat ∧ length (eventOrder (st s)) = 2%nat
    | _ => False end) as Hr by (vm_compute; split; reflexivity).
  destruct (ev_serve_all ex_ingest (NewEventsService (D := bool) None None)) as [acks s| |] eqn:E;
    [|exact Hr..].
  destruct Hr as [Hlen Hord]. split; [exact Hlen|].
  destruct (events_listed_once (D := bool) None ex_ingest acks s None (operator_meta "") "eq-1" 1)
    as (l & s' & Hw & Hn & _ & He).
  - vm_compute. discriminate.
  - exact E.
  - reflexivity.
  - rewrite Hord. vm_compute. discriminate.
  - rewrite Hord in Hw. exists l, s'. split; [exact Hw|]. split; [exact Hn|exact He].
Defined.
