(* ===== verification/GoCsv.v ===== *)
(** * Comma-separated values (encoding/csv)

    The writer of package [encoding/csv] with its default settings, and a
    reader of the format (RFC 4180) as the reference: what was written reads
    back, so a file determines its records. *)

From S2P Require Import Prelude GoJson.
From Stdlib Require Import Ascii.

Definition comma : ascii := ascii_of_N 44.
Definition newline : ascii := ascii_of_N 10.
Definition carriage_return : ascii := ascii_of_N 13.

(** ** The writer *)

(** [fieldNeedsQuotes]: the field that ends a COPY, a separator, a quote, a
    line end, or a leading space. *)
Definition fieldNeedsQuotes (field : string) : bool :=
  if decide (field = "") then false
  else if decide (field = String backslash ".") then true
  else has_char newline field || has_char carriage_return field || has_char dquote field
    || has_char comma field
    || match strip_any white_space field with Some _ => true | None => false end.

Fixpoint double_quotes (s : string) : string :=
  match s with
  | EmptyString => EmptyString
  | String c s =>
      if decide (c = dquote) then String dquote (String dquote (double_quotes s))
      else String c (double_quotes s)
  end.

Definition csv_field (field : string) : string :=
  if fieldNeedsQuotes field
  then String dquote (double_quotes field +:+ String dquote "") else field.

(** [Writer.Write] of one record. *)
Definition csv_record (record : list string) : string :=
  Join (String comma "") (csv_field <$> record) +:+ String newline "".

(** What the buffer holds after [Flush]. *)
Definition csv_write (records : list (list string)) : string :=
  foldr (λ r s, csv_record r +:+ s) "" records.

(** ** The reference reader *)

(** Where the reader is: before a field, in a bare field, in a quoted field, or
    after a quote in a quoted field. *)
Inductive csv_mode := AtStart | Bare | Quoted | Closing.

Fixpoint csv_scan (m : csv_mode) (field : string) (record : list string) (s : string)
    : option (list (list string)) :=
  match s with
  | EmptyString =>
      match m, record with AtStart, [] => Some [] | _, _ => None end
  | String c s =>
      match m with
      | Quoted =>
          if decide (c = dquote) then csv_scan Closing field record s
          else csv_scan Quoted (field +:+ String c "") record s
      | _ =>
          if decide (c = dquote) then
            match m with
            | AtStart => csv_scan Quoted "" record s
            | Closing => csv_scan Quoted (field +:+ String dquote "") record s
            | _ => None
            end
          else if decide (c = comma) then csv_scan AtStart "" (record ++ [field]) s
          else if decide (c = newline) then cons (record ++ [field]) <$> csv_scan AtStart "" [] s
          else match m with
               | Closing => None
               | _ => csv_scan Bare (field +:+ String c "") record s
               end
      end
  end.

Definition csv_read (s : string) : option (list (list string)) := csv_scan AtStart "" [] s.

(** ** The round trip *)

(** What the reader does with a separator at the end of [field]. *)
Definition csv_end (sep : ascii) (field : string) (record : list string) (s : string)
    : option (list (list string)) :=
  if decide (sep = comma) then csv_scan AtStart "" (record ++ [field]) s
  else cons (record ++ [field]) <$> csv_scan AtStart "" [] s.

Definition is_sep (c : ascii) : Prop := c = comma ∨ c = newline.

Lemma scan_end m field record sep s :
  m ≠ Quoted → is_sep sep → csv_scan m field record (String sep s) = csv_end sep field record s.
Proof. intros Hm [-> | ->]; by destruct m. Qed.

Lemma scan_bare c m field record s :
  m = AtStart ∨ m = Bare → c ≠ dquote → c ≠ comma → c ≠ newline →
  csv_scan m field record (String c s) = csv_scan Bare (field +:+ String c "") record s.
Proof.
  intros [-> | ->] H1 H2 H3; cbn [csv_scan]; rewrite ?(decide_False (P := c = dquote)) by done;
    by rewrite !decide_False.
Qed.

Lemma scan_close field record s :
  csv_scan Quoted field record (String dquote s) = csv_scan Closing field record s.
Proof. done. Qed.

Lemma scan_quoted c field record s :
  c ≠ dquote →
  csv_scan Quoted field record (String c s) = csv_scan Quoted (field +:+ String c "") record s.
Proof. intros Hc. cbn [csv_scan]. by rewrite decide_False. Qed.

Lemma scan_escaped field record s :
  csv_scan Closing field record (String dquote s)
  = csv_scan Quoted (field +:+ String dquote "") record s.
Proof. done. Qed.

Lemma str_snoc f c t : (f +:+ String c "") +:+ t = f +:+ String c t.
Proof. by rewrite str_app_assoc. Qed.

Lemma scan_bare_field f : ∀ m acc record sep s,
  m = AtStart ∨ m = Bare → is_sep sep →
  has_char newline f = false → has_char dquote f = false → has_char comma f = false →
  csv_scan m acc record (f +:+ String sep s) = csv_end sep (acc +:+ f) record s.
Proof.
  induction f as [|c f IH]; intros m acc record sep s Hm Hsep Hn Hq Hc.
  - rewrite str_app_nil, str_app_nil_r. apply scan_end; [|done]. by destruct Hm as [-> | ->].
  - cbn [has_char] in Hn, Hq, Hc.
    apply orb_false_iff in Hn as [Hn Hn'], Hq as [Hq Hq'], Hc as [Hc Hc'].
    apply bool_decide_eq_false in Hn, Hq, Hc.
    rewrite str_app_cons, scan_bare by auto. rewrite IH by auto. by rewrite str_snoc.
Qed.

Lemma scan_quoted_field f : ∀ acc record sep s,
  is_sep sep →
  csv_scan Quoted acc record (double_quotes f +:+ String dquote (String sep s))
  = csv_end sep (acc +:+ f) record s.
Proof.
  induction f as [|c f IH]; intros acc record sep s Hsep.
  - rewrite str_app_nil_r. cbn [double_quotes]. rewrite str_app_nil.
    rewrite scan_close. by apply scan_end.
  - cbn [double_quotes]. case_decide as Hc.
    + subst c. rewrite !str_app_cons, scan_close, scan_escaped.
      rewrite IH by done. by rewrite str_snoc.
    + rewrite str_app_cons, scan_quoted by done.
      rewrite IH by done. by rewrite str_snoc.
Qed.

Lemma scan_field f record sep s :
  is_sep sep →
  csv_scan AtStart "" record (csv_field f +:+ String sep s) = csv_end sep f record s.
Proof.
  intros Hsep. unfold csv_field. destruct (fieldNeedsQuotes f) eqn:E.
  - rewrite str_app_cons, str_app_assoc, str_app_cons, str_app_nil.
    cbn [csv_scan]. rewrite decide_True by done. by rewrite scan_quoted_field.
  - unfold fieldNeedsQuotes in E. case_decide; [subst f; by apply scan_end|].
    case_decide; [done|]. rewrite !orb_false_iff in E. destruct E as [[[[? ?] ?] ?] ?].
    by rewrite scan_bare_field by auto.
Qed.

Lemma Join_cons sep p q ps : Join sep (p :: q :: ps) = p +:+ sep +:+ Join sep (q :: ps).
Proof. done. Qed.

Lemma scan_record fields : ∀ f record s,
  csv_scan AtStart "" record (csv_record (f :: fields) +:+ s)
  = cons (record ++ f :: fields) <$> csv_scan AtStart "" [] s.
Proof.
  induction fields as [|g fields IH]; intros f record s; unfold csv_record in *.
  - cbn [fmap list_fmap Join]. rewrite str_app_assoc, str_app_cons, str_app_nil.
    rewrite scan_field by by right. done.
  - specialize (IH g (record ++ [f]) s). rewrite !fmap_cons in *.
    rewrite Join_cons, !str_app_assoc, str_app_cons, str_app_nil.
    rewrite scan_field by by left. unfold csv_end. rewrite decide_True by done.
    rewrite str_app_assoc in IH. rewrite IH. by rewrite <- app_assoc.
Qed.

Lemma csv_read_write records :
  Forall (.≠ []) records → csv_read (csv_write records) = Some records.
Proof.
  unfold csv_read. induction 1 as [|r records Hr _ IH]; [done|].
  destruct r as [|f fields]; [done|]. cbn [csv_write foldr]. fold (csv_write records).
  by rewrite scan_record, IH.
Qed.

Example csv_write_ex :
  csv_write [["a"; "b,c"; ""]; [" d"; String dquote "e"]]
  = "a," +:+ String dquote "b,c" +:+ String dquote "," +:+ String newline ""
    +:+ String dquote " d" +:+ String dquote "," +:+ String dquote (String dquote (String dquote
      "e")) +:+ String dquote (String newline "").
Proof. reflexivity. Qed.
