(* ===== verification/Reporting.v ===== *)
(** * Reports (internal/platform/server/reporting_grpc.go and
    reporting_postgres.go)

    A report is built from the books of the ledger service or from the records
    of the events service (or from the tables behind them), rendered as JSON or
    CSV, and kept as a report run. *)

From S2P Require Import Prelude GoTime GoJson GoCsv AuditTrail Service Listing Ledger Events.
From Stdlib Require Import Ascii.

(** ** Messages (api/proto/rgs/v1/reporting.proto) *)

Inductive ReportType :=
| REPORT_TYPE_UNSPECIFIED | REPORT_TYPE_SIGNIFICANT_EVENTS_ALTERATIONS
| REPORT_TYPE_CASHLESS_LIABILITY_SUMMARY | REPORT_TYPE_ACCOUNT_TRANSACTION_STATEMENT
| REPORT_TYPE_OTHER (n : Z).

Inductive ReportInterval :=
| REPORT_INTERVAL_UNSPECIFIED | REPORT_INTERVAL_DTD | REPORT_INTERVAL_MTD
| REPORT_INTERVAL_YTD | REPORT_INTERVAL_LTD | REPORT_INTERVAL_OTHER (n : Z).

Inductive ReportFormat :=
| REPORT_FORMAT_UNSPECIFIED | REPORT_FORMAT_JSON | REPORT_FORMAT_CSV
| REPORT_FORMAT_OTHER (n : Z).

Inductive ReportRunStatus :=
| REPORT_RUN_STATUS_UNSPECIFIED | REPORT_RUN_STATUS_COMPLETED | REPORT_RUN_STATUS_FAILED.

#[global] Instance ReportType_eq_dec : EqDecision ReportType.
Proof. solve_decision. Defined.
#[global] Instance ReportInterval_eq_dec : EqDecision ReportInterval.
Proof. solve_decision. Defined.
#[global] Instance ReportFormat_eq_dec : EqDecision ReportFormat.
Proof. solve_decision. Defined.

Definition ReportType_number (v : ReportType) : Z :=
  match v with
  | REPORT_TYPE_UNSPECIFIED => 0 | REPORT_TYPE_SIGNIFICANT_EVENTS_ALTERATIONS => 1
  | REPORT_TYPE_CASHLESS_LIABILITY_SUMMARY => 2
  | REPORT_TYPE_ACCOUNT_TRANSACTION_STATEMENT => 3 | REPORT_TYPE_OTHER n => n
  end.
Definition ReportInterval_number (v : ReportInterval) : Z :=
  match v with
  | REPORT_INTERVAL_UNSPECIFIED => 0 | REPORT_INTERVAL_DTD => 1 | REPORT_INTERVAL_MTD => 2
  | REPORT_INTERVAL_YTD => 3 | REPORT_INTERVAL_LTD => 4 | REPORT_INTERVAL_OTHER n => n
  end.
Definition ReportInterval_String (v : ReportInterval) : string :=
  match v with
  | REPORT_INTERVAL_UNSPECIFIED => "REPORT_INTERVAL_UNSPECIFIED"
  | REPORT_INTERVAL_DTD => "REPORT_INTERVAL_DTD"
  | REPORT_INTERVAL_MTD => "REPORT_INTERVAL_MTD"
  | REPORT_INTERVAL_YTD => "REPORT_INTERVAL_YTD"
  | REPORT_INTERVAL_LTD => "REPORT_INTERVAL_LTD"
  | REPORT_INTERVAL_OTHER n => FormatInt n
  end.
Definition ReportFormat_number (v : ReportFormat) : Z :=
  match v with
  | REPORT_FORMAT_UNSPECIFIED => 0 | REPORT_FORMAT_JSON => 1 | REPORT_FORMAT_CSV => 2
  | REPORT_FORMAT_OTHER n => n
  end.
Definition ReportRunStatus_number (v : ReportRunStatus) : Z :=
  match v with
  | REPORT_RUN_STATUS_UNSPECIFIED => 0 | REPORT_RUN_STATUS_COMPLETED => 1
  | REPORT_RUN_STATUS_FAILED => 2
  end.
Definition LedgerTransactionType_String (v : LedgerTransactionType) : string :=
  "LEDGER_TRANSACTION_TYPE_" +:+
  match v with
  | TT_UNSPECIFIED => "UNSPECIFIED" | TT_DEPOSIT => "DEPOSIT" | TT_WITHDRAWAL => "WITHDRAWAL"
  | TT_TRANSFER_TO_DEVICE => "TRANSFER_TO_DEVICE"
  | TT_TRANSFER_TO_ACCOUNT => "TRANSFER_TO_ACCOUNT" | TT_GAMEPLAY_DEBIT => "GAMEPLAY_DEBIT"
  | TT_GAMEPLAY_CREDIT => "GAMEPLAY_CREDIT" | TT_MANUAL_ADJUSTMENT => "MANUAL_ADJUSTMENT"
  end.

Record ReportRun := mkReportRun {
  rr_ReportRunId : string; rr_ReportType : ReportType; rr_Interval : ReportInterval;
  rr_Format : ReportFormat; rr_Status : ReportRunStatus; rr_OperatorId : string;
  rr_ReportTitle : string; rr_GeneratedAt : string; rr_NoActivity : bool;
  rr_ContentType : string; rr_Content : string }.

Record GenerateReportRequest := mkGenerateReportRequest {
  gr_Meta : option RequestMeta; gr_ReportType : ReportType; gr_Interval : ReportInterval;
  gr_Format : ReportFormat; gr_OperatorId : string }.
Record ListReportRunsRequest := mkListReportRunsRequest {
  lrn_Meta : option RequestMeta; lrn_ReportTypeFilter : ReportType; lrn_PageSize : Z;
  lrn_PageToken : string }.
Record GetReportRunRequest := mkGetReportRunRequest {
  grr_Meta : option RequestMeta; grr_ReportRunId : string }.

(** The responses of GenerateReport and GetReportRun. *)
Record ReportRunResponse := mkReportRunResponse {
  rrr_Meta : ResponseMeta; rrr_ReportRun : option ReportRun }.
Record ListReportRunsResponse := mkListReportRunsResponse {
  lrnr_Meta : ResponseMeta; lrnr_ReportRuns : list ReportRun; lrnr_NextPageToken : string }.

(** ** State *)

(** The service points to the ledger and to the events service. *)
Record ReportingState (D : Type) := mkReporting {
  rep_Ledger : option (Svc D LedgerState);
  rep_Events : option (Svc D EventsState);
  runs : gmap string ReportRun;
  runOrder : list string;
  nextRunID : Z;
  rep_disableInMemoryCache : bool }.
Global Arguments mkReporting {D}.
Global Arguments rep_Ledger {D}.
Global Arguments rep_Events {D}.
Global Arguments runs {D}.
Global Arguments runOrder {D}.
Global Arguments nextRunID {D}.
Global Arguments rep_disableInMemoryCache {D}.

#[global] Instance eta_ReportingState D : Eta (ReportingState D) := λ s,
  mkReporting (rep_Ledger s) (rep_Events s) (runs s) (runOrder s) (nextRunID s)
    (rep_disableInMemoryCache s).

Definition NewReportingState {D} ledger events : ReportingState D :=
  mkReporting ledger events ∅ [] 0 false.

Definition NewReportingService {D} (clk : option (nat → Time)) ledger events (handle : option D)
    : Svc D (ReportingState D) :=
  mkSvc (mkBase clk (Some NewInMemoryStore) false 0 handle 0) (NewReportingState ledger events).

(** ** The database interface *)

Record report_row := mkReportRow {
  rw_report_run_id : string; rw_report_type : string; rw_report_interval : string;
  rw_report_format : string; rw_status : string; rw_operator_id : string;
  rw_report_title : string; rw_generated_at : Time; rw_no_activity : bool;
  rw_content_type : string; rw_content : string }.

Record account_row := mkAccountRow {
  aw_account_id : string; aw_currency_code : string; aw_available : Z; aw_pending : Z }.

Class ReportingDB (D : Type) := {
  (** INSERT INTO report_runs ... ON CONFLICT (report_run_id) DO UPDATE: the
      fourteen parameters in order *)
  x_report_run : string → string → string → string → string → string → string → string →
    bool → string → string → string → string → string → D → res () * D;
  (** ... WHERE ($1 = '' OR report_type = $1) ORDER BY generated_at DESC LIMIT OFFSET *)
  q_report_runs : string → Z → Z → D → res (list report_row) * D;
  q_report_run : string → D → res (option report_row) * D;
  (** the rows whose occurred_at is in an interval; no lower bound is NULL *)
  q_report_events : option Time → Time → D → res (list event_row) * D;
  q_report_transactions : option Time → Time → D → res (list (tx_row Time)) * D;
  q_report_accounts : D → res (list account_row) * D;
}.

(** ** Values of the payload maps *)

Inductive scalar := SString (s : string) | SInt (n : Z) | SInt64 (n : Z) | SBool (b : bool).
Abbreviation row := (gmap string scalar).
Inductive value := Scalar (v : scalar) | Rows (l : list row).
Abbreviation payload := (gmap string value).

(** [json.Marshal] of a map with values rendered by [f]. *)
Definition json_map_of {V} (f : V → string) (m : gmap string V) : string :=
  json_object ((λ k, (k, default "" (f <$> m !! k))) <$> sorted_keys m).
Definition json_scalar (v : scalar) : string :=
  match v with
  | SString s => json_string s
  | SInt n | SInt64 n => json_int n
  | SBool b => json_bool b
  end.
Definition json_value (v : value) : string :=
  match v with
  | Scalar v => json_scalar v
  | Rows l => "[" +:+ Join "," (json_map_of json_scalar <$> l) +:+ "]"
  end.
Definition json_payload (p : payload) : string := json_map_of json_value p.

(** [None] is the nil of a missing key. *)
Definition toString (v : option value) : string :=
  match v with
  | Some (Scalar (SString x)) => x
  | Some (Scalar (SInt x)) => FormatInt x
  | Some (Scalar (SInt64 x)) => FormatInt x
  | Some (Scalar (SBool x)) => if x then "true" else "false"
  | Some x => json_value x
  | None => ""
  end.
Definition row_string (r : row) (k : string) : string := toString (Scalar <$> r !! k).

(** [json.Marshal] of a run. *)
Definition report_run_json (r : ReportRun) : string :=
  json_object (omit_string "report_run_id" (rr_ReportRunId r)
    ++ omit_int "report_type" (ReportType_number (rr_ReportType r))
    ++ omit_int "interval" (ReportInterval_number (rr_Interval r))
    ++ omit_int "format" (ReportFormat_number (rr_Format r))
    ++ omit_int "status" (ReportRunStatus_number (rr_Status r))
    ++ omit_string "operator_id" (rr_OperatorId r)
    ++ omit_string "report_title" (rr_ReportTitle r)
    ++ omit_string "generated_at" (rr_GeneratedAt r)
    ++ omit_bool "no_activity" (rr_NoActivity r)
    ++ omit_string "content_type" (rr_ContentType r)
    ++ omit_bytes "content" (rr_Content r)).

(** ** Intervals *)

(** [time.Date] at midnight UTC. *)
Definition midnight (y m d : Z) : Time := days_from_civil y m d * ns_per_day.

Definition intervalStart (now : Time) (interval : ReportInterval) : Time :=
  let c := civil_from_days (now / ns_per_day) in
  match interval with
  | REPORT_INTERVAL_DTD => midnight (c_year c) (c_month c) (c_day c)
  | REPORT_INTERVAL_MTD => midnight (c_year c) (c_month c) 1
  | REPORT_INTERVAL_YTD => midnight (c_year c) 1 1
  | REPORT_INTERVAL_LTD => zero_time
  | _ => zero_time
  end.

Definition inInterval (ts : Time) (interval : ReportInterval) (now : Time) : bool :=
  if decide (interval = REPORT_INTERVAL_LTD) then true
  else
    let start := intervalStart now interval in
    if IsZero ts then false
    else negb (time_After start ts) && negb (time_After ts now).

Definition parseTS (v : string) : Time :=
  if decide (v = "") then zero_time
  else match ParseRFC3339Nano v with Some t => t | None => zero_time end.

Definition nullTime (v : Time) : option Time := if IsZero v then None else Some v.

(** ** Rows *)

Definition reportTitle (t : ReportType) : string :=
  match t with
  | REPORT_TYPE_SIGNIFICANT_EVENTS_ALTERATIONS => "System Significant Events and Alterations"
  | REPORT_TYPE_CASHLESS_LIABILITY_SUMMARY => "Cashless Liability Summary"
  | REPORT_TYPE_ACCOUNT_TRANSACTION_STATEMENT => "Account Transaction Statement"
  | _ => "Unknown Report"
  end.

Definition event_cells (id equipment code description severity occurred received recorded
    : string) : row :=
  list_to_map [("event_id", SString id); ("equipment_id", SString equipment);
    ("event_code", SString code); ("localized_description", SString description);
    ("severity", SString severity); ("occurred_at", SString occurred);
    ("received_at", SString received); ("recorded_at", SString recorded)].

(** The time an event is reported under. *)
Definition event_time (e : SignificantEvent) : Time :=
  let ts := parseTS (se_OccurredAt e) in
  if IsZero ts then parseTS (se_RecordedAt e) else ts.

Definition event_report_row (e : SignificantEvent) : row :=
  event_cells (se_EventId e) (se_EquipmentId e) (se_EventCode e) (se_LocalizedDescription e)
    (EventSeverity_String (se_Severity e)) (se_OccurredAt e) (se_ReceivedAt e)
    (se_RecordedAt e).

(** The loop over the events in memory. *)
Definition event_rows (interval : ReportInterval) (now : Time) (es : list SignificantEvent)
    : list row :=
  event_report_row <$> List.filter (λ e, inInterval (event_time e) interval now) es.

Definition event_row_of_db (r : event_row) : row :=
  event_cells (evr_event_id r) (evr_equipment_id r) (evr_event_code r) (evr_description r)
    (evr_severity r) (FormatRFC3339Nano (evr_occurred_at r))
    (FormatRFC3339Nano (evr_received_at r)) (FormatRFC3339Nano (evr_recorded_at r)).

Definition account_cells (id currency : string) (available pending : Z) : row :=
  list_to_map [("account_id", SString id); ("currency", SString currency);
    ("available", SInt64 available); ("pending", SInt64 pending);
    ("total", SInt64 (wrap64 (available + pending)))].

(** The loops over the accounts, in memory and of the table: the rows and the
    two int64 totals. *)
Fixpoint account_rows (totalAvailable totalPending : Z)
    (l : list (string * string * Z * Z)) : list row * Z * Z :=
  match l with
  | [] => ([], totalAvailable, totalPending)
  | (id, currency, avail, pend) :: l =>
      let '(rows, ta, tp) := account_rows (wrap64 (totalAvailable + avail))
        (wrap64 (totalPending + pend)) l in
      (account_cells id currency avail pend :: rows, ta, tp)
  end.

(** The accounts in the order of their sorted ids. *)
Definition account_list (m : gmap string ledgerAccount) : list (string * string * Z * Z) :=
  omap (λ id, a ← m !! id; Some (id, acct_currency a, available a, pending a)) (sorted_keys m).

Definition tx_cells (id account typ : string) (amount : Z) (currency occurred auth : string)
    : row :=
  list_to_map [("transaction_id", SString id); ("account_id", SString account);
    ("transaction_type", SString typ); ("amount_minor", SInt64 amount);
    ("currency", SString currency); ("occurred_at", SString occurred);
    ("authorization_id", SString auth)].

Definition tx_report_row (tx : LedgerTransaction) : row :=
  tx_cells (TransactionId tx) (TxAccountId tx)
    (LedgerTransactionType_String (TransactionType tx)) (AmountMinor (TxAmount tx))
    (Currency (TxAmount tx)) (TxOccurredAt tx) (AuthorizationId tx).

(** The transactions by account, the accounts in the order of their ids. *)
Definition all_transactions (m : gmap string (list LedgerTransaction))
    : list LedgerTransaction :=
  concat (sorted_values m).

Definition transaction_rows (interval : ReportInterval) (now : Time)
    (txs : list LedgerTransaction) : list row :=
  tx_report_row <$> List.filter (λ tx, inInterval (parseTS (TxOccurredAt tx)) interval now) txs.

Definition tx_row_of_db (r : tx_row Time) : row :=
  tx_cells (r_transaction_id r) (r_account_id r)
    (LedgerTransactionType_String (ledgerTxTypeFromDB (r_transaction_type r)))
    (r_amount_minor r) (r_currency_code r) (FormatRFC3339Nano (r_occurred_at r))
    (r_authorization_id r).

(** The map of a report: the common entries, those of the type, and the note. *)
Definition report_payload (typ : ReportType) (interval : ReportInterval) (operatorID : string)
    (now : Time) (extra : list (string * value)) (rows : list row) : payload * bool :=
  let noActivity := bool_decide (rows = []) in
  (list_to_map ([("operator_id", Scalar (SString operatorID));
     ("report_title", Scalar (SString (reportTitle typ)));
     ("selected_interval", Scalar (SString (ReportInterval_String interval)));
     ("generated_at", Scalar (SString (FormatRFC3339Nano now)));
     ("no_activity", Scalar (SBool noActivity));
     ("row_count", Scalar (SInt (Z.of_nat (length rows))));
     ("rows", Rows rows)] ++ extra
     ++ (if noActivity then [("note", Scalar (SString "No Activity"))] else [])),
   noActivity).

(** ** CSV *)

Definition payload_rows (p : payload) : list row :=
  match p !! "rows" with Some (Rows l) => l | _ => [] end.

(** The columns of the first line and of the rows of each type. *)
Definition head_columns (t : ReportType) : list string :=
  match t with
  | REPORT_TYPE_CASHLESS_LIABILITY_SUMMARY =>
      ["operator_id"; "report_title"; "selected_interval"; "generated_at"; "total_available";
       "total_pending"]
  | _ => ["operator_id"; "report_title"; "selected_interval"; "generated_at"]
  end.
Definition row_columns (t : ReportType) : list string :=
  match t with
  | REPORT_TYPE_SIGNIFICANT_EVENTS_ALTERATIONS =>
      ["event_id"; "equipment_id"; "event_code"; "localized_description"; "severity";
       "occurred_at"; "received_at"; "recorded_at"]
  | REPORT_TYPE_CASHLESS_LIABILITY_SUMMARY =>
      ["account_id"; "currency"; "available"; "pending"; "total"]
  | _ => ["transaction_id"; "account_id"; "transaction_type"; "amount_minor"; "currency";
          "occurred_at"; "authorization_id"]
  end.

(** The records [payloadToCSV] writes. *)
Definition csv_records (t : ReportType) (p : payload) : list (list string) :=
  match t with
  | REPORT_TYPE_SIGNIFICANT_EVENTS_ALTERATIONS | REPORT_TYPE_CASHLESS_LIABILITY_SUMMARY
  | REPORT_TYPE_ACCOUNT_TRANSACTION_STATEMENT =>
      [head_columns t; (λ k, toString (p !! k)) <$> head_columns t; row_columns t]
      ++ (if decide (payload_rows p = []) then [["No Activity"]] else [])
      ++ ((λ r, row_string r <$> row_columns t) <$> payload_rows p)
  | _ => [["No Activity"]]
  end.
Definition payloadToCSV (t : ReportType) (p : payload) : string := csv_write (csv_records t p).

(** ** Database encodings *)

Definition reportTypeToDB (v : ReportType) : string :=
  match v with
  | REPORT_TYPE_SIGNIFICANT_EVENTS_ALTERATIONS => "significant_events_alterations"
  | REPORT_TYPE_CASHLESS_LIABILITY_SUMMARY => "cashless_liability_summary"
  | REPORT_TYPE_ACCOUNT_TRANSACTION_STATEMENT => "account_transaction_statement"
  | _ => "unknown"
  end.
Definition reportTypeFromDB (v : string) : ReportType :=
  if decide (v = "significant_events_alterations")
  then REPORT_TYPE_SIGNIFICANT_EVENTS_ALTERATIONS
  else if decide (v = "cashless_liability_summary") then REPORT_TYPE_CASHLESS_LIABILITY_SUMMARY
  else if decide (v = "account_transaction_statement")
  then REPORT_TYPE_ACCOUNT_TRANSACTION_STATEMENT
  else REPORT_TYPE_UNSPECIFIED.
Definition reportIntervalToDB (v : ReportInterval) : string :=
  match v with
  | REPORT_INTERVAL_DTD => "dtd" | REPORT_INTERVAL_MTD => "mtd" | REPORT_INTERVAL_YTD => "ytd"
  | REPORT_INTERVAL_LTD => "ltd" | _ => "ltd"
  end.
Definition reportIntervalFromDB (v : string) : ReportInterval :=
  if decide (v = "dtd") then REPORT_INTERVAL_DTD
  else if decide (v = "mtd") then REPORT_INTERVAL_MTD
  else if decide (v = "ytd") then REPORT_INTERVAL_YTD
  else if decide (v = "ltd") then REPORT_INTERVAL_LTD
  else REPORT_INTERVAL_UNSPECIFIED.
Definition reportFormatToDB (v : ReportFormat) : string :=
  match v with REPORT_FORMAT_JSON => "json" | REPORT_FORMAT_CSV => "csv" | _ => "json" end.
Definition reportFormatFromDB (v : string) : ReportFormat :=
  if decide (v = "json") then REPORT_FORMAT_JSON
  else if decide (v = "csv") then REPORT_FORMAT_CSV else REPORT_FORMAT_UNSPECIFIED.
Definition reportStatusToDB (v : ReportRunStatus) : string :=
  match v with
  | REPORT_RUN_STATUS_COMPLETED => "completed" | REPORT_RUN_STATUS_FAILED => "failed"
  | _ => "completed"
  end.
Definition reportStatusFromDB (v : string) : ReportRunStatus :=
  if decide (v = "completed") then REPORT_RUN_STATUS_COMPLETED
  else if decide (v = "failed") then REPORT_RUN_STATUS_FAILED
  else REPORT_RUN_STATUS_UNSPECIFIED.

Definition run_of_row (r : report_row) : ReportRun :=
  mkReportRun (rw_report_run_id r) (reportTypeFromDB (rw_report_type r))
    (reportIntervalFromDB (rw_report_interval r)) (reportFormatFromDB (rw_report_format r))
    (reportStatusFromDB (rw_status r)) (rw_operator_id r) (rw_report_title r)
    (FormatRFC3339Nano (rw_generated_at r)) (rw_no_activity r) (rw_content_type r)
    (rw_content r).

Section reporting.
Context {D : Type} `{!Wall, !Crypto, !JsonValid, !AuditDB D, !ReportingDB D}.

Abbreviation RM := (M (Svc D (ReportingState D))).

Definition reporting_SetDisableInMemoryCache (disable : bool) : RM () :=
  locked (mod_st (λ s, s <| rep_disableInMemoryCache := disable |>)).

Definition useInMemoryCache : RM bool :=
  locked (disabled ← get_st rep_disableInMemoryCache; mret (negb disabled)).

Definition reporting_authorize : option Context → option RequestMeta → bool * string :=
  operators_only.

Definition nextRunIDLocked : RM string :=
  mod_st (λ s, s <| nextRunID ::= λ n, wrap64 (n + 1) |>);;
  n ← get_st nextRunID; mret ("report-" +:+ FormatInt n).

Definition reporting_appendAudit (meta : option RequestMeta)
    (objectID action before after : string) (result : Result) (reason : string)
    : RM (option error) :=
  appendAudit "reporting-audit-" meta "report_run" objectID action before after result reason.

(** A call of the ledger or the events service the service points to. *)
Definition on_ledger {A} (m : M (Svc D LedgerState) A) : RM (option A) := λ s,
  match rep_Ledger (st s) with
  | None => Done None s
  | Some l =>
      match m l with
      | Done a l' => Done (Some a) (s <| st ::= λ x, x <| rep_Ledger := Some l' |> |>)
      | Panic l' => Panic (s <| st ::= λ x, x <| rep_Ledger := Some l' |> |>)
      | Deadlock => Deadlock
      end
  end.
Definition on_events {A} (m : M (Svc D EventsState) A) : RM (option A) := λ s,
  match rep_Events (st s) with
  | None => Done None s
  | Some l =>
      match m l with
      | Done a l' => Done (Some a) (s <| st ::= λ x, x <| rep_Events := Some l' |> |>)
      | Panic l' => Panic (s <| st ::= λ x, x <| rep_Events := Some l' |> |>)
      | Deadlock => Deadlock
      end
  end.

(** ** reporting_postgres.go *)

Definition persistReportRun (meta : option RequestMeta) (run : ReportRun) : RM (option error) :=
  enabled ← dbEnabled;
  if negb enabled then mret None else
  let '(actorID, actorType) := meta_actor meta in
  generated ← nonEmptyTime (rr_GeneratedAt run);
  exec_db (x_report_run (rr_ReportRunId run) (reportTypeToDB (rr_ReportType run))
    (reportIntervalToDB (rr_Interval run)) (reportFormatToDB (rr_Format run))
    (reportStatusToDB (rr_Status run)) (rr_OperatorId run) (rr_ReportTitle run) generated
    (rr_NoActivity run) (rr_ContentType run) (rr_Content run) (requestID meta) actorID
    actorType).

Definition listReportRunsFromDB (filter : ReportType) (limit offset : Z)
    : RM (res (list ReportRun)) :=
  let reportType := if decide (filter = REPORT_TYPE_UNSPECIFIED) then ""
                    else reportTypeToDB filter in
  r ← run_db (q_report_runs reportType limit offset);
  mret (match r with Err e => Err e | Ok rows => Ok (run_of_row <$> rows) end).

Definition getReportRunFromDB (reportRunID : string) : RM (res (option ReportRun)) :=
  r ← run_db (q_report_run reportRunID);
  mret (match r with Err e => Err e | Ok row => Ok (run_of_row <$> row) end).

(** The three readers of the tables; an error leaves the result empty. *)
Definition fetchSignificantEventsRows (now : Time) (interval : ReportInterval)
    : RM (res (list row)) :=
  r ← run_db (q_report_events (nullTime (intervalStart now interval)) now);
  mret (match r with Err e => Err e | Ok rows => Ok (event_row_of_db <$> rows) end).

Definition fetchCashlessLiabilityRows : RM (res (list row * Z * Z)) :=
  r ← run_db q_report_accounts;
  mret (match r with
        | Err e => Err e
        | Ok rows => Ok (account_rows 0 0
            ((λ r, (aw_account_id r, aw_currency_code r, aw_available r, aw_pending r)) <$> rows))
        end).

Definition fetchAccountTransactionStatementRows (now : Time) (interval : ReportInterval)
    : RM (res (list row)) :=
  r ← run_db (q_report_transactions (nullTime (intervalStart now interval)) now);
  mret (match r with Err e => Err e | Ok rows => Ok (tx_row_of_db <$> rows) end).

(** ** reporting_grpc.go *)

(** The fallback to the memory of another service: only when there are no rows,
    the service is there and the cache is in use. *)
Definition or_in_memory {R} (empty : R → bool) (rows : R)
    (present : ReportingState D → bool) (m : RM (option R)) : RM R :=
  if negb (empty rows) then mret rows else
  there ← get_st present;
  if negb there then mret rows else
  cache ← useInMemoryCache;
  if negb cache then mret rows else
  r ← m; mret (default rows r).

Definition has_ledger (s : ReportingState D) : bool :=
  match rep_Ledger s with Some _ => true | None => false end.
Definition has_events (s : ReportingState D) : bool :=
  match rep_Events s with Some _ => true | None => false end.
Definition no_rows (rows : list row) : bool := bool_decide (rows = []).

(** An error of the table readers is dropped: the report then has no rows or
    those in memory. *)
Definition from_db {R} (empty : R) (fetch : RM (res R)) : RM R :=
  enabled ← dbEnabled;
  if negb enabled then mret empty else
  r ← fetch; mret (match r with Ok rows => rows | Err _ => empty end).

Definition buildSignificantEventsPayload (interval : ReportInterval) (operatorID : string)
    : RM (payload * bool) :=
  t ← now;
  rows ← from_db [] (fetchSignificantEventsRows t interval);
  rows ← or_in_memory no_rows rows has_events
    (on_events (locked (es ← get_st sig_events; order ← get_st eventOrder;
       mret (event_rows interval t (omap (λ id, es !! id) order)))));
  mret (report_payload REPORT_TYPE_SIGNIFICANT_EVENTS_ALTERATIONS interval operatorID t [] rows).

Definition buildCashlessLiabilityPayload (interval : ReportInterval) (operatorID : string)
    : RM (payload * bool) :=
  t ← now;
  r ← from_db ([], 0, 0) fetchCashlessLiabilityRows;
  let '(_, totalAvailable, totalPending) := r in
  r ← or_in_memory (λ r : list row * Z * Z, no_rows r.1.1) r has_ledger
    (on_ledger (locked (m ← get_st accounts;
       mret (account_rows totalAvailable totalPending (account_list m)))));
  let '(rows, totalAvailable, totalPending) := r in
  mret (report_payload REPORT_TYPE_CASHLESS_LIABILITY_SUMMARY interval operatorID t
    [("total_available", Scalar (SInt64 totalAvailable));
     ("total_pending", Scalar (SInt64 totalPending))] rows).

Definition buildAccountTransactionStatementPayload (interval : ReportInterval)
    (operatorID : string) : RM (payload * bool) :=
  t ← now;
  rows ← from_db [] (fetchAccountTransactionStatementRows t interval);
  rows ← or_in_memory no_rows rows has_ledger
    (on_ledger (locked (m ← get_st transactionsByAcct;
       mret (transaction_rows interval t (all_transactions m)))));
  mret (report_payload REPORT_TYPE_ACCOUNT_TRANSACTION_STATEMENT interval operatorID t [] rows).

(** The switch on the report type; [None] is its default case. *)
Definition build_payload (typ : ReportType) (interval : ReportInterval) (operatorID : string)
    : RM (option (payload * bool)) :=
  match typ with
  | REPORT_TYPE_SIGNIFICANT_EVENTS_ALTERATIONS =>
      p ← buildSignificantEventsPayload interval operatorID; mret (Some p)
  | REPORT_TYPE_CASHLESS_LIABILITY_SUMMARY =>
      p ← buildCashlessLiabilityPayload interval operatorID; mret (Some p)
  | REPORT_TYPE_ACCOUNT_TRANSACTION_STATEMENT =>
      p ← buildAccountTransactionStatementPayload interval operatorID; mret (Some p)
  | _ => mret None
  end.

(** Content and content type. *)
Definition render (format : ReportFormat) (typ : ReportType) (p : payload) : string * string :=
  if decide (format = REPORT_FORMAT_JSON) then (json_payload p, "application/json")
  else (payloadToCSV typ p, "text/csv").

Definition run_reply (meta : option RequestMeta) code reason : RM ReportRunResponse :=
  m ← responseMeta meta code reason; mret (mkReportRunResponse m None).

Definition GenerateReport (ctx : option Context) (req : option GenerateReportRequest)
    : RM ReportRunResponse :=
  match req with
  | None => run_reply None RESULT_CODE_INVALID "request is required"
  | Some req =>
  let meta := gr_Meta req in
  let '(ok, reason) := reporting_authorize ctx meta in
  if negb ok then
    reporting_appendAudit meta "" "generate_report" "{}" "{}" ResultDenied reason;;
    run_reply meta RESULT_CODE_DENIED reason
  else if decide (gr_ReportType req = REPORT_TYPE_UNSPECIFIED) then
    run_reply meta RESULT_CODE_INVALID "report_type is required"
  else if decide (gr_Interval req = REPORT_INTERVAL_UNSPECIFIED) then
    run_reply meta RESULT_CODE_INVALID "interval is required"
  else if decide (gr_Format req = REPORT_FORMAT_UNSPECIFIED) then
    run_reply meta RESULT_CODE_INVALID "format is required"
  else
  built ← build_payload (gr_ReportType req) (gr_Interval req) (gr_OperatorId req);
  match built with
  | None => run_reply meta RESULT_CODE_INVALID "unsupported report_type"
  | Some (p, noActivity) =>
  let '(content, contentType) := render (gr_Format req) (gr_ReportType req) p in
  run ← locked (
    runID ← nextRunIDLocked;
    t ← now;
    let run := mkReportRun runID (gr_ReportType req) (gr_Interval req) (gr_Format req)
      REPORT_RUN_STATUS_COMPLETED (gr_OperatorId req) (reportTitle (gr_ReportType req))
      (FormatRFC3339Nano t) noActivity contentType content in
    nocache ← get_st rep_disableInMemoryCache;
    (if (nocache : bool) then mret ()
     else mod_st (λ s, s <| runs ::= insert runID run |>
                         <| runOrder ::= λ l, l ++ [runID] |>));;
    mret run);
  err ← reporting_appendAudit meta (rr_ReportRunId run) "generate_report" "{}"
          (report_run_json run) ResultSuccess "";
  match err with
  | Some _ => run_reply meta RESULT_CODE_ERROR "audit unavailable"
  | None =>
  err ← persistReportRun meta run;
  match err with
  | Some _ => run_reply meta RESULT_CODE_ERROR "persistence unavailable"
  | None =>
  m ← responseMeta meta RESULT_CODE_OK ""; mret (mkReportRunResponse m (Some run))
  end end end
  end.

Definition list_runs_reply (meta : option RequestMeta) code reason : RM ListReportRunsResponse :=
  m ← responseMeta meta code reason; mret (mkListReportRunsResponse m [] "").

(** The loop over the runs, newest first. *)
Definition select_runs (filter : ReportType) (m : gmap string ReportRun) (order : list string)
    : list ReportRun :=
  List.filter (λ r, negb (bool_decide (filter ≠ REPORT_TYPE_UNSPECIFIED
      ∧ rr_ReportType r ≠ filter)))
    (omap (λ id, m !! id) (reverse order)).

Definition ListReportRuns (ctx : option Context) (req : option ListReportRunsRequest)
    : RM ListReportRunsResponse :=
  let req := default (mkListReportRunsRequest None REPORT_TYPE_UNSPECIFIED 0 "") req in
  let meta := lrn_Meta req in
  let '(ok, reason) := reporting_authorize ctx meta in
  if negb ok then
    reporting_appendAudit meta "" "list_report_runs" "{}" "{}" ResultDenied reason;;
    list_runs_reply meta RESULT_CODE_DENIED reason
  else
  let start := pageStart (lrn_PageToken req) in
  let size := pageSizeOr 50 (lrn_PageSize req) in
  enabled ← dbEnabled;
  if (enabled : bool) then
    r ← listReportRunsFromDB (lrn_ReportTypeFilter req) size start;
    match r with
    | Err _ => list_runs_reply meta RESULT_CODE_ERROR "persistence unavailable"
    | Ok items =>
        m ← responseMeta meta RESULT_CODE_OK "";
        mret (mkListReportRunsResponse m items (nextFromDB start size (length items)))
    end
  else locked (
    rs ← get_st runs; order ← get_st runOrder;
    p ← page (select_runs (lrn_ReportTypeFilter req) rs order) start size;
    m ← responseMeta meta RESULT_CODE_OK "";
    mret (mkListReportRunsResponse m p.1 p.2)).

Definition GetReportRun (ctx : option Context) (req : option GetReportRunRequest)
    : RM ReportRunResponse :=
  let invalid := run_reply None RESULT_CODE_INVALID "report_run_id is required" in
  match req with
  | None => invalid
  | Some req =>
  let meta := grr_Meta req in
  if decide (grr_ReportRunId req = "") then invalid else
  let '(ok, reason) := reporting_authorize ctx meta in
  if negb ok then
    reporting_appendAudit meta (grr_ReportRunId req) "get_report_run" "{}" "{}" ResultDenied
      reason;;
    run_reply meta RESULT_CODE_DENIED reason
  else
  enabled ← dbEnabled;
  if (enabled : bool) then
    r ← getReportRunFromDB (grr_ReportRunId req);
    match r with
    | Err _ => run_reply meta RESULT_CODE_ERROR "persistence unavailable"
    | Ok None => run_reply meta RESULT_CODE_INVALID "report run not found"
    | Ok (Some run) =>
        m ← responseMeta meta RESULT_CODE_OK ""; mret (mkReportRunResponse m (Some run))
    end
  else locked (
    run ← get_st (λ s, runs s !! grr_ReportRunId req);
    match run with
    | None => run_reply meta RESULT_CODE_INVALID "report run not found"
    | Some run =>
        m ← responseMeta meta RESULT_CODE_OK ""; mret (mkReportRunResponse m (Some run))
    end)
  end.
End reporting.
