(* ===== verification/ReportingProofs.v ===== *)
(** * Theorems about reports

    The intervals are the calendar periods they are named after.  Without a
    database, and whatever requests the ledger, the events service and the
    reporting service served before: a liability report reads as the balances
    the transactions add up to, a statement reads as exactly the transactions
    of its period, and a report run, once returned, is returned again
    unchanged. *)

From S2P Require Import Prelude GoTime GoJson GoCsv AuditTrail Service Listing Ledger LedgerSpec.
From S2P Require Import LedgerMem LedgerProofs Env Events EventsProofs Reporting.
From Stdlib Require Import Sorting.Sorted.

(** ** Intervals *)

Definition date_of (t : Time) : civil := civil_from_days (t / ns_per_day).

(** Whether two times are in the same day, month or year. *)
Definition same_period (interval : ReportInterval) (t u : Time) : Prop :=
  match interval with
  | REPORT_INTERVAL_DTD => date_of t = date_of u
  | REPORT_INTERVAL_MTD =>
      c_year (date_of t) = c_year (date_of u) ∧ c_month (date_of t) = c_month (date_of u)
  | REPORT_INTERVAL_YTD => c_year (date_of t) = c_year (date_of u)
  | _ => True
  end.

Lemma midnight_le d ts : d * ns_per_day ≤ ts ↔ d ≤ ts / ns_per_day.
Proof. unfold ns_per_day, Hour, Minute, Second. Z.to_euclidean_division_equations. lia. Qed.

Lemma same_day z z0 : z ≤ z0 → z0 ≤ z ↔ civil_from_days z = civil_from_days z0.
Proof.
  intros Hz. split; [intros ?; f_equal; lia|]. intros E.
  pose proof (days_civil_roundtrip z) as E1. pose proof (days_civil_roundtrip z0) as E2.
  cbv zeta in *. rewrite E in E1. lia.
Qed.

(** The intervals are calendar periods: a timestamp is in the day-to-date,
    month-to-date or year-to-date interval of a moment exactly if it is not the
    zero time, not after that moment, and on the same UTC day, in the same month
    of the same year, or in the same year; every timestamp is in the
    life-to-date interval. *)
Theorem interval_exact interval ts now :
  interval ∈ [REPORT_INTERVAL_DTD; REPORT_INTERVAL_MTD; REPORT_INTERVAL_YTD;
    REPORT_INTERVAL_LTD] →
  inInterval ts interval now = true ↔
  interval = REPORT_INTERVAL_LTD ∨ ts ≠ zero_time ∧ ts ≤ now ∧ same_period interval ts now.
Proof.
  intros Hi. unfold inInterval. case_decide as Hl; [naive_solver|].
  assert (time_After (intervalStart now interval) ts = false ↔
    intervalStart now interval ≤ ts) as Hs by (unfold time_After; rewrite Z.ltb_ge; done).
  assert (ts ≤ now → intervalStart now interval ≤ ts ↔ same_period interval ts now) as Hp.
  { intros Hle. assert (ts / ns_per_day ≤ now / ns_per_day) as Hd by (by apply Z.div_le_mono).
    assert (interval = REPORT_INTERVAL_DTD ∨ interval = REPORT_INTERVAL_MTD
      ∨ interval = REPORT_INTERVAL_YTD) as [-> | [-> | ->]] by set_solver;
      cbn [intervalStart same_period]; cbv zeta; unfold midnight; rewrite midnight_le; unfold date_of.
    - rewrite days_civil_roundtrip. by apply same_day.
    - by apply same_month.
    - by apply same_year. }
  unfold IsZero. destruct (Z.eqb_spec ts zero_time) as [Hz|Hz]; [naive_solver|].
  rewrite andb_true_iff, !negb_true_iff, Hs.
  assert (time_After ts now = false ↔ ts ≤ now) as -> by (unfold time_After; rewrite Z.ltb_ge; done).
  naive_solver.
Qed.

(** ** CSV content *)

Lemma csv_records_nonempty t p : Forall (.≠ []) (csv_records t p).
Proof.
  unfold csv_records.
  destruct t; repeat first [apply Forall_cons; split; [done|] | apply Forall_nil; done
    | apply Forall_app; split]; try (case_decide; repeat constructor; done);
    apply Forall_fmap, Forall_forall; intros r _; done.
Qed.

Lemma payloadToCSV_read t p : csv_read (payloadToCSV t p) = Some (csv_records t p).
Proof. apply csv_read_write, csv_records_nonempty. Qed.

(** ** Rows of the accounts *)

Lemma sumZ_fmap {A B} (f : B → Z) (g : A → B) l : sumZ f (g <$> l) = sumZ (λ x, f (g x)) l.
Proof. induction l as [|x l IH]; [done|]. by rewrite fmap_cons, !sumZ_cons, IH. Qed.

Lemma sumZ_zero {A} (l : list A) : sumZ (λ _, 0) l = 0.
Proof. induction l as [|x l IH]; [done|]. by rewrite sumZ_cons, IH. Qed.

Lemma sumZ_wrap64 {A} (f : A → Z) l : wrap64 (sumZ (λ x, wrap64 (f x)) l) = wrap64 (sumZ f l).
Proof.
  induction l as [|x l IH]; [done|]. rewrite !sumZ_cons, wrap64_add_l, Z.add_comm.
  by rewrite <- wrap64_add_l, IH, wrap64_add_l, Z.add_comm.
Qed.

Lemma account_rows_eq l a b :
  in_int64 a → in_int64 b →
  account_rows a b l
  = ((λ '(id, cur, av, pe), account_cells id cur av pe) <$> l,
     wrap64 (a + sumZ (λ x, x.1.2) l), wrap64 (b + sumZ (λ x, x.2) l)).
Proof.
  revert a b. induction l as [|[[[id cur] av] pe] l IH]; intros a b Ha Hb; simpl.
  - by rewrite !Z.add_0_r, !wrap64_id.
  - rewrite IH by apply wrap64_range. rewrite !wrap64_add_l, !Z.add_assoc. done.
Qed.

(** What a line of the liability report says: the id, the currency, and the
    balance that the account's transactions add up to. *)
Definition balance_of (ls : LedgerState) (id : string) : Z :=
  sumZ signed_amount (map_get [] (transactionsByAcct ls) id).
Definition liability_line (ls : LedgerState) (id : string) : list string :=
  let v := FormatInt (wrap64 (balance_of ls id)) in
  [id; default "" (acct_currency <$> accounts ls !! id); v; "0"; v].

Lemma account_list_eq ls :
  books_inv (books_of ls) →
  account_list (accounts ls)
  = (λ id, (id, default "" (acct_currency <$> accounts ls !! id), wrap64 (balance_of ls id), 0))
    <$> sorted_keys (accounts ls).
Proof.
  intros Hb. unfold account_list.
  assert (Forall (λ id, is_Some (accounts ls !! id)) (sorted_keys (accounts ls))) as Hall.
  { apply Forall_forall. intros id. apply elem_of_sorted_keys. }
  induction Hall as [|id l [a Ha] Hl IH]; [done|].
  cbn [omap list_omap]. rewrite fmap_cons, IH, Ha. simpl.
  destruct (bi_accounts _ Hb _ _ Ha) as [_ Hp _ Hav _]. rewrite Hp, Hav. done.
Qed.

Lemma liability_rows_eq ls :
  books_inv (books_of ls) →
  account_rows 0 0 (account_list (accounts ls))
  = ((λ id, account_cells id (default "" (acct_currency <$> accounts ls !! id))
        (wrap64 (balance_of ls id)) 0) <$> sorted_keys (accounts ls),
     wrap64 (sumZ (balance_of ls) (sorted_keys (accounts ls))), 0).
Proof.
  intros Hb. rewrite account_rows_eq by done. rewrite account_list_eq by done.
  rewrite <- list_fmap_compose, !Z.add_0_l.
  rewrite !sumZ_fmap. simpl. rewrite sumZ_wrap64, sumZ_zero. done.
Qed.

(** ** The lines of a report *)

Ltac map_lookups :=
  repeat first [rewrite lookup_insert_eq | rewrite lookup_insert_ne by done].

Lemma account_line id cur av pe :
  row_string (account_cells id cur av pe) <$> row_columns REPORT_TYPE_CASHLESS_LIABILITY_SUMMARY
  = [id; cur; FormatInt av; FormatInt pe; FormatInt (wrap64 (av + pe))].
Proof. unfold account_cells, row_string. simpl. by map_lookups. Qed.

Definition transaction_line (tx : LedgerTransaction) : list string :=
  [TransactionId tx; TxAccountId tx; LedgerTransactionType_String (TransactionType tx);
   FormatInt (AmountMinor (TxAmount tx)); Currency (TxAmount tx); TxOccurredAt tx;
   AuthorizationId tx].

Lemma liability_head interval op t ta tp rows :
  (λ k, toString ((report_payload REPORT_TYPE_CASHLESS_LIABILITY_SUMMARY interval op t
     [("total_available", Scalar (SInt64 ta)); ("total_pending", Scalar (SInt64 tp))] rows).1 !! k))
    <$> head_columns REPORT_TYPE_CASHLESS_LIABILITY_SUMMARY
  = [op; "Cashless Liability Summary"; ReportInterval_String interval; FormatRFC3339Nano t;
     FormatInt ta; FormatInt tp].
Proof. unfold report_payload. simpl. by map_lookups. Qed.

Lemma statement_head interval op t rows :
  (λ k, toString ((report_payload REPORT_TYPE_ACCOUNT_TRANSACTION_STATEMENT interval op t [] rows).1
     !! k)) <$> head_columns REPORT_TYPE_ACCOUNT_TRANSACTION_STATEMENT
  = [op; "Account Transaction Statement"; ReportInterval_String interval; FormatRFC3339Nano t].
Proof. unfold report_payload. simpl. by map_lookups. Qed.

(** A table under its heads, with a note if it is empty. *)
Definition table (head values columns : list string) (lines : list (list string))
    : list (list string) :=
  [head; values; columns] ++ (if decide (lines = []) then [["No Activity"]] else []) ++ lines.

Definition known_type (typ : ReportType) : Prop :=
  typ ∈ [REPORT_TYPE_SIGNIFICANT_EVENTS_ALTERATIONS; REPORT_TYPE_CASHLESS_LIABILITY_SUMMARY;
    REPORT_TYPE_ACCOUNT_TRANSACTION_STATEMENT].

Lemma csv_records_table typ p :
  known_type typ →
  csv_records typ p = table (head_columns typ) ((λ k, toString (p !! k)) <$> head_columns typ)
    (row_columns typ) ((λ r, row_string r <$> row_columns typ) <$> payload_rows p).
Proof.
  unfold known_type. rewrite !elem_of_cons. intros [-> | [-> | [-> | []%not_elem_of_nil]]];
    unfold csv_records, table; by destruct (payload_rows p).
Qed.

(** ** The reports a state determines *)

Definition events_of (es : EventsState) : list SignificantEvent :=
  omap (λ id, sig_events es !! id) (eventOrder es).

(** The payload of a report of type [typ] at time [t] over the two services'
    states; [None] for an unknown type. *)
Definition payload_at (ls : LedgerState) (es : EventsState) (typ : ReportType)
    (interval : ReportInterval) (op : string) (t : Time) : option (payload * bool) :=
  match typ with
  | REPORT_TYPE_SIGNIFICANT_EVENTS_ALTERATIONS =>
      Some (report_payload typ interval op t [] (event_rows interval t (events_of es)))
  | REPORT_TYPE_CASHLESS_LIABILITY_SUMMARY =>
      let '(rows, ta, tp) := account_rows 0 0 (account_list (accounts ls)) in
      Some (report_payload typ interval op t [("total_available", Scalar (SInt64 ta));
        ("total_pending", Scalar (SInt64 tp))] rows)
  | REPORT_TYPE_ACCOUNT_TRANSACTION_STATEMENT =>
      Some (report_payload typ interval op t []
        (transaction_rows interval t (all_transactions (transactionsByAcct ls))))
  | _ => None
  end.

Lemma payload_at_known ls es typ interval op t :
  known_type typ → payload_at ls es typ interval op t ≠ None.
Proof.
  unfold known_type. rewrite !elem_of_cons. intros [-> | [-> | [-> | []%not_elem_of_nil]]];
    simpl; try done. by destruct (account_rows _ _ _) as [[] ?].
Qed.

(** The payload maps hold what they were built from. *)
Lemma payload_rows_eq typ interval op t extra rows :
  payload_rows (report_payload typ interval op t extra rows).1 = rows.
Proof.
  unfold payload_rows, report_payload. simpl. by rewrite !lookup_insert_ne, lookup_insert_eq by done.
Qed.

Section mem.
Context {D : Type} `{!Wall, !Crypto, !JsonValid, !UnicodeUpper, !AuditDB D, !LedgerDB D,
  !EventsDB D, !ReportingDB D}.
Context `{!ProtoJSON DepositResponse, !ProtoJSON WithdrawResponse,
  !ProtoJSON TransferToDeviceResponse, !ProtoJSON TransferToAccountResponse}.
Abbreviation RM := (M (Svc D (ReportingState D))).
Implicit Types (σ : ReportingState D) (T : Time → Prop) (evs : list Event)
  (s : Svc D (ReportingState D)) (ctx : option Context).

(** Reading under the lock leaves a service as it was. *)
Lemma locked_read {S A} (m : M (Svc D S) A) (f : S → A) (s : Svc D S) :
  mu (base s) = false → (∀ x, m x = Done (f (st x)) x) → locked m s = Done (f (st s)) s.
Proof.
  intros Hmu Hm. destruct s as [[clk store held n d tk] σ]. simpl in Hmu. subst held.
  unfold locked, lock, unlock, on_panic, mbind, M_bind. cbn. rewrite Hm. reflexivity.
Qed.

Lemma on_ledger_read {A} (m : M (Svc D LedgerState) A) f l s :
  rep_Ledger (st s) = Some l → mu (base l) = false → (∀ x, m x = Done (f (st x)) x) →
  on_ledger (locked m) s = Done (Some (f (st l))) s.
Proof.
  intros Hl Hmu Hm. unfold on_ledger. rewrite Hl, (locked_read m f l) by done.
  destruct s as [b [x y z u v w]]. simpl in Hl. by subst x.
Qed.

Lemma on_events_read {A} (m : M (Svc D EventsState) A) f l s :
  rep_Events (st s) = Some l → mu (base l) = false → (∀ x, m x = Done (f (st x)) x) →
  on_events (locked m) s = Done (Some (f (st l))) s.
Proof.
  intros Hl Hmu Hm. unfold on_events. rewrite Hl, (locked_read m f l) by done.
  destruct s as [b [x y z u v w]]. simpl in Hl. by subst y.
Qed.

(** Code that runs to one result without changing anything. *)
Lemma mspec_same {A} T (m : RM A) a h σ evs (Q : A → ReportingState D → list Event → Prop) :
  (∀ s, st s = σ → m s = Done a s) → Q a σ evs → mspec T m h σ evs Q.
Proof.
  intros Hm HQ s Hs. eapply post_done; [apply Hm; by destruct Hs|]. by eexists σ, evs.
Qed.

(** ** The invariant *)

Definition report_id (n : Z) : string := "report-" +:+ FormatInt n.

Lemma report_id_inj n n' : report_id n = report_id n' → n = n'.
Proof. intros [= E]. by apply FormatInt_inj. Qed.

(** The two services are idle and correct, and the runs are those numbered 1
    to [nextRunID]; every counter is at most [n]. *)
Record rep_inv (ls : Svc D LedgerState) (es : Svc D EventsState) (n : Z) σ : Prop := {
  ri_ledger : rep_Ledger σ = Some ls;
  ri_ledger_mem : in_memory ls;
  ri_books : books_inv (books_of (st ls));
  ri_ledger_n : nextTransactionID (st ls) ≤ n;
  ri_events : rep_Events σ = Some es;
  ri_events_mem : in_memory es;
  ri_ev : ev_inv (st es);
  ri_events_n : nextBuffer (st es) ≤ n;
  ri_cache : rep_disableInMemoryCache σ = false;
  ri_next : 0 ≤ nextRunID σ ≤ n;
  ri_runs : store_ok rr_ReportRunId (runs σ) (runOrder σ);
  ri_ids : runOrder σ = report_id <$> seqZ 1 (nextRunID σ) }.

Lemma rspec_cache T ls es n h σ evs (Q : bool → ReportingState D → list Event → Prop) :
  rep_inv ls es n σ → h = false → Q true σ evs →
  mspec (D := D) T useInMemoryCache h σ evs Q.
Proof. intros Hinv -> HQ. unfold useInMemoryCache. msteps. by rewrite (ri_cache _ _ _ _ Hinv). Qed.

(** The switch over the report types builds the payload of the state. *)
Lemma build_payload_spec T ls es n typ interval op σ evs :
  rep_inv ls es n σ →
  mspec (D := D) T (build_payload typ interval op) false σ evs (λ r σ' evs',
    σ' = σ ∧ evs' = evs
    ∧ ((∃ t, T t ∧ r = payload_at (st ls) (st es) typ interval op t)
       ∨ r = None ∧ ∀ t, payload_at (st ls) (st es) typ interval op t = None)).
Proof.
  intros Hinv. pose proof (ri_ledger _ _ _ _ Hinv) as Hl. pose proof (ri_events _ _ _ _ Hinv) as He.
  assert (Hml := im_mu _ (ri_ledger_mem _ _ _ _ Hinv)).
  assert (Hme := im_mu _ (ri_events_mem _ _ _ _ Hinv)).
  destruct typ; cbn [build_payload];
    try (msteps; split; [done|]; split; [done|]; right; done);
    unfold buildSignificantEventsPayload, buildCashlessLiabilityPayload,
      buildAccountTransactionStatementPayload, from_db, or_in_memory; msteps;
    unfold has_ledger, has_events; rewrite ?Hl, ?He; msteps;
    (eapply rspec_cache; [done|done|]); msteps.
  - eapply mspec_same; [intros s <-; apply (on_events_read _ (λ es, event_rows interval t (events_of es)) es); done|].
    msteps. split; [done|]. split; [done|]. left. eauto.
  - eapply mspec_same; [intros s <-; apply (on_ledger_read _ (λ ls, account_rows 0 0 (account_list (accounts ls))) ls); done|].
    simpl default. destruct (account_rows 0 0 _) as [[rows ta] tp] eqn:E.
    msteps. split; [done|]. split; [done|]. left. exists t. split; [done|].
    unfold payload_at. by rewrite E.
  - eapply mspec_same; [intros s <-; apply (on_ledger_read _ (λ ls,
      transaction_rows interval t (all_transactions (transactionsByAcct ls))) ls); done|].
    msteps. split; [done|]. split; [done|]. left. eauto.
Qed.

(** ** Handlers *)

(** Whether a request for a report is complete and authorized. *)
Definition report_admissible ctx (q : GenerateReportRequest) : Prop :=
  (reporting_authorize ctx (gr_Meta q)).1 = true
  ∧ known_type (gr_ReportType q)
  ∧ gr_Interval q ≠ REPORT_INTERVAL_UNSPECIFIED ∧ gr_Format q ≠ REPORT_FORMAT_UNSPECIFIED.

(** The run that a request gets: number [n], with payload [p] of time [t]. *)
Definition run_for (q : GenerateReportRequest) (n : Z) (p : payload * bool) (t : Time)
    : ReportRun :=
  mkReportRun (report_id n) (gr_ReportType q) (gr_Interval q) (gr_Format q)
    REPORT_RUN_STATUS_COMPLETED (gr_OperatorId q) (reportTitle (gr_ReportType q))
    (FormatRFC3339Nano t) p.2 (render (gr_Format q) (gr_ReportType q) p.1).2
    (render (gr_Format q) (gr_ReportType q) p.1).1.

Definition store_run σ (run : ReportRun) : ReportingState D :=
  σ <| nextRunID ::= λ n, n + 1 |> <| runs ::= insert (rr_ReportRunId run) run |>
    <| runOrder ::= λ l, l ++ [rr_ReportRunId run] |>.

Lemma report_denied_spec {A} T meta objectID action reason (k : RM A) h σ evs Q :
  (∀ e, mspec T k h σ (evs ++ [e]) Q) →
  mspec (D := D) T (reporting_appendAudit meta objectID action "{}" "{}" ResultDenied reason;; k)
    h σ evs Q.
Proof. intros HQ. unfold reporting_appendAudit. msteps. apply HQ. Qed.

Lemma GenerateReport_spec T ls es n ctx req σ evs :
  rep_inv ls es n σ → nextRunID σ < int64_max →
  mspec (D := D) T (GenerateReport ctx req) false σ evs (λ r σ' evs',
    σ' = σ ∧ rrr_ReportRun r = None ∧ (∀ q, req = Some q → ¬ report_admissible ctx q)
    ∨ ∃ q t t' p, req = Some q ∧ ResCode (rrr_Meta r) = RESULT_CODE_OK
        ∧ T t ∧ T t'
        ∧ payload_at (st ls) (st es) (gr_ReportType q) (gr_Interval q) (gr_OperatorId q) t = Some p
        ∧ rrr_ReportRun r = Some (run_for q (nextRunID σ + 1) p t')
        ∧ σ' = store_run σ (run_for q (nextRunID σ + 1) p t')).
Proof.
  intros Hinv Hmax. unfold GenerateReport, run_reply; cbv zeta.
  destruct req as [q|]; [|msteps; left; naive_solver].
  destruct (reporting_authorize ctx (gr_Meta q)) as [[|] why] eqn:Ha; simpl negb; cbv iota.
  2:{ apply report_denied_spec. intros e. msteps. left. split_and!; [done..|].
      intros q' [= <-] [Ha' _]. by rewrite Ha in Ha'. }
  assert (∀ q', Some q = Some q' → report_admissible ctx q' → report_admissible ctx q) as Hq
    by (by intros q' [= <-]).
  case_decide as Hty.
  { msteps. left. split_and!; [done..|]. intros q' E (_ & Hk & _)%(Hq _ E). rewrite Hty in Hk.
    unfold known_type in Hk. by rewrite !elem_of_cons, elem_of_nil in Hk; naive_solver. }
  case_decide as Hiv; [msteps; left; split_and!; [done..|]; by intros q' E (_ & _ & ? & _)%(Hq _ E)|].
  case_decide as Hfm; [msteps; left; split_and!; [done..|]; by intros q' E (_ & _ & _ & ?)%(Hq _ E)|].
  mstep. eapply mspec_mono; [by eapply build_payload_spec|]. intros r σ' evs' (-> & -> & Hr).
  destruct r as [[p na]|].
  2:{ msteps. left. split_and!; [done..|]. intros q' E (_ & Hk & _)%(Hq _ E).
      destruct Hr as [(t' & _ & Hr)|[_ Hr]]; [by apply (payload_at_known _ _ _ _ _ _ Hk (eq_sym Hr))|].
      by apply (payload_at_known _ _ _ _ _ _ Hk (Hr 0)). }
  destruct Hr as [(tp & Htp & Hr)|[? _]]; [|done].
  destruct (render (gr_Format q) (gr_ReportType q) p) as [content ctype] eqn:Er.
  unfold nextRunIDLocked, reporting_appendAudit, persistReportRun. msteps. simpl.
  rewrite (ri_cache _ _ _ _ Hinv). msteps. right. pose proof (ri_next _ _ _ _ Hinv).
  rewrite wrap64_id by (unfold in_int64, int64_min; lia).
  exists q, tp, t, (p, na). unfold run_for. simpl. rewrite Er. split_and!; [done..|].
  unfold store_run, modify_field. simpl. by rewrite wrap64_id by (unfold in_int64, int64_min; lia).
Qed.

Lemma ListReportRuns_spec T ls es n ctx req σ evs :
  rep_inv ls es n σ →
  mspec (D := D) T (ListReportRuns ctx req) false σ evs (λ r σ' evs',
    σ' = σ ∧ ∀ q, req = Some q → (reporting_authorize ctx (lrn_Meta q)).1 = true →
      evs' = evs ∧ (lrnr_ReportRuns r, lrnr_NextPageToken r)
        = page_at (select_runs (lrn_ReportTypeFilter q) (runs σ) (runOrder σ))
            (pageStart (lrn_PageToken q)) (pageSizeOr 50 (lrn_PageSize q))).
Proof.
  intros Hinv. unfold ListReportRuns; cbv zeta. set (q := default _ req).
  destruct (reporting_authorize ctx (lrn_Meta q)) as [[|] why] eqn:Ha; simpl negb; cbv iota.
  2:{ apply report_denied_spec. intros e. unfold list_runs_reply. msteps. split; [done|].
      intros q' ->. change q with q' in Ha. by rewrite Ha. }
  msteps. pose proof (pageSizeOr_pos 50 (lrn_PageSize q)).
  apply mspec_page; [apply pageStart_nonneg|lia|]. msteps. split; [done|].
  intros q' ->. done.
Qed.

Lemma GetReportRun_spec T ls es n ctx req σ evs :
  rep_inv ls es n σ →
  mspec (D := D) T (GetReportRun ctx req) false σ evs (λ r σ' evs',
    σ' = σ ∧ ∀ q, req = Some q → grr_ReportRunId q ≠ "" →
      (reporting_authorize ctx (grr_Meta q)).1 = true →
      rrr_ReportRun r = runs σ !! grr_ReportRunId q
      ∧ ResCode (rrr_Meta r) = match runs σ !! grr_ReportRunId q with
                               | Some _ => RESULT_CODE_OK | None => RESULT_CODE_INVALID end).
Proof.
  intros Hinv. unfold GetReportRun, run_reply; cbv zeta.
  destruct req as [q|]; [|msteps; naive_solver].
  case_decide as Hid; [msteps; naive_solver|].
  destruct (reporting_authorize ctx (grr_Meta q)) as [[|] why] eqn:Ha; simpl negb; cbv iota.
  2:{ apply report_denied_spec. intros e. msteps. split; [done|]. intros q' [= <-]. by rewrite Ha. }
  msteps. destruct (runs σ !! grr_ReportRunId q) as [run|] eqn:Hr; msteps; split; try done;
    intros q' [= <-]; by rewrite Hr.
Qed.

(** ** Runs of the three services *)

Inductive rep_req :=
| QLedger (q : lreq)
| QEvents (q : ev_req)
| QGenerate (ctx : option Context) (req : option GenerateReportRequest)
| QListRuns (ctx : option Context) (req : option ListReportRunsRequest)
| QGetRun (ctx : option Context) (req : option GetReportRunRequest).

(** The result is the report that was generated, if any. *)
Definition rep_serve (q : rep_req) : RM (list ReportRun) :=
  match q with
  | QLedger q => on_ledger (serve q);; mret []
  | QEvents q => on_events (ev_serve q);; mret []
  | QGenerate ctx req => r ← GenerateReport ctx req; mret (option_list (rrr_ReportRun r))
  | QListRuns ctx req => ListReportRuns ctx req;; mret []
  | QGetRun ctx req => GetReportRun ctx req;; mret []
  end.

Fixpoint rep_serve_all (qs : list rep_req) : RM (list ReportRun) :=
  match qs with
  | [] => mret []
  | q :: qs => a ← rep_serve q; l ← rep_serve_all qs; mret (a ++ l)
  end.

(** The platform at its start. *)
Definition new_platform (clk : option (nat → Time)) : Svc D (ReportingState D) :=
  NewReportingService clk (Some (NewLedgerService clk None)) (Some (NewEventsService clk None)) None.

Lemma rspec_on_ledger {A} T (m : M (Svc D LedgerState) A) ls h σ evs P
    (Q : option A → ReportingState D → list Event → Prop) :
  rep_Ledger σ = Some ls → in_memory ls →
  mspec (λ _, True) m false (st ls) (audit_events ls) P →
  (∀ a ls', in_memory ls' → P a (st ls') (audit_events ls') →
     Q (Some a) (σ <| rep_Ledger := Some ls' |>) evs) →
  mspec T (on_ledger m) h σ evs Q.
Proof.
  intros Hl Hm Hs HQ s Hst. destruct (mspec_call _ _ _ _ Hm (λ _, I) Hs) as (a & ls' & E & Hm' & _ & HP).
  eapply post_done; [unfold on_ledger; rewrite (ms_st _ _ _ _ _ Hst), Hl, E; done|].
  exists (σ <| rep_Ledger := Some ls' |>), evs. split; [|by apply HQ].
  destruct Hst as [? ? <- ? ?]. by split.
Qed.

Lemma rspec_on_events {A} T (m : M (Svc D EventsState) A) es h σ evs P
    (Q : option A → ReportingState D → list Event → Prop) :
  rep_Events σ = Some es → in_memory es →
  mspec (λ _, True) m false (st es) (audit_events es) P →
  (∀ a es', in_memory es' → P a (st es') (audit_events es') →
     Q (Some a) (σ <| rep_Events := Some es' |>) evs) →
  mspec T (on_events m) h σ evs Q.
Proof.
  intros Hl Hm Hs HQ s Hst. destruct (mspec_call _ _ _ _ Hm (λ _, I) Hs) as (a & es' & E & Hm' & _ & HP).
  eapply post_done; [unfold on_events; rewrite (ms_st _ _ _ _ _ Hst), Hl, E; done|].
  exists (σ <| rep_Events := Some es' |>), evs. split; [|by apply HQ].
  destruct Hst as [? ? <- ? ?]. by split.
Qed.

(** The runs only grow, by those that were returned. *)
Record rep_grows (acks : list ReportRun) σ σ' : Prop := {
  rg_runs : runs σ ⊆ runs σ';
  rg_order : runOrder σ' = runOrder σ ++ (rr_ReportRunId <$> acks);
  rg_acked run : run ∈ acks → runs σ' !! rr_ReportRunId run = Some run }.

Lemma rep_grows_refl σ : rep_grows [] σ σ.
Proof. split; [done|by rewrite app_nil_r|by intros ? ?%not_elem_of_nil]. Qed.

Lemma rep_grows_trans a b σ1 σ2 σ3 :
  rep_grows a σ1 σ2 → rep_grows b σ2 σ3 → rep_grows (a ++ b) σ1 σ3.
Proof.
  intros [Hr Ho Ha] [Hr' Ho' Ha']. split; [by etrans|by rewrite Ho', Ho, fmap_app, app_assoc|].
  intros run [Hin|Hin]%elem_of_app; [|by apply Ha']. by eapply lookup_weaken; [apply Ha|].
Qed.

(** What one request does. *)
Definition rep_step (n : Z) σ (a : list ReportRun) σ' : Prop :=
  (∃ ls es, rep_inv ls es (n + 1) σ') ∧ rep_grows a σ σ'.

Lemma rep_inv_weaken ls es n n' σ : rep_inv ls es n σ → n ≤ n' → rep_inv ls es n' σ.
Proof. intros [] ?. split; try done; lia. Qed.

Lemma rep_step_same ls es n σ : rep_inv ls es n σ → rep_step n σ [] σ.
Proof.
  intros Hinv. split; [|apply rep_grows_refl]. exists ls, es. apply (rep_inv_weaken _ _ n); [done|lia].
Qed.

Lemma rep_step_stored ls es n σ q p t :
  rep_inv ls es n σ →
  rep_step n σ [run_for q (nextRunID σ + 1) p t] (store_run σ (run_for q (nextRunID σ + 1) p t)).
Proof.
  intros Hinv. pose proof (ri_next _ _ _ _ Hinv).
  assert (runs σ !! report_id (nextRunID σ + 1) = None) as Hfresh.
  { apply eq_None_not_Some. rewrite <- (so_dom _ _ _ (ri_runs _ _ _ _ Hinv)), (ri_ids _ _ _ _ Hinv).
    intros (k & E%report_id_inj & Hk)%list_elem_of_fmap. apply elem_of_seqZ in Hk. lia. }
  split.
  - exists ls, es. destruct (rep_inv_weaken _ _ _ (n + 1) _ Hinv) as []; [lia|].
    split; try done; simpl; [lia|by apply (store_ok_insert rr_ReportRunId _ _ (run_for q _ p t))|].
    rewrite (ri_ids _ _ _ _ Hinv), seqZ_app, fmap_app by lia. do 2 f_equal.
    simpl. do 2 f_equal. lia.
  - split; simpl; [by apply insert_subseteq|done|].
    intros run ->%list_elem_of_singleton. apply lookup_insert_eq.
Qed.

Lemma rep_serve_spec T ls es n q σ evs :
  rep_inv ls es n σ → n < int64_max →
  mspec (D := D) T (rep_serve q) false σ evs (λ a σ' _, rep_step n σ a σ').
Proof.
  intros Hinv Hmax. pose proof (ri_next _ _ _ _ Hinv).
  destruct q as [q|q|ctx req|ctx req|ctx req]; cbn [rep_serve]; mstep.
  - eapply rspec_on_ledger; [apply Hinv|apply Hinv|apply serve_advances|].
    intros r ls' Hm' [Hadv _]. mstep. split; [|by split; [done|by rewrite app_nil_r|
      intros ? ?%not_elem_of_nil]].
    exists ls', es. pose proof (ri_ledger_n _ _ _ _ Hinv).
    destruct (bstep_inv _ _ (adv_books _ _ Hadv) (ri_books _ _ _ _ Hinv)) as [Hb' Hn']; simpl in *; [lia|].
    destruct (rep_inv_weaken _ _ _ (n + 1) _ Hinv) as []; [lia|]. split; try done. lia.
  - assert (nextBuffer (st es) < int64_max) as Hlt by (pose proof (ri_events_n _ _ _ _ Hinv); lia).
    eapply rspec_on_events; [apply Hinv|apply Hinv|apply ev_serve_spec; [apply Hinv|done]|].
    intros r es' Hm' (Hev & Hn' & _). mstep. split; [|by split; [done|by rewrite app_nil_r|
      intros ? ?%not_elem_of_nil]].
    exists ls, es'. destruct (rep_inv_weaken _ _ _ (n + 1) _ Hinv) as []; [lia|].
    split; try done. pose proof (ri_events_n _ _ _ _ Hinv). lia.
  - eapply mspec_mono; [eapply GenerateReport_spec; [done|lia]|].
    intros r σ' evs' [(-> & -> & _)|(q & t & t' & p & _ & _ & _ & _ & _ & -> & ->)]; mstep.
    + by eapply rep_step_same.
    + by eapply rep_step_stored.
  - eapply mspec_mono; [by eapply ListReportRuns_spec|]. intros r σ' evs' [-> _]. mstep.
    by eapply rep_step_same.
  - eapply mspec_mono; [by eapply GetReportRun_spec|]. intros r σ' evs' [-> _]. mstep.
    by eapply rep_step_same.
Qed.

Lemma rep_serve_all_spec T ls es n qs σ evs :
  rep_inv ls es n σ → n + Z.of_nat (length qs) ≤ int64_max →
  mspec (D := D) T (rep_serve_all qs) false σ evs (λ a σ' _,
    (∃ ls es, rep_inv ls es (n + Z.of_nat (length qs)) σ') ∧ rep_grows a σ σ').
Proof.
  revert ls es n σ evs. induction qs as [|q qs IH]; intros ls es n σ evs Hinv Hmax; simpl.
  { mstep. split; [|apply rep_grows_refl]. rewrite Z.add_0_r. eauto. }
  simpl in Hmax. mstep. eapply mspec_mono; [eapply rep_serve_spec; [done|lia]|].
  intros a σ1 evs1 [(ls1 & es1 & Hinv1) Hg1]. mstep.
  eapply mspec_mono; [eapply IH; [done|lia]|]. intros l σ2 evs2 [(ls2 & es2 & Hinv2) Hg2]. mstep.
  split; [|by eapply rep_grows_trans]. exists ls2, es2. eapply rep_inv_weaken; [done|lia].
Qed.

Lemma new_platform_inv clk :
  ∃ ls es, rep_inv ls es 0 (st (new_platform clk)).
Proof.
  eexists _, _. split; try done; simpl; try apply NewService_in_memory;
    [apply no_books_inv|apply ev_inv_new|apply store_ok_empty].
Qed.

Lemma rep_run clk qs :
  Z.of_nat (length qs) ≤ int64_max →
  ∃ acks s ls es, rep_serve_all qs (new_platform clk) = Done acks s ∧ in_memory s
    ∧ rep_inv ls es (Z.of_nat (length qs)) (st s)
    ∧ rep_grows acks (st (new_platform clk)) (st s).
Proof.
  intros Hlen. destruct (new_platform_inv clk) as (ls0 & es0 & Hinv0).
  destruct (mspec_call (λ _, True) (rep_serve_all qs) (new_platform clk) _
    (NewService_in_memory _ _) (λ _, I) (rep_serve_all_spec _ _ _ _ _ _ _ Hinv0 Hlen))
    as (acks & s & E & Hm & _ & (ls & es & Hinv) & Hg).
  exists acks, s, ls, es. by rewrite Z.add_0_l in Hinv.
Qed.

Lemma run_for_csv q n p t :
  gr_Format q = REPORT_FORMAT_CSV →
  csv_read (rr_Content (run_for q n p t)) = Some (csv_records (gr_ReportType q) p.1).
Proof. intros Hf. unfold run_for, render. simpl. rewrite Hf. apply payloadToCSV_read. Qed.

(** A report of a known type, requested after any run. *)
Lemma generate_after clk qs acks s ctx q :
  Z.of_nat (length qs) < int64_max → rep_serve_all qs (new_platform clk) = Done acks s →
  report_admissible ctx q →
  ∃ ls es r s' t t' p, rep_Ledger (st s) = Some ls ∧ rep_Events (st s) = Some es
    ∧ books_inv (books_of (st ls)) ∧ ev_inv (st es)
    ∧ GenerateReport ctx (Some q) s = Done r s' ∧ ResCode (rrr_Meta r) = RESULT_CODE_OK
    ∧ payload_at (st ls) (st es) (gr_ReportType q) (gr_Interval q) (gr_OperatorId q) t = Some p
    ∧ rrr_ReportRun r = Some (run_for q (nextRunID (st s) + 1) p t').
Proof.
  intros Hlen E Had. destruct (rep_run clk qs ltac:(lia)) as (acks' & s0 & ls & es & E0 & Hm & Hinv & _).
  rewrite E in E0. injection E0 as <- <-. pose proof (ri_next _ _ _ _ Hinv) as Hn.
  assert (nextRunID (st s) < int64_max) as Hmax by lia.
  destruct (mspec_call (λ _, True) _ s _ Hm (λ _, I) (GenerateReport_spec _ _ _ _ ctx (Some q) _ _ Hinv Hmax))
    as (r & s' & E' & _ & _ & [(_ & _ & Hno)|(q' & t & t' & p & [= <-] & Hok & _ & _ & Hp & Hr & _)]).
  { by destruct (Hno q eq_refl). }
  exists ls, es, r, s', t, t', p. split_and!; try done; apply Hinv.
Qed.

(** C15: the liability report is exact: after any interleaving of at most
    2^63 - 2 requests to the ledger, the events and the reporting service, the
    CSV report an operator asks for reads, field for field, as one line per
    account in the order of the ids, with the balance that the account's
    transactions add up to (modulo 2^64), and with the sum of all of them as
    total. *)
Theorem liability_report_exact clk qs acks s ctx meta interval op :
  Z.of_nat (length qs) < int64_max → rep_serve_all qs (new_platform clk) = Done acks s →
  (reporting_authorize ctx meta).1 = true → interval ≠ REPORT_INTERVAL_UNSPECIFIED →
  ∃ ls r s' run t, rep_Ledger (st s) = Some ls
    ∧ GenerateReport ctx (Some (mkGenerateReportRequest meta
        REPORT_TYPE_CASHLESS_LIABILITY_SUMMARY interval REPORT_FORMAT_CSV op)) s = Done r s'
    ∧ ResCode (rrr_Meta r) = RESULT_CODE_OK ∧ rrr_ReportRun r = Some run
    ∧ csv_read (rr_Content run) = Some (table
        ["operator_id"; "report_title"; "selected_interval"; "generated_at"; "total_available";
         "total_pending"]
        [op; "Cashless Liability Summary"; ReportInterval_String interval; FormatRFC3339Nano t;
         FormatInt (wrap64 (sumZ (balance_of (st ls)) (sorted_keys (accounts (st ls))))); "0"]
        ["account_id"; "currency"; "available"; "pending"; "total"]
        (liability_line (st ls) <$> sorted_keys (accounts (st ls)))).
Proof.
  intros Hlen E Ha Hi. set (q := mkGenerateReportRequest _ _ _ _ _).
  destruct (generate_after clk qs acks s ctx q Hlen E) as
    (ls & es & r & s' & t & t' & p & Hl & _ & Hb & _ & E' & Hok & Hp & Hr).
  { split; [done|]. split; [by right; left|]. done. }
  exists ls, r, s', (run_for q (nextRunID (st s) + 1) p t'), t. split_and!; try done.
  rewrite run_for_csv by done. f_equal. cbn [payload_at q gr_ReportType gr_Interval gr_OperatorId] in *.
  rewrite (liability_rows_eq _ Hb) in Hp. injection Hp as <-.
  rewrite csv_records_table by (by right; left). rewrite liability_head, payload_rows_eq.
  rewrite <- list_fmap_compose. f_equal. apply list_fmap_ext. intros _ id _.
  unfold compose. rewrite account_line. unfold liability_line. rewrite Z.add_0_r.
  by rewrite (wrap64_id (wrap64 _)) by apply wrap64_range.
Qed.

(** The transactions of an account, and those of a period. *)
Definition in_statement (interval : ReportInterval) (t : Time) (ls : LedgerState)
    (tx : LedgerTransaction) : Prop :=
  tx ∈ map_get [] (transactionsByAcct ls) (TxAccountId tx)
  ∧ inInterval (parseTS (TxOccurredAt tx)) interval t = true.

Lemma elem_of_all_transactions ls tx :
  books_inv (books_of ls) →
  tx ∈ all_transactions (transactionsByAcct ls)
  ↔ tx ∈ map_get [] (transactionsByAcct ls) (TxAccountId tx).
Proof.
  intros Hb. unfold all_transactions. rewrite list_elem_of_In, in_concat.
  setoid_rewrite <- list_elem_of_In. split.
  - intros (l & (id & Hl)%elem_of_sorted_values & Htx).
    assert (tx ∈ txs_of (books_of ls) id) as Hin by (unfold txs_of, map_get; simpl; by rewrite Hl).
    by rewrite (to_account _ _ _ (bi_txs _ Hb _ _ Hin)).
  - unfold map_get. destruct (_ !! _) as [l|] eqn:Hl; [|by intros ?%not_elem_of_nil].
    intros Htx. exists l. split; [|done]. apply elem_of_sorted_values. eauto.
Qed.

(** No transaction id occurs twice in the books. *)
Lemma all_transactions_unique ls :
  books_inv (books_of ls) → NoDup (TransactionId <$> all_transactions (transactionsByAcct ls)).
Proof.
  intros Hb. unfold all_transactions, sorted_values.
  pose proof (NoDup_sorted_keys (transactionsByAcct ls)) as Hnd.
  assert (∀ id l, transactionsByAcct ls !! id = Some l → txs_of (books_of ls) id = l) as Htx
    by (intros id l Hl; unfold txs_of, map_get; simpl; by rewrite Hl).
  induction Hnd as [|id ids Hid Hnd IH]; [constructor|]. cbn [omap list_omap].
  destruct (transactionsByAcct ls !! id) as [l|] eqn:Hl; [|done].
  apply Htx in Hl. cbn [concat]. rewrite fmap_app. apply NoDup_app. split_and!; [| |done].
  - apply NoDup_alt. intros i j k Hi Hj. rewrite list_lookup_fmap in Hi, Hj.
    destruct (l !! i) as [tx|] eqn:Ei, (l !! j) as [tx'|] eqn:Ej; try done.
    simplify_eq/=. by destruct (bi_unique _ Hb id id i j tx tx') as [_ ->].
  - intros k (tx & -> & Htx1)%list_elem_of_fmap (tx' & Ek & Htx2)%list_elem_of_fmap.
    apply list_elem_of_In, in_concat in Htx2 as (l' & Hl' & Htx2).
    apply list_elem_of_In, list_elem_of_omap in Hl' as (id' & Hid' & Hl').
    apply list_elem_of_In in Htx2. apply Htx in Hl'.
    apply list_elem_of_lookup in Htx1 as [i Hi], Htx2 as [j Hj].
    rewrite <- Hl in Hi. rewrite <- Hl' in Hj. by destruct (bi_unique _ Hb _ _ _ _ _ _ Hi Hj Ek) as [-> _].
Qed.

(** C27: the statement is exact: after any interleaving of at most 2^63 - 2
    requests to the ledger, the events and the reporting service, the CSV
    statement an operator asks for reads, field for field, as a list of
    transactions in which every transaction on the books whose time is in the
    interval at the moment of the report occurs exactly once, and no other. *)
Theorem statement_report_exact clk qs acks s ctx meta interval op :
  Z.of_nat (length qs) < int64_max → rep_serve_all qs (new_platform clk) = Done acks s →
  (reporting_authorize ctx meta).1 = true → interval ≠ REPORT_INTERVAL_UNSPECIFIED →
  ∃ ls r s' run t txs, rep_Ledger (st s) = Some ls
    ∧ GenerateReport ctx (Some (mkGenerateReportRequest meta
        REPORT_TYPE_ACCOUNT_TRANSACTION_STATEMENT interval REPORT_FORMAT_CSV op)) s = Done r s'
    ∧ ResCode (rrr_Meta r) = RESULT_CODE_OK ∧ rrr_ReportRun r = Some run
    ∧ csv_read (rr_Content run) = Some (table
        ["operator_id"; "report_title"; "selected_interval"; "generated_at"]
        [op; "Account Transaction Statement"; ReportInterval_String interval;
         FormatRFC3339Nano t]
        ["transaction_id"; "account_id"; "transaction_type"; "amount_minor"; "currency";
         "occurred_at"; "authorization_id"]
        (transaction_line <$> txs))
    ∧ NoDup (TransactionId <$> txs) ∧ ∀ tx, tx ∈ txs ↔ in_statement interval t (st ls) tx.
Proof.
  intros Hlen E Ha Hi. set (q := mkGenerateReportRequest _ _ _ _ _).
  destruct (generate_after clk qs acks s ctx q Hlen E) as
    (ls & es & r & s' & t & t' & p & Hl & _ & Hb & _ & E' & Hok & Hp & Hr).
  { split; [done|]. split; [by do 2 right; left|]. done. }
  set (P := λ tx, inInterval (parseTS (TxOccurredAt tx)) interval t).
  set (all := all_transactions (transactionsByAcct (st ls))).
  exists ls, r, s', (run_for q (nextRunID (st s) + 1) p t'), t, (List.filter P all).
  split_and!; try done.
  - rewrite run_for_csv by done. f_equal.
    cbn [payload_at q gr_ReportType gr_Interval gr_OperatorId] in *. injection Hp as <-.
    rewrite csv_records_table by (by do 2 right; left). rewrite statement_head, payload_rows_eq.
    unfold transaction_rows. rewrite <- list_fmap_compose. f_equal.
  - eapply sublist_NoDup; [by apply all_transactions_unique|]. apply sublist_fmap_filter.
  - intros tx. unfold in_statement. rewrite list_elem_of_In, filter_In, <- list_elem_of_In.
    subst all. by rewrite (elem_of_all_transactions _ _ Hb).
Qed.

(** One page of the report runs, by its token. *)
Definition list_runs_page ctx meta size (token : string) : RM (list ReportRun * string) :=
  r ← ListReportRuns ctx (Some (mkListReportRunsRequest meta REPORT_TYPE_UNSPECIFIED size token));
  mret (lrnr_ReportRuns r, lrnr_NextPageToken r).

Lemma select_runs_all acks σ :
  Forall (λ run, runs σ !! rr_ReportRunId run = Some run) acks →
  select_runs REPORT_TYPE_UNSPECIFIED (runs σ) (rr_ReportRunId <$> acks) = reverse acks.
Proof.
  intros Hall. unfold select_runs.
  assert (∀ l, List.filter (λ r, negb (bool_decide (REPORT_TYPE_UNSPECIFIED ≠ REPORT_TYPE_UNSPECIFIED
      ∧ rr_ReportType r ≠ REPORT_TYPE_UNSPECIFIED))) l = l) as Hid.
  { intros l. induction l as [|x l IH]; [done|]. cbn [List.filter].
    rewrite bool_decide_eq_false_2 by naive_solver. cbn [negb]. by rewrite IH. }
  rewrite Hid, <- fmap_reverse. apply Forall_reverse in Hall.
  induction Hall as [|run l Hr Hl IH]; [done|]. cbn [fmap list_fmap omap list_omap].
  rewrite Hr. f_equal. exact IH.
Qed.

(** A report, once returned, stays: after any interleaving of requests to
    the three services, the reports generated so far have pairwise different
    ids, GetReportRun returns each of them as it was first returned, and a
    client that follows the page tokens of ListReportRuns is done after at most
    one call per report plus one and has then seen exactly these reports, the
    newest first. *)
Theorem report_runs_kept clk qs acks s ctx meta size :
  Z.of_nat (length qs) ≤ int64_max → rep_serve_all qs (new_platform clk) = Done acks s →
  (reporting_authorize ctx meta).1 = true → Z.of_nat (length acks) ≤ int64_max →
  NoDup (rr_ReportRunId <$> acks)
  ∧ (∀ run, run ∈ acks → ∃ r s', GetReportRun ctx (Some (mkGetReportRunRequest meta
        (rr_ReportRunId run))) s = Done r s'
      ∧ ResCode (rrr_Meta r) = RESULT_CODE_OK ∧ rrr_ReportRun r = Some run)
  ∧ ∃ s', walk_pages (list_runs_page ctx meta size) (S (length acks)) "" s = Done (reverse acks) s'.
Proof.
  intros Hlen E Ha Hfit. destruct (rep_run clk qs Hlen) as (acks' & s0 & ls & es & E0 & Hm & Hinv & Hg).
  rewrite E in E0. injection E0 as <- <-.
  assert (runOrder (st s) = rr_ReportRunId <$> acks) as Ho by apply (rg_order _ _ _ Hg).
  split_and!.
  - rewrite <- Ho. apply (ri_runs _ _ _ _ Hinv).
  - intros run Hrun. set (q := mkGetReportRunRequest _ _).
    destruct (mspec_call (λ _, True) _ s _ Hm (λ _, I) (GetReportRun_spec _ _ _ _ ctx (Some q) _ _ Hinv))
      as (r & s' & E' & _ & _ & _ & Hr). exists r, s'. split; [done|].
    destruct (Hr q eq_refl) as [Hr1 Hr2]; [|done|].
    { assert (rr_ReportRunId run ∈ runOrder (st s)) as Hid by (rewrite Ho; by apply list_elem_of_fmap_2).
      rewrite (ri_ids _ _ _ _ Hinv) in Hid. apply list_elem_of_fmap in Hid as (k & Hk & _).
      subst q. simpl. by rewrite Hk. }
    cbn [q grr_ReportRunId] in *. rewrite (rg_acked _ _ _ Hg run Hrun) in *. done.
  - destruct (mspec_walk (λ _, True) (list_runs_page ctx meta size) (reverse acks) (pageSizeOr 50 size)
      (st s) (audit_events s) s (S (length acks))) as (s' & Ew & _); try done.
    + by apply pageSizeOr_pos.
    + by rewrite length_reverse.
    + rewrite length_reverse. lia.
    + intros token start Htok. unfold list_runs_page. mstep.
      eapply mspec_mono; [by eapply ListReportRuns_spec|]. intros r σ' evs' [-> Hr].
      destruct (Hr _ eq_refl Ha) as (-> & Hp). mstep. rewrite Hp. simpl.
      rewrite (pageStart_token _ _ Htok), Ho, select_runs_all; [done|].
      apply Forall_forall. apply (rg_acked _ _ _ Hg).
    + by exists s'.
Qed.
End mem.

(** ** Concrete instances *)

Import Concrete.

(** Tables that accept every statement and cannot be read. *)
Module RepTable.
#[export] Instance rep_events_db : EventsDB () := {|
  x_ensure_equipment _ (d : ()) := (Ok (), d);
  x_event_insert _ _ _ _ _ _ _ _ _ _ _ _ _ _ d := (Ok (), d);
  x_meter_insert _ _ _ _ _ _ _ _ _ _ _ _ _ _ _ _ d := (Ok (), d);
  x_buffer_insert _ _ _ _ _ _ _ _ d := (Ok (), d);
  q_events _ _ _ d := (Ok [], d); q_meters _ _ _ _ d := (Ok [], d) |}.
#[export] Instance reporting_db : ReportingDB () := {|
  x_report_run _ _ _ _ _ _ _ _ _ _ _ _ _ _ (d : ()) := (Ok (), d);
  q_report_runs _ _ _ d := (Ok [], d); q_report_run _ d := (Ok None, d);
  q_report_events _ _ d := (Err ErrDatabase, d);
  q_report_transactions _ _ d := (Err ErrDatabase, d);
  q_report_accounts d := (Err ErrDatabase, d) |}.
End RepTable.
Import RepTable.

(** A platform whose clock stands still. *)
Definition ex_platform : Svc () (ReportingState ()) :=
  new_platform (Some (λ _, 1704067200 * Second)).

Definition ex_deposit (account : string) (amount : Z) (currency key : string) : rep_req :=
  QLedger (ReqDeposit None (Some (mkDepositRequest (operator_meta key) account
    (Some (mkMoney amount currency)) "auth"))).
Definition ex_report (typ : ReportType) : GenerateReportRequest :=
  mkGenerateReportRequest (operator_meta "") typ REPORT_INTERVAL_DTD REPORT_FORMAT_CSV "op".
Definition ex_reports : list rep_req :=
  [ex_deposit "alice" 100 "USD" "k1"; QGenerate None (Some (ex_report REPORT_TYPE_CASHLESS_LIABILITY_SUMMARY));
   ex_deposit "bob" 50 "EUR" "k2"; QGenerate None (Some (ex_report REPORT_TYPE_ACCOUNT_TRANSACTION_STATEMENT))].

(** A report hides that its tables could not be read: if the query fails,
    the service answers OK with a completed report that says there was no
    activity. *)
Theorem report_hides_query_error :
  match GenerateReport None (Some (ex_report REPORT_TYPE_ACCOUNT_TRANSACTION_STATEMENT))
      (NewReportingService None None None (Some ())) with
  | Done r _ => ResCode (rrr_Meta r) = RESULT_CODE_OK
      ∧ rr_Status <$> rrr_ReportRun r = Some REPORT_RUN_STATUS_COMPLETED
      ∧ rr_NoActivity <$> rrr_ReportRun r = Some true
  | _ => False
  end.
Proof. vm_compute. done. Qed.

(** The total of a liability report adds amounts of different currencies. *)
Lemma liability_total_mixes_currencies :
  match rep_serve_all ex_reports ex_platform with
  | Done _ s =>
      match GenerateReport None (Some (ex_report REPORT_TYPE_CASHLESS_LIABILITY_SUMMARY)) s with
      | Done r _ => ∃ t, (rrr_ReportRun r ≫= λ run, csv_read (rr_Content run)) = Some
          [["operator_id"; "report_title"; "selected_interval"; "generated_at";
            "total_available"; "total_pending"];
           ["op"; "Cashless Liability Summary"; "REPORT_INTERVAL_DTD"; t; "150"; "0"];
           ["account_id"; "currency"; "available"; "pending"; "total"];
           ["alice"; "USD"; "100"; "0"; "100"]; ["bob"; "EUR"; "50"; "0"; "50"]]
      | _ => False
      end
  | _ => False
  end.
Proof. vm_compute. eexists. reflexivity. Qed.

Lemma interval_exact_witness :
  same_period REPORT_INTERVAL_MTD (1704067200 * Second) (1706745599 * Second)
  ∧ inInterval (1706745600 * Second) REPORT_INTERVAL_MTD (1706745600 * Second) = true
  ∧ inInterval (1706745599 * Second) REPORT_INTERVAL_MTD (1706745600 * Second) = false.
Proof.
  assert (REPORT_INTERVAL_MTD ∈ [REPORT_INTERVAL_DTD; REPORT_INTERVAL_MTD; REPORT_INTERVAL_YTD;
    REPORT_INTERVAL_LTD]) as Hin by (right; left).
  assert (inInterval (1704067200 * Second) REPORT_INTERVAL_MTD (1706745599 * Second) = true) as Ht
    by (vm_compute; reflexivity).
  split.
  - destruct (proj1 (interval_exact _ _ _ Hin) Ht) as [Hl|(_ & _ & Hp)]; [discriminate Hl|exact Hp].
  - split; vm_compute; reflexivity.
Defined.

Lemma liability_report_exact_witness :
  match rep_serve_all ex_reports ex_platform with
  | Done acks s => length acks = 2%nat ∧ ∃ ls r s' run rest, rep_Ledger (st s) = Some ls
      ∧ GenerateReport None (Some (ex_report REPORT_TYPE_CASHLESS_LIABILITY_SUMMARY)) s = Done r s'
      ∧ rrr_ReportRun r = Some run ∧ csv_read (rr_Content run) = Some rest
      ∧ sorted_keys (accounts (st ls)) = ["alice"; "bob"]
  | _ => False
  end.
Proof.
  assert (match rep_serve_all ex_reports ex_platform with
    | Done acks s => length acks = 2%nat
        ∧ (λ ls, sorted_keys (accounts (st ls))) <$> rep_Ledger (st s) = Some ["alice"; "bob"]
    | _ => False end) as Hr by (vm_compute; split; reflexivity).
  destruct (rep_serve_all ex_reports ex_platform) as [acks s| |] eqn:E; [|exact Hr..].
  destruct Hr as [Hlen Hk]. split; [exact Hlen|].
  destruct (liability_report_exact (D := ()) (Some (λ _, 1704067200 * Second)) ex_reports acks s None (operator_meta "")
    REPORT_INTERVAL_DTD "op") as (ls & r & s' & run & t & Hl & E' & _ & Hrun & Hc).
  - vm_compute. reflexivity.
  - exact E.
  - reflexivity.
  - discriminate.
  - exists ls, r, s', run. eexists. rewrite Hl in Hk. injection Hk as Hk.
    split; [exact Hl|]. split; [exact E'|]. split; [exact Hrun|]. split; [exact Hc|exact Hk].
Defined.

Lemma statement_report_exact_witness :
  match rep_serve_all ex_reports ex_platform with
  | Done acks s => ∃ ls r s' run t txs, rep_Ledger (st s) = Some ls
      ∧ GenerateReport None (Some (ex_report REPORT_TYPE_ACCOUNT_TRANSACTION_STATEMENT)) s = Done r s'
      ∧ rrr_ReportRun r = Some run ∧ NoDup (TransactionId <$> txs)
      ∧ ∀ tx, tx ∈ txs ↔ in_statement REPORT_INTERVAL_DTD t (st ls) tx
  | _ => False
  end.
Proof.
  assert (match rep_serve_all ex_reports ex_platform with
    | Done acks s => length acks = 2%nat | _ => False end) as Hr by (vm_compute; reflexivity).
  destruct (rep_serve_all ex_reports ex_platform) as [acks s| |] eqn:E; [|exact Hr..].
  destruct (statement_report_exact (D := ()) (Some (λ _, 1704067200 * Second)) ex_reports acks s None (operator_meta "")
    REPORT_INTERVAL_DTD "op") as (ls & r & s' & run & t & txs & Hl & E' & _ & Hrun & _ & Hn & Hin).
  - vm_compute. reflexivity.
  - exact E.
  - reflexivity.
  - discriminate.
  - exists ls, r, s', run, t, txs. split; [exact Hl|]. split; [exact E'|]. split; [exact Hrun|].
    split; [exact Hn|exact Hin].
Defined.

Lemma report_runs_kept_witness :
  match rep_serve_all ex_reports ex_platform with
  | Done acks s => rr_ReportRunId <$> acks = ["report-1"; "report-2"]
      ∧ ∃ s', walk_pages (list_runs_page None (operator_meta "") 1) 3 "" s = Done (reverse acks) s'
  | _ => False
  end.
Proof.
  assert (match rep_serve_all ex_reports ex_platform with
    | Done acks s => rr_ReportRunId <$> acks = ["report-1"; "report-2"] | _ => False end) as Hr
    by (vm_compute; reflexivity).
  destruct (rep_serve_all ex_reports ex_platform) as [acks s| |] eqn:E; [|exact Hr..].
  assert (length acks = 2%nat) as Hlen by (rewrite <- (length_fmap rr_ReportRunId), Hr; reflexivity).
  split; [exact Hr|].
  destruct (report_runs_kept (D := ()) (Some (λ _, 1704067200 * Second)) ex_reports acks s None (operator_meta "") 1)
    as (_ & _ & Hw).
  - vm_compute. discriminate.
  - exact E.
  - reflexivity.
  - rewrite Hlen. vm_compute. discriminate.
  - rewrite Hlen in Hw. exact Hw.
Defined.
