(* ===== verification/Extensions.v ===== *)
(** * Promotions and system windows (internal/platform/server/extensions_grpc.go
    and extensions_postgres.go)

    Two services that record what happened at a device: bonus transactions and
    promotional awards, and the events of the system window overlay.  A record
    whose id the sender leaves empty gets the next number. *)

From S2P Require Import Prelude GoTime GoJson AuditTrail Service Listing Ledger Wagering Reporting.

(** ** Messages (api/proto/rgs/v1/extensions.proto) *)

Inductive PromotionalAwardType :=
| PROMOTIONAL_AWARD_TYPE_UNSPECIFIED | PROMOTIONAL_AWARD_TYPE_FREEPLAY
| PROMOTIONAL_AWARD_TYPE_MATCH_BONUS | PROMOTIONAL_AWARD_TYPE_LOYALTY_POINTS
| PROMOTIONAL_AWARD_TYPE_NON_CASHABLE_CREDIT | PROMOTIONAL_AWARD_TYPE_OTHER (n : Z).

Inductive SystemWindowEventType :=
| SYSTEM_WINDOW_EVENT_TYPE_UNSPECIFIED | SYSTEM_WINDOW_EVENT_TYPE_OPENED
| SYSTEM_WINDOW_EVENT_TYPE_CLOSED | SYSTEM_WINDOW_EVENT_TYPE_DECLINED
| SYSTEM_WINDOW_EVENT_TYPE_TIMED_OUT | SYSTEM_WINDOW_EVENT_TYPE_OTHER (n : Z).

Definition PromotionalAwardType_number (t : PromotionalAwardType) : Z :=
  match t with
  | PROMOTIONAL_AWARD_TYPE_UNSPECIFIED => 0 | PROMOTIONAL_AWARD_TYPE_FREEPLAY => 1
  | PROMOTIONAL_AWARD_TYPE_MATCH_BONUS => 2 | PROMOTIONAL_AWARD_TYPE_LOYALTY_POINTS => 3
  | PROMOTIONAL_AWARD_TYPE_NON_CASHABLE_CREDIT => 4 | PROMOTIONAL_AWARD_TYPE_OTHER n => n
  end.
Definition SystemWindowEventType_number (t : SystemWindowEventType) : Z :=
  match t with
  | SYSTEM_WINDOW_EVENT_TYPE_UNSPECIFIED => 0 | SYSTEM_WINDOW_EVENT_TYPE_OPENED => 1
  | SYSTEM_WINDOW_EVENT_TYPE_CLOSED => 2 | SYSTEM_WINDOW_EVENT_TYPE_DECLINED => 3
  | SYSTEM_WINDOW_EVENT_TYPE_TIMED_OUT => 4 | SYSTEM_WINDOW_EVENT_TYPE_OTHER n => n
  end.

(** The conversion of an [int] to the enum keeps its low 32 bits. *)
Definition PromotionalAwardType_of (v : Z) : PromotionalAwardType :=
  match wrap32 v with
  | 0 => PROMOTIONAL_AWARD_TYPE_UNSPECIFIED | 1 => PROMOTIONAL_AWARD_TYPE_FREEPLAY
  | 2 => PROMOTIONAL_AWARD_TYPE_MATCH_BONUS | 3 => PROMOTIONAL_AWARD_TYPE_LOYALTY_POINTS
  | 4 => PROMOTIONAL_AWARD_TYPE_NON_CASHABLE_CREDIT | n => PROMOTIONAL_AWARD_TYPE_OTHER n
  end.
Definition SystemWindowEventType_of (v : Z) : SystemWindowEventType :=
  match wrap32 v with
  | 0 => SYSTEM_WINDOW_EVENT_TYPE_UNSPECIFIED | 1 => SYSTEM_WINDOW_EVENT_TYPE_OPENED
  | 2 => SYSTEM_WINDOW_EVENT_TYPE_CLOSED | 3 => SYSTEM_WINDOW_EVENT_TYPE_DECLINED
  | 4 => SYSTEM_WINDOW_EVENT_TYPE_TIMED_OUT | n => SYSTEM_WINDOW_EVENT_TYPE_OTHER n
  end.

Record BonusTransaction := mkBonusTransaction {
  bt_BonusTransactionId : string; bt_EquipmentId : string; bt_PlayerId : string;
  bt_CampaignId : string; bt_MeterName : string; bt_Amount : option Money;
  bt_OccurredAt : string }.
Record PromotionalAward := mkPromotionalAward {
  pa_PromotionalAwardId : string; pa_PlayerId : string; pa_AwardType : PromotionalAwardType;
  pa_Amount : option Money; pa_CampaignId : string; pa_OccurredAt : string }.
Record SystemWindowEvent := mkSystemWindowEvent {
  we_EventId : string; we_EquipmentId : string; we_PlayerId : string; we_WindowId : string;
  we_EventType : SystemWindowEventType; we_EventTime : string; we_Details : string }.

#[global] Instance eta_BonusTransaction : Eta BonusTransaction := λ x,
  mkBonusTransaction (bt_BonusTransactionId x) (bt_EquipmentId x) (bt_PlayerId x)
    (bt_CampaignId x) (bt_MeterName x) (bt_Amount x) (bt_OccurredAt x).
#[global] Instance eta_PromotionalAward : Eta PromotionalAward := λ x,
  mkPromotionalAward (pa_PromotionalAwardId x) (pa_PlayerId x) (pa_AwardType x) (pa_Amount x)
    (pa_CampaignId x) (pa_OccurredAt x).
#[global] Instance eta_SystemWindowEvent : Eta SystemWindowEvent := λ x,
  mkSystemWindowEvent (we_EventId x) (we_EquipmentId x) (we_PlayerId x) (we_WindowId x)
    (we_EventType x) (we_EventTime x) (we_Details x).

Record RecordBonusTransactionRequest := mkRecordBonusTransactionRequest {
  rb_Meta : option RequestMeta; rb_Transaction : option BonusTransaction }.
Record RecordPromotionalAwardRequest := mkRecordPromotionalAwardRequest {
  ra_Meta : option RequestMeta; ra_Award : option PromotionalAward }.
Record SubmitSystemWindowEventRequest := mkSubmitSystemWindowEventRequest {
  sw_Meta : option RequestMeta; sw_Event : option SystemWindowEvent }.
Record ListRecentBonusTransactionsRequest := mkListRecentBonusTransactionsRequest {
  lb_Meta : option RequestMeta; lb_EquipmentId : string; lb_Limit : Z }.
Record ListPromotionalAwardsRequest := mkListPromotionalAwardsRequest {
  lpa_Meta : option RequestMeta; lpa_PlayerId : string; lpa_CampaignId : string;
  lpa_PageSize : Z; lpa_PageToken : string }.
Record ListSystemWindowEventsRequest := mkListSystemWindowEventsRequest {
  lw_Meta : option RequestMeta; lw_EquipmentId : string; lw_FromTime : string;
  lw_ToTime : string; lw_PageSize : Z; lw_PageToken : string }.

(** A response with the record that was stored. *)
Record StoredResponse (A : Type) := mkStored { sr_Meta : ResponseMeta; sr_Record : option A }.
Global Arguments mkStored {A}.
Global Arguments sr_Meta {A}.
Global Arguments sr_Record {A}.

(** A response with a page of records; that of ListRecentBonusTransactions has
    no token. *)
Record PageResponse (A : Type) := mkPage {
  pg_Meta : ResponseMeta; pg_Items : list A; pg_NextPageToken : string }.
Global Arguments mkPage {A}.
Global Arguments pg_Meta {A}.
Global Arguments pg_Items {A}.
Global Arguments pg_NextPageToken {A}.

(** ** State *)

Record PromotionsState := mkPromotions {
  bonusTx : gmap string BonusTransaction;
  bonusOrder : list string;
  awards : gmap string PromotionalAward;
  awardOrder : list string;
  nextBonusID : Z;
  nextAwardID : Z;
  promo_disableInMemoryCache : bool }.

#[global] Instance eta_PromotionsState : Eta PromotionsState := λ s,
  mkPromotions (bonusTx s) (bonusOrder s) (awards s) (awardOrder s) (nextBonusID s)
    (nextAwardID s) (promo_disableInMemoryCache s).

Record OverlayState := mkOverlay {
  windowEvents : gmap string SystemWindowEvent;
  windowOrder : list string;
  nextEventID : Z;
  overlay_disableInMemoryCache : bool }.

#[global] Instance eta_OverlayState : Eta OverlayState := λ s,
  mkOverlay (windowEvents s) (windowOrder s) (nextEventID s) (overlay_disableInMemoryCache s).

Definition NewPromotionsState : PromotionsState := mkPromotions ∅ [] ∅ [] 0 0 false.
Definition NewOverlayState : OverlayState := mkOverlay ∅ [] 0 false.

Definition NewPromotionsService {D} (clk : option (nat → Time)) (handle : option D)
    : Svc D PromotionsState :=
  mkSvc (mkBase clk (Some NewInMemoryStore) false 0 handle 0) NewPromotionsState.
Definition NewUISystemOverlayService {D} (clk : option (nat → Time)) (handle : option D)
    : Svc D OverlayState :=
  mkSvc (mkBase clk (Some NewInMemoryStore) false 0 handle 0) NewOverlayState.

(** ** The database interface *)

Record bonus_row := mkBonusRow {
  br_id : string; br_equipment : string; br_player : string; br_campaign : string;
  br_meter : string; br_amount : Z; br_currency : string; br_occurred_at : Time }.
Record award_row := mkAwardRow {
  wr_id : string; wr_player : string; wr_award_type : string; wr_campaign : string;
  wr_amount : Z; wr_currency : string; wr_occurred_at : Time }.
Record window_row := mkWindowRow {
  wn_id : string; wn_equipment : string; wn_player : string; wn_window : string;
  wn_event_type : string; wn_details : string; wn_event_time : Time }.

Class ExtensionsDB (D : Type) := {
  (** INSERT INTO bonus_transactions ... ON CONFLICT (bonus_transaction_id) DO UPDATE *)
  x_bonus : string → string → string → string → string → Z → string → string → D → res () * D;
  (** INSERT INTO promotional_awards ... ON CONFLICT (promotional_award_id) DO UPDATE *)
  x_award : string → string → string → string → Z → string → string → D → res () * D;
  (** INSERT INTO system_window_events ... ON CONFLICT (event_id) DO UPDATE *)
  x_window : string → string → string → string → string → string → string → D → res () * D;
  q_bonus : string → Z → D → res (list bonus_row) * D;
  q_awards : string → string → Z → Z → D → res (list award_row) * D;
  q_windows : string → option Time → option Time → Z → Z → D → res (list window_row) * D;
}.

(** ** Pure helpers *)

Definition parseRFC3339OrZero (v : string) : Time :=
  if decide (v = "") then zero_time
  else match ParseRFC3339Nano v with Some ts => ts | None => zero_time end.

(** [None] is the result false. *)
Definition parseRFC3339Strict (v : string) : option Time :=
  if decide (v = "") then Some zero_time else ParseRFC3339Nano v.

Definition validPromotionalAwardType (t : PromotionalAwardType) : bool :=
  match t with
  | PROMOTIONAL_AWARD_TYPE_FREEPLAY | PROMOTIONAL_AWARD_TYPE_MATCH_BONUS
  | PROMOTIONAL_AWARD_TYPE_LOYALTY_POINTS | PROMOTIONAL_AWARD_TYPE_NON_CASHABLE_CREDIT => true
  | _ => false
  end.
Definition validSystemWindowEventType (t : SystemWindowEventType) : bool :=
  match t with
  | SYSTEM_WINDOW_EVENT_TYPE_OPENED | SYSTEM_WINDOW_EVENT_TYPE_CLOSED
  | SYSTEM_WINDOW_EVENT_TYPE_DECLINED | SYSTEM_WINDOW_EVENT_TYPE_TIMED_OUT => true
  | _ => false
  end.

Definition parsePromotionalAwardType (raw : string) : res PromotionalAwardType :=
  match Atoi raw with
  | None => Err ErrUnsupportedEnum
  | Some v =>
      let t := PromotionalAwardType_of v in
      if negb (validPromotionalAwardType t) then Err ErrUnsupportedEnum else Ok t
  end.
Definition parseSystemWindowEventType (raw : string) : res SystemWindowEventType :=
  match Atoi raw with
  | None => Err ErrUnsupportedEnum
  | Some v =>
      let t := SystemWindowEventType_of v in
      if negb (validSystemWindowEventType t) then Err ErrUnsupportedEnum else Ok t
  end.

(** [json.Marshal] of the records. *)
Definition bonus_json (x : BonusTransaction) : string :=
  json_object (omit_string "bonus_transaction_id" (bt_BonusTransactionId x)
    ++ omit_string "equipment_id" (bt_EquipmentId x) ++ omit_string "player_id" (bt_PlayerId x)
    ++ omit_string "campaign_id" (bt_CampaignId x) ++ omit_string "meter_name" (bt_MeterName x)
    ++ omit_ptr "amount" (json_money <$> bt_Amount x)
    ++ omit_string "occurred_at" (bt_OccurredAt x)).
Definition award_json (x : PromotionalAward) : string :=
  json_object (omit_string "promotional_award_id" (pa_PromotionalAwardId x)
    ++ omit_string "player_id" (pa_PlayerId x)
    ++ omit_int "award_type" (PromotionalAwardType_number (pa_AwardType x))
    ++ omit_ptr "amount" (json_money <$> pa_Amount x)
    ++ omit_string "campaign_id" (pa_CampaignId x)
    ++ omit_string "occurred_at" (pa_OccurredAt x)).
Definition window_json (x : SystemWindowEvent) : string :=
  json_object (omit_string "event_id" (we_EventId x)
    ++ omit_string "equipment_id" (we_EquipmentId x) ++ omit_string "player_id" (we_PlayerId x)
    ++ omit_string "window_id" (we_WindowId x)
    ++ omit_int "event_type" (SystemWindowEventType_number (we_EventType x))
    ++ omit_string "event_time" (we_EventTime x) ++ omit_string "details" (we_Details x)).

(** The getters of an amount that may be nil. *)
Definition GetAmountMinor (m : option Money) : Z := default 0 (AmountMinor <$> m).
Definition GetCurrency (m : option Money) : string := default "" (Currency <$> m).

Definition bonus_of_row (r : bonus_row) : BonusTransaction :=
  mkBonusTransaction (br_id r) (br_equipment r) (br_player r) (br_campaign r) (br_meter r)
    (Some (mkMoney (br_amount r) (br_currency r))) (FormatRFC3339Nano (br_occurred_at r)).
Definition award_of_row (r : award_row) : res PromotionalAward :=
  match parsePromotionalAwardType (wr_award_type r) with
  | Err e => Err e
  | Ok t => Ok (mkPromotionalAward (wr_id r) (wr_player r) t
      (Some (mkMoney (wr_amount r) (wr_currency r))) (wr_campaign r)
      (FormatRFC3339Nano (wr_occurred_at r)))
  end.
Definition window_of_row (r : window_row) : res SystemWindowEvent :=
  match parseSystemWindowEventType (wn_event_type r) with
  | Err e => Err e
  | Ok t => Ok (mkSystemWindowEvent (wn_id r) (wn_equipment r) (wn_player r) (wn_window r) t
      (FormatRFC3339Nano (wn_event_time r)) (wn_details r))
  end.

(** The loop over the rows of a query, which ends at the first row that cannot
    be read. *)
Fixpoint scan_rows {A B} (f : A → res B) (l : list A) : res (list B) :=
  match l with
  | [] => Ok []
  | a :: l =>
      match f a with
      | Err e => Err e
      | Ok b => match scan_rows f l with Err e => Err e | Ok bs => Ok (b :: bs) end
      end
  end.

(** The loops over the records in memory, newest first. *)
Definition newest_first {A} (P : A → bool) (m : gmap string A) (order : list string) : list A :=
  List.filter P (omap (λ id, m !! id) (reverse order)).

Definition bonus_wanted (equipmentID : string) (x : BonusTransaction) : bool :=
  negb (bool_decide (equipmentID ≠ "" ∧ bt_EquipmentId x ≠ equipmentID)).
Definition award_wanted (playerID campaignID : string) (x : PromotionalAward) : bool :=
  negb (bool_decide (playerID ≠ "" ∧ pa_PlayerId x ≠ playerID))
  && negb (bool_decide (campaignID ≠ "" ∧ pa_CampaignId x ≠ campaignID)).
Definition window_wanted (equipmentID : string) (fromTS toTS : Time) (x : SystemWindowEvent)
    : bool :=
  let evTS := parseRFC3339OrZero (we_EventTime x) in
  negb (bool_decide (equipmentID ≠ "" ∧ we_EquipmentId x ≠ equipmentID))
  && negb (negb (IsZero fromTS) && time_After fromTS evTS)
  && negb (negb (IsZero toTS) && time_After evTS toTS).

(** The clone of a record, with the next id if it has none and the time of the
    service if it has none. *)
Definition fill {D S A} `{!Wall} (id time : A → string) (set_id set_time : string → A → A)
    (next : M (Svc D S) string) (x : A) : M (Svc D S) A :=
  x ← (if decide (id x = "") then i ← next; mret (set_id i x) else mret x);
  if decide (time x = "") then t ← now; mret (set_time (FormatRFC3339Nano t) x) else mret x.

(** ** The promotions service *)

Section promotions.
Context {D : Type} `{!Wall, !Crypto, !JsonValid, !AuditDB D, !ExtensionsDB D}.

Abbreviation PM := (M (Svc D PromotionsState)).

Definition promotions_SetDisableInMemoryCache (disable : bool) : PM () :=
  locked (mod_st (λ s, s <| promo_disableInMemoryCache := disable |>)).

Definition promotions_authorize : option Context → option RequestMeta → bool * string :=
  operators_only.

Definition nextBonusIDLocked : PM string :=
  mod_st (λ s, s <| nextBonusID ::= λ n, wrap64 (n + 1) |>);;
  n ← get_st nextBonusID; mret ("bonus-" +:+ FormatInt n).
Definition nextAwardIDLocked : PM string :=
  mod_st (λ s, s <| nextAwardID ::= λ n, wrap64 (n + 1) |>);;
  n ← get_st nextAwardID; mret ("award-" +:+ FormatInt n).

Definition promotions_appendAudit (meta : option RequestMeta)
    (objectType objectID action before after : string) (result : Result) (reason : string)
    : PM (option error) :=
  appendAudit "promotions-audit-" meta objectType objectID action before after result reason.

Definition persistBonusTransaction (tx : BonusTransaction) : PM (option error) :=
  enabled ← dbEnabled;
  if negb enabled then mret None else
  occurred ← nonEmptyTime (bt_OccurredAt tx);
  exec_db (x_bonus (bt_BonusTransactionId tx) (bt_EquipmentId tx) (bt_PlayerId tx)
    (bt_CampaignId tx) (bt_MeterName tx) (GetAmountMinor (bt_Amount tx))
    (GetCurrency (bt_Amount tx)) occurred).

Definition listBonusTransactionsFromDB (equipmentID : string) (limit : Z)
    : PM (res (list BonusTransaction)) :=
  r ← run_db (q_bonus equipmentID limit);
  mret (match r with Err e => Err e | Ok rows => Ok (bonus_of_row <$> rows) end).

Definition persistPromotionalAward (award : PromotionalAward) : PM (option error) :=
  enabled ← dbEnabled;
  if negb enabled then mret None else
  occurred ← nonEmptyTime (pa_OccurredAt award);
  exec_db (x_award (pa_PromotionalAwardId award) (pa_PlayerId award)
    (FormatInt (PromotionalAwardType_number (pa_AwardType award))) (pa_CampaignId award)
    (GetAmountMinor (pa_Amount award)) (GetCurrency (pa_Amount award)) occurred).

Definition listPromotionalAwardsFromDB (playerID campaignID : string) (limit offset : Z)
    : PM (res (list PromotionalAward * string)) :=
  r ← run_db (q_awards playerID campaignID limit offset);
  mret (match r with
        | Err e => Err e
        | Ok rows =>
            match scan_rows award_of_row rows with
            | Err e => Err e
            | Ok out => Ok (out, nextFromDB offset limit (length out))
            end
        end).

Definition promo_denied {A} (meta : option RequestMeta) (ot oid action why : string)
    (k : PM A) : PM A :=
  promotions_appendAudit meta ot oid action "{}" "{}" ResultDenied why;; k.

Definition stored_reply {S A} (meta : option RequestMeta) code reason
    : M (Svc D S) (StoredResponse A) :=
  m ← responseMeta meta code reason; mret (mkStored m None).
Definition page_reply {S A} (meta : option RequestMeta) code reason
    : M (Svc D S) (PageResponse A) :=
  m ← responseMeta meta code reason; mret (mkPage m [] "").

(** The fields a transaction and an award must have. *)
Definition invalid_bonus (tx : BonusTransaction) : bool :=
  bool_decide (bt_EquipmentId tx = "") || bool_decide (bt_PlayerId tx = "")
  || invalidAmount (bt_Amount tx).
Definition invalid_award (a : PromotionalAward) : bool :=
  bool_decide (pa_PlayerId a = "") || negb (validPromotionalAwardType (pa_AwardType a))
  || invalidAmount (pa_Amount a).

(** The guard [v != "" && !ok] on a timestamp. *)
Definition bad_timestamp (v : string) : bool :=
  negb (bool_decide (v = "")) && match parseRFC3339Strict v with Some _ => false | None => true end.

Definition fill_bonus : BonusTransaction → PM BonusTransaction :=
  fill bt_BonusTransactionId bt_OccurredAt (λ i x, x <| bt_BonusTransactionId := i |>)
    (λ v x, x <| bt_OccurredAt := v |>) nextBonusIDLocked.

Definition RecordBonusTransaction (ctx : option Context)
    (req : option RecordBonusTransactionRequest) : PM (StoredResponse BonusTransaction) :=
  let action := "record_bonus_transaction" in
  let meta := req ≫= rb_Meta in
  let invalid := promo_denied meta "bonus_transaction" "" action "invalid request"
    (stored_reply meta RESULT_CODE_INVALID
      "transaction requires equipment_id, player_id, and positive amount") in
  match req ≫= rb_Transaction with
  | None => invalid
  | Some tx0 =>
  if invalid_bonus tx0 then invalid
  else if bad_timestamp (bt_OccurredAt tx0) then
    promo_denied meta "bonus_transaction" (bt_EquipmentId tx0) action "invalid occurred_at"
      (stored_reply meta RESULT_CODE_INVALID "invalid occurred_at")
  else
  let '(ok, reason) := promotions_authorize ctx meta in
  if negb ok then
    promo_denied meta "bonus_transaction" "" action reason
      (stored_reply meta RESULT_CODE_DENIED reason)
  else locked (
    tx ← fill_bonus tx0;
    nocache ← get_st promo_disableInMemoryCache;
    (if (nocache : bool) then mret ()
     else mod_st (λ s, s <| bonusTx ::= insert (bt_BonusTransactionId tx) tx |>
                         <| bonusOrder ::= λ l, l ++ [bt_BonusTransactionId tx] |>));;
    err ← persistBonusTransaction tx;
    match err with
    | Some _ => stored_reply meta RESULT_CODE_ERROR "persistence unavailable"
    | None =>
    err ← promotions_appendAudit meta "bonus_transaction" (bt_BonusTransactionId tx) action "{}"
            (bonus_json tx) ResultSuccess "";
    match err with
    | Some _ => stored_reply meta RESULT_CODE_ERROR "audit unavailable"
    | None => m ← responseMeta meta RESULT_CODE_OK ""; mret (mkStored m (Some tx))
    end end)
  end.

Definition ListRecentBonusTransactions (ctx : option Context)
    (req : option ListRecentBonusTransactionsRequest) : PM (PageResponse BonusTransaction) :=
  let req := default (mkListRecentBonusTransactionsRequest None "" 0) req in
  let meta := lb_Meta req in
  let denied {A} why (k : PM A) := promo_denied meta "bonus_transaction" (lb_EquipmentId req)
    "list_recent_bonus_transactions" why k in
  let '(ok, reason) := promotions_authorize ctx meta in
  if negb ok then denied reason (page_reply meta RESULT_CODE_DENIED reason)
  else if lb_Limit req <? 0 then
    denied "invalid limit" (page_reply meta RESULT_CODE_INVALID "invalid limit")
  else
  let limit := pageSizeOr 25 (lb_Limit req) in
  if 100 <? limit then
    denied "invalid limit" (page_reply meta RESULT_CODE_INVALID "invalid limit")
  else locked (
    enabled ← dbEnabled;
    if (enabled : bool) then
      r ← listBonusTransactionsFromDB (lb_EquipmentId req) limit;
      match r with
      | Err _ => page_reply meta RESULT_CODE_ERROR "persistence unavailable"
      | Ok rows => m ← responseMeta meta RESULT_CODE_OK ""; mret (mkPage m rows "")
      end
    else
    nocache ← get_st promo_disableInMemoryCache;
    if (nocache : bool) then page_reply meta RESULT_CODE_OK "" else
    txs ← get_st bonusTx; order ← get_st bonusOrder;
    m ← responseMeta meta RESULT_CODE_OK "";
    mret (mkPage m (take (Z.to_nat limit)
      (newest_first (bonus_wanted (lb_EquipmentId req)) txs order)) "")).

Definition fill_award : PromotionalAward → PM PromotionalAward :=
  fill pa_PromotionalAwardId pa_OccurredAt (λ i x, x <| pa_PromotionalAwardId := i |>)
    (λ v x, x <| pa_OccurredAt := v |>) nextAwardIDLocked.

Definition RecordPromotionalAward (ctx : option Context)
    (req : option RecordPromotionalAwardRequest) : PM (StoredResponse PromotionalAward) :=
  let action := "record_promotional_award" in
  let meta := req ≫= ra_Meta in
  let invalid := promo_denied meta "promotional_award" "" action "invalid request"
    (stored_reply meta RESULT_CODE_INVALID
      "award requires player_id, award_type, and positive amount") in
  match req ≫= ra_Award with
  | None => invalid
  | Some award0 =>
  if invalid_award award0 then invalid
  else if bad_timestamp (pa_OccurredAt award0) then
    promo_denied meta "promotional_award" (pa_PlayerId award0) action "invalid occurred_at"
      (stored_reply meta RESULT_CODE_INVALID "invalid occurred_at")
  else
  let '(ok, reason) := promotions_authorize ctx meta in
  if negb ok then
    promo_denied meta "promotional_award" "" action reason
      (stored_reply meta RESULT_CODE_DENIED reason)
  else locked (
    award ← fill_award award0;
    nocache ← get_st promo_disableInMemoryCache;
    (if (nocache : bool) then mret ()
     else mod_st (λ s, s <| awards ::= insert (pa_PromotionalAwardId award) award |>
                         <| awardOrder ::= λ l, l ++ [pa_PromotionalAwardId award] |>));;
    err ← persistPromotionalAward award;
    match err with
    | Some _ => stored_reply meta RESULT_CODE_ERROR "persistence unavailable"
    | None =>
    err ← promotions_appendAudit meta "promotional_award" (pa_PromotionalAwardId award) action
            "{}" (award_json award) ResultSuccess "";
    match err with
    | Some _ => stored_reply meta RESULT_CODE_ERROR "audit unavailable"
    | None => m ← responseMeta meta RESULT_CODE_OK ""; mret (mkStored m (Some award))
    end end)
  end.

Definition ListPromotionalAwards (ctx : option Context)
    (req : option ListPromotionalAwardsRequest) : PM (PageResponse PromotionalAward) :=
  let req := default (mkListPromotionalAwardsRequest None "" "" 0 "") req in
  let meta := lpa_Meta req in
  let denied {A} why (k : PM A) := promo_denied meta "promotional_award" (lpa_PlayerId req)
    "list_promotional_awards" why k in
  let '(ok, reason) := promotions_authorize ctx meta in
  if negb ok then denied reason (page_reply meta RESULT_CODE_DENIED reason)
  else if lpa_PageSize req <? 0 then
    denied "invalid page_size" (page_reply meta RESULT_CODE_INVALID "invalid page_size")
  else
  let size := pageSizeOr 25 (lpa_PageSize req) in
  if 100 <? size then
    denied "invalid page_size" (page_reply meta RESULT_CODE_INVALID "invalid page_size")
  else
  match token_start (lpa_PageToken req) with
  | None => denied "invalid page_token" (page_reply meta RESULT_CODE_INVALID "invalid page_token")
  | Some start =>
  locked (
    enabled ← dbEnabled;
    if (enabled : bool) then
      r ← listPromotionalAwardsFromDB (lpa_PlayerId req) (lpa_CampaignId req) size start;
      match r with
      | Err _ => page_reply meta RESULT_CODE_ERROR "persistence unavailable"
      | Ok (rows, next) => m ← responseMeta meta RESULT_CODE_OK ""; mret (mkPage m rows next)
      end
    else
    nocache ← get_st promo_disableInMemoryCache;
    if (nocache : bool) then page_reply meta RESULT_CODE_OK "" else
    aws ← get_st awards; order ← get_st awardOrder;
    p ← page (newest_first (award_wanted (lpa_PlayerId req) (lpa_CampaignId req)) aws order)
          start size;
    m ← responseMeta meta RESULT_CODE_OK "";
    mret (mkPage m p.1 p.2))
  end.
End promotions.

(** ** The system window overlay service *)

Section overlay.
Context {D : Type} `{!Wall, !Crypto, !JsonValid, !AuditDB D, !ExtensionsDB D}.

Abbreviation OM := (M (Svc D OverlayState)).

Definition overlay_SetDisableInMemoryCache (disable : bool) : OM () :=
  locked (mod_st (λ s, s <| overlay_disableInMemoryCache := disable |>)).

Definition overlay_authorize : option Context → option RequestMeta → bool * string :=
  operators_only.

Definition nextEventIDLocked : OM string :=
  mod_st (λ s, s <| nextEventID ::= λ n, wrap64 (n + 1) |>);;
  n ← get_st nextEventID; mret ("win-evt-" +:+ FormatInt n).

Definition overlay_appendAudit (meta : option RequestMeta)
    (objectID action before after : string) (result : Result) (reason : string)
    : OM (option error) :=
  appendAudit "ui-overlay-audit-" meta "system_window_event" objectID action before after result
    reason.

Definition persistSystemWindowEvent (ev : SystemWindowEvent) : OM (option error) :=
  enabled ← dbEnabled;
  if negb enabled then mret None else
  time ← nonEmptyTime (we_EventTime ev);
  exec_db (x_window (we_EventId ev) (we_EquipmentId ev) (we_PlayerId ev) (we_WindowId ev)
    (FormatInt (SystemWindowEventType_number (we_EventType ev))) (we_Details ev) time).

Definition listSystemWindowEventsFromDB (equipmentID : string) (fromTS toTS : Time)
    (limit offset : Z) : OM (res (list SystemWindowEvent * string)) :=
  r ← run_db (q_windows equipmentID (nullTime fromTS) (nullTime toTS) limit offset);
  mret (match r with
        | Err e => Err e
        | Ok rows =>
            match scan_rows window_of_row rows with
            | Err e => Err e
            | Ok out => Ok (out, nextFromDB offset limit (length out))
            end
        end).

Definition overlay_denied {A} (meta : option RequestMeta) (oid action why : string) (k : OM A)
    : OM A :=
  overlay_appendAudit meta oid action "{}" "{}" ResultDenied why;; k.

Definition invalid_window (ev : SystemWindowEvent) : bool :=
  bool_decide (we_EquipmentId ev = "") || bool_decide (we_WindowId ev = "")
  || negb (validSystemWindowEventType (we_EventType ev)).

Definition fill_window : SystemWindowEvent → OM SystemWindowEvent :=
  fill we_EventId we_EventTime (λ i x, x <| we_EventId := i |>)
    (λ v x, x <| we_EventTime := v |>) nextEventIDLocked.

Definition SubmitSystemWindowEvent (ctx : option Context)
    (req : option SubmitSystemWindowEventRequest) : OM (StoredResponse SystemWindowEvent) :=
  let action := "submit_system_window_event" in
  let meta := req ≫= sw_Meta in
  let invalid := overlay_denied meta "" action "invalid request"
    (stored_reply meta RESULT_CODE_INVALID
      "event requires equipment_id, window_id, and event_type") in
  match req ≫= sw_Event with
  | None => invalid
  | Some ev0 =>
  if invalid_window ev0 then invalid
  else if bad_timestamp (we_EventTime ev0) then
    overlay_denied meta (we_EquipmentId ev0) action "invalid event_time"
      (stored_reply meta RESULT_CODE_INVALID "invalid event_time")
  else
  let '(ok, reason) := overlay_authorize ctx meta in
  if negb ok then
    overlay_denied meta "" action reason (stored_reply meta RESULT_CODE_DENIED reason)
  else locked (
    ev ← fill_window ev0;
    nocache ← get_st overlay_disableInMemoryCache;
    (if (nocache : bool) then mret ()
     else mod_st (λ s, s <| windowEvents ::= insert (we_EventId ev) ev |>
                         <| windowOrder ::= λ l, l ++ [we_EventId ev] |>));;
    err ← persistSystemWindowEvent ev;
    match err with
    | Some _ => stored_reply meta RESULT_CODE_ERROR "persistence unavailable"
    | None =>
    err ← overlay_appendAudit meta (we_EventId ev) action "{}" (window_json ev) ResultSuccess "";
    match err with
    | Some _ => stored_reply meta RESULT_CODE_ERROR "audit unavailable"
    | None => m ← responseMeta meta RESULT_CODE_OK ""; mret (mkStored m (Some ev))
    end end)
  end.

Definition ListSystemWindowEvents (ctx : option Context)
    (req : option ListSystemWindowEventsRequest) : OM (PageResponse SystemWindowEvent) :=
  let req := default (mkListSystemWindowEventsRequest None "" "" "" 0 "") req in
  let meta := lw_Meta req in
  let refuse why reason := overlay_denied meta (lw_EquipmentId req) "list_system_window_events"
    why (page_reply meta RESULT_CODE_INVALID reason) in
  let '(ok, reason) := overlay_authorize ctx meta in
  if negb ok then
    overlay_denied meta (lw_EquipmentId req) "list_system_window_events" reason
      (page_reply meta RESULT_CODE_DENIED reason)
  else if lw_PageSize req <? 0 then refuse "invalid page_size" "invalid page_size"
  else
  match token_start (lw_PageToken req) with
  | None => refuse "invalid page_token" "invalid page_token"
  | Some start =>
  let size := pageSizeOr 50 (lw_PageSize req) in
  if 200 <? size then refuse "invalid page_size" "invalid page_size" else
  match parseRFC3339Strict (lw_FromTime req) with
  | None => refuse "invalid from_time" "invalid from_time"
  | Some fromTS =>
  match parseRFC3339Strict (lw_ToTime req) with
  | None => refuse "invalid to_time" "invalid to_time"
  | Some toTS =>
  if negb (IsZero fromTS) && negb (IsZero toTS) && time_After fromTS toTS then
    refuse "invalid time range" "from_time must be <= to_time"
  else locked (
    enabled ← dbEnabled;
    if (enabled : bool) then
      r ← listSystemWindowEventsFromDB (lw_EquipmentId req) fromTS toTS size start;
      match r with
      | Err _ => page_reply meta RESULT_CODE_ERROR "persistence unavailable"
      | Ok (rows, next) => m ← responseMeta meta RESULT_CODE_OK ""; mret (mkPage m rows next)
      end
    else
    nocache ← get_st overlay_disableInMemoryCache;
    if (nocache : bool) then page_reply meta RESULT_CODE_OK "" else
    es ← get_st windowEvents; order ← get_st windowOrder;
    p ← page (newest_first (window_wanted (lw_EquipmentId req) fromTS toTS) es order) start size;
    m ← responseMeta meta RESULT_CODE_OK "";
    mret (mkPage m p.1 p.2))
  end end end.
End overlay.
