(* ===== verification/ExtensionsProofs.v ===== *)
(** * Theorems about promotions and system windows

    With any database: what the services keep is well formed.  Without one:
    every complete record is accepted, and as long as senders do not reuse ids
    the listings show exactly the records that were acknowledged, the newest
    first. *)

From S2P Require Import Prelude GoTime GoJson AuditTrail Service Listing Ledger Env Wagering Reporting Extensions.

(** ** Stores written by id *)

(** The records [l] written one after the other. *)
Definition write_all {A} (key : A → string) (m : gmap string A) (l : list A) : gmap string A :=
  foldl (λ m x, <[key x := x]> m) m l.

Lemma write_all_app {A} (key : A → string) m l k :
  write_all key m (l ++ k) = write_all key (write_all key m l) k.
Proof. apply foldl_app. Qed.

Lemma write_all_lookup {A} (key : A → string) l : ∀ m id,
  id ∉ key <$> l → write_all key m l !! id = m !! id.
Proof.
  induction l as [|x l IH]; intros m id Hid; [done|]. rewrite fmap_cons in Hid.
  apply not_elem_of_cons in Hid as [Hx Hid]. cbn [write_all foldl].
  change (foldl _ ?m l) with (write_all key m l). rewrite IH by done. by apply lookup_insert_ne.
Qed.

Lemma write_all_elem {A} (key : A → string) l : ∀ m x,
  NoDup (key <$> l) → x ∈ l → write_all key m l !! key x = Some x.
Proof.
  induction l as [|y l IH]; intros m x Hnd Hx; [by apply not_elem_of_nil in Hx|].
  rewrite fmap_cons in Hnd. apply NoDup_cons in Hnd as [Hy Hnd]. cbn [write_all foldl].
  change (foldl _ ?m l) with (write_all key m l). apply elem_of_cons in Hx as [->|Hx]; [|by apply IH].
  rewrite write_all_lookup by done. apply lookup_insert_eq.
Qed.

(** Whatever was written, a lookup finds a record under its own key. *)
Lemma write_all_sound {A} (key : A → string) l : ∀ m id x,
  write_all key m l !! id = Some x → m !! id = Some x ∨ key x = id ∧ x ∈ l.
Proof.
  induction l as [|y l IH]; intros m id x Hx; [by left|]. cbn [write_all foldl] in Hx.
  change (foldl _ ?m l) with (write_all key m l) in Hx. rewrite elem_of_cons.
  destruct (IH _ _ _ Hx) as [Hm|[Hk Hl]]; [|by right; auto].
  apply lookup_insert_Some in Hm as [[Hk ->]|[_ Hm]]; [by right; auto|by left].
Qed.

(** The records in memory, newest first. *)
Lemma newest_first_acked {A} (key : A → string) (P : A → bool) acks :
  NoDup (key <$> acks) →
  newest_first P (write_all key ∅ acks) (key <$> acks) = List.filter P (reverse acks).
Proof.
  intros Hnd. unfold newest_first. f_equal. rewrite <- fmap_reverse.
  assert (Forall (λ x, write_all key ∅ acks !! key x = Some x) (reverse acks)) as Hall.
  { apply Forall_reverse, Forall_forall. intros x Hx. by apply write_all_elem. }
  induction Hall as [|x l Hx Hl IH]; [done|]. cbn [fmap list_fmap omap list_omap].
  rewrite Hx. f_equal. exact IH.
Qed.

(** ** Enumerations in the database *)

Lemma parse_award_type t :
  validPromotionalAwardType t = true →
  parsePromotionalAwardType (FormatInt (PromotionalAwardType_number t)) = Ok t.
Proof. by destruct t. Qed.

Lemma parse_window_type t :
  validSystemWindowEventType t = true →
  parseSystemWindowEventType (FormatInt (SystemWindowEventType_number t)) = Ok t.
Proof. by destruct t. Qed.

(** A number above 2^32 is read as the type of its low 32 bits. *)
Lemma parse_award_type_truncates :
  parsePromotionalAwardType "4294967297" = Ok PROMOTIONAL_AWARD_TYPE_FREEPLAY.
Proof. reflexivity. Qed.

(** ** Well-formed records *)

(** A time a sender gave, or one the service wrote. *)
Definition stamped (v : string) : Prop :=
  is_Some (ParseRFC3339Nano v) ∨ ∃ t, v = FormatRFC3339Nano t.

Definition positive (m : option Money) : Prop :=
  ∃ a c, m = Some (mkMoney a c) ∧ 0 < a ∧ c ≠ "".

Record bonus_ok (x : BonusTransaction) : Prop := {
  bo_id : bt_BonusTransactionId x ≠ "";
  bo_equipment : bt_EquipmentId x ≠ "";
  bo_player : bt_PlayerId x ≠ "";
  bo_amount : positive (bt_Amount x);
  bo_time : stamped (bt_OccurredAt x) }.

Record award_ok (x : PromotionalAward) : Prop := {
  aw_id : pa_PromotionalAwardId x ≠ "";
  aw_player : pa_PlayerId x ≠ "";
  aw_type : validPromotionalAwardType (pa_AwardType x) = true;
  aw_amount : positive (pa_Amount x);
  aw_time : stamped (pa_OccurredAt x) }.

Record window_ok (x : SystemWindowEvent) : Prop := {
  wo_id : we_EventId x ≠ "";
  wo_equipment : we_EquipmentId x ≠ "";
  wo_window : we_WindowId x ≠ "";
  wo_type : validSystemWindowEventType (we_EventType x) = true;
  wo_time : stamped (we_EventTime x) }.

Lemma positive_amount m : invalidAmount m = false → positive m.
Proof.
  unfold invalidAmount. destruct m as [[a c]|]; [|done]. simpl. intros [Ha Hc]%orb_false_iff.
  apply Z.leb_gt in Ha. apply bool_decide_eq_false in Hc. by exists a, c.
Qed.

Lemma stamped_given v : bad_timestamp v = false → v ≠ "" → stamped v.
Proof.
  unfold bad_timestamp, parseRFC3339Strict. intros Hb Hv. rewrite bool_decide_eq_false_2 in Hb by done.
  rewrite decide_False in Hb by done. simpl in Hb. left. by destruct (ParseRFC3339Nano v).
Qed.

(** What completing a record gives. *)
Section fill.
Context {D S A : Type} `{!Wall, !Crypto}.
Context (id time : A → string) (set_id set_time : string → A → A) (next : M (Svc D S) string).
Context (x : A) (set_id_id : set_id (id x) x = x) (set_time_time : ∀ i, set_time (time x) (set_id i x) = set_id i x).
Context (time_set_id : ∀ i, time (set_id i x) = time x).

(** The time the record came with, or one the service wrote. *)
Definition given_or_now (v : string) : Prop :=
  v = time x ∧ v ≠ "" ∨ time x = "" ∧ ∃ t, v = FormatRFC3339Nano t.

Lemma fill_wlp (Q : A → Prop) s :
  (∀ s, wlp next (λ i _, i ≠ "") s) →
  (∀ i v, i ≠ "" → given_or_now v → Q (set_time v (set_id i x))) →
  wlp (fill id time set_id set_time next x) (λ y _, Q y) s.
Proof.
  intros Hnext HQ. unfold fill.
  eapply (post_seq _ _ _ (λ y _, ∃ i, i ≠ "" ∧ y = set_id i x)).
  - case_decide as Hid.
    + eapply post_seq; [apply Hnext|]. intros i s' Hi. apply post_ret. eauto.
    + apply post_ret. by exists (id x).
  - intros y s' (i & Hi & ->). rewrite time_set_id. case_decide as Ht.
    + apply wlp_skip. intros t s''. apply post_ret, HQ; [done|right; eauto].
    + apply post_ret. rewrite <- set_time_time. apply HQ; [done|by left].
Qed.

Lemma fill_mspec T h σ evs (N : string → S → Prop) (Q : A → S → list Event → Prop) :
  (id x = "" → mspec T next h σ evs (λ i σ' evs', evs' = evs ∧ N i σ')) →
  (id x ≠ "" → N (id x) σ) →
  (∀ i v σ', N i σ' → given_or_now v → Q (set_time v (set_id i x)) σ' evs) →
  mspec T (fill id time set_id set_time next x) h σ evs Q.
Proof.
  intros Hnext Hid HQ. unfold fill. apply mspec_bind.
  eapply (mspec_mono _ _ _ _ _ (λ y σ' evs', evs' = evs ∧ ∃ i, N i σ' ∧ y = set_id i x)).
  - case_decide as Hi.
    + mstep. eapply mspec_mono; [by apply Hnext|]. intros i σ' evs' [-> Hn]. mstep. eauto.
    + mstep. split; [done|]. exists (id x). split; [by apply Hid|done].
  - intros y σ' evs' (-> & i & Hn & ->). rewrite time_set_id. case_decide as Ht.
    + mstep. mstep. mstep. apply HQ; [done|right; eauto].
    + mstep. rewrite <- set_time_time. apply HQ; [done|by left].
Qed.
End fill.

Section promotions.
Context {D : Type} `{!Wall, !Crypto, !JsonValid, !AuditDB D, !ExtensionsDB D}.
Abbreviation PM := (M (Svc D PromotionsState)).
Implicit Types (σ : PromotionsState) (s : Svc D PromotionsState) (T : Time → Prop)
  (evs : list Event) (ctx : option Context).

(** ** Runs *)

Inductive promo_req :=
| PBonus (ctx : option Context) (req : option RecordBonusTransactionRequest)
| PAward (ctx : option Context) (req : option RecordPromotionalAwardRequest)
| PListBonus (ctx : option Context) (req : option ListRecentBonusTransactionsRequest)
| PListAwards (ctx : option Context) (req : option ListPromotionalAwardsRequest).

(** The records a response returns to the sender. *)
Inductive promo_ack := AckBonus (x : BonusTransaction) | AckAward (x : PromotionalAward).

Definition promo_serve (q : promo_req) : PM (list promo_ack) :=
  match q with
  | PBonus ctx req => r ← RecordBonusTransaction ctx req;
      mret (option_list (AckBonus <$> sr_Record r))
  | PAward ctx req => r ← RecordPromotionalAward ctx req;
      mret (option_list (AckAward <$> sr_Record r))
  | PListBonus ctx req => ListRecentBonusTransactions ctx req;; mret []
  | PListAwards ctx req => ListPromotionalAwards ctx req;; mret []
  end.

Fixpoint promo_serve_all (qs : list promo_req) : PM (list promo_ack) :=
  match qs with
  | [] => mret []
  | q :: qs => a ← promo_serve q; l ← promo_serve_all qs; mret (a ++ l)
  end.

Definition acked_bonuses (l : list promo_ack) : list BonusTransaction :=
  omap (λ a, match a with AckBonus x => Some x | _ => None end) l.
Definition acked_awards (l : list promo_ack) : list PromotionalAward :=
  omap (λ a, match a with AckAward x => Some x | _ => None end) l.

(** ** With any database *)

(** Every record in memory is well formed and stored under its own id. *)
Record promo_typed σ : Prop := {
  pt_bonus id x : bonusTx σ !! id = Some x → bt_BonusTransactionId x = id ∧ bonus_ok x;
  pt_award id x : awards σ !! id = Some x → pa_PromotionalAwardId x = id ∧ award_ok x }.

Definition typed_step (σ σ' : PromotionsState) : Prop := promo_typed σ → promo_typed σ'.

#[local] Instance typed_step_preorder : PreOrder typed_step.
Proof. split; unfold typed_step; [by intros σ|]. intros σ1 σ2 σ3. auto. Qed.

Lemma write_bonus_typed σ x :
  bonus_ok x →
  typed_step σ (σ <| bonusTx ::= insert (bt_BonusTransactionId x) x |>
                  <| bonusOrder ::= λ l, l ++ [bt_BonusTransactionId x] |>).
Proof.
  intros Hx [Hb Ha]. split; simpl; [|done]. intros id y. rewrite lookup_insert_Some. naive_solver.
Qed.

Lemma write_award_typed σ x :
  award_ok x →
  typed_step σ (σ <| awards ::= insert (pa_PromotionalAwardId x) x |>
                  <| awardOrder ::= λ l, l ++ [pa_PromotionalAwardId x] |>).
Proof.
  intros Hx [Hb Ha]. split; simpl; [done|]. intros id y. rewrite lookup_insert_Some. naive_solver.
Qed.


Lemma fill_bonus_ok x s :
  invalid_bonus x = false → bad_timestamp (bt_OccurredAt x) = false →
  wlp (fill_bonus x) (λ y _, bonus_ok y) s.
Proof.
  unfold invalid_bonus. intros Hv Ht. rewrite !orb_false_iff, !bool_decide_eq_false in Hv.
  destruct Hv as [[He Hp] Ham%positive_amount]. apply fill_wlp; try by destruct x.
  intros i v Hi Hv. split; try done. simpl.
  destruct Hv as [[-> Hne]|[_ [t ->]]]; [by apply stamped_given|right; eauto].
Qed.

Lemma fill_award_ok x s :
  invalid_award x = false → bad_timestamp (pa_OccurredAt x) = false →
  wlp (fill_award x) (λ y _, award_ok y) s.
Proof.
  unfold invalid_award. intros Hv Ht.
  rewrite !orb_false_iff, !bool_decide_eq_false, negb_false_iff in Hv.
  destruct Hv as [[Hp Hty] Ham%positive_amount]. apply fill_wlp; try by destruct x.
  intros i v Hi Hv. split; try done. simpl.
  destruct Hv as [[-> Hne]|[_ [t ->]]]; [by apply stamped_given|right; eauto].
Qed.

Ltac psteps :=
  repeat match goal with
  | |- _ => progress (unfold promo_denied, promotions_appendAudit, stored_reply, page_reply,
      persistBonusTransaction, persistPromotionalAward, listBonusTransactionsFromDB,
      listPromotionalAwardsFromDB, page)
  | |- _ => fstep
  end.

Lemma keeps_RecordBonusTransaction ctx req :
  keeps (field_frame typed_step) (RecordBonusTransaction ctx req).
Proof.
  unfold RecordBonusTransaction. cbv zeta. destruct (req ≫= rb_Transaction) as [x|]; [|psteps].
  destruct (invalid_bonus x) eqn:Hv; [psteps|].
  destruct (bad_timestamp (bt_OccurredAt x)) eqn:Ht; [psteps|].
  destruct (promotions_authorize ctx _) as [ok why]. destruct ok; simpl negb; cbv iota; [|psteps].
  refine (keeps_bind _ _ _ _ _); [psteps|]. intros _.
  refine (keeps_bind _ _ _ _ _); [|intros ?; psteps]. apply keeps_on_panic.
  refine (keeps_bind_with _ bonus_ok _ _ _ _ _).
  - unfold fill_bonus, fill, nextBonusIDLocked. psteps. intros σ []. by split.
  - intros s. by apply fill_bonus_ok.
  - intros y Hy. psteps. intros σ. by apply write_bonus_typed.
Qed.

Lemma keeps_RecordPromotionalAward ctx req :
  keeps (field_frame typed_step) (RecordPromotionalAward ctx req).
Proof.
  unfold RecordPromotionalAward. cbv zeta. destruct (req ≫= ra_Award) as [x|]; [|psteps].
  destruct (invalid_award x) eqn:Hv; [psteps|].
  destruct (bad_timestamp (pa_OccurredAt x)) eqn:Ht; [psteps|].
  destruct (promotions_authorize ctx _) as [ok why]. destruct ok; simpl negb; cbv iota; [|psteps].
  refine (keeps_bind _ _ _ _ _); [psteps|]. intros _.
  refine (keeps_bind _ _ _ _ _); [|intros ?; psteps]. apply keeps_on_panic.
  refine (keeps_bind_with _ award_ok _ _ _ _ _).
  - unfold fill_award, fill, nextAwardIDLocked. psteps. intros σ []. by split.
  - intros s. by apply fill_award_ok.
  - intros y Hy. psteps. intros σ. by apply write_award_typed.
Qed.

Lemma keeps_promo_serve_all qs : keeps (field_frame typed_step) (promo_serve_all qs).
Proof.
  induction qs as [|q qs IH]; cbn [promo_serve_all]; [refine (keeps_ret _ _)|].
  refine (keeps_bind _ _ _ _ _); [|intros a; refine (keeps_bind _ _ _ _ _); [exact IH|intros l;
    refine (keeps_ret _ _)]].
  destruct q; cbn [promo_serve]; (refine (keeps_bind _ _ _ _ _); [|intros ?; refine (keeps_ret _ _)]).
  - apply keeps_RecordBonusTransaction.
  - apply keeps_RecordPromotionalAward.
  - unfold ListRecentBonusTransactions. cbv zeta. psteps.
  - unfold ListPromotionalAwards. cbv zeta. psteps.
Qed.

(** Promotions are well formed: with any database, however it fails, and
    whatever was sent, every bonus transaction and every award the service holds
    is stored under its own non-empty id, names its player (and equipment), has
    a positive amount in a named currency and a supported type, and carries a
    valid timestamp of the sender or one the service wrote. *)
Theorem promotions_typed clk handle qs acks s :
  promo_serve_all qs (NewPromotionsService clk handle) = Done acks s → promo_typed (st s).
Proof.
  intros E. apply (post_elim True _ _ _ _ _ (keeps_promo_serve_all qs _) E).
  split; simpl; intros id x Hx; by apply lookup_empty_Some in Hx.
Qed.

(** ** Without a database *)

(** Whether an award is complete and authorized. *)
Definition award_admissible ctx meta (x : PromotionalAward) : Prop :=
  invalid_award x = false ∧ bad_timestamp (pa_OccurredAt x) = false
  ∧ (promotions_authorize ctx meta).1 = true.

(** The award as sent, but for an id and a time the service may have given. *)
Definition echo_award (x y : PromotionalAward) : Prop :=
  ∃ i v, y = x <| pa_PromotionalAwardId := i |> <| pa_OccurredAt := v |>
    ∧ (pa_PromotionalAwardId x ≠ "" → i = pa_PromotionalAwardId x)
    ∧ (pa_OccurredAt x ≠ "" → v = pa_OccurredAt x).

(** What a request does to the records. *)
Record promo_step (acks : list promo_ack) σ σ' : Prop := {
  ps_awards : awards σ' = write_all pa_PromotionalAwardId (awards σ) (acked_awards acks);
  ps_awardOrder : awardOrder σ' = awardOrder σ ++ (pa_PromotionalAwardId <$> acked_awards acks);
  ps_bonus : bonusTx σ' = write_all bt_BonusTransactionId (bonusTx σ) (acked_bonuses acks);
  ps_bonusOrder : bonusOrder σ' = bonusOrder σ ++ (bt_BonusTransactionId <$> acked_bonuses acks);
  ps_cache : promo_disableInMemoryCache σ' = promo_disableInMemoryCache σ }.

Lemma promo_step_refl σ : promo_step [] σ σ.
Proof. split; simpl; by rewrite ?app_nil_r. Qed.

Lemma promo_step_trans a b σ1 σ2 σ3 :
  promo_step a σ1 σ2 → promo_step b σ2 σ3 → promo_step (a ++ b) σ1 σ3.
Proof.
  intros [] []. split; unfold acked_awards, acked_bonuses in *;
    rewrite ?omap_app, ?write_all_app, ?fmap_app, ?app_assoc; congruence.
Qed.

Lemma pspec_denied {A} T meta ot oid action why (k : PM A) h σ evs Q :
  (∀ e, mspec T k h σ (evs ++ [e]) Q) →
  mspec T (promo_denied meta ot oid action why k) h σ evs Q.
Proof. intros HQ. unfold promo_denied, promotions_appendAudit. msteps. apply HQ. Qed.

Lemma RecordPromotionalAward_spec T ctx req σ evs :
  promo_disableInMemoryCache σ = false →
  mspec T (RecordPromotionalAward ctx req) false σ evs (λ r σ' evs',
    σ' = σ ∧ sr_Record r = None
      ∧ (∀ meta x, req = Some (mkRecordPromotionalAwardRequest meta (Some x)) →
           ¬ award_admissible ctx meta x)
    ∨ ∃ meta x y, req = Some (mkRecordPromotionalAwardRequest meta (Some x))
        ∧ ResCode (sr_Meta r) = RESULT_CODE_OK ∧ sr_Record r = Some y ∧ echo_award x y
        ∧ promo_step [AckAward y] σ σ').
Proof.
  intros Hc. unfold RecordPromotionalAward, stored_reply; cbv zeta.
  destruct req as [[meta [x|]]|]; simpl;
    [|apply pspec_denied; intros e; msteps; left; split_and!; [done..|naive_solver]..].
  destruct (invalid_award x) eqn:Hv.
  { apply pspec_denied. intros e. msteps. left. split_and!; [done..|].
    intros m' x' [= <- <-] (Hv' & _). congruence. }
  destruct (bad_timestamp (pa_OccurredAt x)) eqn:Ht.
  { apply pspec_denied. intros e. msteps. left. split_and!; [done..|].
    intros m' x' [= <- <-] (_ & Ht' & _). congruence. }
  destruct (promotions_authorize ctx meta) as [[|] why] eqn:Ha; simpl negb; cbv iota.
  2:{ apply pspec_denied. intros e. msteps. left. split_and!; [done..|].
      intros m' x' [= <- <-] (_ & _ & Ha'). by rewrite Ha in Ha'. }
  mstep. mstep. eapply (fill_mspec _ _ _ _ _ x) with (N := λ i σ', (pa_PromotionalAwardId x ≠ "" →
    i = pa_PromotionalAwardId x) ∧ promo_step [] σ σ'); try by destruct x.
  - intros Hid. unfold nextAwardIDLocked. msteps. split; [done|]. split; [done|].
    by split; simpl; rewrite ?app_nil_r.
  - intros Hid. split; [done|apply promo_step_refl].
  - intros i v σ1 [Hi Hst] Hgiven. set (y := modify_field _ _ _). msteps.
    rewrite (ps_cache _ _ _ Hst), Hc. unfold persistPromotionalAward, promotions_appendAudit. msteps.
    right. exists meta, x, y. split_and!; [done..| |].
    + exists i, v. split_and!; [done..|]. intros Hne. by destruct Hgiven as [[-> _]|[? _]].
    + apply (promo_step_trans [] [AckAward y] _ _ _ Hst). by split; simpl; rewrite ?app_nil_r.
Qed.

Lemma RecordBonusTransaction_spec T ctx req σ evs :
  promo_disableInMemoryCache σ = false →
  mspec T (RecordBonusTransaction ctx req) false σ evs (λ r σ' evs',
    promo_step (option_list (AckBonus <$> sr_Record r)) σ σ').
Proof.
  intros Hc. unfold RecordBonusTransaction, stored_reply; cbv zeta.
  destruct (req ≫= rb_Transaction) as [x|];
    [|apply pspec_denied; intros e; msteps; apply promo_step_refl].
  destruct (invalid_bonus x); [apply pspec_denied; intros e; msteps; apply promo_step_refl|].
  destruct (bad_timestamp _); [apply pspec_denied; intros e; msteps; apply promo_step_refl|].
  destruct (promotions_authorize ctx _) as [[|] why]; simpl negb; cbv iota;
    [|apply pspec_denied; intros e; msteps; apply promo_step_refl].
  mstep. mstep. eapply (fill_mspec _ _ _ _ _ x) with (N := λ _ σ', promo_step [] σ σ');
    try by destruct x.
  - intros Hid. unfold nextBonusIDLocked. msteps. split; [done|].
    by split; simpl; rewrite ?app_nil_r.
  - intros _. apply promo_step_refl.
  - intros i v σ1 Hst _. set (y := modify_field _ _ _). msteps.
    rewrite (ps_cache _ _ _ Hst), Hc. unfold persistBonusTransaction, promotions_appendAudit. msteps.
    apply (promo_step_trans [] [AckBonus y] _ _ _ Hst). by split; simpl; rewrite ?app_nil_r.
Qed.

Lemma ListRecentBonusTransactions_spec T ctx req σ evs :
  promo_disableInMemoryCache σ = false →
  mspec T (ListRecentBonusTransactions ctx req) false σ evs (λ r σ' evs',
    σ' = σ ∧ ∀ q, req = Some q → (promotions_authorize ctx (lb_Meta q)).1 = true →
      0 ≤ lb_Limit q ≤ 100 →
      ResCode (pg_Meta r) = RESULT_CODE_OK
      ∧ pg_Items r = take (Z.to_nat (pageSizeOr 25 (lb_Limit q)))
          (newest_first (bonus_wanted (lb_EquipmentId q)) (bonusTx σ) (bonusOrder σ))).
Proof.
  intros Hc. unfold ListRecentBonusTransactions, page_reply; cbv zeta. set (q := default _ req).
  destruct (promotions_authorize ctx (lb_Meta q)) as [[|] why] eqn:Ha; simpl negb; cbv iota.
  2:{ apply pspec_denied. intros e. msteps. split; [done|]. intros q' ->. change q with q' in Ha.
      by rewrite Ha. }
  destruct (Z.ltb_spec (lb_Limit q) 0).
  { apply pspec_denied. intros e. msteps. split; [done|]. intros q' ->. change q with q' in *. lia. }
  destruct (Z.ltb_spec 100 (pageSizeOr 25 (lb_Limit q))) as [Hbig|].
  { apply pspec_denied. intros e. msteps. split; [done|]. intros q' ->. change q with q' in *.
    unfold pageSizeOr in Hbig. destruct (Z.leb_spec (lb_Limit q') 0); lia. }
  msteps. rewrite Hc. msteps. split; [done|]. intros q' ->. done.
Qed.

Lemma ListPromotionalAwards_spec T ctx req σ evs :
  promo_disableInMemoryCache σ = false →
  mspec T (ListPromotionalAwards ctx req) false σ evs (λ r σ' evs',
    σ' = σ ∧ ∀ q start, req = Some q → (promotions_authorize ctx (lpa_Meta q)).1 = true →
      0 ≤ lpa_PageSize q ≤ 100 → token_start (lpa_PageToken q) = Some start →
      evs' = evs ∧ (pg_Items r, pg_NextPageToken r)
        = page_at (newest_first (award_wanted (lpa_PlayerId q) (lpa_CampaignId q)) (awards σ)
            (awardOrder σ)) start (pageSizeOr 25 (lpa_PageSize q))).
Proof.
  intros Hc. unfold ListPromotionalAwards, page_reply; cbv zeta. set (q := default _ req).
  destruct (promotions_authorize ctx (lpa_Meta q)) as [[|] why] eqn:Ha; simpl negb; cbv iota.
  2:{ apply pspec_denied. intros e. msteps. split; [done|]. intros q' start ->.
      change q with q' in Ha. by rewrite Ha. }
  destruct (Z.ltb_spec (lpa_PageSize q) 0).
  { apply pspec_denied. intros e. msteps. split; [done|]. intros q' start ->. change q with q' in *. lia. }
  destruct (Z.ltb_spec 100 (pageSizeOr 25 (lpa_PageSize q))) as [Hbig|].
  { apply pspec_denied. intros e. msteps. split; [done|]. intros q' start ->. change q with q' in *.
    unfold pageSizeOr in Hbig. destruct (Z.leb_spec (lpa_PageSize q') 0); lia. }
  destruct (token_start (lpa_PageToken q)) as [start|] eqn:Htok.
  2:{ apply pspec_denied. intros e. msteps. split; [done|]. intros q' start ->.
      change q with q' in Htok. by rewrite Htok. }
  msteps. rewrite Hc. msteps. pose proof (pageSizeOr_pos 25 (lpa_PageSize q)).
  apply mspec_page; [by eapply token_start_nonneg|lia|]. msteps. split; [done|].
  intros q' start' ->. change q with q' in *. rewrite Htok. intros _ _ [= <-]. done.
Qed.

Lemma promo_serve_spec T q σ evs :
  promo_disableInMemoryCache σ = false →
  mspec T (promo_serve q) false σ evs (λ a σ' _, promo_step a σ σ').
Proof.
  intros Hc. destruct q as [ctx req|ctx req|ctx req|ctx req]; cbn [promo_serve]; mstep.
  - eapply mspec_mono; [by apply RecordBonusTransaction_spec|]. intros r σ' evs' Hs. by mstep.
  - eapply mspec_mono; [by apply RecordPromotionalAward_spec|].
    intros r σ' evs' [(-> & -> & _)|(m & x & y & _ & _ & -> & _ & Hs)]; mstep; [|done].
    apply promo_step_refl.
  - eapply mspec_mono; [by apply ListRecentBonusTransactions_spec|]. intros r σ' evs' [-> _].
    mstep. apply promo_step_refl.
  - eapply mspec_mono; [by apply ListPromotionalAwards_spec|]. intros r σ' evs' [-> _].
    mstep. apply promo_step_refl.
Qed.

Lemma promo_serve_all_spec T qs σ evs :
  promo_disableInMemoryCache σ = false →
  mspec T (promo_serve_all qs) false σ evs (λ acks σ' _, promo_step acks σ σ').
Proof.
  revert σ evs. induction qs as [|q qs IH]; intros σ evs Hc; cbn [promo_serve_all].
  { mstep. apply promo_step_refl. }
  mstep. eapply mspec_mono; [by apply promo_serve_spec|]. intros a σ1 evs1 Hs1. mstep.
  eapply mspec_mono; [apply IH; by rewrite (ps_cache _ _ _ Hs1)|]. intros l σ2 evs2 Hs2. mstep.
  exact (promo_step_trans _ _ _ _ _ Hs1 Hs2).
Qed.

Lemma promo_run clk qs :
  ∃ acks s, promo_serve_all qs (NewPromotionsService clk None) = Done acks s
    ∧ in_memory s ∧ promo_step acks NewPromotionsState (st s).
Proof.
  destruct (mspec_call (λ _, True) (promo_serve_all qs) (NewPromotionsService clk None) _
    (NewService_in_memory _ _) (λ _, I) (promo_serve_all_spec _ qs NewPromotionsState [] eq_refl))
    as (l & s & E & Hm & _ & Hs). by exists l, s.
Qed.

(** One page of the awards, by its token. *)
Definition list_awards_page ctx meta player campaign size (token : string)
    : PM (list PromotionalAward * string) :=
  r ← ListPromotionalAwards ctx (Some (mkListPromotionalAwardsRequest meta player campaign size token));
  mret (pg_Items r, pg_NextPageToken r).

(** The listings are exact as long as ids are not reused: after any run in
    which the acknowledged awards and transactions have pairwise different ids,
    a client that follows the page tokens of ListPromotionalAwards is done after
    at most one call per award plus one and has then seen exactly the
    acknowledged awards of the wanted player and campaign, the newest first; and
    ListRecentBonusTransactions returns the newest transactions of the wanted
    equipment, as many as asked for. *)
Theorem promotions_listed_exact clk qs acks s ctx meta player campaign size equipment limit :
  promo_serve_all qs (NewPromotionsService clk None) = Done acks s →
  NoDup (pa_PromotionalAwardId <$> acked_awards acks) →
  NoDup (bt_BonusTransactionId <$> acked_bonuses acks) →
  Z.of_nat (length (acked_awards acks)) ≤ int64_max →
  (promotions_authorize ctx meta).1 = true → 0 ≤ size ≤ 100 → 0 ≤ limit ≤ 100 →
  (∃ s', walk_pages (list_awards_page ctx meta player campaign size)
      (S (length (acked_awards acks))) "" s
    = Done (List.filter (award_wanted player campaign) (reverse (acked_awards acks))) s')
  ∧ ∃ r s', ListRecentBonusTransactions ctx
        (Some (mkListRecentBonusTransactionsRequest meta equipment limit)) s = Done r s'
      ∧ ResCode (pg_Meta r) = RESULT_CODE_OK
      ∧ pg_Items r = take (Z.to_nat (pageSizeOr 25 limit))
          (List.filter (bonus_wanted equipment) (reverse (acked_bonuses acks))).
Proof.
  intros E Hna Hnb Hfit Ha Hsize Hlimit. destruct (promo_run clk qs) as (acks' & s0 & E0 & Hm & Hs).
  rewrite E in E0. injection E0 as <- <-. destruct Hs as [Haw Hao Hbt Hbo Hc]. simpl in *.
  set (l := List.filter (award_wanted player campaign) (reverse (acked_awards acks))).
  assert (length l ≤ length (acked_awards acks))%nat as Hlen.
  { unfold l. rewrite <- (length_reverse (acked_awards acks)). apply List.filter_length_le. }
  split.
  - destruct (mspec_walk (λ _, True) (list_awards_page ctx meta player campaign size) l
      (pageSizeOr 25 size) (st s) (audit_events s) s (S (length (acked_awards acks))))
      as (s' & Ew & _); try done.
    + by apply pageSizeOr_pos.
    + lia.
    + lia.
    + intros token start Htok. unfold list_awards_page. mstep.
      eapply mspec_mono; [by apply ListPromotionalAwards_spec|]. intros r σ' evs' [-> Hr].
      destruct (Hr _ start eq_refl Ha Hsize Htok) as (-> & Hp). mstep. rewrite Hp. simpl.
      by rewrite Haw, Hao, newest_first_acked.
    + by exists s'.
  - destruct (mspec_call (λ _, True) _ s _ Hm (λ _, I) (ListRecentBonusTransactions_spec _ ctx
      (Some (mkListRecentBonusTransactionsRequest meta equipment limit)) _ _ Hc))
      as (r & s' & E' & _ & _ & _ & Hr).
    destruct (Hr _ eq_refl Ha Hlimit) as [Hok Hit]. exists r, s'. split_and!; [done..|].
    rewrite Hit. simpl. by rewrite Hbt, Hbo, newest_first_acked.
Qed.
End promotions.

Section overlay.
Context {D : Type} `{!Wall, !Crypto, !JsonValid, !AuditDB D, !ExtensionsDB D}.
Abbreviation OM := (M (Svc D OverlayState)).
Implicit Types (σ : OverlayState) (s : Svc D OverlayState) (T : Time → Prop)
  (evs : list Event) (ctx : option Context).

Inductive overlay_req :=
| OSubmit (ctx : option Context) (req : option SubmitSystemWindowEventRequest)
| OList (ctx : option Context) (req : option ListSystemWindowEventsRequest).

Definition overlay_serve (q : overlay_req) : OM (list SystemWindowEvent) :=
  match q with
  | OSubmit ctx req => r ← SubmitSystemWindowEvent ctx req; mret (option_list (sr_Record r))
  | OList ctx req => ListSystemWindowEvents ctx req;; mret []
  end.

Fixpoint overlay_serve_all (qs : list overlay_req) : OM (list SystemWindowEvent) :=
  match qs with
  | [] => mret []
  | q :: qs => a ← overlay_serve q; l ← overlay_serve_all qs; mret (a ++ l)
  end.

Lemma ospec_denied {A} T meta oid action why (k : OM A) h σ evs Q :
  (∀ e, mspec T k h σ (evs ++ [e]) Q) →
  mspec T (overlay_denied meta oid action why k) h σ evs Q.
Proof. intros HQ. unfold overlay_denied, overlay_appendAudit. msteps. apply HQ. Qed.

(** What a request does to the events; every acknowledged event is well
    formed. *)
Record overlay_step (acks : list SystemWindowEvent) σ σ' : Prop := {
  os_events : windowEvents σ' = write_all we_EventId (windowEvents σ) acks;
  os_order : windowOrder σ' = windowOrder σ ++ (we_EventId <$> acks);
  os_cache : overlay_disableInMemoryCache σ' = overlay_disableInMemoryCache σ;
  os_ok : Forall window_ok acks }.

Lemma overlay_step_refl σ : overlay_step [] σ σ.
Proof. split; simpl; [done|by rewrite app_nil_r|done|constructor]. Qed.

Lemma overlay_step_trans a b σ1 σ2 σ3 :
  overlay_step a σ1 σ2 → overlay_step b σ2 σ3 → overlay_step (a ++ b) σ1 σ3.
Proof.
  intros [] []. split; rewrite ?write_all_app, ?fmap_app, ?app_assoc; try congruence.
  by apply Forall_app.
Qed.

Lemma SubmitSystemWindowEvent_spec T ctx req σ evs :
  overlay_disableInMemoryCache σ = false →
  mspec T (SubmitSystemWindowEvent ctx req) false σ evs (λ r σ' evs',
    overlay_step (option_list (sr_Record r)) σ σ').
Proof.
  intros Hc. unfold SubmitSystemWindowEvent, stored_reply; cbv zeta.
  destruct (req ≫= sw_Event) as [x|];
    [|apply ospec_denied; intros e; msteps; apply overlay_step_refl].
  destruct (invalid_window x) eqn:Hv; [apply ospec_denied; intros e; msteps; apply overlay_step_refl|].
  destruct (bad_timestamp (we_EventTime x)) eqn:Ht;
    [apply ospec_denied; intros e; msteps; apply overlay_step_refl|].
  destruct (overlay_authorize ctx _) as [[|] why]; simpl negb; cbv iota;
    [|apply ospec_denied; intros e; msteps; apply overlay_step_refl].
  mstep. mstep. eapply (fill_mspec _ _ _ _ _ x) with
    (N := λ i σ', i ≠ "" ∧ overlay_step [] σ σ'); try by destruct x.
  - intros Hid. unfold nextEventIDLocked. msteps. split; [done|]. split; [done|].
    by split; simpl; rewrite ?app_nil_r.
  - intros Hid. split; [done|apply overlay_step_refl].
  - intros i v σ1 [Hi Hst] Hgiven. set (y := modify_field _ _ _). msteps.
    rewrite (os_cache _ _ _ Hst), Hc. unfold persistSystemWindowEvent, overlay_appendAudit. msteps.
    apply (overlay_step_trans [] [y] _ _ _ Hst). split; simpl; try done.
    apply Forall_singleton. unfold invalid_window in Hv.
    rewrite !orb_false_iff, !bool_decide_eq_false, negb_false_iff in Hv.
    destruct Hv as [[He Hw] Hty]. split; try done. simpl.
    destruct Hgiven as [[-> Hne]|[_ [t' ->]]]; [by apply stamped_given|right; eauto].
Qed.

(** A range of times as a request gives it; an empty bound is none. *)
Definition time_range (from to : string) (fromTS toTS : Time) : Prop :=
  parseRFC3339Strict from = Some fromTS ∧ parseRFC3339Strict to = Some toTS
  ∧ (fromTS ≠ zero_time → toTS ≠ zero_time → fromTS ≤ toTS).

Lemma ListSystemWindowEvents_spec T ctx req σ evs :
  overlay_disableInMemoryCache σ = false →
  mspec T (ListSystemWindowEvents ctx req) false σ evs (λ r σ' evs',
    σ' = σ ∧ ∀ q start fromTS toTS, req = Some q →
      (overlay_authorize ctx (lw_Meta q)).1 = true → 0 ≤ lw_PageSize q ≤ 200 →
      token_start (lw_PageToken q) = Some start →
      time_range (lw_FromTime q) (lw_ToTime q) fromTS toTS →
      evs' = evs ∧ (pg_Items r, pg_NextPageToken r)
        = page_at (newest_first (window_wanted (lw_EquipmentId q) fromTS toTS) (windowEvents σ)
            (windowOrder σ)) start (pageSizeOr 50 (lw_PageSize q))).
Proof.
  intros Hc. unfold ListSystemWindowEvents, page_reply; cbv zeta. set (q := default _ req).
  assert (∀ q', req = Some q' → q = q') as Hq by (by intros q' ->).
  destruct (overlay_authorize ctx (lw_Meta q)) as [[|] why] eqn:Ha; simpl negb; cbv iota.
  2:{ apply ospec_denied. intros e. msteps. split; [done|]. intros q' ??? <-%Hq. by rewrite Ha. }
  destruct (Z.ltb_spec (lw_PageSize q) 0).
  { apply ospec_denied. intros e. msteps. split; [done|]. intros q' ??? <-%Hq. lia. }
  destruct (token_start (lw_PageToken q)) as [start|] eqn:Htok.
  2:{ apply ospec_denied. intros e. msteps. split; [done|]. intros q' ??? <-%Hq. by rewrite Htok. }
  destruct (Z.ltb_spec 200 (pageSizeOr 50 (lw_PageSize q))) as [Hbig|].
  { apply ospec_denied. intros e. msteps. split; [done|]. intros q' ??? <-%Hq.
    unfold pageSizeOr in Hbig. destruct (Z.leb_spec (lw_PageSize q) 0); lia. }
  destruct (parseRFC3339Strict (lw_FromTime q)) as [f|] eqn:Hf.
  2:{ apply ospec_denied. intros e. msteps. split; [done|]. intros q' ??? <-%Hq _ _ _ [Hf' _]. congruence. }
  destruct (parseRFC3339Strict (lw_ToTime q)) as [u|] eqn:Hu.
  2:{ apply ospec_denied. intros e. msteps. split; [done|].
      intros q' ??? <-%Hq _ _ _ (_ & Hu' & _). congruence. }
  destruct (_ && time_After f u) eqn:Hr.
  { apply ospec_denied. intros e. msteps. split; [done|].
    intros q' ??? <-%Hq _ _ _ (Hf' & Hu' & Hle). simplify_eq.
    apply andb_true_iff in Hr as [[Hf0%negb_true_iff Hu0%negb_true_iff]%andb_true_iff Hr%Z.ltb_lt].
    apply Z.eqb_neq in Hf0, Hu0. specialize (Hle Hf0 Hu0). lia. }
  msteps. rewrite Hc. msteps. pose proof (pageSizeOr_pos 50 (lw_PageSize q)).
  apply mspec_page; [by eapply token_start_nonneg|lia|]. msteps. split; [done|].
  intros q' start' fromTS toTS <-%Hq _ _ Htok' (Hf' & Hu' & _). by simplify_eq.
Qed.

Lemma overlay_serve_spec T q σ evs :
  overlay_disableInMemoryCache σ = false →
  mspec T (overlay_serve q) false σ evs (λ a σ' _, overlay_step a σ σ').
Proof.
  intros Hc. destruct q as [ctx req|ctx req]; cbn [overlay_serve]; mstep.
  - eapply mspec_mono; [by apply SubmitSystemWindowEvent_spec|]. intros r σ' evs' Hs. by mstep.
  - eapply mspec_mono; [by apply ListSystemWindowEvents_spec|]. intros r σ' evs' [-> _].
    mstep. apply overlay_step_refl.
Qed.

Lemma overlay_serve_all_spec T qs σ evs :
  overlay_disableInMemoryCache σ = false →
  mspec T (overlay_serve_all qs) false σ evs (λ acks σ' _, overlay_step acks σ σ').
Proof.
  revert σ evs. induction qs as [|q qs IH]; intros σ evs Hc; cbn [overlay_serve_all].
  { mstep. apply overlay_step_refl. }
  mstep. eapply mspec_mono; [by apply overlay_serve_spec|]. intros a σ1 evs1 Hs1. mstep.
  eapply mspec_mono; [apply IH; by rewrite (os_cache _ _ _ Hs1)|]. intros l σ2 evs2 Hs2. mstep.
  exact (overlay_step_trans _ _ _ _ _ Hs1 Hs2).
Qed.

(** One page of the window events, by its token. *)
Definition list_windows_page ctx meta equipment from to size (token : string)
    : OM (list SystemWindowEvent * string) :=
  r ← ListSystemWindowEvents ctx (Some (mkListSystemWindowEventsRequest meta equipment from to size token));
  mret (pg_Items r, pg_NextPageToken r).

(** Window events are well formed, and listed exactly as long as ids are
    not reused: after any run every acknowledged event names its equipment,
    window and a supported type; and if the acknowledged ids are pairwise
    different, a client that follows the page tokens is done after at most one
    call per event plus one and has then seen exactly the acknowledged events of
    the wanted equipment and time range, the newest first. *)
Theorem window_events_exact clk qs acks s ctx meta equipment from to size fromTS toTS :
  overlay_serve_all qs (NewUISystemOverlayService clk None) = Done acks s →
  NoDup (we_EventId <$> acks) → Z.of_nat (length acks) ≤ int64_max →
  (overlay_authorize ctx meta).1 = true → 0 ≤ size ≤ 200 → time_range from to fromTS toTS →
  Forall window_ok acks
  ∧ ∃ s', walk_pages (list_windows_page ctx meta equipment from to size) (S (length acks)) "" s
      = Done (List.filter (window_wanted equipment fromTS toTS) (reverse acks)) s'.
Proof.
  intros E Hnd Hfit Ha Hsize Hr.
  destruct (mspec_call (λ _, True) (overlay_serve_all qs) (NewUISystemOverlayService clk None) _
    (NewService_in_memory _ _) (λ _, I) (overlay_serve_all_spec _ qs NewOverlayState [] eq_refl))
    as (acks' & s0 & E0 & Hm & _ & Hs).
  rewrite E in E0. injection E0 as <- <-. destruct Hs as [Hev Ho Hc Hok]. simpl in *.
  split; [done|]. set (l := List.filter _ _).
  assert (length l ≤ length acks)%nat as Hlen.
  { unfold l. rewrite <- (length_reverse acks). apply List.filter_length_le. }
  destruct (mspec_walk (λ _, True) (list_windows_page ctx meta equipment from to size) l
    (pageSizeOr 50 size) (st s) (audit_events s) s (S (length acks))) as (s' & Ew & _); try done.
  - by apply pageSizeOr_pos.
  - lia.
  - lia.
  - intros token start Htok. unfold list_windows_page. mstep.
    eapply mspec_mono; [by apply ListSystemWindowEvents_spec|]. intros r σ' evs' [-> Hp].
    destruct (Hp _ start fromTS toTS eq_refl Ha Hsize Htok Hr) as (-> & Hpage). mstep.
    rewrite Hpage. simpl. by rewrite Hev, Ho, newest_first_acked.
  - by exists s'.
Qed.
End overlay.

(** ** Concrete instances *)

Import Concrete.

Module ExtTable.
#[export] Instance extensions_db : ExtensionsDB () := {|
  x_bonus _ _ _ _ _ _ _ _ (d : ()) := (Ok (), d);
  x_award _ _ _ _ _ _ _ d := (Ok (), d); x_window _ _ _ _ _ _ _ d := (Ok (), d);
  q_bonus _ _ d := (Ok [], d); q_awards _ _ _ _ d := (Ok [], d);
  q_windows _ _ _ _ _ d := (Ok [], d) |}.
End ExtTable.
Import ExtTable.

Definition ex_award (id player : string) (amount : Z) : promo_req :=
  PAward None (Some (mkRecordPromotionalAwardRequest (operator_meta "")
    (Some (mkPromotionalAward id player PROMOTIONAL_AWARD_TYPE_FREEPLAY (usd amount) "" "")))).
Definition ex_bonus (id : string) : promo_req :=
  PBonus None (Some (mkRecordBonusTransactionRequest (operator_meta "")
    (Some (mkBonusTransaction id "eq-1" "alice" "" "" (usd 5) "")))).
Definition ex_promotions : list promo_req :=
  [ex_award "" "alice" 10; ex_award "x-1" "bob" 20; ex_bonus ""; ex_award "" "alice" 0;
   ex_award "" "alice" 30].

(** The ids are the senders': an award sent again under the same id, with
    another amount, replaces the first one, and is then listed twice. *)
Theorem award_resent_listed_twice :
  match promo_serve_all [ex_award "a-1" "alice" 10; ex_award "a-1" "alice" 25]
      (NewPromotionsService None (None : option ())) with
  | Done acks s =>
      (λ x, GetAmountMinor (pa_Amount x)) <$> acked_awards acks = [10; 25]
      ∧ match list_awards_page None (operator_meta "") "alice" "" 0 "" s with
        | Done (l, _) _ => (λ x, (pa_PromotionalAwardId x, GetAmountMinor (pa_Amount x))) <$> l
            = [("a-1", 25); ("a-1", 25)]
        | _ => False
        end
  | _ => False
  end.
Proof. vm_compute. done. Qed.

Lemma promotions_typed_witness :
  match promo_serve_all ex_promotions (NewPromotionsService None (Some ())) with
  | Done acks s => length (acked_awards acks) = 3%nat ∧ promo_typed (st s)
  | _ => False
  end.
Proof.
  assert (match promo_serve_all ex_promotions (NewPromotionsService None (Some ())) with
    | Done acks _ => length (acked_awards acks) = 3%nat | _ => False end) as Hr
    by (vm_compute; reflexivity).
  destruct (promo_serve_all ex_promotions (NewPromotionsService None (Some ()))) as [acks s| |] eqn:E;
    [|exact Hr..].
  split; [exact Hr|]. exact (promotions_typed None (Some ()) ex_promotions acks s E).
Defined.

Lemma promotions_listed_exact_witness :
  match promo_serve_all ex_promotions (NewPromotionsService None (None : option ())) with
  | Done acks s => ∃ l s', walk_pages (list_awards_page None (operator_meta "") "alice" "" 1) 4 "" s
        = Done l s' ∧ pa_PromotionalAwardId <$> l = ["award-2"; "award-1"]
  | _ => False
  end.
Proof.
  assert (match promo_serve_all ex_promotions (NewPromotionsService None (None : option ())) with
    | Done acks _ => pa_PromotionalAwardId <$> acked_awards acks = ["award-1"; "x-1"; "award-2"]
        ∧ bt_BonusTransactionId <$> acked_bonuses acks = ["bonus-1"]
        ∧ pa_PromotionalAwardId <$> List.filter (award_wanted "alice" "") (reverse (acked_awards acks))
          = ["award-2"; "award-1"]
    | _ => False end) as Hr by (vm_compute; repeat split; reflexivity).
  destruct (promo_serve_all ex_promotions (NewPromotionsService None None)) as [acks s| |] eqn:E;
    [|exact Hr..].
  destruct Hr as (Ha & Hb & Hl).
  assert (length (acked_awards acks) = 3%nat) as Hlen
    by (rewrite <- (length_fmap pa_PromotionalAwardId), Ha; reflexivity).
  destruct (promotions_listed_exact None ex_promotions acks s None (operator_meta "") "alice" "" 1 "" 5)
    as [[s' Hw] _].
  - exact E.
  - rewrite Ha. apply (bool_decide_unpack _). vm_compute. exact I.
  - rewrite Hb. apply (bool_decide_unpack _). vm_compute. exact I.
  - rewrite Hlen. vm_compute. discriminate.
  - reflexivity.
  - lia.
  - lia.
  - rewrite Hlen in Hw. eexists _, s'. split; [exact Hw|exact Hl].
Defined.

Definition ex_window (id time : string) : overlay_req :=
  OSubmit None (Some (mkSubmitSystemWindowEventRequest (operator_meta "")
    (Some (mkSystemWindowEvent id "eq-1" "" "w-1" SYSTEM_WINDOW_EVENT_TYPE_OPENED time "")))).
Definition ex_windows : list overlay_req :=
  [ex_window "" "2024-01-01T10:00:00Z"; ex_window "" "2024-01-02T10:00:00Z"; ex_window "" "noon"].

Lemma window_events_exact_witness :
  match overlay_serve_all ex_windows (NewUISystemOverlayService None (None : option ())) with
  | Done acks s => Forall window_ok acks
      ∧ ∃ l s', walk_pages (list_windows_page None (operator_meta "") "" "2024-01-02T00:00:00Z" "" 1)
          3 "" s = Done l s' ∧ we_EventId <$> l = ["win-evt-2"]
  | _ => False
  end.
Proof.
  assert (match overlay_serve_all ex_windows (NewUISystemOverlayService None (None : option ())) with
    | Done acks _ => we_EventId <$> acks = ["win-evt-1"; "win-evt-2"]
        ∧ we_EventId <$> List.filter (window_wanted "" (1704153600 * Second) zero_time) (reverse acks)
          = ["win-evt-2"]
    | _ => False end) as Hr by (vm_compute; repeat split; reflexivity).
  destruct (overlay_serve_all ex_windows (NewUISystemOverlayService None None)) as [acks s| |] eqn:E;
    [|exact Hr..].
  destruct Hr as (Ha & Hl).
  assert (length acks = 2%nat) as Hlen by (rewrite <- (length_fmap we_EventId), Ha; reflexivity).
  destruct (window_events_exact None ex_windows acks s None (operator_meta "") ""
    "2024-01-02T00:00:00Z" "" 1 (1704153600 * Second) zero_time) as [Hok [s' Hw]].
  - exact E.
  - rewrite Ha. apply (bool_decide_unpack _). vm_compute. exact I.
  - rewrite Hlen. vm_compute. discriminate.
  - reflexivity.
  - lia.
  - split; [vm_compute; reflexivity|]. split; [reflexivity|]. intros _ Hz. destruct (Hz eq_refl).
  - split; [exact Hok|]. rewrite Hlen in Hw. eexists _, s'. split; [exact Hw|exact Hl].
Defined.
