(* ===== verification/RemoteAccess.v ===== *)
(** * The remote access guard (internal/platform/server/remote_access.go)

    The HTTP middleware in front of the administrative paths.  It decides by
    source address, keeps an activity log of bounded size, and records every
    decision in the audit trail.  The two observers are callbacks into the
    metrics; the model records their calls. *)

From S2P Require Import Prelude GoTime GoJson GoNet AuditTrail Service.
From Stdlib Require Import Ascii.

Record RemoteAccessActivity := mkActivity {
  act_Timestamp : string; SourceIP : string; SourcePort : string;
  Destination : string; DestinationPort : string;
  act_Path : string; act_Method : string; Allowed : bool; act_Reason : string }.

Record GuardState := mkGuard {
  trusted : list IPNet;
  logs : list RemoteAccessActivity;
  disableInMemoryCache : bool;
  failClosedLogPersist : bool;
  inMemoryLogCap : Z;
  onDecision : bool;
  onLogState : bool;
  decisions : list string;
  log_states : list (Z * Z) }.

#[global] Instance eta_GuardState : Eta GuardState := λ g,
  mkGuard (trusted g) (logs g) (disableInMemoryCache g) (failClosedLogPersist g)
    (inMemoryLogCap g) (onDecision g) (onLogState g) (decisions g) (log_states g).

(** What the middleware reads of a request. *)
Record HttpRequest := mkHttpRequest {
  XForwardedFor : string; RemoteAddr : string; ReqHost : string;
  UrlPath : string; Method : string }.

(** What it does with it: hand it to the next handler, or answer an error. *)
Inductive HttpOutcome :=
| ServeNext
| HttpError (msg : string) (status : Z).

Definition StatusForbidden : Z := 403.
Definition StatusServiceUnavailable : Z := 503.

(** The statements on remote_access_activity. *)
Class RemoteDB (D : Type) := {
  x_activity : RemoteAccessActivity → D → res () * D;
  q_activities : D → res (list (Time * RemoteAccessActivity)) * D }.

Definition isAdminPath (path : string) : bool :=
  HasPrefix path "/v1/config" || HasPrefix path "/v1/reporting" || HasPrefix path "/v1/audit".

Definition extractSourceIP (r : HttpRequest) : string * string :=
  let xff := TrimSpace (XForwardedFor r) in
  if decide (xff ≠ "") then
    (TrimSpace (default "" (head (split_on ","%char xff))), "")
  else
    match SplitHostPort (TrimSpace (RemoteAddr r)) with
    | Some (host, port) => (host, port)
    | None => (TrimSpace (RemoteAddr r), "")
    end.

Definition isTrusted (g : GuardState) (ipStr : string) : bool :=
  match ParseIP ipStr with
  | None => false
  | Some ip => existsb (λ n, Contains n ip) (trusted g)
  end.

(** The networks of the constructor: [None] if an entry does not parse. *)
Fixpoint parse_trusted (cidrs : list string) : option (list IPNet) :=
  match cidrs with
  | [] => Some []
  | c :: cs =>
      let c := TrimSpace c in
      if decide (c = "") then parse_trusted cs
      else n ← ParseCIDR c; ns ← parse_trusted cs; Some (n :: ns)
  end.

Definition loopback : list IPNet := omap ParseCIDR ["127.0.0.1/32"; "::1/128"].

Section guard.
Context {D : Type} `{!Wall, !Crypto, !JsonValid, !AuditDB D, !RemoteDB D}.
Notation GM := (M (Svc D GuardState)).

Definition NewRemoteAccessGuard (clk : option (nat → Time)) (store : option InMemoryStore)
    (cidrs : list string) : option (Svc D GuardState) :=
  ns ← parse_trusted cidrs;
  let ns := match ns with [] => loopback | _ => ns end in
  Some (mkSvc (mkBase clk (Some (default NewInMemoryStore store)) false 0 None 0)
    (mkGuard ns [] false false 0 false false [] [])).

Definition guard_SetDB (d : option D) : GM () :=
  locked (modify (λ s, s <| base ::= λ b, b <| db := d |> |>)).

Definition SetDisableInMemoryActivityCache (disable : bool) : GM () :=
  locked (mod_st (λ g, g <| disableInMemoryCache := disable |>)).

Definition SetFailClosedOnLogPersistenceFailure (enable : bool) : GM () :=
  locked (mod_st (λ g, g <| failClosedLogPersist := enable |>)).

Definition observe_log_state (observer : bool) (entries cap : Z) : GM () :=
  if observer then mod_st (λ g, g <| log_states ::= λ l, l ++ [(entries, cap)] |>)
  else mret ().

Definition observe_decision (observer : bool) (outcome : string) : GM () :=
  if observer then mod_st (λ g, g <| decisions ::= λ l, l ++ [outcome] |>) else mret ().

Definition log_entries (g : GuardState) : Z := Z.of_nat (length (logs g)).

Definition SetInMemoryActivityLogCap (cap : Z) : GM () :=
  let cap := if cap <? 0 then 0 else cap in
  '(entries, observer) ← locked (
    mod_st (λ g, g <| inMemoryLogCap := cap |>);;
    entries ← get_st log_entries; observer ← get_st onLogState;
    mret (entries, observer));
  observe_log_state observer entries cap.

Definition SetLogStateObserver (observer : bool) : GM () :=
  locked (
    mod_st (λ g, g <| onLogState := observer |>);;
    entries ← get_st log_entries; cap ← get_st inMemoryLogCap;
    observe_log_state observer entries cap).

Definition SetDecisionObserver (observer : bool) : GM () :=
  locked (mod_st (λ g, g <| onDecision := observer |>)).

(** The guard has an audit append of its own: the id counter is taken under
    the mutex, the record written outside it. *)
Definition guard_appendAudit (path sourceIP outcome reason : string) : GM (option error) :=
  store ← gets (λ s, AuditStore (base s));
  match store with
  | None => mret (Some errRemoteAccessAuditUnavailable)
  | Some _ =>
      t ← now;
      '(id, enabled) ← locked (
        id ← nextAuditIDLocked "remote-access-"; enabled ← dbEnabled; mret (id, enabled));
      let result := if decide (outcome ≠ "allowed") then ResultDenied else ResultSuccess in
      let ev := mkEvent id t t sourceIP "remote" ("path=" +:+ path) "remote_access" path
        outcome "{}" "{}" result reason (FormatDay t) "" "" in
      e ← (if (enabled : bool) then appendAuditEventToDB ev else mret None);
      match e with
      | Some err => mret (Some err)
      | None => AuditStore_Append ev
      end
  end.

Definition persistActivity (activity : RemoteAccessActivity) : GM (option error) :=
  r ← run_db (x_activity activity);
  mret (match r with Ok _ => None | Err e => Some e end).

Definition logActivity (r : HttpRequest) (sourceIP sourcePort : string) (allowed : bool)
    (reason : string) : GM (option error) :=
  let '(host, port) := default (ReqHost r, "") (SplitHostPort (ReqHost r)) in
  t ← now;
  let entry := mkActivity (FormatRFC3339Nano t) sourceIP sourcePort host port
    (UrlPath r) (Method r) allowed reason in
  '(full, enabled, observer, entries, cap) ← locked (
    enabled ← dbEnabled; disabled ← get_st disableInMemoryCache; cap ← get_st inMemoryLogCap;
    entries ← get_st log_entries;
    full ← (if (disabled : bool) then mret false
            else if negb enabled && (0 <? cap) && (cap <=? entries) then mret true
            else mod_st (λ g, g <| logs ::= λ l, l ++ [entry] |>);; mret false);
    entries ← get_st log_entries; observer ← get_st onLogState;
    mret (full, enabled, observer, entries, cap));
  observe_log_state observer entries cap;;
  if (full : bool) then mret (Some errRemoteAccessLogCapacityExceeded)
  else if (enabled : bool) then persistActivity entry
  else mret None.

Definition activitiesFromDB : GM (res (list RemoteAccessActivity)) :=
  rows ← run_db q_activities;
  mret (match rows with
        | Err e => Err e
        | Ok l => Ok ((λ '(t, a), mkActivity (FormatRFC3339Nano t) (SourceIP a) (SourcePort a)
            (Destination a) (DestinationPort a) (act_Path a) (act_Method a) (Allowed a)
            (act_Reason a)) <$> l)
        end).

Definition Activities : GM (list RemoteAccessActivity) :=
  '(enabled, disableInMemory, out) ← locked (
    enabled ← dbEnabled; disabled ← get_st disableInMemoryCache; out ← get_st logs;
    mret (enabled, disabled, out));
  or_else (
    if negb enabled then mret None else
    r ← activitiesFromDB;
    match r with Ok dbOut => mret (Some dbOut) | Err _ => mret None end) $
  if (disableInMemory : bool) then mret [] else mret out.

(** What [Wrap] does when a log or audit append fails: [Some] is a response. *)
Definition on_logging_error (err : option error) : GM (option HttpOutcome) :=
  match err with
  | None => mret None
  | Some _ =>
      '(failClosed, observer) ← locked (
        f ← get_st failClosedLogPersist; o ← get_st onDecision; mret (f, o));
      observe_decision observer "logging_unavailable";;
      if (failClosed : bool)
      then mret (Some (HttpError "remote access logging unavailable" StatusServiceUnavailable))
      else mret None
  end.

Definition notify_decision (outcome : string) : GM () :=
  observer ← locked (get_st onDecision); observe_decision observer outcome.

Definition Wrap (r : HttpRequest) : GM HttpOutcome :=
  if negb (isAdminPath (UrlPath r)) then mret ServeNext else
  let '(sourceIP, sourcePort) := extractSourceIP r in
  ok ← get_st (λ g, isTrusted g sourceIP);
  if negb ok then
    let reason := "source ip outside trusted network" in
    or_else (e ← logActivity r sourceIP sourcePort false reason; on_logging_error e) $
    (notify_decision "denied";;
    or_else (e ← guard_appendAudit (UrlPath r) sourceIP "denied" reason;
             on_logging_error e) $
    mret (HttpError "remote access denied" StatusForbidden))
  else
    or_else (e ← logActivity r sourceIP sourcePort true ""; on_logging_error e) $
    or_else (e ← guard_appendAudit (UrlPath r) sourceIP "allowed" ""; on_logging_error e) $
    (notify_decision "allowed";;
    mret ServeNext).
End guard.
