(* ===== verification/RemoteAccessProofs.v ===== *)
(** * What the remote access guard guarantees

    [Wrap_spec] is the whole behaviour of the middleware on a guard without a
    database; the theorems about a guard with a database hold for any
    behaviour of it. *)

From S2P Require Import Prelude GoTime GoJson GoNet AuditTrail Service Ledger Env RemoteAccess.

(** ** The effect of a request on the guard's fields *)

Definition observed_log (g : GuardState) : GuardState :=
  if onLogState g
  then g <| log_states ::= λ l, l ++ [(log_entries g, inMemoryLogCap g)] |> else g.

Definition logged (entry : RemoteAccessActivity) (g : GuardState) : GuardState :=
  observed_log (if disableInMemoryCache g then g else g <| logs ::= λ l, l ++ [entry] |>).

Definition observed (outcome : string) (g : GuardState) : GuardState :=
  if onDecision g then g <| decisions ::= λ l, l ++ [outcome] |> else g.

(** The log refuses a further entry. *)
Definition log_full (g : GuardState) : bool :=
  negb (disableInMemoryCache g) && (0 <? inMemoryLogCap g)
    && (inMemoryLogCap g <=? log_entries g).

Definition entry_of (r : HttpRequest) (t : Time) (allowed : bool) (reason : string)
    : RemoteAccessActivity :=
  let '(ip, port) := extractSourceIP r in
  let '(host, hport) := default (ReqHost r, "") (SplitHostPort (ReqHost r)) in
  mkActivity (FormatRFC3339Nano t) ip port host hport (UrlPath r) (Method r) allowed reason.

(** What the audit record of a decision says. *)
Definition decision_record (r : HttpRequest) (outcome : string) (result : Result)
    (reason : string) (e : Event) : Prop :=
  ObjectType e = "remote_access" ∧ ObjectID e = UrlPath r ∧ ActorID e = (extractSourceIP r).1
  ∧ Action e = outcome ∧ EvResult e = result ∧ Reason e = reason.

Definition untrusted_reason : string := "source ip outside trusted network".

(** The state and the response after a request to an administrative path, on
    a guard without a database, at time [t]. *)
Definition guarded (r : HttpRequest) (t : Time) (g : GuardState) : HttpOutcome * GuardState :=
  let ok := isTrusted g (extractSourceIP r).1 in
  if log_full g && failClosedLogPersist g then
    (HttpError "remote access logging unavailable" StatusServiceUnavailable,
     observed "logging_unavailable" (observed_log g))
  else
    let g1 := if log_full g then observed "logging_unavailable" (observed_log g)
              else logged (entry_of r t ok (if ok then "" else untrusted_reason)) g in
    if ok then (ServeNext, observed "allowed" g1)
    else (HttpError "remote access denied" StatusForbidden, observed "denied" g1).

Section guard.
Context {D : Type} `{!Wall, !Crypto, !JsonValid, !AuditDB D, !RemoteDB D}.
Implicit Types (g : GuardState) (s : Svc D GuardState) (evs : list Event).

Lemma mspec_observe_log_state T g evs h (Q : () → GuardState → list Event → Prop) :
  Q () (observed_log g) evs →
  mspec (D := D) T (observe_log_state (onLogState g) (log_entries g) (inMemoryLogCap g)) h g evs Q.
Proof. unfold observe_log_state, observed_log. destruct (onLogState g); intros HQ; by mstep. Qed.

Lemma mspec_observe_decision T g evs o (Q : () → GuardState → list Event → Prop) :
  Q () (observed o g) evs →
  mspec (D := D) T (observe_decision (onDecision g) o) false g evs Q.
Proof. unfold observe_decision, observed. destruct (onDecision g); intros HQ; by mstep. Qed.

Lemma logActivity_spec T r ok reason g evs :
  let '(ip, port) := extractSourceIP r in
  mspec (D := D) T (logActivity r ip port ok reason) false g evs (λ e g' evs',
    evs' = evs ∧
    if log_full g
    then e = Some errRemoteAccessLogCapacityExceeded ∧ g' = observed_log g
    else e = None ∧ ∃ t, T t ∧ g' = logged (entry_of r t ok reason) g).
Proof.
  unfold entry_of. destruct (extractSourceIP r) as [ip port]. unfold logActivity.
  destruct (default _ (SplitHostPort _)) as [host hport].
  do 2 mstep. do 10 mstep. cbn [negb andb].
  unfold log_full, logged. destruct (disableInMemoryCache g) eqn:Hd; cbn [negb andb].
  { msteps. apply mspec_observe_log_state. msteps. eauto. }
  simpl negb. cbn [andb].
  destruct ((0 <? inMemoryLogCap g) && (inMemoryLogCap g <=? log_entries g)).
  - msteps. apply mspec_observe_log_state. by msteps.
  - msteps. refine (mspec_observe_log_state _ (g <| logs ::= _ |>) _ _ _ _).
    msteps. eauto.
Qed.

Lemma mspec_on_logging_error T err g evs (Q : option HttpOutcome → GuardState → list Event → Prop) :
  match err with
  | None => Q None g evs
  | Some _ =>
      Q (if failClosedLogPersist g
         then Some (HttpError "remote access logging unavailable" StatusServiceUnavailable)
         else None) (observed "logging_unavailable" g) evs
  end →
  mspec (D := D) T (on_logging_error err) false g evs Q.
Proof.
  intros HQ. unfold on_logging_error. destruct err; [|by mstep]. msteps.
  apply mspec_observe_decision. destruct (failClosedLogPersist g); by mstep.
Qed.

Lemma mspec_notify_decision T o g evs (Q : () → GuardState → list Event → Prop) :
  Q () (observed o g) evs → mspec (D := D) T (notify_decision o) false g evs Q.
Proof. intros HQ. unfold notify_decision. msteps. by apply mspec_observe_decision. Qed.

Lemma mspec_guard_appendAudit T r outcome reason g evs
    (Q : option error → GuardState → list Event → Prop) :
  (∀ e, decision_record r outcome
      (if decide (outcome ≠ "allowed") then ResultDenied else ResultSuccess) reason e →
    Q None g (evs ++ [e])) →
  mspec (D := D) T (guard_appendAudit (UrlPath r) (extractSourceIP r).1 outcome reason)
    false g evs Q.
Proof.
  intros HQ s [Hdb Hmu Hst (store & Hstore & Hok & Hevs) HT].
  unfold guard_appendAudit. apply post_bind, post_gets. rewrite Hstore.
  apply post_bind. eapply post_done; [apply now_eq|].
  apply post_bind. unfold locked, lock. apply post_bind. eapply post_done; [simpl; by rewrite Hmu|].
  apply post_bind, post_on_panic, post_bind, post_bind, post_modify, post_bind, post_gets, post_ret.
  apply post_bind, post_gets, post_ret. apply post_bind, post_modify, post_ret.
  simpl. rewrite Hdb. simpl.
  apply post_bind, post_ret. unfold AuditStore_Append, post. simpl. rewrite Hstore.
  match goal with |- context [Append ?e ?st] =>
    destruct (Append_ok e st Hok) as (e' & -> & -> & Hok') end.
  exists g. eexists. split.
  - split; simpl; try done. eexists. split; [done|]. split; [exact Hok'|done].
  - rewrite Hevs. apply HQ. by repeat split.
Qed.
(** The whole of [Wrap] on a guard without a database. *)
Lemma Wrap_spec T r g evs :
  mspec (D := D) T (Wrap r) false g evs (λ res g' evs',
    if negb (isAdminPath (UrlPath r)) then res = ServeNext ∧ g' = g ∧ evs' = evs
    else
      (∃ t, T t ∧ (res, g') = guarded r t g) ∧
      if log_full g && failClosedLogPersist g then evs' = evs
      else ∃ e, evs' = evs ++ [e] ∧
        if isTrusted g (extractSourceIP r).1
        then decision_record r "allowed" ResultSuccess "" e
        else decision_record r "denied" ResultDenied untrusted_reason e).
Proof.
  unfold Wrap, guarded. destruct (isAdminPath _); simpl negb; cbv iota; [|by mstep].
  pose proof (λ ok reason, logActivity_spec T r ok reason g evs) as Hlog.
  pose proof (λ outcome reason, mspec_guard_appendAudit T r outcome reason) as Haudit.
  destruct (extractSourceIP r) as [ip port] eqn:Hip. simpl fst in *.
  apply mspec_some_time. intros t0 Ht0. do 2 mstep.
  assert (∀ g, failClosedLogPersist (observed_log g) = failClosedLogPersist g) as Hfc.
  { intros g0. unfold observed_log. by destruct (onLogState g0). }
  destruct (isTrusted g ip); simpl negb; cbv iota;
    (apply mspec_or_else; mstep; eapply mspec_mono; [by apply Hlog|]);
    intros e g1 evs1 [-> He]; apply mspec_on_logging_error;
    (destruct (log_full g); [destruct He as [-> ->]; rewrite Hfc|
       destruct He as [-> (t & Ht & ->)]]); cbn [andb];
    try (destruct (failClosedLogPersist g); cbv iota; [split; [by exists t0|done]|]);
    (apply mspec_or_else || (mstep; apply mspec_notify_decision; apply mspec_or_else));
    mstep; apply Haudit; intros ev Hev; (apply mspec_on_logging_error; cbv iota);
    try (mstep; apply mspec_notify_decision); mstep; (split; [|by exists ev]);
    try (by exists t0); exists t; unfold entry_of; by rewrite Hip.
Qed.
(** C25: on a guard without a database every request is answered, and exactly as
    [guarded] says: other paths pass through untouched; on an administrative
    path a trusted source is served and any other is answered 403, with one log
    entry and one audit record of the decision; if the log is full, the request
    is answered 503 in fail-closed mode and goes on without an entry
    otherwise. *)
Theorem guard_decides s r :
  in_memory s →
  ∃ res s', Wrap r s = Done res s' ∧ in_memory s' ∧
    let g := st s in
    if negb (isAdminPath (UrlPath r))
    then res = ServeNext ∧ st s' = g ∧ audit_events s' = audit_events s
    else
      (∃ n, (res, st s') = guarded r (reading s n) g) ∧
      if log_full g && failClosedLogPersist g then audit_events s' = audit_events s
      else ∃ e, audit_events s' = audit_events s ++ [e] ∧
        if isTrusted g (extractSourceIP r).1
        then decision_record r "allowed" ResultSuccess "" e
        else decision_record r "denied" ResultDenied untrusted_reason e.
Proof.
  intros Hm.
  destruct (mspec_call (λ t, ∃ n, t = reading s n) (Wrap r) s _ Hm (λ n, ex_intro _ n eq_refl)
    (Wrap_spec _ r _ _)) as (res & s' & E & Hm' & _ & HQ).
  exists res, s'. split; [done|]. split; [done|]. cbv zeta.
  destruct (isAdminPath _); [|exact HQ]. destruct HQ as [(t & [n ->] & Hg) He].
  split; [by exists n|exact He].
Qed.

(** ** With any database *)

(** What logging keeps: the guard's policy and the audit store. *)
Definition same_policy s s' : Prop :=
  failClosedLogPersist (st s') = failClosedLogPersist (st s)
  ∧ AuditStore (base s') = AuditStore (base s).

#[local] Instance same_policy_frame : Frame same_policy.
Proof.
  split; unfold same_policy; [done| |done]. intros s1 s2 s3 [-> ->] [-> ->]. done.
Qed.

Lemma keeps_observe_decision b o : keeps same_policy (observe_decision (D := D) b o).
Proof. destruct b; simpl; [by refine (keeps_mod_st _ _ _)|refine (keeps_ret _ _)]. Qed.

Lemma keeps_observe_log_state b n c : keeps same_policy (observe_log_state (D := D) b n c).
Proof. destruct b; simpl; [by refine (keeps_mod_st _ _ _)|refine (keeps_ret _ _)]. Qed.

Lemma keeps_logActivity r ip port ok reason :
  keeps same_policy (logActivity (D := D) r ip port ok reason).
Proof.
  unfold logActivity, persistActivity.
  repeat (kstep || apply keeps_observe_log_state); by refine (keeps_mod_st _ _ _).
Qed.

Lemma keeps_notify_decision o : keeps same_policy (notify_decision (D := D) o).
Proof. unfold notify_decision. repeat (kstep || apply keeps_observe_decision). Qed.

Lemma on_logging_error_serves err s :
  wlp (on_logging_error err) (λ o s',
    match o with
    | Some res => res ≠ ServeNext
    | None => failClosedLogPersist (st s) = true → err = None ∧ s' = s
    end) s.
Proof.
  unfold on_logging_error. destruct err as [e|]; [|by apply post_ret].
  apply post_bind. unfold locked, lock. apply post_bind. unfold post at 1.
  destruct (mu (base s)); [done|]. unfold get_st, unlock. go_step. apply post_on_panic. repeat go_step.
  eapply post_mono; [apply keeps_observe_decision|]. intros [] s' [Hf _]. simpl in *.
  destruct (failClosedLogPersist (st s)); by apply post_ret.
Qed.

(** A record of the decision was appended, if the result is no error. *)
Lemma guard_appendAudit_records r outcome reason s :
  wlp (guard_appendAudit (UrlPath r) (extractSourceIP r).1 outcome reason) (λ e s',
    failClosedLogPersist (st s') = failClosedLogPersist (st s) ∧
    (e = None → ∃ store store' ev, AuditStore (base s) = Some store
      ∧ AuditStore (base s') = Some store' ∧ events store' = events store ++ [ev]
      ∧ decision_record r outcome
          (if decide (outcome ≠ "allowed") then ResultDenied else ResultSuccess) reason ev)) s.
Proof.
  unfold guard_appendAudit. apply post_bind, post_gets.
  destruct (AuditStore (base s)) as [store|] eqn:Hstore; [|by apply post_ret].
  assert (keeps same_policy now) as Hnow by ksteps.
  eapply post_seq; [apply Hnow|]. intros t s1 [F1 A1].
  assert (keeps same_policy (locked (id ← nextAuditIDLocked "remote-access-";
    enabled ← dbEnabled; mret (id, enabled)))) as Hid by ksteps.
  eapply post_seq; [apply Hid|]. intros [id enabled] s2 [F2 A2].
  match goal with |- wlp (?m ≫= _) _ _ => assert (keeps same_policy m) as He end.
  { destruct enabled; [apply keeps_appendAuditEventToDB; exact _|ksteps]. }
  eapply post_seq; [apply He|]. intros e s3 [F3 A3].
  rewrite F2, F1 in F3. destruct e as [e|]; [by apply post_ret|].
  unfold AuditStore_Append, post. rewrite A3, A2, A1, Hstore. unfold Append.
  destruct (match last (events store) with Some _ => _ | None => _ end); (split; [exact F3|]); [done|].
  intros _. eexists _, _, _. split_and!; [done..|]. by repeat split.
Qed.

Lemma Wrap_untrusted s r :
  isAdminPath (UrlPath r) = true → isTrusted (st s) (extractSourceIP r).1 = false →
  wlp (Wrap r) (λ res _, res ≠ ServeNext) s.
Proof.
  intros Hadm Hun.
  unfold Wrap. rewrite Hadm. simpl negb. cbv iota.
  destruct (extractSourceIP r) as [ip port]. apply post_bind, post_gets.
  simpl in Hun. rewrite Hun. simpl negb. cbv iota.
  assert (∀ (m : M (Svc D GuardState) (option error)) k s,
    (∀ s', wlp k (λ res _, res ≠ ServeNext) s') →
    wlp (or_else (e ← m; on_logging_error e) k) (λ res _, res ≠ ServeNext) s) as Hor.
  { intros m k s0 Hk. apply post_bind, post_bind. eapply post_mono; [by apply wlp_true|].
    intros e s1 _. eapply post_mono; [apply on_logging_error_serves|].
    intros [o|] s2 Ho; [by apply post_ret|apply Hk]. }
  apply Hor. intros s1. apply post_bind. eapply post_mono; [by apply wlp_true|].
  intros _ s2 _. apply Hor. intros s3. by apply post_ret.
Qed.

(** Whatever the database does, a source outside the trusted networks is
    never served an administrative path. *)
Theorem guard_never_serves_untrusted s r res s' :
  Wrap r s = Done res s' → isAdminPath (UrlPath r) = true →
  isTrusted (st s) (extractSourceIP r).1 = false → res ≠ ServeNext.
Proof.
  intros E Hadm Hun. exact (post_elim _ _ _ _ _ _ (Wrap_untrusted s r Hadm Hun) E).
Qed.

(** In fail-closed mode an administrative request is served only to a
    trusted source and only after its audit record has been appended, with or
    without a database. *)
Theorem guard_fail_closed s r s' :
  Wrap r s = Done ServeNext s' → isAdminPath (UrlPath r) = true →
  failClosedLogPersist (st s) = true →
  isTrusted (st s) (extractSourceIP r).1 = true ∧
  ∃ store store' ev, AuditStore (base s) = Some store ∧ AuditStore (base s') = Some store'
    ∧ events store' = events store ++ [ev] ∧ decision_record r "allowed" ResultSuccess "" ev.
Proof.
  intros E Hadm Hfc.
  destruct (isTrusted (st s) (extractSourceIP r).1) eqn:Htr;
    [|by destruct (post_elim _ _ _ _ _ _ (Wrap_untrusted s r Hadm Htr) E)].
  split; [done|].
  refine (post_elim True (Wrap r) (λ res s', res = ServeNext → ∃ store store' ev,
    AuditStore (base s) = Some store ∧ AuditStore (base s') = Some store'
    ∧ events store' = events store ++ [ev] ∧ decision_record r "allowed" ResultSuccess "" ev)
    _ _ _ _ E eq_refl). clear E s'.
  pose proof (guard_appendAudit_records r "allowed" "") as Hrec.
  unfold Wrap. rewrite Hadm. simpl negb. cbv iota.
  destruct (extractSourceIP r) as [ip port]. apply post_bind, post_gets.
  simpl in Htr, Hrec. rewrite Htr. simpl negb. cbv iota.
  apply post_bind, post_bind. eapply post_mono; [apply keeps_logActivity|].
  intros e s1 [Hf1 Ha1]. eapply post_mono; [apply on_logging_error_serves|].
  intros [o|] s2 Ho; [by apply post_ret|]. rewrite Hf1 in Ho. destruct (Ho Hfc) as [-> ->].
  apply post_bind, post_bind. eapply post_mono; [apply Hrec|]. intros e2 s3 [Hf3 He2].
  eapply post_mono; [apply on_logging_error_serves|].
  intros [o|] s4 Ho2; [by apply post_ret|]. rewrite Hf3, Hf1 in Ho2.
  destruct (Ho2 Hfc) as [-> ->]. destruct (He2 eq_refl) as (store & store' & ev & Hs & Hs3 & Hev).
  eapply post_seq; [apply keeps_notify_decision|]. intros _ s5 [_ Hs5]. apply post_ret.
  intros _. exists store, store', ev. by rewrite Hs5, <- Ha1.
Qed.

(** ** Sequences of requests *)

Fixpoint wrap_all (rs : list HttpRequest) : M (Svc D GuardState) (list HttpOutcome) :=
  match rs with
  | [] => mret []
  | r :: rs => o ← Wrap r; os ← wrap_all rs; mret (o :: os)
  end.

(** What bounds the log. *)
Definition log_view g := (logs g, inMemoryLogCap g, disableInMemoryCache g).

Lemma log_view_observed o g : log_view (observed o g) = log_view g.
Proof. unfold observed. by destruct (onDecision g). Qed.

Lemma log_view_observed_log g : log_view (observed_log g) = log_view g.
Proof. unfold observed_log. by destruct (onLogState g). Qed.

Lemma guarded_log_view r t g :
  log_view (guarded r t g).2 = log_view g
  ∨ log_full g = false ∧ disableInMemoryCache g = false
    ∧ ∃ entry, log_view (guarded r t g).2
      = (logs g ++ [entry], inMemoryLogCap g, disableInMemoryCache g).
Proof.
  unfold guarded. destruct (log_full g) eqn:Hfull; cbn [andb].
  - left. destruct (failClosedLogPersist g), (isTrusted g (extractSourceIP r).1); simpl;
      by rewrite ?log_view_observed, ?log_view_observed, ?log_view_observed_log.
  - unfold logged. destruct (disableInMemoryCache g) eqn:Hd; [left|right];
      destruct (isTrusted g (extractSourceIP r).1); simpl; rewrite log_view_observed, log_view_observed_log;
      rewrite <- ?Hd; eauto.
Qed.

Lemma wrap_all_log T rs g evs :
  0 < inMemoryLogCap g →
  mspec (D := D) T (wrap_all rs) false g evs (λ _ g' _,
    inMemoryLogCap g' = inMemoryLogCap g
    ∧ log_entries g' ≤ Z.max (log_entries g) (inMemoryLogCap g)).
Proof.
  revert g evs. induction rs as [|r rs IH]; intros g evs Hcap; simpl; [mstep; lia|].
  mstep. eapply mspec_mono; [apply Wrap_spec|]. intros res g1 evs1 Hg. mstep.
  assert (inMemoryLogCap g1 = inMemoryLogCap g
    ∧ log_entries g1 ≤ Z.max (log_entries g) (inMemoryLogCap g)) as [Hc Hl].
  { destruct (isAdminPath _); [|destruct Hg as (_ & -> & _); lia].
    destruct Hg as [(t & _ & Heq) _]. apply (f_equal snd) in Heq. simpl in Heq. subst g1.
    unfold log_entries.
    destruct (guarded_log_view r t g) as [[= -> -> _]|(Hfull & Hd & entry & [= -> -> _])]; [lia|].
    rewrite length_app. simpl. unfold log_full, log_entries in Hfull. rewrite Hd in Hfull.
    simpl in Hfull. destruct (Z.ltb_spec 0 (inMemoryLogCap g)); [|lia]. simpl in Hfull.
    apply Z.leb_gt in Hfull. lia. }
  eapply mspec_mono; [apply IH; lia|]. intros os g2 evs2 [Hc2 Hl2]. mstep. lia.
Qed.

(** The in-memory activity log never outgrows its cap: over any requests it
    stays within the larger of the cap and its initial length. *)
Theorem guard_log_bounded s rs os s' :
  in_memory s → wrap_all rs s = Done os s' → 0 < inMemoryLogCap (st s) →
  inMemoryLogCap (st s') = inMemoryLogCap (st s)
  ∧ log_entries (st s') ≤ Z.max (log_entries (st s)) (inMemoryLogCap (st s)).
Proof.
  intros Hm E Hcap.
  exact (proj2 (proj2 (mspec_run (λ _, True) _ _ _ _ _ E Hm (λ _, I)
    (wrap_all_log _ rs _ _ Hcap)))).
Qed.

(** The guard believes the X-Forwarded-For header of any client: on a guard
    that trusts only the local host, a request from any address that claims
    127.0.0.1 in that header is served. *)
Theorem guard_trusts_forwarded_for clk s remote host path method :
  NewRemoteAccessGuard (D := D) clk None [] = Some s → isAdminPath path = true →
  ∃ s', Wrap (mkHttpRequest "127.0.0.1" remote host path method) s = Done ServeNext s'.
Proof.
  intros [= <-] Hadm.
  destruct (mspec_call (λ _, True) (Wrap (mkHttpRequest "127.0.0.1" remote host path method)) _ _
    (NewService_in_memory clk (mkGuard loopback [] false false 0 false false [] []))
    (λ _, I) (Wrap_spec _ _ _ _)) as (res & s' & E & _ & _ & HQ).
  simpl UrlPath in HQ. rewrite Hadm in HQ. destruct HQ as [(t & _ & Hg) _].
  apply (f_equal fst) in Hg. vm_compute in Hg. subst res. by exists s'.
Qed.
End guard.

(** ** Concrete instances *)

Import Concrete.

#[export] Instance env_remote_db : RemoteDB () := {|
  x_activity _ d := (Ok (), d); q_activities d := (Ok [], d) |}.

Definition ex_guard (cap : Z) (failClosed : bool) : Svc () GuardState :=
  mkSvc (mkBase None (Some NewInMemoryStore) false 0 None 0)
    (mkGuard loopback [] false failClosed cap true false [] []).

Definition ex_admin (remote : string) : HttpRequest :=
  mkHttpRequest "" remote "rgs.example:443" "/v1/audit/events" "GET".

Example ex_guard_decisions :
  match wrap_all [ex_admin "127.0.0.1:5000"; ex_admin "[::1]:5000"; ex_admin "10.0.0.7:5000"]
    (ex_guard 2 true) with
  | Done os s =>
      os = [ServeNext; ServeNext;
            HttpError "remote access logging unavailable" StatusServiceUnavailable]
      ∧ decisions (st s) = ["allowed"; "allowed"; "logging_unavailable"]
      ∧ length (audit_events s) = 2%nat
  | _ => False
  end.
Proof. by vm_compute. Qed.

Lemma ex_guard_in_memory cap b : in_memory (ex_guard cap b).
Proof. apply NewService_in_memory. Qed.

Lemma guard_decides_witness :
  isAdminPath (UrlPath (ex_admin "10.0.0.7:5000")) = true ∧
  ∃ res s', Wrap (ex_admin "10.0.0.7:5000") (ex_guard 2 true) = Done res s' ∧ in_memory s'.
Proof.
  split; [reflexivity|].
  destruct (guard_decides (ex_guard 2 true) (ex_admin "10.0.0.7:5000") (ex_guard_in_memory _ _))
    as (res & s' & E & Hm & _). exists res, s'. split; [exact E|exact Hm].
Defined.

Lemma guard_never_serves_untrusted_witness :
  match Wrap (ex_admin "10.0.0.7:5000") (ex_guard 2 true) with
  | Done res _ => res ≠ ServeNext | _ => False end.
Proof.
  assert (match Wrap (ex_admin "10.0.0.7:5000") (ex_guard 2 true) with
    | Done _ _ => True | _ => False end) as Hr by (vm_compute; exact I).
  destruct (Wrap _ _) as [res s'| |] eqn:E; [|exact Hr..].
  exact (guard_never_serves_untrusted _ _ res s' E eq_refl eq_refl).
Defined.

Lemma guard_fail_closed_witness :
  match Wrap (ex_admin "127.0.0.1:5000") (ex_guard 2 true) with
  | Done _ s' => ∃ store store' ev, AuditStore (base (ex_guard 2 true)) = Some store
      ∧ AuditStore (base s') = Some store' ∧ events store' = events store ++ [ev]
      ∧ decision_record (ex_admin "127.0.0.1:5000") "allowed" ResultSuccess "" ev
  | _ => False end.
Proof.
  assert (match Wrap (ex_admin "127.0.0.1:5000") (ex_guard 2 true) with
    | Done res _ => res = ServeNext | _ => False end) as Hr by (vm_compute; reflexivity).
  destruct (Wrap _ _) as [res s'| |] eqn:E; [|exact Hr..]. rewrite Hr in E.
  exact (proj2 (guard_fail_closed _ _ s' E eq_refl eq_refl)).
Defined.

Lemma guard_log_bounded_witness :
  match wrap_all [ex_admin "127.0.0.1:1"; ex_admin "127.0.0.1:2"; ex_admin "127.0.0.1:3"]
    (ex_guard 2 true) with
  | Done _ s' => log_entries (st s') ≤ 2 | _ => False end.
Proof.
  assert (match wrap_all [ex_admin "127.0.0.1:1"; ex_admin "127.0.0.1:2"; ex_admin "127.0.0.1:3"]
    (ex_guard 2 true) with Done _ _ => True | _ => False end) as Hr by (vm_compute; exact I).
  destruct (wrap_all _ _) as [os s'| |] eqn:E; [|exact Hr..].
  exact (proj2 (guard_log_bounded _ _ os s' (ex_guard_in_memory _ _) E eq_refl)).
Defined.

Lemma guard_trusts_forwarded_for_witness :
  ∃ s', Wrap (mkHttpRequest "127.0.0.1" "203.0.113.9:4444" "rgs.example:443"
      "/v1/config/apply" "POST") (mkSvc (mkBase None (Some NewInMemoryStore) false 0 None 0)
      (mkGuard loopback [] false false 0 false false [] [])) = Done ServeNext s'.
Proof.
  exact (guard_trusts_forwarded_for (D := ()) None _ "203.0.113.9:4444" "rgs.example:443"
    "/v1/config/apply" "POST" eq_refl eq_refl).
Defined.
