(* ===== verification/AuditService.v ===== *)
(** * The audit service (audit_grpc.go and the readers of audit_postgres.go)

    Lists the events of the in-memory stores (or of the database), lists the
    activity log of the remote access guard, and verifies the hash chains of
    the database.  The service has no audit store of its own and no mutex; the
    stores belong to the other services. *)

From S2P Require Import Prelude GoTime GoJson GoNet AuditTrail Service Listing RemoteAccess.

Definition maxAuditPageSize : Z := 1000.

(** ** Messages *)

Record AuditEventRecord := mkAuditEventRecord {
  ar_AuditId : string; ar_OccurredAt : string; ar_RecordedAt : string;
  ar_ActorId : string; ar_ActorType : string; ar_ObjectType : string;
  ar_ObjectId : string; ar_Action : string; ar_Result : string; ar_Reason : string }.

Record ListAuditEventsRequest := mkListAuditEventsRequest {
  la_Meta : option RequestMeta; la_PageSize : Z; la_PageToken : string;
  la_ObjectTypeFilter : string }.
Record ListAuditEventsResponse := mkListAuditEventsResponse {
  lar_Meta : ResponseMeta; lar_Events : list AuditEventRecord; lar_NextPageToken : string }.

(** The activity messages have the fields of [RemoteAccessActivity]. *)
Record ListRemoteAccessActivitiesRequest := mkListRemoteAccessActivitiesRequest {
  lr_Meta : option RequestMeta; lr_PageSize : Z; lr_PageToken : string }.
Record ListRemoteAccessActivitiesResponse := mkListRemoteAccessActivitiesResponse {
  lrr_Meta : ResponseMeta; lrr_Activities : list RemoteAccessActivity;
  lrr_NextPageToken : string }.

Record VerifyAuditChainRequest := mkVerifyAuditChainRequest {
  va_Meta : option RequestMeta; va_PartitionDay : string }.
Record VerifyAuditChainResponse := mkVerifyAuditChainResponse {
  var_Meta : ResponseMeta; Valid : bool }.

(** ** State *)

Record AuditState (D : Type) := mkAuditState {
  stores : list (option InMemoryStore);
  remoteGuard : option (Svc D GuardState) }.
Global Arguments mkAuditState {D}.
Global Arguments stores {D}.
Global Arguments remoteGuard {D}.

#[global] Instance eta_AuditState D : Eta (AuditState D) := λ s,
  mkAuditState (stores s) (remoteGuard s).

(** The two queries of audit_postgres.go.  A row of the second one carries the
    partition as the timestamp the driver returns for the date column. *)
Class AuditQueryDB (D : Type) := {
  q_audit_list : string → Z → Z → D → res (list Event) * D;
  q_audit_chain : string → D → res (list (Time * Event)) * D }.

(** ** Orders of the listings *)

Definition event_less (a b : AuditEventRecord) : bool :=
  if decide (ar_RecordedAt a = ar_RecordedAt b) then String.ltb (ar_AuditId a) (ar_AuditId b)
  else String.ltb (ar_RecordedAt b) (ar_RecordedAt a).

Definition activity_less (a b : RemoteAccessActivity) : bool :=
  if decide (act_Timestamp a = act_Timestamp b) then String.ltb (act_Path a) (act_Path b)
  else String.ltb (act_Timestamp b) (act_Timestamp a).

(** ** Helpers *)

Definition audit_authorize : option Context → option RequestMeta → bool * string :=
  operators_only.

(** [paginate]; [None] is the error result. *)
Definition paginate {S A} (items : list A) (pageToken : string) (pageSize : Z)
    : M S (option (list A * string)) :=
  match token_start pageToken with
  | None => mret None
  | Some start =>
      p ← page items start (pageSizeOr 100 pageSize);
      mret (Some p)
  end.

(** [true] is a nil error. *)
Definition validatePageToken (pageToken : string) : bool :=
  if decide (pageToken = "") then true
  else match Atoi pageToken with Some p => negb (p <? 0) | None => false end.

Definition event_record (e : Event) : AuditEventRecord :=
  mkAuditEventRecord (AuditID e) (FormatRFC3339Nano (OccurredAt e))
    (FormatRFC3339Nano (RecordedAt e)) (ActorID e) (AuditTrail.ActorType e) (ObjectType e)
    (ObjectID e) (Action e) (EvResult e) (Reason e).

(** The loop of [verifyAuditChainFromDB]: [None] is a nil error. *)
Fixpoint verify_rows `{Crypto} (lastByPartition : gmap string string)
    (rows : list (Time * Event)) : option error :=
  match rows with
  | [] => None
  | (partitionTS, ev) :: rows =>
      let partitionRaw := FormatDay partitionTS in
      let ev := ev <| PartitionDay := partitionRaw |> in
      let expectedPrev := map_get "" lastByPartition partitionRaw in
      let expectedPrev := if decide (expectedPrev = "") then "GENESIS" else expectedPrev in
      if decide (HashPrev ev ≠ expectedPrev) then Some ErrChainMismatch
      else if decide (HashCurr ev ≠ ComputeHash expectedPrev ev) then Some ErrChainMismatch
      else verify_rows (<[partitionRaw := HashCurr ev]> lastByPartition) rows
  end.

Section audit.
Context {D : Type} `{!Wall, !Crypto, !JsonValid, !AuditDB D, !RemoteDB D, !AuditQueryDB D}.
Notation AM := (M (Svc D (AuditState D))).

Definition NewAuditService (clk : option (nat → Time)) (guard : option (Svc D GuardState))
    (sts : list (option InMemoryStore)) : Svc D (AuditState D) :=
  mkSvc (mkBase clk None false 0 None 0) (mkAuditState sts guard).

Definition audit_SetDB (d : option D) : AM () :=
  modify (λ s, s <| base ::= λ b, b <| db := d |> |>).

Definition listAuditEventsFromDB (objectTypeFilter pageToken : string) (pageSize : Z)
    : AM (res (list AuditEventRecord * string)) :=
  enabled ← dbEnabled;
  if negb enabled then mret (Ok ([], "")) else
  let limit := pageSizeOr 100 pageSize in
  match token_start pageToken with
  | None => mret (Err ErrInvalidPageToken)
  | Some start =>
      rows ← run_db (q_audit_list objectTypeFilter limit start);
      match rows with
      | Err e => mret (Err e)
      | Ok rows =>
          let out := event_record <$> rows in
          mret (Ok (out, nextFromDB start limit (length out)))
      end
  end.

Definition verifyAuditChainFromDB (partitionDay : string) : AM (option error) :=
  enabled ← dbEnabled;
  if negb enabled then mret None else
  rows ← run_db (q_audit_chain partitionDay);
  mret (match rows with Err e => Some e | Ok rows => verify_rows ∅ rows end).

(** ** Handlers *)

Definition events_reply (meta : option RequestMeta) code reason : AM ListAuditEventsResponse :=
  m ← responseMeta meta code reason; mret (mkListAuditEventsResponse m [] "").

Definition ListAuditEvents (ctx : option Context) (req : option ListAuditEventsRequest)
    : AM ListAuditEventsResponse :=
  let req := default (mkListAuditEventsRequest None 0 "" "") req in
  let meta := la_Meta req in
  let '(ok, reason) := audit_authorize ctx meta in
  if negb ok then events_reply meta RESULT_CODE_DENIED reason
  else if la_PageSize req <? 0 then
    events_reply meta RESULT_CODE_INVALID "page_size must be non-negative"
  else if negb (validatePageToken (la_PageToken req)) then
    events_reply meta RESULT_CODE_INVALID "invalid page_token"
  else if maxAuditPageSize <? la_PageSize req then
    events_reply meta RESULT_CODE_INVALID "page_size exceeds max allowed"
  else
  enabled ← dbEnabled;
  if (enabled : bool) then
    r ← listAuditEventsFromDB (la_ObjectTypeFilter req) (la_PageToken req) (la_PageSize req);
    match r with
    | Err _ => events_reply meta RESULT_CODE_ERROR "persistence unavailable"
    | Ok (rows, next) =>
        m ← responseMeta meta RESULT_CODE_OK ""; mret (mkListAuditEventsResponse m rows next)
    end
  else
    sts ← get_st stores;
    let wanted e := bool_decide (la_ObjectTypeFilter req = "")
      || bool_decide (ObjectType e = la_ObjectTypeFilter req) in
    let events := concat ((λ st : option InMemoryStore,
      match st with
      | None => []
      | Some st => event_record <$> List.filter wanted (Events st)
      end) <$> sts) in
    let events := SliceStable event_less events in
    p ← paginate events (la_PageToken req) (la_PageSize req);
    match p with
    | None => events_reply meta RESULT_CODE_INVALID "invalid page_token"
    | Some (page, next) =>
        m ← responseMeta meta RESULT_CODE_OK ""; mret (mkListAuditEventsResponse m page next)
    end.

(** [s.remoteGuard.Activities()] on the guard the service points to. *)
Definition guard_Activities : AM (list RemoteAccessActivity) := λ s,
  match remoteGuard (st s) with
  | None => Done [] s
  | Some g =>
      match Activities g with
      | Done l g' => Done l (s <| st ::= λ a, a <| remoteGuard := Some g' |> |>)
      | Panic g' => Panic (s <| st ::= λ a, a <| remoteGuard := Some g' |> |>)
      | Deadlock => Deadlock
      end
  end.

Definition activities_reply (meta : option RequestMeta) code reason
    : AM ListRemoteAccessActivitiesResponse :=
  m ← responseMeta meta code reason; mret (mkListRemoteAccessActivitiesResponse m [] "").

Definition ListRemoteAccessActivities (ctx : option Context)
    (req : option ListRemoteAccessActivitiesRequest) : AM ListRemoteAccessActivitiesResponse :=
  let req := default (mkListRemoteAccessActivitiesRequest None 0 "") req in
  let meta := lr_Meta req in
  let '(ok, reason) := audit_authorize ctx meta in
  if negb ok then activities_reply meta RESULT_CODE_DENIED reason
  else if lr_PageSize req <? 0 then
    activities_reply meta RESULT_CODE_INVALID "page_size must be non-negative"
  else if negb (validatePageToken (lr_PageToken req)) then
    activities_reply meta RESULT_CODE_INVALID "invalid page_token"
  else if maxAuditPageSize <? lr_PageSize req then
    activities_reply meta RESULT_CODE_INVALID "page_size exceeds max allowed"
  else
  activities ← guard_Activities;
  let activities := SliceStable activity_less activities in
  p ← paginate activities (lr_PageToken req) (lr_PageSize req);
  match p with
  | None => activities_reply meta RESULT_CODE_INVALID "invalid page_token"
  | Some (page, next) =>
      m ← responseMeta meta RESULT_CODE_OK "";
      mret (mkListRemoteAccessActivitiesResponse m page next)
  end.

Definition verify_reply (meta : option RequestMeta) code reason (valid : bool)
    : AM VerifyAuditChainResponse :=
  m ← responseMeta meta code reason; mret (mkVerifyAuditChainResponse m valid).

Definition VerifyAuditChain (ctx : option Context) (req : option VerifyAuditChainRequest)
    : AM VerifyAuditChainResponse :=
  let req := default (mkVerifyAuditChainRequest None "") req in
  let meta := va_Meta req in
  let '(ok, reason) := audit_authorize ctx meta in
  if negb ok then verify_reply meta RESULT_CODE_DENIED reason false
  else if decide (va_PartitionDay req ≠ "" ∧ ParseDay (va_PartitionDay req) = None) then
    verify_reply meta RESULT_CODE_INVALID "partition_day must be YYYY-MM-DD" false
  else
  enabled ← dbEnabled;
  if negb enabled then verify_reply meta RESULT_CODE_ERROR "persistence unavailable" false
  else
  e ← verifyAuditChainFromDB (va_PartitionDay req);
  match e with
  | Some _ => verify_reply meta RESULT_CODE_ERROR "audit chain verification failed" false
  | None => verify_reply meta RESULT_CODE_OK "" true
  end.
End audit.
