(* ===== verification/AuditProofs.v ===== *)
(** * What the audit trail and the audit service guarantee

    The hash chain binds the events it covers (and no others fields of them),
    the verifier accepts exactly the tables whose partitions are chains, and
    the listing returns every event once. *)

From S2P Require Import Prelude GoTime GoJson GoNet AuditTrail Service Listing Ledger Env RemoteAccess.
From S2P Require Import AuditService.
From Stdlib Require Import Ascii Sorting.Sorted.

(** ** Pages *)

Lemma validatePageToken_start token :
  validatePageToken token = match token_start token with Some _ => true | None => false end.
Proof.
  unfold validatePageToken, token_start. case_decide; [done|].
  destruct (Atoi token) as [p|]; [|done]. simpl. by destruct (p <? 0).
Qed.

Lemma paginate_eq {S A} (items : list A) token size (s : S) :
  paginate items token size s
  = Done ((λ start, page_at items start (pageSizeOr 100 size)) <$> token_start token) s.
Proof.
  unfold paginate. destruct (token_start token) as [start|] eqn:E; [|done].
  unfold mbind, M_bind. pose proof (pageSizeOr_pos 100 size).
  rewrite page_eq; [done|by eapply token_start_nonneg|lia].
Qed.

(** ** Listing *)

(** The records of the events of all stores that a filter lets through. *)
Definition store_records (filter : string) (sts : list (option InMemoryStore))
    : list AuditEventRecord :=
  sts ≫= λ st, match st with
    | None => []
    | Some st => event_record <$> List.filter (λ e, bool_decide (filter = "")
        || bool_decide (ObjectType e = filter)) (Events st)
    end.

Lemma concat_bind {A B} (f : A → list B) l : concat (f <$> l) = l ≫= f.
Proof. induction l as [|a l IH]; [done|]. change (f a ++ concat (f <$> l) = f a ++ (l ≫= f)). by rewrite IH. Qed.

Section service.
Context {D : Type} `{!Wall, !Crypto, !JsonValid, !AuditDB D, !RemoteDB D, !AuditQueryDB D}.
Implicit Types s : Svc D (AuditState D).

(** An admissible request to a service without a database. *)
Lemma ListAuditEvents_ok s ctx req start :
  db (base s) = None → (audit_authorize ctx (la_Meta req)).1 = true →
  0 ≤ la_PageSize req ≤ maxAuditPageSize → token_start (la_PageToken req) = Some start →
  ∃ m s', ListAuditEvents ctx (Some req) s
    = Done (let '(page, next) := page_at
              (SliceStable event_less (store_records (la_ObjectTypeFilter req) (stores (st s))))
              start (pageSizeOr 100 (la_PageSize req)) in
            mkListAuditEventsResponse m page next) s'
    ∧ ResCode m = RESULT_CODE_OK ∧ db (base s') = None ∧ st s' = st s.
Proof.
  intros Hdb Hauth Hsize Htok. unfold ListAuditEvents. cbv zeta. unfold from_option, id.
  destruct (audit_authorize ctx (la_Meta req)) as [ok reason]. simpl in Hauth. subst ok.
  simpl negb. cbv iota. rewrite (proj2 (Z.ltb_ge (la_PageSize req) 0)) by lia.
  rewrite validatePageToken_start, Htok. simpl negb. cbv iota.
  rewrite (proj2 (Z.ltb_ge maxAuditPageSize _)) by lia.
  unfold dbEnabled, get_st, gets, mbind, M_bind. cbn [negb]. cbv beta iota.
  rewrite Hdb. cbv beta iota.
  rewrite concat_bind. fold (store_records (la_ObjectTypeFilter req) (stores (st s))).
  rewrite paginate_eq, Htok. unfold page_at. cbn. rewrite responseMeta_eq.
  eexists _, _. split; [reflexivity|]. done.
Qed.

(** One page of a listing, by its token. *)
Definition list_events_page ctx meta size filter (token : string)
    : M (Svc D (AuditState D)) (list AuditEventRecord * string) :=
  r ← ListAuditEvents ctx (Some (mkListAuditEventsRequest meta size token filter));
  mret (lar_Events r, lar_NextPageToken r).

(** Following the page tokens of ListAuditEvents from the first page on
    returns every event of every store that the filter lets through, each
    once, newest recording time (as a string) first, for any page size, in at
    most one call per event plus one. *)
Theorem audit_list_complete s ctx meta size filter :
  let records := store_records filter (stores (st s)) in
  db (base s) = None → (audit_authorize ctx meta).1 = true →
  0 ≤ size ≤ maxAuditPageSize → Z.of_nat (length records) ≤ int64_max →
  ∃ l s', walk_pages (list_events_page ctx meta size filter) (S (length records)) "" s
      = Done l s'
    ∧ l ≡ₚ records ∧ StronglySorted (not_after event_less) l.
Proof.
  intros records Hdb Hauth Hsize Hlen. set (l := SliceStable event_less records).
  assert (length l = length records) as Hl by apply SliceStable_length.
  destruct (walk_pages_complete (list_events_page ctx meta size filter)
    (λ s', db (base s') = None ∧ st s' = st s) l (pageSizeOr 100 size))
    with (fuel := S (length records)) (s := s) as (s' & E & _).
  - by apply pageSizeOr_pos.
  - by rewrite Hl.
  - intros s0 token start [Hdb0 Hst0] Htok. unfold list_events_page, mbind, M_bind.
    destruct (ListAuditEvents_ok s0 ctx (mkListAuditEventsRequest meta size token filter)
      start Hdb0 Hauth Hsize Htok) as (m & s1 & -> & _ & Hdb1 & Hst1).
    rewrite Hst0. exists s1. rewrite Hst1. done.
  - done.
  - rewrite Hl. lia.
  - exists l, s'. split; [exact E|]. split; [apply SliceStable_perm|].
    exact (newer_first_sorted ar_RecordedAt ar_AuditId records).
Qed.

(** ** Verification *)

(** SHA-256 has 32 bytes. *)
Class CryptoLaw := sha256_length : ∀ x, String.length (sha256 x) = 32%nat.

(** The events of one partition, in the order of the query. *)
Definition partition (day : string) (rows : list (Time * Event)) : list Event :=
  snd <$> List.filter (λ r, bool_decide (FormatDay r.1 = day)) rows.

Lemma ComputeHash_nonempty `{!CryptoLaw} p e : ComputeHash p e ≠ "".
Proof.
  unfold ComputeHash. pose proof (sha256_length (hash_input p e)) as Hl.
  by destruct (sha256 (hash_input p e)).
Qed.

Lemma verify_rows_partitions `{!CryptoLaw} last rows :
  (∀ p, last !! p ≠ Some "") →
  verify_rows last rows = None
  ↔ ∀ p, verify_events (default "GENESIS" (last !! p)) (partition p rows) = true.
Proof.
  revert last. induction rows as [|[ts ev] rows IH]; intros last Hne; [done|].
  cbn [verify_rows]. set (day := FormatDay ts).
  assert ((if decide (map_get "" last day = "") then "GENESIS" else map_get "" last day)
    = default "GENESIS" (last !! day)) as ->.
  { unfold map_get. specialize (Hne day). destruct (last !! day) as [h|]; simpl; [|done].
    by rewrite decide_False by congruence. }
  assert (∀ p, partition p ((ts, ev) :: rows)
    = if decide (p = day) then ev :: partition p rows else partition p rows) as Hpart.
  { intros p. unfold partition. cbn [List.filter fst]. fold day.
    destruct (decide (p = day)) as [->|Hn]; [by rewrite bool_decide_true|].
    by rewrite bool_decide_false. }
  set (prev := default "GENESIS" (last !! day)).
  change (HashPrev (ev <| PartitionDay := day |>)) with (HashPrev ev).
  change (HashCurr (ev <| PartitionDay := day |>)) with (HashCurr ev).
  change (ComputeHash prev (ev <| PartitionDay := day |>)) with (ComputeHash prev ev).
  assert ((∀ p, verify_events (default "GENESIS" (last !! p)) (partition p ((ts, ev) :: rows)) = true)
    ↔ HashPrev ev = prev ∧ HashCurr ev = ComputeHash prev ev
      ∧ ∀ p, verify_events (default "GENESIS" (<[day := HashCurr ev]> last !! p))
          (partition p rows) = true) as ->.
  { split.
    - intros Hall. pose proof (Hall day) as Hd. rewrite Hpart, decide_True in Hd by done.
      cbn [verify_events] in Hd. fold prev in Hd.
      rewrite !andb_true_iff, !bool_decide_eq_true in Hd. destruct Hd as [[Hp Hc] Hd].
      split_and!; [done..|]. intros p. destruct (decide (p = day)) as [->|Hn].
      + by rewrite lookup_insert_eq.
      + specialize (Hall p). rewrite Hpart, decide_False in Hall by done.
        by rewrite lookup_insert_ne.
    - intros (Hp & Hc & Hall) p. specialize (Hall p). rewrite Hpart.
      destruct (decide (p = day)) as [->|Hn].
      + rewrite lookup_insert_eq in Hall. cbn [verify_events]. fold prev.
        by rewrite !bool_decide_true.
      + by rewrite lookup_insert_ne in Hall. }
  destruct (decide (HashPrev ev ≠ prev)) as [Hp|Hp]; [by split; [|intros [? _]]|].
  apply dec_stable in Hp.
  destruct (decide (HashCurr ev ≠ ComputeHash prev ev)) as [Hc|Hc];
    [by split; [|intros (_ & ? & _)]|].
  apply dec_stable in Hc. rewrite IH; [tauto|].
  intros p. rewrite lookup_insert_Some, Hc. intros [[_ Hbad]|[_ Hl]]; [|by apply (Hne p)].
  by apply (ComputeHash_nonempty prev ev).
Qed.

Lemma verifyAuditChainFromDB_eq s day d :
  db (base s) = Some d →
  ∃ s', verifyAuditChainFromDB day s
    = Done (match (q_audit_chain day d).1 with Err e => Some e | Ok rows => verify_rows ∅ rows end) s'.
Proof.
  intros Hdb. unfold verifyAuditChainFromDB, dbEnabled, run_db, gets, mbind, M_bind.
  cbv beta iota. rewrite Hdb. cbn [negb]. cbv beta iota. rewrite Hdb.
  destruct (q_audit_chain day d) as [q d']. eexists. reflexivity.
Qed.

(** C22: VerifyAuditChain always answers, and answers that the trail is valid
    exactly if the caller is an operator or a service, the day is empty or a
    date, the database returns the rows, and the rows of every partition form
    a hash chain from GENESIS. *)
Theorem verify_chain_exact `{!CryptoLaw} s ctx req :
  ∃ r s', VerifyAuditChain ctx (Some req) s = Done r s' ∧
    (Valid r = true ↔
      (audit_authorize ctx (va_Meta req)).1 = true
      ∧ (va_PartitionDay req = "" ∨ ∃ t, ParseDay (va_PartitionDay req) = Some t)
      ∧ ∃ d rows d', db (base s) = Some d ∧ q_audit_chain (va_PartitionDay req) d = (Ok rows, d')
        ∧ ∀ day, verify_events "GENESIS" (partition day rows) = true).
Proof.
  unfold VerifyAuditChain. cbv zeta. unfold from_option, id.
  assert (∀ code reason valid s, ∃ r s', verify_reply (va_Meta req) code reason valid s = Done r s'
    ∧ Valid r = valid) as Hreply.
  { intros code reason valid s0. unfold verify_reply, mbind, M_bind. rewrite responseMeta_eq.
    eexists _, _. done. }
  destruct (audit_authorize _ _) as [[|] reason]; cbn [negb fst].
  2:{ destruct (Hreply RESULT_CODE_DENIED reason false s) as (r & s' & -> & Hv).
      exists r, s'. split; [done|]. rewrite Hv. by split; [|intros [? _]]. }
  destruct (decide _) as [[Hd1 Hd2]|Hd].
  { destruct (Hreply RESULT_CODE_INVALID "partition_day must be YYYY-MM-DD" false s)
      as (r & s' & -> & Hv). exists r, s'. split; [done|]. rewrite Hv.
    split; [done|]. intros (_ & [?|[t Ht]] & _); congruence. }
  unfold dbEnabled, gets, mbind, M_bind. cbv beta iota.
  destruct (db (base s)) as [d|] eqn:Hdb; cbn [negb].
  2:{ destruct (Hreply RESULT_CODE_ERROR "persistence unavailable" false s) as (r & s' & -> & Hv).
      exists r, s'. split; [done|]. rewrite Hv. split; [done|]. by intros (_ & _ & ? & _ & _ & ? & _). }
  assert (va_PartitionDay req = "" ∨ ∃ t, ParseDay (va_PartitionDay req) = Some t) as Hday.
  { destruct (decide (va_PartitionDay req = "")); [by left|right].
    destruct (ParseDay _) as [t|]; [by exists t|]. by destruct Hd. }
  destruct (verifyAuditChainFromDB_eq s (va_PartitionDay req) d Hdb) as [s1 ->].
  assert (∀ rows, verify_rows ∅ rows = None
    ↔ ∀ day, verify_events "GENESIS" (partition day rows) = true) as Hrows.
  { intros rows. rewrite verify_rows_partitions by (intros p; by rewrite lookup_empty).
    split; intros Hall p; specialize (Hall p); by rewrite lookup_empty in *. }
  destruct (q_audit_chain _ d) as [[rows|e] d'] eqn:Hq; cbn [fst]; cbv beta iota.
  - destruct (verify_rows ∅ rows) as [e|] eqn:Hv; cbv beta iota.
    + destruct (Hreply RESULT_CODE_ERROR "audit chain verification failed" false s1)
        as (r & s' & -> & Hr). exists r, s'. split; [done|]. rewrite Hr. split; [done|].
      intros (_ & _ & d0 & rows0 & d0' & [= <-] & Hq' & Hall). rewrite Hq in Hq'.
      injection Hq' as <- <-. apply Hrows in Hall. congruence.
    + destruct (Hreply RESULT_CODE_OK "" true s1) as (r & s' & -> & Hr).
      exists r, s'. split; [done|]. rewrite Hr. split; [|done]. intros _.
      split_and!; [done|done|]. exists d, rows, d'. split_and!; [done..|]. by apply Hrows.
  - destruct (Hreply RESULT_CODE_ERROR "audit chain verification failed" false s1)
      as (r & s' & -> & Hr). exists r, s'. split; [done|]. rewrite Hr. split; [done|].
    intros (_ & _ & d0 & rows0 & d0' & [= <-] & Hq' & _). congruence.
Qed.
End service.

(** ** Tampering *)

Section tamper.
Context `{!Crypto}.

Lemma chain_prevs_no_pipe p evs h :
  has_char pipe p = false → chain p evs h →
  Forall (λ e, has_char pipe (HashPrev e) = false) evs.
Proof.
  intros Hp Hch. induction Hch as [|p e evs h Hprev Hc Hch IH]; constructor.
  - by rewrite Hprev.
  - apply IH. rewrite Hc. apply hex_no_pipe.
Qed.

Lemma covered_list_fields evs evs' :
  Forall (λ e, has_char pipe (HashPrev e) = false) evs →
  Forall (λ e, has_char pipe (HashPrev e) = false) evs' →
  Forall separable evs → Forall separable evs' →
  covered <$> evs = covered <$> evs' → hashed_fields <$> evs = hashed_fields <$> evs'.
Proof.
  revert evs'. induction evs as [|e evs IH]; intros [|e' evs']; try done.
  intros [Hp ?]%Forall_cons [Hp' ?]%Forall_cons [Hs ?]%Forall_cons [Hs' ?]%Forall_cons.
  rewrite !fmap_cons. intros [= Hc Hrest].
  rewrite (covered_fields e e') by done. f_equal. by apply IH.
Qed.

(** C21: a verified trail is bound to its last hash: two verified trails that end
    in the same hash agree, event for event, on id, recording time, actor,
    action, result, before and after, or they contain two events that are a
    collision of SHA-256.  (The text fields must not contain the separator.) *)
Theorem audit_chain_tamper_evident evs evs' :
  verify_events "GENESIS" evs = true → verify_events "GENESIS" evs' = true →
  final_hash "GENESIS" evs = final_hash "GENESIS" evs' →
  Forall separable evs → Forall separable evs' →
  hashed_fields <$> evs = hashed_fields <$> evs' ∨ collision evs evs'.
Proof.
  intros Hv%verify_events_chain Hv'%verify_events_chain Hh Hs Hs'. rewrite <- Hh in Hv'.
  destruct (chain_binding _ _ _ Hv Hv') as [Hc|]; [left|by right].
  apply covered_list_fields; try done;
    [exact (chain_prevs_no_pipe "GENESIS" _ _ eq_refl Hv)|exact (chain_prevs_no_pipe "GENESIS" _ _ eq_refl Hv')].
Qed.

(** Overwrites the fields of an event that its hash leaves out. *)
Definition forge (occurred : Event → Time)
    (actorType auth objectType objectID reason day : Event → string) (e : Event) : Event :=
  mkEvent (AuditID e) (occurred e) (RecordedAt e) (ActorID e) (actorType e) (auth e)
    (objectType e) (objectID e) (Action e) (Before e) (After e) (EvResult e) (reason e) (day e)
    (HashPrev e) (HashCurr e).

(** The hash leaves fields out: whatever is written into the occurrence
    time, actor type, auth context, object type, object id, reason and partition
    of recorded events, verification gives the same answer; and moving text
    across the separator between actor and action keeps the hash. *)
Theorem audit_hash_gap :
  (∀ p evs occurred actorType auth objectType objectID reason day,
     verify_events p (forge occurred actorType auth objectType objectID reason day <$> evs)
     = verify_events p evs)
  ∧ ∀ p e a b c,
     ComputeHash p (e <| ActorID := a +:+ "|" +:+ b |> <| Action := c |>)
     = ComputeHash p (e <| ActorID := a |> <| Action := b +:+ "|" +:+ c |>).
Proof.
  split.
  - intros p evs occurred actorType auth objectType objectID reason day. revert p.
    induction evs as [|e evs IH]; intros p; [done|]. rewrite fmap_cons. cbn [verify_events].
    by rewrite IH.
  - intros p e a b c. unfold ComputeHash, hash_input. do 2 f_equal. simpl.
    by rewrite !str_app_assoc.
Qed.

(** Appending to a store with an intact chain never fails, adds the event at
    the end with its fields unchanged apart from the two hashes, and leaves a
    store that verifies and accepts the next event. *)
Theorem store_append_extends st e :
  chain_ok st →
  ∃ e' st', Append e st = (Some e', st') ∧ Events st' = Events st ++ [e']
    ∧ forge OccurredAt AuditTrail.ActorType AuthContext ObjectType ObjectID Reason PartitionDay e'
      = e <| HashPrev := HashPrev e' |> <| HashCurr := HashCurr e' |>
    ∧ verify_events "GENESIS" (Events st') = true ∧ chain_ok st'.
Proof.
  intros Hok. destruct (Append_ok e st Hok) as (e' & HA & He' & Hok').
  exists e', (mkStore (events st ++ [e']) (HashCurr e')).
  split_and!; [done|done|by rewrite He'| |done].
  apply verify_events_chain. unfold chain_ok, Events in *. simpl in *.
  unfold final_hash. by rewrite last_snoc.
Qed.
End tamper.

(** ** Concrete instances *)

Import Concrete.

Definition ex_time : Time := 1704067205 * Second.

Definition ex_event (id : string) (t : Time) : Event :=
  mkEvent id t t "op" "ACTOR_TYPE_OPERATOR" "" "ledger_account" "alice" "deposit" "{}" "{}"
    ResultSuccess "" (FormatDay t) "" "".

Definition ex_store : InMemoryStore :=
  (Append (ex_event "a-2" (ex_time + 100000000))
    (Append (ex_event "a-1" ex_time) NewInMemoryStore).2).2.

#[export] Instance env_remote : RemoteDB () := {|
  x_activity _ d := (Ok (), d); q_activities d := (Ok [], d) |}.
#[export] Instance env_audit_query : AuditQueryDB () := {|
  q_audit_list _ _ _ d := (Ok [], d);
  q_audit_chain _ d := (Ok ((λ e, (RecordedAt e, e)) <$> Events ex_store), d) |}.

(** The listing compares recording times as strings, in which the fraction
    is trimmed, so it is not newest first: an event recorded at 05 s is listed
    before one recorded later, at 05.1 s. *)
Theorem audit_listing_not_newest_first :
  match ListAuditEvents None (Some (mkListAuditEventsRequest (operator_meta "") 0 "" ""))
    (NewAuditService (D := ()) None None [Some ex_store]) with
  | Done r _ => ar_RecordedAt <$> lar_Events r
      = ["2024-01-01T00:00:05Z"; "2024-01-01T00:00:05.1Z"]
  | _ => False
  end.
Proof. vm_compute. reflexivity. Qed.

Lemma Append_chain_ok `{!Crypto} e st : chain_ok st → chain_ok (Append e st).2.
Proof. intros Hok. by destruct (Append_ok e st Hok) as (e' & -> & _ & Hok'). Qed.

Lemma ex_store_ok : chain_ok ex_store.
Proof. apply Append_chain_ok, Append_chain_ok, NewInMemoryStore_chain_ok. Qed.

Lemma store_append_extends_witness :
  ∃ e' st', Append (ex_event "a-3" 0) ex_store = (Some e', st')
    ∧ verify_events "GENESIS" (Events st') = true.
Proof.
  destruct (store_append_extends ex_store (ex_event "a-3" 0) ex_store_ok)
    as (e' & st' & E & _ & _ & Hv & _). exists e', st'. split; [exact E|exact Hv].
Defined.

Definition separableb (e : Event) : bool :=
  negb (has_char pipe (AuditID e) || has_char pipe (ActorID e) || has_char pipe (Action e)
    || has_char pipe (EvResult e))
  && (0 <=? time_year (RecordedAt e)) && (time_year (RecordedAt e) <? 10000).

Lemma separableb_Forall evs : forallb separableb evs = true → Forall separable evs.
Proof.
  rewrite forallb_forall. intros Hb. apply List.Forall_forall. intros e He.
  specialize (Hb e He). unfold separableb in Hb.
  rewrite !andb_true_iff, negb_true_iff, !orb_false_iff, Z.leb_le, Z.ltb_lt in Hb.
  by destruct Hb as [[[[[? ?] ?] ?] ?] ?].
Qed.

Lemma ex_store_separable : Forall separable (Events ex_store).
Proof. apply separableb_Forall. vm_compute. reflexivity. Qed.

(** The same trail with other object ids. *)
Definition ex_forged : list Event :=
  forge OccurredAt AuditTrail.ActorType AuthContext ObjectType (λ _, "bob") Reason PartitionDay
    <$> Events ex_store.

Lemma audit_chain_tamper_evident_witness :
  Events ex_store ≠ ex_forged ∧
  (hashed_fields <$> Events ex_store = hashed_fields <$> ex_forged
   ∨ collision (Events ex_store) ex_forged).
Proof.
  split; [vm_compute; discriminate|].
  refine (audit_chain_tamper_evident (Events ex_store) ex_forged _ _ _ ex_store_separable _);
    [vm_compute; reflexivity..|].
  apply separableb_Forall. vm_compute. reflexivity.
Defined.

Lemma audit_list_complete_witness :
  ∃ l s', walk_pages (list_events_page None (operator_meta "") 1 "") 3 ""
      (NewAuditService (D := ()) None None [Some ex_store; None]) = Done l s'
    ∧ length l = 2%nat.
Proof.
  destruct (audit_list_complete (NewAuditService (D := ()) None None [Some ex_store; None]) None
    (operator_meta "") 1 "") as (l & s' & E & Hp & _); try reflexivity.
  - split; vm_compute; discriminate.
  - vm_compute. discriminate.
  - exists l, s'. split; [exact E|]. rewrite Hp. reflexivity.
Defined.

(** A function with the output length of SHA-256. *)
Fixpoint pad (n : nat) (s : string) : string :=
  match n, s with
  | O, _ => ""
  | S n, "" => String "0" (pad n "")
  | S n, String c s => String c (pad n s)
  end.
Definition ex_sha : Crypto := pad 32.

Lemma ex_sha_law : @CryptoLaw ex_sha.
Proof.
  intros x. unfold sha256, ex_sha. generalize 32%nat. intros n. revert x.
  induction n as [|n IH]; intros [|c x]; simpl; try done; f_equal; apply IH.
Qed.

(** A table with one event, chained with that function. *)
Definition ex_row : Event :=
  let e := (ex_event "a-1" ex_time) <| HashPrev := "GENESIS" |> in
  e <| HashCurr := @ComputeHash ex_sha "GENESIS" e |>.
Definition ex_query : AuditQueryDB () := {|
  q_audit_list _ _ _ d := (Ok [], d);
  q_audit_chain _ d := (Ok [(ex_time, ex_row)], d) |}.
Definition ex_audit_db : Svc () (AuditState ()) :=
  (NewAuditService None None []) <| base ::= λ b, b <| db := Some () |> |>.
Definition ex_verify : VerifyAuditChainRequest :=
  mkVerifyAuditChainRequest (operator_meta "") "2024-01-01".

Lemma verify_chain_exact_witness :
  match @VerifyAuditChain () env_wall ex_sha ex_query None (Some ex_verify) ex_audit_db with
  | Done r _ => Valid r = true
  | _ => False
  end.
Proof.
  destruct (@verify_chain_exact () env_wall ex_sha ex_query ex_sha_law ex_audit_db None ex_verify)
    as (r & s' & E & Hv).
  rewrite E. apply (proj2 Hv). split; [reflexivity|]. split; [right; eexists; reflexivity|].
  exists (), [(ex_time, ex_row)], (). split; [reflexivity|]. split; [reflexivity|].
  intros day. unfold partition. cbn [List.filter fst].
  destruct (bool_decide _); vm_compute; reflexivity.
Defined.
