(* ===== verification/Auth.v ===== *)
(** * Tokens and request authentication (internal/platform/auth)

    Keysets, the signer and the verifier of access tokens, and the two
    middlewares that put the token's actor into the request context.  The JWT
    library (github.com/golang-jwt/jwt) is the interface [JWT]; [JWTLaw] states
    what its documentation says of HS256 tokens. *)

From S2P Require Import Prelude GoTime GoJson GoNet AuditTrail Service.
From Stdlib Require Import Ascii.

(** ** Keysets (jwt.go, keyset_source.go) *)

Record HMACKeyset := mkKeyset { ActiveKID : string; Keys : gmap string string }.

Inductive auth_error :=
| ErrKeysetEntry (entry : string)
| ErrSecretRequired
| ErrKeysetEmpty
| ErrActiveKidMissing
| ErrSignerNil
| ErrSigning
| ErrInvalidToken
| ErrMissingClaims.

(** The loop over the comma-separated entries of a keyset specification. *)
Fixpoint parse_entries (parts : list string) (keys : gmap string string)
    : gmap string string + auth_error :=
  match parts with
  | [] => inl keys
  | part :: parts =>
      let entry := TrimSpace part in
      if decide (entry = "") then parse_entries parts keys
      else match cut_first ":"%char entry with
      | None => inr (ErrKeysetEntry entry)
      | Some (k, v) =>
          let kid := TrimSpace k in
          let secret := TrimSpace v in
          if decide (kid = "" ∨ secret = "") then inr (ErrKeysetEntry entry)
          else parse_entries parts (<[kid := secret]> keys)
      end
  end.

Definition checked_keyset (active : string) (keys : gmap string string)
    : HMACKeyset + auth_error :=
  if decide (keys = ∅) then inr ErrKeysetEmpty
  else match keys !! active with
  | None => inr ErrActiveKidMissing
  | Some _ => inl (mkKeyset active keys)
  end.

Definition ParseHMACKeyset (fallbackSecret keysetSpec activeKID : string)
    : HMACKeyset + auth_error :=
  let active := if decide (TrimSpace activeKID = "") then "default" else activeKID in
  if decide (TrimSpace keysetSpec ≠ "") then
    match parse_entries (split_on ","%char keysetSpec) ∅ with
    | inr e => inr e
    | inl keys => checked_keyset active keys
    end
  else if decide (TrimSpace fallbackSecret = "") then inr ErrSecretRequired
  else checked_keyset active {[ active := fallbackSecret ]}.

(** [LoadHMACKeysetJSON] from the decoded payload on.  Go iterates over the
    decoded map in an unspecified order: [keys] lists its entries in the order
    taken. *)
Definition keyset_of_payload (activeKID : string) (keys : list (string * string))
    : HMACKeyset + auth_error :=
  let active := TrimSpace activeKID in
  let active := if decide (active = "") then "default" else active in
  let keys := fold_left (λ m '(kid, secret),
    let kid := TrimSpace kid in
    let secret := TrimSpace secret in
    if decide (kid = "" ∨ secret = "") then m else <[kid := secret]> m) keys ∅ in
  checked_keyset active keys.

(** [copyKeyMap]: a fresh map with the same contents; a keyset holds no nil
    values. *)
Definition copyKeyMap (m : gmap string string) : gmap string string := m.

(** ** The JWT library *)

Record MapClaims := mkClaims { cl_sub : string; cl_actor_type : string; cl_iat : Z; cl_exp : Z }.

(** A token as parsed, before its signature is checked: [None] for a header
    or claim that is missing or not a string. *)
Record JwtToken := mkJwtToken {
  tok_alg : string; tok_kid : option string;
  tok_sub : option string; tok_actor_type : option string }.

Class JWT := {
  (** [jwt.NewWithClaims(HS256, claims)] with a kid header, signed *)
  jwt_SignedString : string → MapClaims → string → option string;
  jwt_Parse : string → option JwtToken;
  (** the signature check with a secret and the validation of the registered
      claims at a time, with a leeway of five seconds *)
  jwt_Valid : Time → string → string → bool }.

(** The leeway the verifier configures. *)
Definition leeway : Duration := 5 * Second.

(** A signed token carries its header and claims, and is valid under its
    secret until its expiry plus the leeway and no longer. *)
Class JWTLaw `{JWT} : Prop := {
  law_parse kid c secret tok :
    jwt_SignedString kid c secret = Some tok →
    jwt_Parse tok = Some (mkJwtToken "HS256" (Some kid) (Some (cl_sub c)) (Some (cl_actor_type c)));
  law_valid kid c secret tok t :
    jwt_SignedString kid c secret = Some tok →
    jwt_Valid t tok secret = (t <? cl_exp c * Second + leeway) }.

(** ** Signer and verifier *)

Record JWTSigner := mkSigner { signer_activeKID : string; signer_keys : gmap string string }.
Record JWTVerifier := mkVerifier { ver_activeKID : string; ver_keys : gmap string string }.

Definition NewJWTSignerWithKeyset (k : HMACKeyset) : JWTSigner :=
  mkSigner (ActiveKID k) (copyKeyMap (Keys k)).
Definition NewJWTVerifierWithKeyset (k : HMACKeyset) : JWTVerifier :=
  mkVerifier (ActiveKID k) (copyKeyMap (Keys k)).

(** [NewJWTSigner] and [NewJWTVerifier] panic on an empty secret: [None]. *)
Definition NewJWTSigner (secret : string) : option JWTSigner :=
  match ParseHMACKeyset secret "" "default" with
  | inl k => Some (NewJWTSignerWithKeyset k)
  | inr _ => None
  end.
Definition NewJWTVerifier (secret : string) : option JWTVerifier :=
  match ParseHMACKeyset secret "" "default" with
  | inl k => Some (NewJWTVerifierWithKeyset k)
  | inr _ => None
  end.

Definition signer_SetKeyset (k : HMACKeyset) (s : JWTSigner) : JWTSigner * option auth_error :=
  match Keys k !! ActiveKID k with
  | None => (s, Some ErrActiveKidMissing)
  | Some _ => (mkSigner (ActiveKID k) (copyKeyMap (Keys k)), None)
  end.
Definition verifier_SetKeyset (k : HMACKeyset) (v : JWTVerifier)
    : JWTVerifier * option auth_error :=
  match Keys k !! ActiveKID k with
  | None => (v, Some ErrActiveKidMissing)
  | Some _ => (mkVerifier (ActiveKID k) (copyKeyMap (Keys k)), None)
  end.

(** [t.Unix()]: seconds since the epoch, rounded down. *)
Definition Unix (t : Time) : Z := t / Second.

Definition SignActor `{JWT} (s : option JWTSigner) (actor : AuthActor) (now : Time)
    (ttl : Duration) : (string * Time) + auth_error :=
  match s with
  | None => inr ErrSignerNil
  | Some s =>
      let activeKID := signer_activeKID s in
      let secret := map_get "" (signer_keys s) activeKID in
      if decide (secret = "") then inr ErrActiveKidMissing
      else
      let expiresAt := now + ttl in
      let claims := mkClaims (AuthID actor) (AuthType actor) (Unix now) (Unix expiresAt) in
      match jwt_SignedString activeKID claims secret with
      | None => inr ErrSigning
      | Some signed => inl (signed, expiresAt)
      end
  end.

(** [ParseActor] at time [now] (the library reads the clock). *)
Definition ParseActor `{JWT} (v : JWTVerifier) (now : Time) (tokenString : string)
    : AuthActor + auth_error :=
  match jwt_Parse tokenString with
  | None => inr ErrInvalidToken
  | Some tok =>
      if decide (tok_alg tok ≠ "HS256") then inr ErrInvalidToken else
      let kid := default "" (tok_kid tok) in
      let kid := if decide (TrimSpace kid = "") then ver_activeKID v else kid in
      let secret := map_get "" (ver_keys v) kid in
      if decide (secret = "") then inr ErrInvalidToken
      else if negb (jwt_Valid now tokenString secret) then inr ErrInvalidToken
      else
      let sub := default "" (tok_sub tok) in
      let actorType := default "" (tok_actor_type tok) in
      if decide (sub = "" ∨ actorType = "") then inr ErrMissingClaims
      else inl (mkAuthActor sub actorType)
  end.

(** ** Middlewares (jwt.go, grpc_jwt.go) *)

Definition WithActor (ctx : Context) (actor : AuthActor) : Context := mkContext (Some actor).

(** What a middleware does: call the handler with a context, or refuse. *)
Inductive gate := Pass (ctx : Context) | Refuse (msg : string).

Definition HTTPJWTMiddlewareWithSkips `{JWT} (v : JWTVerifier) (skipPaths : list string)
    (now : Time) (path authorization : string) (ctx : Context) : gate :=
  if decide (path ∈ skipPaths) then Pass ctx
  else match strip_prefix "Bearer " authorization with
  | None => Refuse "missing bearer token"
  | Some tok =>
      match ParseActor v now tok with
      | inr _ => Refuse "invalid token"
      | inl actor => Pass (WithActor ctx actor)
      end
  end.

Definition HTTPJWTMiddleware `{JWT} (v : JWTVerifier) := HTTPJWTMiddlewareWithSkips v [].

(** [metadata]: [None] without incoming metadata, else the authorization
    values. *)
Definition UnaryJWTInterceptor `{JWT} (v : JWTVerifier) (allow : list string) (now : Time)
    (fullMethod : string) (metadata : option (list string)) (ctx : Context) : gate :=
  if decide (fullMethod ∈ allow) then Pass ctx
  else match metadata with
  | None => Refuse "missing metadata"
  | Some [] => Refuse "missing bearer token"
  | Some (h :: _) =>
      match strip_prefix "Bearer " h with
      | None => Refuse "missing bearer token"
      | Some token =>
          match ParseActor v now token with
          | inr _ => Refuse "invalid token"
          | inl actor => Pass (WithActor ctx actor)
          end
      end
  end.

(** ** The refresh token allowlist *)

Record RefreshTokenAllowlist := mkAllowlist { tokens : gset string }.

Definition NewRefreshTokenAllowlist : RefreshTokenAllowlist := mkAllowlist ∅.
Definition allowlist_Add (token : string) (l : RefreshTokenAllowlist) : RefreshTokenAllowlist :=
  if decide (TrimSpace token = "") then l else mkAllowlist ({[ token ]} ∪ tokens l).
Definition allowlist_Remove (token : string) (l : RefreshTokenAllowlist) : RefreshTokenAllowlist :=
  if decide (TrimSpace token = "") then l else mkAllowlist (tokens l ∖ {[ token ]}).
Definition allowlist_Contains (token : string) (l : RefreshTokenAllowlist) : bool :=
  if decide (TrimSpace token = "") then false else bool_decide (token ∈ tokens l).

(** ** Keysets are usable *)

(** The active key exists, its id is not blank, and no secret is empty. *)
Record keyset_ok (k : HMACKeyset) : Prop := {
  ko_active : is_Some (Keys k !! ActiveKID k);
  ko_secrets : ∀ kid secret, Keys k !! kid = Some secret → secret ≠ "" }.

Lemma TrimSpace_empty : TrimSpace "" = "".
Proof. reflexivity. Qed.

Lemma parse_entries_secrets parts keys keys' :
  (∀ kid secret, keys !! kid = Some secret → secret ≠ "") →
  parse_entries parts keys = inl keys' →
  ∀ kid secret, keys' !! kid = Some secret → secret ≠ "".
Proof.
  revert keys. induction parts as [|p parts IH]; intros keys Hk; simpl.
  { by intros [= <-]. }
  case_decide; [by apply IH|]. destruct (cut_first _ _) as [[a b]|]; [|done].
  case_decide as Hne; [done|]. apply IH. intros kid secret.
  rewrite lookup_insert_Some. intros [[_ <-]|[_ ?]]; [tauto|by eapply Hk].
Qed.

Lemma checked_keyset_ok active keys k :
  (∀ kid secret, keys !! kid = Some secret → secret ≠ "") →
  checked_keyset active keys = inl k → keyset_ok k ∧ k = mkKeyset active keys.
Proof.
  intros Hk. unfold checked_keyset. case_decide; [done|].
  destruct (keys !! active) as [x|] eqn:E; [|done]. intros [= <-].
  split; [|done]. split; simpl; [by rewrite E|done].
Qed.

Lemma ParseHMACKeyset_ok fallback spec active k :
  ParseHMACKeyset fallback spec active = inl k → keyset_ok k ∧ TrimSpace (ActiveKID k) ≠ "".
Proof.
  unfold ParseHMACKeyset. cbv zeta.
  set (act := if decide (TrimSpace active = "") then "default" else active).
  assert (TrimSpace act ≠ "") as Hact.
  { unfold act. by case_decide. }
  case_decide.
  - destruct (parse_entries _ _) as [keys|] eqn:E; [|done].
    intros [Hok ->]%checked_keyset_ok; [done|].
    eapply parse_entries_secrets; [|exact E]. intros ? ?. by rewrite lookup_empty.
  - case_decide as Hf; [done|]. intros [Hok ->]%checked_keyset_ok; [done|].
    intros kid secret. rewrite lookup_singleton_Some. intros [_ <-] ->. by apply Hf.
Qed.
