(* ===== verification/AuthProofs.v ===== *)
(** * What authentication guarantees

    Tokens round-trip between signer and verifier across key rotation, a
    handler is reached without a token only on the allowlisted methods, and the
    token's actor is the one the ledger authorizes. *)

From S2P Require Import Prelude GoTime GoJson GoNet AuditTrail Service Ledger LedgerSpec LedgerMem.
From S2P Require Import LedgerProofs Env LedgerTheorems Auth.

Section auth.
Context `{!JWT}.

Lemma signed_token_parses `{!JWTLaw} ks v actor now ttl tok expiresAt t :
  TrimSpace (ActiveKID ks) ≠ "" →
  SignActor (Some (NewJWTSignerWithKeyset ks)) actor now ttl = inl (tok, expiresAt) →
  ver_keys v !! ActiveKID ks = Keys ks !! ActiveKID ks →
  AuthID actor ≠ "" → AuthType actor ≠ "" →
  expiresAt = now + ttl
  ∧ ParseActor v t tok
    = if t <? Unix expiresAt * Second + leeway then inl actor else inr ErrInvalidToken.
Proof.
  intros Hkid Hsign Hkey Hid Htype. unfold SignActor in Hsign. simpl in Hsign.
  unfold copyKeyMap in Hsign. case_decide as Hsecret; [done|].
  destruct (jwt_SignedString _ _ _) as [s|] eqn:Hs; [|done]. injection Hsign as -> <-.
  split; [done|]. unfold ParseActor. rewrite (law_parse _ _ _ _ Hs). simpl.
  rewrite (decide_False (P := TrimSpace (ActiveKID ks) = "")) by done.
  assert (map_get "" (ver_keys v) (ActiveKID ks) = map_get "" (Keys ks) (ActiveKID ks)) as ->
    by (unfold map_get; by rewrite Hkey).
  rewrite (decide_False (P := map_get _ _ _ = "")) by done.
  rewrite (law_valid _ _ _ _ _ Hs). simpl. destruct (t <? _); simpl; [|done].
  rewrite decide_False by tauto. by destruct actor.
Qed.

(** C35: a signed token is accepted, with the actor it was signed for, by every
    verifier that knows the signer's active key, whatever key is active there,
    until its expiry second plus five seconds, and is refused from then on. *)
Theorem token_roundtrip `{!JWTLaw} ks v actor now ttl tok expiresAt t :
  TrimSpace (ActiveKID ks) ≠ "" →
  SignActor (Some (NewJWTSignerWithKeyset ks)) actor now ttl = inl (tok, expiresAt) →
  ver_keys v !! ActiveKID ks = Keys ks !! ActiveKID ks →
  AuthID actor ≠ "" → AuthType actor ≠ "" →
  expiresAt = now + ttl
  ∧ ParseActor v t tok
    = if t <? Unix expiresAt * Second + leeway then inl actor else inr ErrInvalidToken.
Proof. apply signed_token_parses. Qed.

Lemma ParseActor_sound v t tok actor :
  ParseActor v t tok = inl actor →
  AuthID actor ≠ "" ∧ AuthType actor ≠ "" ∧ ∃ kid secret,
    ver_keys v !! kid = Some secret ∧ secret ≠ "" ∧ jwt_Valid t tok secret = true.
Proof.
  unfold ParseActor. destruct (jwt_Parse tok) as [p|]; [|done]. cbv zeta.
  destruct (decide (tok_alg p ≠ "HS256")); [done|].
  set (kid := if decide (TrimSpace (default "" (tok_kid p)) = "") then ver_activeKID v
              else default "" (tok_kid p)).
  destruct (decide (map_get "" (ver_keys v) kid = "")) as [|Hs]; [done|]. destruct (jwt_Valid _ _ _) eqn:Hv; [|done].
  cbn [negb]. case_decide as Hc; [done|]. intros [= <-]. simpl.
  split; [tauto|]. split; [tauto|]. exists kid. unfold map_get in Hs, Hv.
  destruct (ver_keys v !! kid) as [secret|]; [|done]. by exists secret.
Qed.

(** A handler behind the gRPC interceptor runs only for an allowlisted
    method, with the context untouched, or with a bearer token that is valid
    under a non-empty key of the verifier, and then with that token's actor in
    the context. *)
Theorem interceptor_authenticates v allow now method md ctx ctx' :
  UnaryJWTInterceptor v allow now method md ctx = Pass ctx' →
  (method ∈ allow ∧ ctx' = ctx)
  ∨ ∃ token rest kid secret actor, md = Some (("Bearer " +:+ token) :: rest)
      ∧ ver_keys v !! kid = Some secret ∧ secret ≠ "" ∧ jwt_Valid now token secret = true
      ∧ ParseActor v now token = inl actor ∧ AuthID actor ≠ ""
      ∧ ActorFromContext ctx' = Some actor.
Proof.
  unfold UnaryJWTInterceptor. case_decide; [intros [= <-]; by left|].
  destruct md as [[|h rest]|]; [done| |done].
  destruct (strip_prefix "Bearer " h) as [token|] eqn:Hp; [|done].
  destruct (ParseActor v now token) as [actor|] eqn:Ha; [|done]. intros [= <-]. right.
  destruct (ParseActor_sound _ _ _ _ Ha) as (Hid & _ & kid & secret & Hk & Hs & Hv).
  exists token, rest, kid, secret, actor. split_and!; try done.
  by rewrite (strip_prefix_app _ _ _ Hp).
Qed.

(** Replacing the verifier's keyset revokes the keys it leaves out: a token
    that names one of them is refused whatever its signature, and a keyset
    without its active key is not installed at all. *)
Theorem rotation_revokes v ks t tok parsed kid :
  jwt_Parse tok = Some parsed → tok_kid parsed = Some kid → TrimSpace kid ≠ "" →
  Keys ks !! kid = None →
  match Keys ks !! ActiveKID ks with
  | Some _ => ParseActor (verifier_SetKeyset ks v).1 t tok = inr ErrInvalidToken
  | None => verifier_SetKeyset ks v = (v, Some ErrActiveKidMissing)
  end.
Proof.
  intros Hp Hk Hne Hnone. unfold verifier_SetKeyset.
  destruct (Keys ks !! ActiveKID ks) as [x|]; [|done]. unfold ParseActor. rewrite Hp. simpl.
  case_decide; [done|]. rewrite Hk. simpl. rewrite (decide_False (P := TrimSpace kid = "")) by done.
  unfold map_get, copyKeyMap. by rewrite Hnone.
Qed.

(** A keyset that parses is usable: its active key is present and no secret
    is empty, so signing with it fails only if the library does. *)
Theorem parsed_keyset_signs fallback spec active ks actor now ttl :
  ParseHMACKeyset fallback spec active = inl ks →
  SignActor (Some (NewJWTSignerWithKeyset ks)) actor now ttl
  = match jwt_SignedString (ActiveKID ks)
        (mkClaims (AuthID actor) (AuthType actor) (Unix now) (Unix (now + ttl)))
        (map_get "" (Keys ks) (ActiveKID ks)) with
    | Some tok => inl (tok, now + ttl)
    | None => inr ErrSigning
    end.
Proof.
  intros [[[x Hx] Hsec] _]%ParseHMACKeyset_ok. unfold SignActor. simpl. unfold copyKeyMap.
  rewrite decide_False; [done|]. unfold map_get. rewrite Hx. by apply (Hsec _ _ Hx).
Qed.

(** ** From the token to the ledger *)

(** Whatever the request claims, the resolved actor is the token's. *)
Lemma resolveActor_token ctx actor meta a :
  ActorFromContext ctx = Some actor → resolveActor (Some ctx) meta = inl a →
  a = mkActor (AuthID actor) (actorTypeFromString (AuthType actor)).
Proof.
  unfold resolveActor. simpl. intros ->. case_decide; [done|].
  destruct (meta ≫= MetaActor) as [b|]; [case_decide; [done|]|]; by intros [= <-].
Qed.

Section ledger.
Context {D : Type} `{!Wall, !Crypto, !JsonValid, !AuditDB D}.

(** A handler that refuses a player's token on somebody else's account. *)
Definition token_isolates {Req R} `{!Mutation Req R}
    (run : option Context → option Req → M (Svc D LedgerState) R) : Prop :=
  ∀ v allow now method token rest ctx ctx' actor s req r s',
    UnaryJWTInterceptor v allow now method (Some (("Bearer " +:+ token) :: rest)) ctx = Pass ctx' →
    method ∉ allow → ParseActor v now token = inl actor →
    actorTypeFromString (AuthType actor) = ACTOR_TYPE_PLAYER →
    in_memory s → m_complete req = true → m_account req ≠ AuthID actor →
    run (Some ctx') (Some req) s = Done r s' →
    ResCode (m_resp r) = RESULT_CODE_DENIED ∧ st s' = st s.

Lemma mutation_token_isolates {Req R} `{!Mutation Req R}
    (run : option Context → option Req → M (Svc D LedgerState) R) `{!MutationLaw run} :
  token_isolates run.
Proof.
  intros v allow now method token rest ctx ctx' actor s req r s' Hpass Hallow Htok Htype Hm Hc Hne E.
  assert (ActorFromContext ctx' = Some actor) as Hctx.
  { unfold UnaryJWTInterceptor in Hpass. rewrite decide_False in Hpass by done.
    change (strip_prefix "Bearer " ("Bearer " +:+ token)) with (Some token) in Hpass.
    cbv iota in Hpass. rewrite Htok in Hpass. by injection Hpass as <-. }
  assert ((ledger_authorize (Some ctx') (m_meta req) (m_account req)).1 = false) as Hau.
  { unfold ledger_authorize. destruct (resolveActor _ _) as [a|reason] eqn:Ha; [|done].
    rewrite (resolveActor_token _ _ _ _ Hctx Ha), Htype. simpl. by rewrite decide_True. }
  destruct (mutation_run run _ _ _ _ _ E Hm) as (_ & new & Hev & Hmu).
  inversion Hmu; subst;
    try match goal with Ha : admissible _ _ _ |- _ =>
      pose proof (ad_authorized _ _ _ Ha) as Hok; congruence end.
  - match goal with Hx : m_complete req = true → _ |- _ => specialize (Hx Hc); congruence end.
  - match goal with Hx : code_is _ _ _ _ |- _ => by destruct Hx as [-> _] end.
Qed.

Context `{!UnicodeUpper, !LedgerDB D}.
Context `{!ProtoJSON DepositResponse, !ProtoJSON WithdrawResponse,
  !ProtoJSON TransferToDeviceResponse, !ProtoJSON TransferToAccountResponse}.

(** C14: end to end, a player whose request comes in with his token can change
    no account but his own, whatever actor the request itself claims: the four
    mutating handlers deny the request and change nothing. *)
Theorem player_token_isolation :
  token_isolates Deposit ∧ token_isolates Withdraw
  ∧ token_isolates TransferToDevice ∧ token_isolates TransferToAccount.
Proof. split_and!; apply mutation_token_isolates; apply _. Qed.
End ledger.
End auth.

(** ** Concrete instances *)

Import Concrete.

(** A token format that satisfies the law: a number that encodes header, claims
    and, in place of a signature, the secret. *)
Definition token_of (kid : string) (c : MapClaims) (secret : string) : string :=
  FormatInt (Zpos (encode (kid, cl_sub c, cl_actor_type c, cl_iat c, cl_exp c, secret))).
Definition token_parts (tok : string) : option (string * string * string * Z * Z * string) :=
  match parse_digits 0 tok with Some (Zpos p) => decode p | _ => None end.

Lemma token_parts_of kid c secret :
  token_parts (token_of kid c secret)
  = Some (kid, cl_sub c, cl_actor_type c, cl_iat c, cl_exp c, secret).
Proof.
  unfold token_parts, token_of. rewrite parse_digits_pretty by lia. apply decode_encode.
Qed.

#[export] Instance env_jwt : JWT := {|
  jwt_SignedString kid c secret := Some (token_of kid c secret);
  jwt_Parse tok := '(kid, sub, ty, _, _, _) ← token_parts tok;
    Some (mkJwtToken "HS256" (Some kid) (Some sub) (Some ty));
  jwt_Valid t tok secret :=
    match token_parts tok with
    | Some (_, _, _, _, exp, s) => bool_decide (s = secret) && (t <? exp * Second + leeway)
    | None => false
    end |}.

#[export] Instance env_jwt_law : JWTLaw.
Proof.
  split.
  - intros kid c secret tok [= <-]. simpl. by rewrite token_parts_of.
  - intros kid c secret tok t [= <-]. simpl. rewrite token_parts_of.
    by rewrite bool_decide_true.
Qed.

Definition ex_keys : HMACKeyset := mkKeyset "k2" {[ "k1" := "old"; "k2" := "new" ]}.
Definition ex_rotated : HMACKeyset := mkKeyset "k3" {[ "k2" := "new"; "k3" := "next" ]}.
Definition ex_claims : MapClaims := mkClaims "alice" "PLAYER" 0 60.
Definition ex_token : string := token_of "k2" ex_claims "new".
Definition ex_alice : AuthActor := mkAuthActor "alice" "PLAYER".

(** Signed with the keys before a rotation, accepted after it. *)
Lemma token_roundtrip_witness :
  ParseActor (NewJWTVerifierWithKeyset ex_rotated) (64 * Second) ex_token = inl ex_alice
  ∧ ParseActor (NewJWTVerifierWithKeyset ex_rotated) (65 * Second) ex_token = inr ErrInvalidToken.
Proof.
  assert (∀ t, ParseActor (NewJWTVerifierWithKeyset ex_rotated) t ex_token
    = if t <? 60 * Second + leeway then inl ex_alice else inr ErrInvalidToken) as Hrt.
  { intros t. refine (proj2 (token_roundtrip ex_keys (NewJWTVerifierWithKeyset ex_rotated)
      ex_alice 0 (60 * Second) ex_token (60 * Second) t _ _ _ _ _)); try discriminate;
      reflexivity. }
  split; apply Hrt.
Defined.

Lemma ex_token_accepted :
  ParseActor (NewJWTVerifierWithKeyset ex_rotated) 0 ex_token = inl ex_alice.
Proof.
  unfold ParseActor, jwt_Parse, jwt_Valid, env_jwt, ex_token. rewrite !token_parts_of.
  vm_compute. reflexivity.
Qed.

Definition ex_context : Context := mkContext None.

Lemma ex_token_passes :
  UnaryJWTInterceptor (NewJWTVerifierWithKeyset ex_rotated) [] 0 "/rgs.v1.LedgerService/Deposit"
    (Some ["Bearer " +:+ ex_token]) ex_context = Pass (mkContext (Some ex_alice)).
Proof.
  unfold UnaryJWTInterceptor. rewrite decide_False by apply not_elem_of_nil.
  change (strip_prefix "Bearer " ("Bearer " +:+ ex_token)) with (Some ex_token).
  cbv iota. by rewrite ex_token_accepted.
Qed.

Lemma interceptor_authenticates_witness :
  ∃ token kid secret, ver_keys (NewJWTVerifierWithKeyset ex_rotated) !! kid = Some secret
    ∧ jwt_Valid 0 token secret = true.
Proof.
  destruct (interceptor_authenticates _ _ _ _ _ _ _ ex_token_passes)
    as [[Hin _]|(token & _ & kid & secret & _ & _ & Hk & _ & Hv & _)].
  - exfalso. exact (not_elem_of_nil _ Hin).
  - exists token, kid, secret. split; [exact Hk|exact Hv].
Defined.

Lemma ex_token_parsed :
  jwt_Parse ex_token = Some (mkJwtToken "HS256" (Some "k2") (Some "alice") (Some "PLAYER")).
Proof. unfold jwt_Parse, env_jwt, ex_token. by rewrite token_parts_of. Qed.

Lemma rotation_revokes_witness :
  ParseActor (verifier_SetKeyset (mkKeyset "k4" {[ "k4" := "x" ]})
    (NewJWTVerifierWithKeyset ex_rotated)).1 0 ex_token = inr ErrInvalidToken.
Proof.
  exact (rotation_revokes (NewJWTVerifierWithKeyset ex_rotated) (mkKeyset "k4" {[ "k4" := "x" ]})
    0 ex_token _ "k2" ex_token_parsed eq_refl ltac:(discriminate) eq_refl).
Defined.

Lemma parsed_keyset_signs_witness :
  SignActor (Some (NewJWTSignerWithKeyset (mkKeyset "b" {[ "b" := "2"; "a" := "1" ]})))
    ex_alice 0 (60 * Second)
  = inl (token_of "b" ex_claims "2", 60 * Second).
Proof.
  exact (parsed_keyset_signs "" " a:1, b : 2 ," "b" _ ex_alice 0 (60 * Second) eq_refl).
Defined.

Definition ex_steal : DepositRequest :=
  mkDepositRequest (Some (mkRequestMeta "r" "k1" (Some (mkActor "bob" ACTOR_TYPE_PLAYER))))
    "bob" (usd 100) "auth-1".

Lemma player_token_isolation_witness :
  match Deposit (Some (mkContext (Some ex_alice))) (Some ex_steal) (ledger_with 0) with
  | Done r s' => ResCode (depr_Meta r) = RESULT_CODE_DENIED ∧ st s' = st (ledger_with 0)
  | _ => False
  end.
Proof.
  assert (match Deposit (Some (mkContext (Some ex_alice))) (Some ex_steal) (ledger_with 0) with
    | Done _ _ => True | _ => False end) as Hr by (vm_compute; exact I).
  destruct (Deposit _ _ _) as [r s'| |] eqn:E; [|exact Hr..].
  refine (proj1 player_token_isolation _ _ _ _ _ _ _ _ _ _ ex_steal _ _ ex_token_passes
    _ ex_token_accepted eq_refl (ledger_with_in_memory 0) eq_refl _ E).
  - apply not_elem_of_nil.
  - discriminate.
Defined.

(** Two entries of a keyset payload whose ids differ in white space: the order
    of the map iteration decides which secret is used. *)
Example keyset_payload_order :
  keyset_of_payload "a" [("a", "x"); ("a ", "y")] ≠ keyset_of_payload "a" [("a ", "y"); ("a", "x")].
Proof. vm_compute. discriminate. Qed.
