(* ===== verification/Identity.v ===== *)
(** * The identity service (identity_grpc.go, identity_postgres.go)

    Logins with a rate limit and a lockout, refresh sessions that are rotated
    on use, and the administration of credentials.  bcrypt and the tables are
    interfaces; the metrics callbacks are recorded. *)

From S2P Require Import Prelude GoTime GoJson GoNet AuditTrail Service Auth.

(** ** Messages *)

Inductive Credentials :=
| LoginPlayer (c : option (string * string))     (** player id, pin *)
| LoginOperator (c : option (string * string)).  (** operator id, password *)

Record LoginRequest := mkLoginRequest {
  li_Meta : option RequestMeta; li_Credentials : option Credentials }.
Record SessionToken := mkSessionToken {
  AccessToken : string; RefreshTokenOf : string; TokenType : string; st_ExpiresAt : string;
  st_Actor : Actor }.
(** The responses of Login and RefreshToken. *)
Record TokenResponse := mkTokenResponse { tr_Meta : ResponseMeta; tr_Token : option SessionToken }.
(** The requests of Logout and RefreshToken. *)
Record TokenRequest := mkTokenRequest { tq_Meta : option RequestMeta; tq_RefreshToken : string }.
(** The responses that consist of a header. *)
Record PlainResponse := mkPlainResponse { pr_Meta : ResponseMeta }.

Record SetCredentialRequest := mkSetCredentialRequest {
  sc_Meta : option RequestMeta; sc_Actor : option Actor; sc_CredentialHash : string;
  sc_Reason : string }.
(** The requests of DisableCredential, EnableCredential, GetLockout and
    ResetLockout (GetLockout has no reason). *)
Record ActorRequest := mkActorRequest {
  aq_Meta : option RequestMeta; aq_Actor : option Actor; aq_Reason : string }.
Record LockoutStatus := mkLockoutStatus {
  ls_Actor : Actor; ls_FailedAttempts : Z; ls_Locked : bool; ls_LockedUntil : string }.
Record LockoutResponse := mkLockoutResponse {
  lkr_Meta : ResponseMeta; lkr_Status : option LockoutStatus }.

(** ** State *)

Record identitySession := mkIdentitySession {
  refreshToken : string; is_actorID : string; is_actorType : ActorTyp;
  is_expiresAt : Time; revoked : bool }.

#[global] Instance eta_identitySession : Eta identitySession := λ s,
  mkIdentitySession (refreshToken s) (is_actorID s) (is_actorType s) (is_expiresAt s) (revoked s).

Record rateWindow := mkRateWindow { rw_start : Time; rw_count : Z }.

Record IdentityState := mkIdentity {
  refreshSessions : gmap string identitySession;
  failedAttempts : gmap string Z;
  lockedUntil : gmap string Time;
  tokenSigner : option JWTSigner;
  accessTTL : Duration;
  refreshTTL : Duration;
  lockoutTTL : Duration;
  maxFailures : Z;
  loginRateMax : Z;
  loginRateWindow : Duration;
  loginRates : gmap string rateWindow;
  onLogin : bool;
  onLockout : bool;
  logins_observed : list (ResultCode * ActorTyp);
  lockouts_observed : list ActorTyp }.

#[global] Instance eta_IdentityState : Eta IdentityState := λ s,
  mkIdentity (refreshSessions s) (failedAttempts s) (lockedUntil s) (tokenSigner s)
    (accessTTL s) (refreshTTL s) (lockoutTTL s) (maxFailures s) (loginRateMax s)
    (loginRateWindow s) (loginRates s) (onLogin s) (onLockout s) (logins_observed s)
    (lockouts_observed s).

(** A row of identity_sessions; the actor type is text there. *)
Record identity_row := mkIdentityRow {
  ir_refresh_token : string; ir_actor_id : string; ir_actor_type : string;
  ir_expires_at : Time; ir_revoked : bool }.

(** The statements of the service. *)
Class IdentityDB (D : Type) := {
  (** INSERT INTO identity_login_rate_limits ... RETURNING attempt_count *)
  q_login_attempts : string → string → Z → D → res Z * D;
  (** SELECT COALESCE(locked_until, to_timestamp(0)) FROM identity_lockouts *)
  q_lockout : string → string → D → res (option Time) * D;
  (** INSERT INTO identity_lockouts ... failed_attempts + 1 *)
  x_lockout_failure : string → string → Z → Z → D → res () * D;
  x_lockout_reset : string → string → D → res () * D;
  (** SELECT password_hash, status FROM identity_credentials *)
  q_credential : string → string → D → res (option (string * string)) * D;
  x_credential_hash : string → string → string → D → res () * D;
  (** UPDATE identity_credentials SET status; rows affected *)
  x_credential_status : string → string → string → D → res Z * D;
  q_active_credentials : D → res Z * D;
  (** SELECT failed_attempts, locked_until FROM identity_lockouts *)
  q_lockout_status : string → string → D → res (option (Z * option Time)) * D;
  x_identity_session : string → string → string → string → bool → D → res () * D;
  q_identity_session : string → D → res (option identity_row) * D;
  x_identity_revoke : string → D → res () * D;
  x_identity_insert : string → string → string → string → bool → D → res () * D;
  (** DELETE of at most $1 expired sessions; rows affected *)
  x_identity_cleanup : Z → D → res Z * D }.

(** golang.org/x/crypto/bcrypt. *)
Class Bcrypt := {
  bcrypt_Compare : string → string → bool;  (** the error of CompareHashAndPassword is nil *)
  bcrypt_Cost : string → option Z;
  bcrypt_DefaultCost : Z }.

(** ** Pure helpers *)

(** [inl (actorID, actorType)] or [inr reason]. *)
Definition validateLoginRequest (req : option LoginRequest) : (string * ActorTyp) + string :=
  match req with
  | None => inr "actor is required"
  | Some req =>
      match (m ← li_Meta req; MetaActor m) with
      | None => inr "actor is required"
      | Some a =>
          if decide (ActorId a = "" ∨ ActorTypeOf a = ACTOR_TYPE_UNSPECIFIED)
          then inr "actor binding is required"
          else match li_Credentials req with
          | Some (LoginPlayer c) =>
              match c with
              | None => inr "player_id and pin are required"
              | Some (id, pin) =>
                  if decide (id = "" ∨ pin = "") then inr "player_id and pin are required"
                  else if decide (ActorTypeOf a ≠ ACTOR_TYPE_PLAYER ∨ ActorId a ≠ id)
                  then inr "actor must match player credentials"
                  else inl (id, ACTOR_TYPE_PLAYER)
              end
          | Some (LoginOperator c) =>
              match c with
              | None => inr "operator_id and password are required"
              | Some (id, password) =>
                  if decide (id = "" ∨ password = "")
                  then inr "operator_id and password are required"
                  else if decide (ActorTypeOf a ≠ ACTOR_TYPE_OPERATOR ∨ ActorId a ≠ id)
                  then inr "actor must match operator credentials"
                  else inl (id, ACTOR_TYPE_OPERATOR)
              end
          | None => inr "credentials are required"
          end
      end
  end.

(** The secret of a request ([GetPin], [GetPassword]). *)
Definition login_secret (req : LoginRequest) : string :=
  match li_Credentials req with
  | Some (LoginPlayer (Some (_, pin))) => pin
  | Some (LoginOperator (Some (_, password))) => password
  | _ => ""
  end.

Definition sessionSnapshot (token actorID : string) (actorType : ActorTyp) (expiresAt : Time)
    (rev : bool) : string :=
  json_object [("actor_id", json_string actorID);
    ("actor_type", json_string (ActorTyp_String actorType));
    ("expires_at", json_string (FormatRFC3339Nano expiresAt));
    ("refresh_token", json_string token); ("revoked", json_bool rev)].

Definition lockKey (actorID : string) (actorType : ActorTyp) : string :=
  ActorTyp_String actorType +:+ "|" +:+ actorID.

Definition loginRateKey (actorID : string) (actorType : ActorTyp) : string :=
  "login_rate|" +:+ lockKey actorID actorType.

(** [int(d.Seconds())]. *)
Definition whole_seconds (d : Duration) : Z := Z.quot d Second.

Definition ActorTyp_number (t : ActorTyp) : Z :=
  match t with
  | ACTOR_TYPE_UNSPECIFIED => 0 | ACTOR_TYPE_PLAYER => 1 | ACTOR_TYPE_OPERATOR => 2
  | ACTOR_TYPE_SERVICE => 3 | ACTOR_TYPE_OTHER n => n
  end.

(** [json.Marshal] of a lockout status. *)
Definition lockout_json (s : option LockoutStatus) : string :=
  match s with
  | None => "null"
  | Some x =>
      json_object (("actor", json_object (omit_string "actor_id" (ActorId (ls_Actor x))
          ++ omit_int "actor_type" (ActorTyp_number (ActorTypeOf (ls_Actor x)))))
        :: omit_int "failed_attempts" (ls_FailedAttempts x)
        ++ (if ls_Locked x then [("locked", "true")] else [])
        ++ omit_string "locked_until" (ls_LockedUntil x))
  end.

Definition authorizeIdentityAdmin (ctx : option Context) (meta : option RequestMeta)
    : bool * string :=
  match resolveActor ctx meta with
  | inr reason => (false, reason)
  | inl actor =>
      if decide (ActorTypeOf actor ≠ ACTOR_TYPE_OPERATOR ∧ ActorTypeOf actor ≠ ACTOR_TYPE_SERVICE)
      then (false, "unauthorized actor type") else (true, "")
  end.

Section identity.
Context {D : Type} `{!Wall, !Crypto, !JsonValid, !Random, !JWT, !Bcrypt, !AuditDB D, !IdentityDB D}.
Abbreviation IM := (M (Svc D IdentityState)).

(** [None] is the panic of [NewJWTSigner] on a blank secret. *)
Definition NewIdentityService (clk : option (nat → Time)) (signingSecret : string)
    (access refresh : Duration) (d : option D) : option (Svc D IdentityState) :=
  let access := if access <=? 0 then 15 * Minute else access in
  let refresh := if refresh <=? 0 then 24 * Hour else refresh in
  let secret := if decide (signingSecret = "") then "dev-insecure-change-me" else signingSecret in
  signer ← NewJWTSigner secret;
  Some (mkSvc (mkBase clk (Some NewInMemoryStore) false 0 d 0)
    (mkIdentity ∅ ∅ ∅ (Some signer) access refresh (15 * Minute) 5 60 Minute ∅
       false false [] [])).

Definition SetJWTSigner (signer : option JWTSigner) : IM () :=
  match signer with
  | None => mret ()
  | Some _ => locked (mod_st (λ s, s <| tokenSigner := signer |>))
  end.

Definition SetMetricsObservers (login lockout : bool) : IM () :=
  locked (mod_st (λ s, s <| onLogin := login |> <| onLockout := lockout |>)).

Definition SetLockoutPolicy (failures : Z) (ttl : Duration) : IM () :=
  let failures := if failures <=? 0 then 5 else failures in
  let ttl := if ttl <=? 0 then 15 * Minute else ttl in
  locked (mod_st (λ s, s <| maxFailures := failures |> <| lockoutTTL := ttl |>)).

Definition SetLoginRateLimit (attempts : Z) (window : Duration) : IM () :=
  let attempts := if attempts <? 0 then 0 else attempts in
  let window := if window <=? 0 then Minute else window in
  locked (mod_st (λ s, s <| loginRateMax := attempts |> <| loginRateWindow := window |>)).

Definition identity_appendAudit (meta : option RequestMeta)
    (objectID action before after : string) (result : Result) (reason : string)
    : IM (option error) :=
  appendAudit "identity-audit-" meta "identity_session" objectID action before after result reason.

Definition identity_auditDenied (meta : option RequestMeta) (objectID action reason : string)
    : IM () :=
  _ ← identity_appendAudit meta objectID action "{}" "{}" ResultDenied reason; mret ().

(** The observers, if set. *)
Definition observe_login (code : ResultCode) (t : ActorTyp) : IM () :=
  b ← get_st onLogin;
  if (b : bool) then mod_st (λ s, s <| logins_observed ::= λ l, l ++ [(code, t)] |>) else mret ().
Definition observe_lockout (t : ActorTyp) : IM () :=
  b ← get_st onLockout;
  if (b : bool) then mod_st (λ s, s <| lockouts_observed ::= λ l, l ++ [t] |>) else mret ().

Definition signAccessToken (actorID : string) (actorType : ActorTyp)
    : IM (option (string * string)) :=
  t ← now;
  signer ← get_st tokenSigner;
  ttl ← get_st accessTTL;
  mret (match SignActor signer (mkAuthActor actorID (ActorTyp_String actorType)) t ttl with
        | inr _ => None
        | inl (signed, expiresAt) => Some (signed, FormatRFC3339Nano expiresAt)
        end).

(** ** Rate limit and lockout *)

Definition rateLimitExceeded (actorID : string) (actorType : ActorTyp) : IM (res bool) :=
  rmax ← get_st loginRateMax;
  if rmax <=? 0 then mret (Ok false) else
  enabled ← dbEnabled;
  window ← get_st loginRateWindow;
  if (enabled : bool) then
    r ← run_db (q_login_attempts actorID (ActorTyp_String actorType) (whole_seconds window));
    mret (match r with Err e => Err e | Ok attempts => Ok (rmax <? attempts) end)
  else
    let key := loginRateKey actorID actorType in
    t ← now;
    w ← get_st (λ s, map_get (mkRateWindow zero_time 0) (loginRates s) key);
    let w := if IsZero (rw_start w) || (window <=? t - rw_start w)
             then mkRateWindow t 0 else w in
    let w := mkRateWindow (rw_start w) (wrap64 (rw_count w + 1)) in
    mod_st (λ s, s <| loginRates ::= <[key := w]> |>);;
    mret (Ok (rmax <? rw_count w)).

Definition checkLocked (actorID : string) (actorType : ActorTyp) : IM (res bool) :=
  enabled ← dbEnabled;
  if (enabled : bool) then
    r ← run_db (q_lockout actorID (ActorTyp_String actorType));
    match r with
    | Err e => mret (Err e)
    | Ok None => mret (Ok false)
    | Ok (Some until) => t ← now; mret (Ok (time_After until t))
    end
  else
    until ← get_st (λ s, map_get zero_time (lockedUntil s) (lockKey actorID actorType));
    t ← now;
    mret (Ok (time_After until t)).

(** Whether the failure locked the actor. *)
Definition recordFailure (actorID : string) (actorType : ActorTyp) : IM (res bool) :=
  enabled ← dbEnabled;
  if (enabled : bool) then
    was ← checkLocked actorID actorType;
    match was with
    | Err e => mret (Err e)
    | Ok wasLocked =>
        fmax ← get_st maxFailures; ttl ← get_st lockoutTTL;
        r ← run_db (x_lockout_failure actorID (ActorTyp_String actorType) fmax (whole_seconds ttl));
        match r with
        | Err e => mret (Err e)
        | Ok _ =>
            n ← checkLocked actorID actorType;
            mret (match n with Err e => Err e | Ok nowLocked => Ok (negb wasLocked && nowLocked) end)
        end
    end
  else
    let k := lockKey actorID actorType in
    until ← get_st (λ s, map_get zero_time (lockedUntil s) k);
    t1 ← now;
    let beforeLocked := time_After until t1 in
    mod_st (λ s, s <| failedAttempts ::= λ m, <[k := wrap64 (map_get 0 m k + 1)]> m |>);;
    failures ← get_st (λ s, map_get 0 (failedAttempts s) k);
    fmax ← get_st maxFailures;
    (if fmax <=? failures then
       t2 ← now;
       ttl ← get_st lockoutTTL;
       mod_st (λ s, s <| lockedUntil ::= <[k := t2 + ttl]> |>)
     else mret ());;
    until ← get_st (λ s, map_get zero_time (lockedUntil s) k);
    t3 ← now;
    mret (Ok (negb beforeLocked && time_After until t3)).

Definition resetFailures (actorID : string) (actorType : ActorTyp) : IM (option error) :=
  enabled ← dbEnabled;
  if (enabled : bool) then
    r ← run_db (x_lockout_reset actorID (ActorTyp_String actorType));
    mret (match r with Err e => Some e | Ok _ => None end)
  else
    let k := lockKey actorID actorType in
    mod_st (λ s, s <| failedAttempts ::= delete k |> <| lockedUntil ::= delete k |>);;
    mret None.

(** Without a database there are two built-in secrets. *)
Definition verifyCredentials (actorID : string) (actorType : ActorTyp) (secret : string)
    : IM (res bool) :=
  enabled ← dbEnabled;
  if (enabled : bool) then
    r ← run_db (q_credential actorID (ActorTyp_String actorType));
    mret (match r with
          | Err e => Err e
          | Ok None => Ok false
          | Ok (Some (hash, status)) =>
              if decide (status ≠ "active") then Ok false else Ok (bcrypt_Compare hash secret)
          end)
  else if decide (actorType = ACTOR_TYPE_PLAYER) then mret (Ok (bool_decide (secret = "1234")))
  else if decide (actorType = ACTOR_TYPE_OPERATOR)
  then mret (Ok (bool_decide (secret = "operator-pass")))
  else mret (Ok false).

(** ** identity_postgres.go *)

Definition HasActiveCredentials : IM (res bool) :=
  enabled ← dbEnabled;
  if negb enabled then mret (Ok false) else
  r ← run_db q_active_credentials;
  mret (match r with Err e => Err e | Ok count => Ok (0 <? count) end).

Definition setCredentialHash (actorID : string) (actorType : ActorTyp) (hash : string)
    : IM (option error) :=
  enabled ← dbEnabled;
  if negb enabled then mret (Some errIdentityPersistenceRequired) else
  r ← run_db (x_credential_hash actorID (ActorTyp_String actorType) hash);
  mret (match r with Err e => Some e | Ok _ => None end).

Definition setCredentialStatus (actorID : string) (actorType : ActorTyp) (status : string)
    : IM (res bool) :=
  enabled ← dbEnabled;
  if negb enabled then mret (Err errIdentityPersistenceRequired) else
  r ← run_db (x_credential_status actorID (ActorTyp_String actorType) status);
  mret (match r with Err e => Err e | Ok rows => Ok (0 <? rows) end).

Definition getLockoutStatusDB (actorID : string) (actorType : ActorTyp)
    : IM (res (Z * option Time)) :=
  enabled ← dbEnabled;
  if negb enabled then mret (Ok (0, None)) else
  r ← run_db (q_lockout_status actorID (ActorTyp_String actorType));
  mret (match r with
        | Err e => Err e
        | Ok None => Ok (0, None)
        | Ok (Some (failed, locked)) => Ok (failed, locked)
        end).

Definition storeSession (sess : identitySession) : IM (option error) :=
  enabled ← dbEnabled;
  if negb enabled then mret None else
  r ← run_db (x_identity_session (refreshToken sess) (is_actorID sess)
        (ActorTyp_String (is_actorType sess)) (FormatRFC3339Nano (is_expiresAt sess))
        (revoked sess));
  mret (match r with Err e => Some e | Ok _ => None end).

Definition getSession (token : string) : IM (res (option identitySession)) :=
  enabled ← dbEnabled;
  if negb enabled then mret (Ok None) else
  r ← run_db (q_identity_session token);
  mret (match r with
        | Err e => Err e
        | Ok row => Ok ((λ x, mkIdentitySession (ir_refresh_token x) (ir_actor_id x)
            (actorTypeFromString (ir_actor_type x)) (ir_expires_at x) (ir_revoked x)) <$> row)
        end).

Definition revokeSession (token : string) : IM (option error) :=
  enabled ← dbEnabled;
  if negb enabled then mret None else
  r ← run_db (x_identity_revoke token);
  mret (match r with Err e => Some e | Ok _ => None end).

Definition rotateSession (old : string) (next : identitySession) : IM (option error) :=
  enabled ← dbEnabled;
  if negb enabled then mret None else
  b ← run_db db_begin;
  match b with
  | Err e => mret (Some e)
  | Ok _ =>
      let rollback := run_db (λ d, ((), db_rollback d)) in
      r ← run_db (x_identity_revoke old);
      match r with
      | Err e => rollback;; mret (Some e)
      | Ok _ =>
          i ← run_db (x_identity_insert (refreshToken next) (is_actorID next)
                (ActorTyp_String (is_actorType next)) (FormatRFC3339Nano (is_expiresAt next))
                (revoked next));
          match i with
          | Err e => rollback;; mret (Some e)
          | Ok _ =>
              c ← run_db db_commit;
              rollback;; mret (match c with Err e => Some e | Ok _ => None end)
          end
      end
  end.

Definition CleanupExpiredSessions (batchSize : Z) : IM (res Z) :=
  enabled ← dbEnabled;
  if negb enabled then mret (Ok 0) else
  run_db (x_identity_cleanup (if batchSize <=? 0 then 500 else batchSize)).

(** ** Handlers *)

Definition token_reply (meta : option RequestMeta) (code : ResultCode) (reason : string)
    : IM TokenResponse :=
  m ← responseMeta meta code reason; mret (mkTokenResponse m None).
Definition plain_reply (meta : option RequestMeta) (code : ResultCode) (reason : string)
    : IM PlainResponse :=
  m ← responseMeta meta code reason; mret (mkPlainResponse m).
Definition lockout_reply (meta : option RequestMeta) (code : ResultCode) (reason : string)
    : IM LockoutResponse :=
  m ← responseMeta meta code reason; mret (mkLockoutResponse m None).

(** The refusals of [Login] notify the observer first. *)
Definition login_reply (meta : option RequestMeta) (t : ActorTyp) (code : ResultCode)
    (reason : string) : IM TokenResponse :=
  observe_login code t;; token_reply meta code reason.

Definition token_of_session (access expiry refresh actorID : string) (actorType : ActorTyp)
    : SessionToken :=
  mkSessionToken access refresh "Bearer" expiry (mkActor actorID actorType).

(** The part of [Login] after the credentials were accepted. *)
Definition login_session (meta : option RequestMeta) (actorID : string) (actorType : ActorTyp)
    : IM TokenResponse :=
  signed ← signAccessToken actorID actorType;
  match signed with
  | None => login_reply meta actorType RESULT_CODE_ERROR "failed to sign token"
  | Some (accessToken, accessExpiry) =>
  rt ← randomToken;
  match rt with
  | Err _ => login_reply meta actorType RESULT_CODE_ERROR "failed to create refresh token"
  | Ok token =>
  t ← now;
  ttl ← get_st refreshTTL;
  let expiresAt := t + ttl in
  let sess := mkIdentitySession token actorID actorType expiresAt false in
  enabled ← dbEnabled;
  or_else (
    if (enabled : bool) then
      e ← storeSession sess;
      match e with
      | Some _ => return_ (login_reply meta actorType RESULT_CODE_ERROR "persistence unavailable")
      | None => mret None
      end
    else mod_st (λ s, s <| refreshSessions ::= <[token := sess]> |>);; mret None) $
  (a ← identity_appendAudit meta token "identity_login" "{}"
         (sessionSnapshot token actorID actorType expiresAt false) ResultSuccess "";
   match a with
   | Some _ =>
       (if (enabled : bool) then _ ← revokeSession token; mret ()
        else mod_st (λ s, s <| refreshSessions ::= delete token |>));;
       login_reply meta actorType RESULT_CODE_ERROR "audit unavailable"
   | None =>
       observe_login RESULT_CODE_OK actorType;;
       m ← responseMeta meta RESULT_CODE_OK "";
       mret (mkTokenResponse m
         (Some (token_of_session accessToken accessExpiry token actorID actorType)))
   end)
  end
  end.

Definition Login (req : option LoginRequest) : IM TokenResponse :=
  let meta := r ← req; li_Meta r in
  match validateLoginRequest req, req with
  | inr reason, _ =>
      identity_auditDenied meta "" "identity_login" reason;;
      login_reply meta ACTOR_TYPE_UNSPECIFIED RESULT_CODE_DENIED reason
  | inl _, None => panic
  | inl (actorID, actorType), Some r =>
  let secret := login_secret r in
  locked (
    exceeded ← rateLimitExceeded actorID actorType;
    match exceeded with
    | Err _ => login_reply meta actorType RESULT_CODE_ERROR "persistence unavailable"
    | Ok true =>
        identity_auditDenied meta "" "identity_login" "rate limit exceeded";;
        login_reply meta actorType RESULT_CODE_DENIED "rate limit exceeded"
    | Ok false =>
    lk ← checkLocked actorID actorType;
    match lk with
    | Err _ => login_reply meta actorType RESULT_CODE_ERROR "persistence unavailable"
    | Ok true =>
        identity_auditDenied meta "" "identity_login" "account locked";;
        login_reply meta actorType RESULT_CODE_DENIED "account locked"
    | Ok false =>
    okCreds ← verifyCredentials actorID actorType secret;
    match okCreds with
    | Err _ => login_reply meta actorType RESULT_CODE_ERROR "persistence unavailable"
    | Ok false =>
        lockedNow ← recordFailure actorID actorType;
        (match lockedNow with Ok true => observe_lockout actorType | _ => mret () end);;
        identity_auditDenied meta "" "identity_login" "invalid credentials";;
        login_reply meta actorType RESULT_CODE_DENIED "invalid credentials"
    | Ok true =>
    e ← resetFailures actorID actorType;
    match e with
    | Some _ => login_reply meta actorType RESULT_CODE_ERROR "persistence unavailable"
    | None => login_session meta actorID actorType
    end
    end
    end
    end)
  end.

(** The actor of a request to Logout or RefreshToken. *)
Definition token_actor (req : TokenRequest) : option Actor :=
  match (m ← tq_Meta req; MetaActor m) with
  | Some a => if decide (ActorId a = "" ∨ ActorTypeOf a = ACTOR_TYPE_UNSPECIFIED)
              then None else Some a
  | None => None
  end.

(** The session of a refresh token, from the database or from memory. *)
Definition find_session (token : string) : IM (res (option identitySession)) :=
  enabled ← dbEnabled;
  if (enabled : bool) then getSession token
  else s ← get_st (λ s, refreshSessions s !! token); mret (Ok s).

Definition snapshot_of (sess : identitySession) (rev : bool) : string :=
  sessionSnapshot (refreshToken sess) (is_actorID sess) (is_actorType sess) (is_expiresAt sess) rev.

Definition actor_mismatch (sess : identitySession) (a : Actor) : bool :=
  bool_decide (is_actorID sess ≠ ActorId a ∨ is_actorType sess ≠ ActorTypeOf a).

Definition Logout (req : option TokenRequest) : IM PlainResponse :=
  match req with
  | None => plain_reply None RESULT_CODE_INVALID "refresh_token is required"
  | Some req =>
  let meta := tq_Meta req in
  let token := tq_RefreshToken req in
  if decide (token = "") then plain_reply None RESULT_CODE_INVALID "refresh_token is required"
  else match token_actor req with
  | None => plain_reply meta RESULT_CODE_INVALID "actor is required"
  | Some a =>
  locked (
    s ← find_session token;
    match s with
    | Err _ => plain_reply meta RESULT_CODE_ERROR "persistence unavailable"
    | Ok None => plain_reply meta RESULT_CODE_DENIED "refresh token not found"
    | Ok (Some sess) =>
        if actor_mismatch sess a then
          identity_auditDenied meta token "identity_logout" "actor mismatch with token";;
          plain_reply meta RESULT_CODE_DENIED "actor mismatch with token"
        else
        enabled ← dbEnabled;
        or_else (
          if (enabled : bool) then
            e ← revokeSession token;
            match e with
            | Some _ => return_ (plain_reply meta RESULT_CODE_ERROR "persistence unavailable")
            | None => mret None
            end
          else mod_st (λ s, s <| refreshSessions ::= delete token |>);; mret None) $
        (x ← identity_appendAudit meta token "identity_logout" (snapshot_of sess (revoked sess))
               (snapshot_of sess true) ResultSuccess "";
         match x with
         | Some _ => plain_reply meta RESULT_CODE_ERROR "audit unavailable"
         | None => plain_reply meta RESULT_CODE_OK ""
         end)
    end)
  end
  end.

(** The part of [RefreshToken] after the session was accepted. *)
Definition rotate (meta : option RequestMeta) (token : string) (sess : identitySession)
    : IM TokenResponse :=
  signed ← signAccessToken (is_actorID sess) (is_actorType sess);
  match signed with
  | None => token_reply meta RESULT_CODE_ERROR "failed to sign token"
  | Some (accessToken, accessExpiry) =>
  rt ← randomToken;
  match rt with
  | Err _ => token_reply meta RESULT_CODE_ERROR "failed to create refresh token"
  | Ok newToken =>
  t ← now;
  ttl ← get_st refreshTTL;
  let newExpiry := t + ttl in
  let next := mkIdentitySession newToken (is_actorID sess) (is_actorType sess) newExpiry false in
  enabled ← dbEnabled;
  or_else (
    if (enabled : bool) then
      e ← rotateSession token next;
      match e with
      | Some _ => return_ (token_reply meta RESULT_CODE_ERROR "persistence unavailable")
      | None => mret None
      end
    else
      mod_st (λ s, s <| refreshSessions ::= λ m, <[newToken := next]> (delete token m) |>);;
      mret None) $
  (a ← identity_appendAudit meta newToken "identity_refresh" (snapshot_of sess (revoked sess))
         (sessionSnapshot newToken (is_actorID sess) (is_actorType sess) newExpiry false)
         ResultSuccess "";
   match a with
   | Some _ =>
       (if (enabled : bool) then mret ()
        else mod_st (λ s, s <| refreshSessions ::= delete newToken |>));;
       token_reply meta RESULT_CODE_ERROR "audit unavailable"
   | None =>
       m ← responseMeta meta RESULT_CODE_OK "";
       mret (mkTokenResponse m (Some (token_of_session accessToken accessExpiry newToken
         (is_actorID sess) (is_actorType sess))))
   end)
  end
  end.

Definition RefreshToken (req : option TokenRequest) : IM TokenResponse :=
  match req with
  | None => token_reply None RESULT_CODE_INVALID "refresh_token is required"
  | Some req =>
  let meta := tq_Meta req in
  let token := tq_RefreshToken req in
  if decide (token = "") then token_reply None RESULT_CODE_INVALID "refresh_token is required"
  else match token_actor req with
  | None => token_reply meta RESULT_CODE_INVALID "actor is required"
  | Some a =>
  let invalid :=
    identity_auditDenied meta token "identity_refresh" "invalid refresh token";;
    token_reply meta RESULT_CODE_DENIED "invalid refresh token" in
  locked (
    s ← find_session token;
    match s with
    | Err _ => token_reply meta RESULT_CODE_ERROR "persistence unavailable"
    | Ok None => invalid
    | Ok (Some sess) =>
        if revoked sess then invalid else
        t ← now;
        if negb (time_After (is_expiresAt sess) t) then invalid
        else if actor_mismatch sess a then
          identity_auditDenied meta token "identity_refresh" "actor mismatch with token";;
          token_reply meta RESULT_CODE_DENIED "actor mismatch with token"
        else rotate meta token sess
    end)
  end
  end.

(** The actor of an administrative request. *)
Definition target_actor (a : option Actor) : option Actor :=
  match a with
  | Some a => if decide (ActorId a = "" ∨ ActorTypeOf a = ACTOR_TYPE_UNSPECIFIED)
              then None else Some a
  | None => None
  end.

Definition SetCredential (ctx : option Context) (req : option SetCredentialRequest)
    : IM PlainResponse :=
  match req with
  | None => plain_reply None RESULT_CODE_INVALID "actor and credential hash are required"
  | Some req =>
  let meta := sc_Meta req in
  match target_actor (sc_Actor req) with
  | None => plain_reply None RESULT_CODE_INVALID "actor and credential hash are required"
  | Some a =>
  if decide (sc_CredentialHash req = "") then
    plain_reply None RESULT_CODE_INVALID "actor and credential hash are required" else
  let '(ok, reason) := authorizeIdentityAdmin ctx meta in
  if negb ok then
    identity_auditDenied meta (ActorId a) "identity_set_credential" reason;;
    plain_reply meta RESULT_CODE_DENIED reason
  else match bcrypt_Cost (sc_CredentialHash req) with
  | None => plain_reply meta RESULT_CODE_INVALID "credential hash must be bcrypt"
  | Some cost =>
  if cost <? bcrypt_DefaultCost
  then plain_reply meta RESULT_CODE_INVALID "credential hash cost too low" else
  locked (
    e ← setCredentialHash (ActorId a) (ActorTypeOf a) (sc_CredentialHash req);
    match e with
    | Some errIdentityPersistenceRequired =>
        plain_reply meta RESULT_CODE_DENIED "credential management requires database"
    | Some _ => plain_reply meta RESULT_CODE_ERROR "persistence unavailable"
    | None =>
    r ← resetFailures (ActorId a) (ActorTypeOf a);
    match r with
    | Some _ => plain_reply meta RESULT_CODE_ERROR "persistence unavailable"
    | None =>
    x ← identity_appendAudit meta (ActorId a) "identity_set_credential" "{}"
          (json_object [("actor_id", json_string (ActorId a));
             ("actor_type", json_string (ActorTyp_String (ActorTypeOf a)));
             ("status", json_string "active")]) ResultSuccess (sc_Reason req);
    match x with
    | Some _ => plain_reply meta RESULT_CODE_ERROR "audit unavailable"
    | None => plain_reply meta RESULT_CODE_OK ""
    end
    end
    end)
  end
  end
  end.

(** [DisableCredential] and [EnableCredential] differ in action and status. *)
Definition set_status (action status : string) (ctx : option Context)
    (req : option ActorRequest) : IM PlainResponse :=
  match req with
  | None => plain_reply None RESULT_CODE_INVALID "actor is required"
  | Some req =>
  let meta := aq_Meta req in
  match target_actor (aq_Actor req) with
  | None => plain_reply None RESULT_CODE_INVALID "actor is required"
  | Some a =>
  let '(ok, reason) := authorizeIdentityAdmin ctx meta in
  if negb ok then
    identity_auditDenied meta (ActorId a) action reason;;
    plain_reply meta RESULT_CODE_DENIED reason
  else locked (
    u ← setCredentialStatus (ActorId a) (ActorTypeOf a) status;
    match u with
    | Err errIdentityPersistenceRequired =>
        plain_reply meta RESULT_CODE_DENIED "credential management requires database"
    | Err _ => plain_reply meta RESULT_CODE_ERROR "persistence unavailable"
    | Ok false => plain_reply meta RESULT_CODE_INVALID "credential not found"
    | Ok true =>
        x ← identity_appendAudit meta (ActorId a) action "{}"
              (json_object [("status", json_string status)]) ResultSuccess (aq_Reason req);
        match x with
        | Some _ => plain_reply meta RESULT_CODE_ERROR "audit unavailable"
        | None => plain_reply meta RESULT_CODE_OK ""
        end
    end)
  end
  end.

Definition DisableCredential : option Context → option ActorRequest → IM PlainResponse :=
  set_status "identity_disable_credential" "disabled".
Definition EnableCredential : option Context → option ActorRequest → IM PlainResponse :=
  set_status "identity_enable_credential" "active".

(** For an actor that is not nil. *)
Definition lockoutStatus (a : Actor) : IM (res LockoutStatus) :=
  enabled ← dbEnabled;
  if (enabled : bool) then
    r ← getLockoutStatusDB (ActorId a) (ActorTypeOf a);
    match r with
    | Err e => mret (Err e)
    | Ok (failed, None) => mret (Ok (mkLockoutStatus a (wrap32 failed) false ""))
    | Ok (failed, Some until) =>
        t ← now;
        mret (Ok (mkLockoutStatus a (wrap32 failed) (time_After until t) (FormatRFC3339Nano until)))
    end
  else
    let k := lockKey (ActorId a) (ActorTypeOf a) in
    until ← get_st (λ s, map_get zero_time (lockedUntil s) k);
    failed ← get_st (λ s, map_get 0 (failedAttempts s) k);
    t ← now;
    mret (Ok (mkLockoutStatus a (wrap32 failed) (time_After until t)
      (if IsZero until then "" else FormatRFC3339Nano until))).

Definition GetLockout (ctx : option Context) (req : option ActorRequest) : IM LockoutResponse :=
  match req with
  | None => lockout_reply None RESULT_CODE_INVALID "actor is required"
  | Some req =>
  let meta := aq_Meta req in
  match target_actor (aq_Actor req) with
  | None => lockout_reply None RESULT_CODE_INVALID "actor is required"
  | Some a =>
  let '(ok, reason) := authorizeIdentityAdmin ctx meta in
  if negb ok then
    identity_auditDenied meta (ActorId a) "identity_get_lockout" reason;;
    lockout_reply meta RESULT_CODE_DENIED reason
  else locked (
    s ← lockoutStatus a;
    match s with
    | Err _ => lockout_reply meta RESULT_CODE_ERROR "persistence unavailable"
    | Ok status =>
        m ← responseMeta meta RESULT_CODE_OK ""; mret (mkLockoutResponse m (Some status))
    end)
  end
  end.

Definition ResetLockout (ctx : option Context) (req : option ActorRequest) : IM LockoutResponse :=
  match req with
  | None => lockout_reply None RESULT_CODE_INVALID "actor is required"
  | Some req =>
  let meta := aq_Meta req in
  match target_actor (aq_Actor req) with
  | None => lockout_reply None RESULT_CODE_INVALID "actor is required"
  | Some a =>
  let '(ok, reason) := authorizeIdentityAdmin ctx meta in
  if negb ok then
    identity_auditDenied meta (ActorId a) "identity_reset_lockout" reason;;
    lockout_reply meta RESULT_CODE_DENIED reason
  else locked (
    e ← resetFailures (ActorId a) (ActorTypeOf a);
    match e with
    | Some _ => lockout_reply meta RESULT_CODE_ERROR "persistence unavailable"
    | None =>
    s ← lockoutStatus a;
    match s with
    | Err _ => lockout_reply meta RESULT_CODE_ERROR "persistence unavailable"
    | Ok status =>
        x ← identity_appendAudit meta (ActorId a) "identity_reset_lockout" "{}"
              (lockout_json (Some status)) ResultSuccess (aq_Reason req);
        match x with
        | Some _ => lockout_reply meta RESULT_CODE_ERROR "audit unavailable"
        | None =>
            m ← responseMeta meta RESULT_CODE_OK ""; mret (mkLockoutResponse m (Some status))
        end
    end
    end)
  end
  end.
End identity.
