(* ===== verification/IdentityProofs.v ===== *)
(** * What the identity service guarantees

    Without a database: the complete behaviour of Login, RefreshToken and
    Logout on the service's fields, and from it the lockout, the bound on
    password guesses, the single use of refresh tokens and the binding of a
    session to its actor.  With any database: no login without an active
    credential that matches. *)

From S2P Require Import Prelude GoTime GoJson GoNet AuditTrail Service Ledger Env Auth Identity.
From S2P Require Import RemoteAccess AuditService AuditProofs AuthProofs.

(** ** The effect on the service's fields *)

(** What no request of a client changes. *)
Definition policy (s : IdentityState) :=
  (tokenSigner s, accessTTL s, refreshTTL s, lockoutTTL s, maxFailures s, loginRateMax s,
   loginRateWindow s).

(** The built-in check of a secret. *)
Definition secret_ok (t : ActorTyp) (secret : string) : bool :=
  match t with
  | ACTOR_TYPE_PLAYER => bool_decide (secret = "1234")
  | ACTOR_TYPE_OPERATOR => bool_decide (secret = "operator-pass")
  | _ => false
  end.

(** The window of an attempt at time [t], this attempt included. *)
Definition rate_window (s : IdentityState) (key : string) (t : Time) : rateWindow :=
  let w := map_get (mkRateWindow zero_time 0) (loginRates s) key in
  let w := if IsZero (rw_start w) || (loginRateWindow s <=? t - rw_start w)
           then mkRateWindow t 0 else w in
  mkRateWindow (rw_start w) (wrap64 (rw_count w + 1)).

Definition rate_limited (s : IdentityState) (key : string) (t : Time) : bool :=
  (0 <? loginRateMax s) && (loginRateMax s <? rw_count (rate_window s key t)).

Definition rates_after (s : IdentityState) (key : string) (t : Time) : gmap string rateWindow :=
  if 0 <? loginRateMax s then <[key := rate_window s key t]> (loginRates s) else loginRates s.

Definition failures (s : IdentityState) (k : string) : Z := map_get 0 (failedAttempts s) k.
Definition locked_at (s : IdentityState) (k : string) (t : Time) : bool :=
  time_After (map_get zero_time (lockedUntil s) k) t.

(** The lockouts after one more failure at time [t]. *)
Definition locks_after (s : IdentityState) (k : string) (t : Time) : gmap string Time :=
  if maxFailures s <=? wrap64 (failures s k + 1)
  then <[k := t + lockoutTTL s]> (lockedUntil s) else lockedUntil s.

Definition token_refused (r : TokenResponse) (code : ResultCode) (reason : string) : Prop :=
  ResCode (tr_Meta r) = code ∧ DenialReason (tr_Meta r) = reason ∧ tr_Token r = None.

(** The credentials table of the service without a database is untouched. *)
Record same_vault (s s' : IdentityState) : Prop := {
  sv_sessions : refreshSessions s' = refreshSessions s;
  sv_failed : failedAttempts s' = failedAttempts s;
  sv_locked : lockedUntil s' = lockedUntil s }.

(** A session was opened: the response carries its token, and the session is
    stored under it, for the actor, until [refreshTTL] from now. *)
Definition opened (T : Time → Prop) (before : gmap string identitySession) (s' : IdentityState)
    (r : TokenResponse) (actorID : string) (actorType : ActorTyp) : Prop :=
  ∃ raw t x, T t ∧ ResCode (tr_Meta r) = RESULT_CODE_OK ∧ tr_Token r = Some x
    ∧ RefreshTokenOf x = RawURLEncoding raw ∧ st_Actor x = mkActor actorID actorType
    ∧ refreshSessions s' = <[RefreshTokenOf x := mkIdentitySession (RefreshTokenOf x) actorID
        actorType (t + refreshTTL s') false]> before.

(** What [Login] does with an accepted secret. *)
Definition login_accepted (T : Time → Prop) (s s' : IdentityState) (r : TokenResponse)
    (id : string) (ty : ActorTyp) : Prop :=
  failedAttempts s' = delete (lockKey id ty) (failedAttempts s)
  ∧ lockedUntil s' = delete (lockKey id ty) (lockedUntil s)
  ∧ (ResCode (tr_Meta r) = RESULT_CODE_ERROR ∧ tr_Token r = None
       ∧ refreshSessions s' = refreshSessions s
     ∨ opened T (refreshSessions s) s' r id ty).

(** ... and with a wrong one. *)
Definition login_rejected (T : Time → Prop) (s s' : IdentityState) (r : TokenResponse)
    (k : string) : Prop :=
  token_refused r RESULT_CODE_DENIED "invalid credentials"
  ∧ refreshSessions s' = refreshSessions s
  ∧ failedAttempts s' = <[k := wrap64 (failures s k + 1)]> (failedAttempts s)
  ∧ ∃ t, T t ∧ lockedUntil s' = locks_after s k t.

(** The whole of [Login] on a service without a database. *)
Definition login_post (T : Time → Prop) (req : option LoginRequest) (s s' : IdentityState)
    (r : TokenResponse) : Prop :=
  policy s' = policy s ∧
  match validateLoginRequest req with
  | inr reason => token_refused r RESULT_CODE_DENIED reason ∧ same_vault s s'
      ∧ loginRates s' = loginRates s
  | inl (id, ty) =>
      ∃ t t1, T t ∧ T t1 ∧
      let k := lockKey id ty in
      let rk := loginRateKey id ty in
      loginRates s' = rates_after s rk t ∧
      if rate_limited s rk t
      then token_refused r RESULT_CODE_DENIED "rate limit exceeded" ∧ same_vault s s'
      else if locked_at s k t1
      then token_refused r RESULT_CODE_DENIED "account locked" ∧ same_vault s s'
      else if secret_ok ty (default "" (login_secret <$> req))
      then login_accepted T s s' r id ty
      else login_rejected T s s' r k
  end.

Section mem.
Context {D : Type} `{!Wall, !Crypto, !JsonValid, !Random, !JWT, !Bcrypt, !AuditDB D, !IdentityDB D}.
Implicit Types (s : Svc D IdentityState) (σ : IdentityState) (evs : list Event).
Abbreviation mspec := (mspec (D := D)).

Lemma mspec_identity_denied T meta oid action reason h σ evs (Q : () → IdentityState → list Event → Prop) :
  (∀ e, Q () σ (evs ++ [e])) →
  mspec T (identity_auditDenied meta oid action reason) h σ evs Q.
Proof. intros HQ. unfold identity_auditDenied, identity_appendAudit. mstep. mstep. mstep. apply HQ. Qed.

(** The observers change nothing but their own records. *)
Definition observed_only (s s' : IdentityState) : Prop :=
  policy s' = policy s ∧ same_vault s s' ∧ loginRates s' = loginRates s.

Lemma observed_only_refl σ : observed_only σ σ.
Proof. by repeat split. Qed.

Lemma observed_only_trans σ1 σ2 σ3 :
  observed_only σ1 σ2 → observed_only σ2 σ3 → observed_only σ1 σ3.
Proof.
  intros (Hp & [Hs Hf Hl] & Hr) (Hp' & [Hs' Hf' Hl'] & Hr').
  split; [by rewrite Hp'|]. split; [|by rewrite Hr']. by split; congruence.
Qed.

Lemma mspec_observe_login T code ty h σ evs (Q : () → IdentityState → list Event → Prop) :
  (∀ σ', observed_only σ σ' → Q () σ' evs) → mspec T (observe_login code ty) h σ evs Q.
Proof.
  intros HQ. unfold observe_login. do 2 mstep. destruct (onLogin σ); mstep; apply HQ;
    by repeat split.
Qed.

Lemma mspec_observe_lockout T ty h σ evs (Q : () → IdentityState → list Event → Prop) :
  (∀ σ', observed_only σ σ' → Q () σ' evs) → mspec T (observe_lockout ty) h σ evs Q.
Proof.
  intros HQ. unfold observe_lockout. do 2 mstep. destruct (onLockout σ); mstep; apply HQ;
    by repeat split.
Qed.

Lemma mspec_login_reply T meta ty code reason h σ evs (Q : TokenResponse → IdentityState → list Event → Prop) :
  (∀ r σ', observed_only σ σ' → token_refused r code reason → Q r σ' evs) →
  mspec T (login_reply meta ty code reason) h σ evs Q.
Proof.
  intros HQ. unfold login_reply, token_reply. mstep. apply mspec_observe_login. intros σ' Hσ.
  msteps. by apply HQ.
Qed.

Lemma rateLimitExceeded_spec T id ty h σ evs :
  mspec T (rateLimitExceeded id ty) h σ evs (λ b σ' evs',
    evs' = evs ∧ ∃ t, T t ∧ b = Ok (rate_limited σ (loginRateKey id ty) t)
      ∧ σ' = σ <| loginRates := rates_after σ (loginRateKey id ty) t |>).
Proof.
  apply mspec_some_time. intros t0 Ht0. unfold rateLimitExceeded. do 2 mstep.
  unfold rate_limited, rates_after.
  destruct (Z.leb_spec (loginRateMax σ) 0) as [Hle|Hgt].
  - mstep. split; [done|]. exists t0. rewrite (proj2 (Z.ltb_ge 0 _)) by lia.
    split_and!; [done|done|by destruct σ].
  - rewrite (proj2 (Z.ltb_lt 0 _)) by lia. msteps. split; [done|]. eauto.
Qed.

Lemma checkLocked_spec T id ty h σ evs :
  mspec T (checkLocked id ty) h σ evs (λ b σ' evs',
    σ' = σ ∧ evs' = evs ∧ ∃ t, T t ∧ b = Ok (locked_at σ (lockKey id ty) t)).
Proof. unfold checkLocked. msteps. split_and!; eauto. Qed.

Lemma verifyCredentials_spec T id ty secret h σ evs :
  mspec T (verifyCredentials id ty secret) h σ evs (λ b σ' evs',
    σ' = σ ∧ evs' = evs ∧ b = Ok (secret_ok ty secret)).
Proof.
  unfold verifyCredentials, secret_ok. msteps.
  destruct (decide (ty = ACTOR_TYPE_PLAYER)) as [->|]; [by mstep|].
  destruct (decide (ty = ACTOR_TYPE_OPERATOR)) as [->|]; [by mstep|].
  mstep. by destruct ty.
Qed.

Lemma recordFailure_spec T id ty h σ evs :
  mspec T (recordFailure id ty) h σ evs (λ b σ' evs',
    evs' = evs ∧ (∃ v, b = Ok v) ∧ let k := lockKey id ty in
    policy σ' = policy σ ∧ loginRates σ' = loginRates σ
    ∧ refreshSessions σ' = refreshSessions σ
    ∧ failedAttempts σ' = <[k := wrap64 (failures σ k + 1)]> (failedAttempts σ)
    ∧ ∃ t, T t ∧ lockedUntil σ' = locks_after σ k t).
Proof.
  unfold recordFailure, locks_after. set (k := lockKey id ty). do 12 mstep.
  match goal with |- Service.mspec _ _ _ ?s1 _ _ => set (σ1 := s1) end.
  assert (map_get 0 (failedAttempts σ1) k = wrap64 (failures σ k + 1)) as ->.
  { unfold map_get at 1. simpl. by rewrite lookup_insert_eq. }
  change (maxFailures σ1) with (maxFailures σ). mstep.
  destruct (maxFailures σ <=? wrap64 (failures σ k + 1)); msteps; simpl; split_and!; eauto.
Qed.

Lemma mspec_resetFailures T id ty h σ evs (Q : option error → IdentityState → list Event → Prop) :
  Q None (σ <| failedAttempts ::= delete (lockKey id ty) |>
            <| lockedUntil ::= delete (lockKey id ty) |>) evs →
  mspec T (resetFailures id ty) h σ evs Q.
Proof. intros HQ. unfold resetFailures. by msteps. Qed.

Lemma mspec_signAccessToken T id ty h σ evs (Q : option (string * string) → IdentityState → list Event → Prop) :
  (∀ o, Q o σ evs) → mspec T (signAccessToken id ty) h σ evs Q.
Proof. intros HQ. unfold signAccessToken. msteps. apply HQ. Qed.

Lemma login_session_spec T meta id ty σ evs :
  mspec T (login_session meta id ty) true σ evs (λ r σ' evs',
    policy σ' = policy σ ∧ loginRates σ' = loginRates σ
    ∧ failedAttempts σ' = failedAttempts σ ∧ lockedUntil σ' = lockedUntil σ
    ∧ (ResCode (tr_Meta r) = RESULT_CODE_ERROR ∧ tr_Token r = None
         ∧ refreshSessions σ' = refreshSessions σ
       ∨ opened T (refreshSessions σ) σ' r id ty)).
Proof.
  assert (∀ σ' r reason, observed_only σ σ' → token_refused r RESULT_CODE_ERROR reason →
    policy σ' = policy σ ∧ loginRates σ' = loginRates σ
    ∧ failedAttempts σ' = failedAttempts σ ∧ lockedUntil σ' = lockedUntil σ
    ∧ (ResCode (tr_Meta r) = RESULT_CODE_ERROR ∧ tr_Token r = None
         ∧ refreshSessions σ' = refreshSessions σ
       ∨ opened T (refreshSessions σ) σ' r id ty)) as Herr.
  { intros σ' r reason (? & [? ? ?] & ?) (? & ? & ?). split_and!; auto. }
  unfold login_session. mstep. apply mspec_signAccessToken. intros [[access expiry]|];
    [|apply mspec_login_reply; eauto].
  mstep. apply mspec_randomToken; [|intros e; apply mspec_login_reply; eauto].
  intros raw. set (token := RawURLEncoding raw). msteps. apply mspec_or_else. msteps.
  unfold identity_appendAudit. msteps. apply mspec_observe_login.
  intros σ' (Hp & [Hs Hf Hl] & Hr). msteps. simpl in *. split_and!; try done.
  right. exists raw, t. eexists. split; [done|]. split; [done|]. split; [done|].
  simpl. split; [done|]. split; [done|]. rewrite Hs. unfold policy in Hp.
  injection Hp as _ _ Httl _ _ _ _. by rewrite Httl.
Qed.

Lemma Login_spec T req σ evs :
  mspec T (Login req) false σ evs (λ r σ' evs', login_post T req σ σ' r).
Proof.
  unfold Login, login_post. destruct (validateLoginRequest req) as [[id ty]|reason] eqn:Hv.
  2:{ destruct req; mstep; apply mspec_identity_denied; intros e; apply mspec_login_reply;
      intros r σ' (? & ? & ?) ?; by split_and!. }
  destruct req as [req|]; [|done]. mstep. simpl default.
  mstep. eapply mspec_mono; [apply rateLimitExceeded_spec|].
  intros b σ1 evs1 (-> & t & Ht & -> & ->). set (rk := loginRateKey id ty).
  set (σ1 := σ <| loginRates := rates_after σ rk t |>).
  apply mspec_some_time. intros t0 Ht0.
  assert (∀ σ', observed_only σ1 σ' → policy σ' = policy σ
    ∧ loginRates σ' = rates_after σ rk t ∧ same_vault σ σ') as Hobs.
  { intros σ' (Hp & [Hs Hf Hl] & Hr). by repeat split. }
  destruct (rate_limited σ rk t) eqn:Hlim; cbv iota.
  { mstep. apply mspec_identity_denied. intros e. apply mspec_login_reply.
    intros r σ' (? & ? & ?)%Hobs Hr. split; [done|]. exists t, t0. by rewrite Hlim. }
  mstep. eapply mspec_mono; [apply checkLocked_spec|].
  intros b σ2 evs2 (-> & -> & t1 & Ht1 & ->).
  change (locked_at σ1 (lockKey id ty) t1) with (locked_at σ (lockKey id ty) t1).
  destruct (locked_at σ (lockKey id ty) t1) eqn:Hlock; cbv iota.
  { mstep. apply mspec_identity_denied. intros e. apply mspec_login_reply.
    intros r σ' (? & ? & ?)%Hobs Hr. split; [done|]. exists t, t1. cbv zeta. fold rk.
    by rewrite Hlim, Hlock. }
  mstep. eapply mspec_mono; [apply verifyCredentials_spec|]. intros b σ3 evs3 (-> & -> & ->).
  destruct (secret_ok ty (login_secret req)) eqn:Hsec; cbv iota.
  - mstep. apply mspec_resetFailures. cbv iota.
    eapply mspec_mono; [apply login_session_spec|].
    intros r σ' evs' (Hp & Hr & Hf & Hl & Hout). split; [exact Hp|]. exists t, t1. cbv zeta.
    fold rk. rewrite Hlim, Hlock. do 2 (split; [done|]). split; [exact Hr|].
    split; [exact Hf|]. split; [exact Hl|exact Hout].
  - mstep. eapply mspec_mono; [apply recordFailure_spec|].
    intros b σ2 evs2 (-> & [v ->] & Hp & Hr & Hs & Hf & t2 & Ht2 & Hl). cbv zeta in *.
    assert (∀ σ', observed_only σ2 σ' → ∀ r,
      token_refused r RESULT_CODE_DENIED "invalid credentials" →
      policy σ' = policy σ ∧ loginRates σ' = rates_after σ rk t
      ∧ login_rejected T σ σ' r (lockKey id ty)) as Hdone.
    { intros σ' (Hp' & [Hs' Hf' Hl'] & Hr') r Hr2. split; [by rewrite Hp', Hp|].
      split; [by rewrite Hr', Hr|]. split; [done|]. rewrite Hs', Hf', Hl', Hs, Hf, Hl.
      split; [done|]. split; [done|]. by exists t2. }
    assert (∀ σ3, observed_only σ2 σ3 →
      mspec T (identity_auditDenied (li_Meta req) "" "identity_login" "invalid credentials";;
      login_reply (li_Meta req) ty RESULT_CODE_DENIED "invalid credentials") true σ3 evs
      (λ r σ' _, observed_only σ2 σ' ∧ token_refused r RESULT_CODE_DENIED "invalid credentials"))
      as Htail.
    { intros σ3 Ho. mstep. apply mspec_identity_denied. intros e. apply mspec_login_reply.
      intros r σ' Ho' Hr'. split; [|done]. by eapply observed_only_trans. }
    mstep. destruct v; [apply mspec_observe_lockout; intros σ3 Ho|mstep];
      (eapply mspec_mono; [apply Htail; (exact Ho || apply observed_only_refl)|]);
      intros r σ' evs' [Ho' Hr']; destruct (Hdone σ' Ho' r Hr') as (? & ? & ?);
      (split; [done|]); exists t, t1; cbv zeta; fold rk; by rewrite Hlim, Hlock.
Qed.

(** ** Refresh and logout *)

(** Nothing but the sessions may have changed. *)
Definition same_limits (s s' : IdentityState) : Prop :=
  policy s' = policy s ∧ loginRates s' = loginRates s
  ∧ failedAttempts s' = failedAttempts s ∧ lockedUntil s' = lockedUntil s.

(** The session a request may use at time [t]. *)
Definition usable (s : IdentityState) (q : TokenRequest) (t : Time) (sess : identitySession)
    : Prop :=
  ∃ a, token_actor q = Some a ∧ refreshSessions s !! tq_RefreshToken q = Some sess
    ∧ revoked sess = false ∧ t < is_expiresAt sess
    ∧ is_actorID sess = ActorId a ∧ is_actorType sess = ActorTypeOf a.

Definition refresh_post (T : Time → Prop) (req : option TokenRequest) (s s' : IdentityState)
    (r : TokenResponse) : Prop :=
  same_limits s s' ∧
  ((refreshSessions s' = refreshSessions s ∧ tr_Token r = None
    ∧ ResCode (tr_Meta r) ≠ RESULT_CODE_OK
    ∧ ∀ q, req = Some q → tq_RefreshToken q ≠ "" → token_actor q ≠ None →
        refreshSessions s !! tq_RefreshToken q = None →
        token_refused r RESULT_CODE_DENIED "invalid refresh token")
   ∨ ∃ q t sess, req = Some q ∧ T t ∧ usable s q t sess
      ∧ opened T (delete (tq_RefreshToken q) (refreshSessions s)) s' r
          (is_actorID sess) (is_actorType sess)).

Lemma actor_mismatch_false sess a :
  actor_mismatch sess a = false → is_actorID sess = ActorId a ∧ is_actorType sess = ActorTypeOf a.
Proof.
  unfold actor_mismatch. rewrite bool_decide_eq_false. intros Hn.
  destruct (decide (is_actorID sess = ActorId a)), (decide (is_actorType sess = ActorTypeOf a));
    tauto.
Qed.

Lemma rotate_spec T meta token sess σ evs :
  mspec T (rotate meta token sess) true σ evs (λ r σ' evs',
    same_limits σ σ' ∧
    (refreshSessions σ' = refreshSessions σ ∧ tr_Token r = None
       ∧ ResCode (tr_Meta r) = RESULT_CODE_ERROR
     ∨ opened T (delete token (refreshSessions σ)) σ' r (is_actorID sess) (is_actorType sess))).
Proof.
  unfold rotate, token_reply. mstep. apply mspec_signAccessToken. intros [[access expiry]|].
  2:{ msteps. split; [by repeat split|]. by left. }
  mstep. apply mspec_randomToken; [|intros e; msteps; split; [by repeat split|]; by left].
  intros raw. msteps. apply mspec_or_else. msteps. unfold identity_appendAudit. msteps.
  split; [by repeat split|]. right. exists raw, t. eexists. by repeat split.
Qed.

Lemma RefreshToken_spec T req σ evs :
  mspec T (RefreshToken req) false σ evs (λ r σ' evs', refresh_post T req σ σ' r).
Proof.
  unfold RefreshToken, refresh_post, token_reply.
  destruct req as [q|]; [|msteps; split; [by repeat split|]; left; by split_and!].
  destruct (decide (tq_RefreshToken q = "")) as [He|Hne].
  { msteps. split; [by repeat split|]. left. split_and!; [done..|]. by intros ? [= <-]. }
  destruct (token_actor q) as [a|] eqn:Ha.
  2:{ msteps. split; [by repeat split|]. left. split_and!; [done..|].
      intros ? [= <-]. by rewrite Ha. }
  do 2 mstep. unfold find_session. msteps.
  assert (∀ h, mspec T (identity_auditDenied (tq_Meta q) (tq_RefreshToken q) "identity_refresh"
      "invalid refresh token";; m ← responseMeta (tq_Meta q) RESULT_CODE_DENIED
      "invalid refresh token"; mret (mkTokenResponse m None)) h σ evs (λ r σ' _,
      σ' = σ ∧ token_refused r RESULT_CODE_DENIED "invalid refresh token")) as Hinv.
  { intros h. mstep. apply mspec_identity_denied. intros e. msteps. by repeat split. }
  assert (∀ r σ', σ' = σ ∧ token_refused r RESULT_CODE_DENIED "invalid refresh token" →
    refresh_post T (Some q) σ σ' r) as Hpost.
  { intros r σ' [-> (Hc & Hr & Ht)]. split; [by repeat split|]. left.
    split_and!; [done|done|by rewrite Hc|done]. }
  destruct (refreshSessions σ !! tq_RefreshToken q) as [sess|] eqn:Hs; cbv iota.
  2:{ eapply mspec_mono; [apply Hinv|]. intros r σ' evs'. apply Hpost. }
  destruct (revoked sess) eqn:Hrev.
  { eapply mspec_mono; [apply Hinv|]. intros r σ' evs'. apply Hpost. }
  do 2 mstep. destruct (time_After (is_expiresAt sess) t) eqn:Hexp; cbn [negb].
  2:{ eapply mspec_mono; [apply Hinv|]. intros r σ' evs'. apply Hpost. }
  destruct (actor_mismatch sess a) eqn:Hmis.
  { mstep. apply mspec_identity_denied. intros e. msteps. split; [by repeat split|]. left.
    split_and!; [done..|]. intros ? [= <-] _ _. congruence. }
  eapply mspec_mono; [apply rotate_spec|].
  intros r σ' evs' [Hl [(Hss & Hn & Hc)|Hop]]; (split; [done|]).
  - left. split_and!; [done|done|by rewrite Hc|]. intros ? [= <-] _ _. congruence.
  - right. exists q, t, sess. split_and!; [done|done| |done].
    apply actor_mismatch_false in Hmis as [? ?]. apply Z.ltb_lt in Hexp.
    exists a. by split_and!.
Qed.

Definition logout_post (req : option TokenRequest) (s s' : IdentityState) (r : PlainResponse)
    : Prop :=
  same_limits s s' ∧
  (refreshSessions s' = refreshSessions s ∧ ResCode (pr_Meta r) ≠ RESULT_CODE_OK
   ∨ ∃ q a sess, req = Some q ∧ token_actor q = Some a
       ∧ refreshSessions s !! tq_RefreshToken q = Some sess
       ∧ is_actorID sess = ActorId a ∧ is_actorType sess = ActorTypeOf a
       ∧ ResCode (pr_Meta r) = RESULT_CODE_OK
       ∧ refreshSessions s' = delete (tq_RefreshToken q) (refreshSessions s)).

Lemma Logout_spec T req σ evs :
  mspec T (Logout req) false σ evs (λ r σ' evs', logout_post req σ σ' r).
Proof.
  unfold Logout, logout_post, plain_reply.
  destruct req as [q|]; [|msteps; split; [by repeat split|]; by left].
  destruct (decide (tq_RefreshToken q = "")) as [He|Hne];
    [msteps; split; [by repeat split|]; by left|].
  destruct (token_actor q) as [a|] eqn:Ha; [|msteps; split; [by repeat split|]; by left].
  do 2 mstep. unfold find_session. msteps.
  destruct (refreshSessions σ !! tq_RefreshToken q) as [sess|] eqn:Hs; cbv iota.
  2:{ msteps. split; [by repeat split|]. by left. }
  destruct (actor_mismatch sess a) eqn:Hmis.
  { mstep. apply mspec_identity_denied. intros e. msteps. split; [by repeat split|]. by left. }
  msteps. apply mspec_or_else. msteps. unfold identity_appendAudit. msteps.
  split; [by repeat split|]. right. apply actor_mismatch_false in Hmis as [? ?].
  exists q, a, sess. by split_and!.
Qed.

(** ** Sequences of client requests *)

Inductive ireq :=
| ILogin (req : option LoginRequest)
| IRefresh (req : option TokenRequest)
| ILogout (req : option TokenRequest).

Inductive iresp := RToken (r : TokenResponse) | RPlain (r : PlainResponse).

Definition iserve (q : ireq) : M (Svc D IdentityState) iresp :=
  match q with
  | ILogin req => r ← Login req; mret (RToken r)
  | IRefresh req => r ← RefreshToken req; mret (RToken r)
  | ILogout req => r ← Logout req; mret (RPlain r)
  end.

(** The requests with their responses. *)
Fixpoint iserve_all (qs : list ireq) : M (Svc D IdentityState) (list (ireq * iresp)) :=
  match qs with
  | [] => mret []
  | q :: qs => r ← iserve q; rs ← iserve_all qs; mret ((q, r) :: rs)
  end.

(** The refresh token a response hands out. *)
Definition issued (x : ireq * iresp) : option string :=
  match x.2 with RToken r => RefreshTokenOf <$> tr_Token r | RPlain _ => None end.

Definition iserve_post (T : Time → Prop) (q : ireq) (s s' : IdentityState) (r : iresp) : Prop :=
  match q, r with
  | ILogin req, RToken r => login_post T req s s' r
  | IRefresh req, RToken r => refresh_post T req s s' r
  | ILogout req, RPlain r => logout_post req s s' r
  | _, _ => False
  end.

Lemma iserve_spec T q σ evs :
  mspec T (iserve q) false σ evs (λ r σ' _, iserve_post T q σ σ' r).
Proof.
  destruct q; simpl; mstep;
    (eapply mspec_mono; [apply Login_spec || apply RefreshToken_spec || apply Logout_spec|]);
    intros r σ' evs' Hr; by mstep.
Qed.

(** A property that each request carries along holds over a run. *)
Lemma iserve_all_ind T (P : list (ireq * iresp) → IdentityState → IdentityState → Prop) qs σ evs :
  (∀ σ, P [] σ σ) →
  (∀ q r rs σ σ1 σ', iserve_post T q σ σ1 r → P rs σ1 σ' → P ((q, r) :: rs) σ σ') →
  mspec T (iserve_all qs) false σ evs (λ rs σ' _, P rs σ σ' ∧ fst <$> rs = qs).
Proof.
  intros Hnil Hcons. revert σ evs. induction qs as [|q qs IH]; intros σ evs; simpl; [by mstep|].
  mstep. eapply mspec_mono; [apply iserve_spec|]. intros r σ1 evs1 Hr.
  mstep. eapply mspec_mono; [apply IH|]. intros rs σ2 evs2 [Hrs Hq]. mstep.
  split; [exact (Hcons _ _ _ _ _ _ Hr Hrs)|]. by rewrite fmap_cons, Hq.
Qed.

(** *** Refresh tokens *)

(** A token that names no session stays dead until it is issued. *)
Lemma iserve_dead T q r σ σ' tok :
  iserve_post T q σ σ' r → issued (q, r) ≠ Some tok →
  refreshSessions σ !! tok = None → refreshSessions σ' !! tok = None.
Proof.
  assert (∀ id ty r (m : gmap string identitySession),
    opened T m σ' r id ty → RefreshTokenOf <$> tr_Token r ≠ Some tok → m !! tok = None →
    refreshSessions σ' !! tok = None) as Hop.
  { intros id ty r0 m (raw & t & x & _ & _ & Hx & _ & _ & ->) Hi Hm. rewrite Hx in Hi. simpl in Hi.
    rewrite lookup_insert_ne by congruence. done. }
  destruct q as [req|req|req], r as [r|r]; simpl; try done.
  - intros [_ Hl] Hi Hd. destruct (validateLoginRequest req) as [[id ty]|].
    2:{ by destruct Hl as (_ & [-> _ _] & _). }
    destruct Hl as (t & t1 & _ & _ & _ & Hl). destruct (rate_limited _ _ _).
    { by destruct Hl as (_ & [-> _ _]). }
    destruct (locked_at _ _ _); [by destruct Hl as (_ & [-> _ _])|].
    destruct (secret_ok _ _).
    + destruct Hl as (_ & _ & [(_ & _ & ->)|Hl]); [done|]. by eapply Hop.
    + by destruct Hl as (_ & -> & _).
  - intros [_ [(-> & _)|(q & t & sess & _ & _ & _ & Hl)]] Hi Hd; [done|].
    eapply Hop; [done..|]. rewrite lookup_delete_None. by right.
  - intros [_ [[-> _]|(q & a & sess & _ & _ & _ & _ & _ & _ & ->)]] Hi Hd; [done|].
    rewrite lookup_delete_None. by right.
Qed.

(** Using up a token: a refresh with it, or a logout. *)
Definition spent (tok : string) (s s1 : Svc D IdentityState) : Prop :=
  (∃ q r, tq_RefreshToken q = tok ∧ RefreshToken (Some q) s = Done r s1
     ∧ ResCode (tr_Meta r) = RESULT_CODE_OK ∧ RefreshTokenOf <$> tr_Token r ≠ Some tok)
  ∨ (∃ q r, tq_RefreshToken q = tok ∧ Logout (Some q) s = Done r s1
     ∧ ResCode (pr_Meta r) = RESULT_CODE_OK).

Lemma spent_dead tok s s1 :
  in_memory s → spent tok s s1 → in_memory s1 ∧ refreshSessions (st s1) !! tok = None.
Proof.
  intros Hm [(q & r & Hq & E & Hok & Hne)|(q & r & Hq & E & Hok)].
  - destruct (mspec_run (λ _, True) _ _ _ _ _ E Hm (λ _, I) (RefreshToken_spec _ _ _ _))
      as (Hm1 & _ & _ & [(_ & _ & ? & _)|(q' & t & sess & [= <-] & _ & _ & Hop)]); [done|].
    split; [done|]. destruct Hop as (raw & t' & x & _ & _ & Hx & _ & _ & ->).
    rewrite Hx in Hne. simpl in Hne. rewrite lookup_insert_ne by congruence.
    subst tok. apply lookup_delete_eq.
  - destruct (mspec_run (λ _, True) _ _ _ _ _ E Hm (λ _, I) (Logout_spec _ _ _ _))
      as (Hm1 & _ & _ & [[_ ?]|(q' & a & sess & [= <-] & _ & _ & _ & _ & _ & ->)]); [done|].
    split; [done|]. subst tok. apply lookup_delete_eq.
Qed.

(** C19: a refresh token is good for one use: once it was exchanged or logged
    out, then after any further requests of clients every attempt to refresh
    with it is denied and changes no session, unless the generator issued the
    same 256-bit token again in between. *)
Theorem refresh_token_single_use tok s s1 qs rs s2 q r s3 :
  in_memory s → spent tok s s1 → iserve_all qs s1 = Done rs s2 →
  Forall (λ x, issued x ≠ Some tok) rs →
  tq_RefreshToken q = tok → tok ≠ "" → token_actor q ≠ None →
  RefreshToken (Some q) s2 = Done r s3 →
  token_refused r RESULT_CODE_DENIED "invalid refresh token"
  ∧ refreshSessions (st s3) = refreshSessions (st s2).
Proof.
  intros Hm Hspent Erun Hnew Hq Hne Ha E. destruct (spent_dead _ _ _ Hm Hspent) as [Hm1 Hdead].
  destruct (mspec_run (λ _, True) _ _ _ _ _ Erun Hm1 (λ _, I)
    (iserve_all_ind _ (λ rs σ σ', Forall (λ x, issued x ≠ Some tok) rs →
       refreshSessions σ !! tok = None → refreshSessions σ' !! tok = None) _ _ _
       (λ _ _ H, H) (λ q r rs σ σ1 σ' Hp Hrs Hall Hd,
          Hrs (proj2 (proj1 (Forall_cons _ _ _) Hall))
            (iserve_dead _ _ _ _ _ _ Hp (proj1 (proj1 (Forall_cons _ _ _) Hall)) Hd))))
    as (Hm2 & _ & Hkeep & _).
  specialize (Hkeep Hnew Hdead).
  destruct (mspec_run (λ _, True) _ _ _ _ _ E Hm2 (λ _, I) (RefreshToken_spec _ _ _ _))
    as (_ & _ & _ & [(Hs & _ & _ & Hr)|(q' & t & sess & [= <-] & _ & (a & _ & Hl & _) & _)]).
  - split; [|done]. by apply (Hr q); rewrite ?Hq.
  - congruence.
Qed.

(** *** Guessing secrets *)

Lemma lockKey_inj id ty id' ty' :
  has_char pipe (ActorTyp_String ty) = false → has_char pipe (ActorTyp_String ty') = false →
  lockKey id ty = lockKey id' ty' → id = id' ∧ ActorTyp_String ty = ActorTyp_String ty'.
Proof.
  unfold lockKey. intros Hp Hp' E. by destruct (split_first _ _ _ _ _ Hp Hp' E) as [-> ->].
Qed.

(** Logins are for players and operators. *)
Lemma login_types req id ty :
  validateLoginRequest req = inl (id, ty) → ty = ACTOR_TYPE_PLAYER ∨ ty = ACTOR_TYPE_OPERATOR.
Proof.
  unfold validateLoginRequest. intros H'. repeat case_match; simplify_eq; auto.
Qed.

Definition login_type (ty : ActorTyp) : Prop := ty = ACTOR_TYPE_PLAYER ∨ ty = ACTOR_TYPE_OPERATOR.

Lemma login_keys id ty id' ty' :
  login_type ty → login_type ty' → lockKey id ty = lockKey id' ty' → id = id' ∧ ty = ty'.
Proof.
  intros Hty Hty' E.
  destruct (lockKey_inj id ty id' ty') as [-> Ht]; [by destruct Hty as [->| ->]|
    by destruct Hty' as [->| ->]|done|]. split; [done|].
  destruct Hty as [->| ->], Hty' as [->| ->]; done.
Qed.

(** A request that tried a wrong secret for an actor, and was told so. *)
Definition guess (id : string) (ty : ActorTyp) (x : ireq * iresp) : bool :=
  match x with
  | (ILogin req, RToken r) =>
      bool_decide (validateLoginRequest req = inl (id, ty))
      && bool_decide (DenialReason (tr_Meta r) = "invalid credentials")
  | _ => false
  end.

Definition guesses (id : string) (ty : ActorTyp) (rs : list (ireq * iresp)) : Z :=
  Z.of_nat (length (List.filter (guess id ty) rs)).

(** A request that has no right secret for an actor. *)
Definition ignorant (id : string) (ty : ActorTyp) (q : ireq) : Prop :=
  match q with
  | ILogin req => validateLoginRequest req = inl (id, ty) →
      secret_ok ty (default "" (login_secret <$> req)) = false
  | _ => True
  end.

(** How many guesses are left until [deadline]. *)
Definition budget (k : string) (deadline : Time) σ : Z :=
  if deadline <=? map_get zero_time (lockedUntil σ) k then 0
  else Z.max 1 (maxFailures σ - failures σ k).

(** The next failure of a key is counted without wrapping around, or cannot
    happen before [deadline]. *)
Definition live (k : string) (deadline : Time) σ : Prop :=
  deadline ≤ map_get zero_time (lockedUntil σ) k ∨ 0 ≤ failures σ k < int64_max.

(** A request that leaves an actor's counters alone. *)
Lemma budget_same k deadline σ σ' :
  policy σ' = policy σ → map_get 0 (failedAttempts σ') k = map_get 0 (failedAttempts σ) k →
  map_get zero_time (lockedUntil σ') k = map_get zero_time (lockedUntil σ) k →
  budget k deadline σ' = budget k deadline σ ∧ (live k deadline σ → live k deadline σ').
Proof.
  intros Hp Hf Hl. unfold live, budget, failures. rewrite Hf, Hl. unfold policy in Hp.
  by injection Hp as _ _ _ _ -> _ _.
Qed.

Lemma map_get_insert_ne {V} (d : V) (m : gmap string V) i j v :
  i ≠ j → map_get d (<[i := v]> m) j = map_get d m j.
Proof. intros ?. unfold map_get. by rewrite lookup_insert_ne. Qed.
Lemma map_get_insert_eq {V} (d : V) (m : gmap string V) i v : map_get d (<[i := v]> m) i = v.
Proof. unfold map_get. by rewrite lookup_insert_eq. Qed.
Lemma map_get_delete_ne {V} (d : V) (m : gmap string V) i j :
  i ≠ j → map_get d (delete i m) j = map_get d m j.
Proof. intros ?. unfold map_get. by rewrite lookup_delete_ne. Qed.

(** A wrong guess uses up one unit of the budget. *)
Lemma rejected_budget lo σ σ' r k t1 :
  let T t := lo ≤ t < lo + lockoutTTL σ in
  T t1 → locked_at σ k t1 = false → policy σ' = policy σ → maxFailures σ ≤ int64_max →
  live k (lo + lockoutTTL σ) σ → login_rejected T σ σ' r k →
  budget k (lo + lockoutTTL σ) σ' + 1 ≤ budget k (lo + lockoutTTL σ) σ
  ∧ live k (lo + lockoutTTL σ) σ'.
Proof.
  intros T [Ht1 Ht1'] Hlock Hp Hmaxi Hlive (_ & _ & Hfail & t & [Ht Ht'] & Hl).
  unfold locked_at, time_After in Hlock. apply Z.ltb_ge in Hlock.
  destruct Hlive as [?|Hf]; [lia|].
  assert (wrap64 (failures σ k + 1) = failures σ k + 1) as Hw
    by (apply wrap64_id; unfold in_int64, int64_min, int64_max in *; lia).
  assert (failures σ' k = failures σ k + 1) as Hf'
    by (unfold failures at 1; by rewrite Hfail, map_get_insert_eq).
  assert (maxFailures σ' = maxFailures σ) as Hmax by (unfold policy in Hp; by injection Hp).
  unfold live, budget. rewrite Hf', Hmax, Hl. unfold locks_after. rewrite Hw.
  rewrite (proj2 (Z.leb_gt (lo + _) (map_get zero_time (lockedUntil σ) k))) by lia.
  destruct (Z.leb_spec (maxFailures σ) (failures σ k + 1)).
  - rewrite map_get_insert_eq, (proj2 (Z.leb_le _ _)) by lia. lia.
  - rewrite (proj2 (Z.leb_gt (lo + _) (map_get zero_time (lockedUntil σ) k))) by lia. lia.
Qed.

(** One request against the budget of an actor. *)
Lemma guess_step lo σ σ' q r id ty :
  let T t := lo ≤ t < lo + lockoutTTL σ in
  let k := lockKey id ty in
  let deadline := lo + lockoutTTL σ in
  login_type ty → maxFailures σ ≤ int64_max → live k deadline σ →
  iserve_post T q σ σ' r → ignorant id ty q →
  policy σ' = policy σ ∧ live k deadline σ'
  ∧ budget k deadline σ' + (if guess id ty (q, r) then 1 else 0) ≤ budget k deadline σ.
Proof.
  intros T k deadline Hty Hmax Hlive Hpost Hig.
  assert (∀ (b : bool), policy σ' = policy σ → (b = true → False) →
    map_get 0 (failedAttempts σ') k = map_get 0 (failedAttempts σ) k →
    map_get zero_time (lockedUntil σ') k = map_get zero_time (lockedUntil σ) k →
    policy σ' = policy σ ∧ live k deadline σ'
    ∧ budget k deadline σ' + (if b then 1 else 0) ≤ budget k deadline σ) as Hsame.
  { intros b Hp Hb Hf Hl. destruct (budget_same k deadline σ σ' Hp Hf Hl) as [-> Hlv].
    split_and!; [done|auto|]. destruct b; [by destruct Hb|lia]. }
  destruct q as [req|req|req], r as [r|r]; try done; simpl in Hpost.
  2:{ destruct Hpost as [(Hp & _ & Hf & Hl) _]. apply Hsame; by rewrite ?Hf, ?Hl. }
  2:{ destruct Hpost as [(Hp & _ & Hf & Hl) _]. apply Hsame; by rewrite ?Hf, ?Hl. }
  destruct Hpost as [Hp Hpost]. unfold guess.
  destruct (validateLoginRequest req) as [[id' ty']|reason] eqn:Hv.
  2:{ destruct Hpost as ((_ & _ & _) & [_ Hf Hl] & _). apply Hsame; by rewrite ?Hf, ?Hl. }
  destruct Hpost as (t & t1 & Ht & Ht1 & _ & Hpost). cbv zeta in Hpost.
  destruct (rate_limited _ _ _).
  { destruct Hpost as ((_ & Hr & _) & [_ Hf Hl]). rewrite Hr.
    apply Hsame; rewrite ?Hf, ?Hl, ?andb_true_iff, ?bool_decide_eq_true; try done. by intros []. }
  destruct (locked_at σ (lockKey id' ty') t1) eqn:Hlock.
  { destruct Hpost as ((_ & Hr & _) & [_ Hf Hl]). rewrite Hr.
    apply Hsame; rewrite ?Hf, ?Hl, ?andb_true_iff, ?bool_decide_eq_true; try done. by intros []. }
  destruct (decide ((id', ty') = (id, ty))) as [[= -> ->]|Hne].
  - simpl in Hig. rewrite Hv in Hig. rewrite (Hig eq_refl) in Hpost.
    destruct (rejected_budget lo σ σ' r k t1 Ht1 Hlock Hp Hmax Hlive Hpost) as [Hb Hlv].
    fold deadline in Hb. split_and!; [done|done|]. destruct (_ && _); lia.
  - assert (lockKey id' ty' ≠ k) as Hk.
    { intros E. apply login_keys in E as [-> ->]; [done| |done]. by eapply login_types. }
    rewrite bool_decide_false by congruence. cbn [andb].
    destruct (secret_ok _ _).
    + destruct Hpost as (Hf & Hl & _). apply (Hsame false); try done;
        rewrite ?Hf, ?Hl; by apply map_get_delete_ne.
    + destruct Hpost as (_ & _ & Hf & t2 & _ & Hl). apply (Hsame false); try done.
      * rewrite Hf. by apply map_get_insert_ne.
      * rewrite Hl. unfold locks_after. case_match; [by apply map_get_insert_ne|done].
Qed.

Lemma budget_nonneg k deadline σ : 0 ≤ budget k deadline σ.
Proof. unfold budget. case_match; lia. Qed.

(** C20: guessing is bounded: over any requests of clients within one lockout
    period, in which nobody presents the right secret of an actor, at most
    [maxFailures] wrong secrets are tried for it, fewer by the failures already
    counted (and at least one, since a count that is past the limit locks again
    only at the next failure). *)
Theorem login_guesses_bounded lo s qs rs s' id ty :
  in_memory s → iserve_all qs s = Done rs s' → login_type ty →
  (∀ n, lo ≤ reading s n < lo + lockoutTTL (st s)) →
  maxFailures (st s) ≤ int64_max → 0 ≤ failures (st s) (lockKey id ty) < int64_max →
  Forall (ignorant id ty) qs →
  guesses id ty rs ≤ Z.max 1 (maxFailures (st s) - failures (st s) (lockKey id ty)).
Proof.
  intros Hm E Hty Hclock Hmax Hf Hig.
  set (k := lockKey id ty). set (ttl := lockoutTTL (st s)) in *.
  set (T t := lo ≤ t < lo + ttl).
  set (P (rs : list (ireq * iresp)) (σ _ : IdentityState) :=
    lockoutTTL σ = ttl → maxFailures σ ≤ int64_max → live k (lo + ttl) σ →
    Forall (ignorant id ty) (fst <$> rs) → guesses id ty rs ≤ budget k (lo + ttl) σ).
  assert (∀ q r rs σ σ1 σ', iserve_post T q σ σ1 r → P rs σ1 σ' → P ((q, r) :: rs) σ σ') as Hcons.
  { intros q r rs0 σ σ1 σ2 Hpost HP Httl Hmx Hlive [Hq Hqs]%Forall_cons.
    unfold T in Hpost. rewrite <- Httl in Hpost, Hlive |- *.
    destruct (guess_step lo σ σ1 q r id ty Hty Hmx Hlive Hpost Hq) as (Hp & Hlv & Hb).
    assert (lockoutTTL σ1 = lockoutTTL σ ∧ maxFailures σ1 = maxFailures σ) as [Ht1 Hm1]
      by (unfold policy in Hp; by injection Hp).
    unfold P in HP. rewrite Ht1, Hm1, <- Httl in HP. specialize (HP eq_refl Hmx Hlv Hqs).
    unfold guesses in *. cbn [List.filter]. fold k in Hb.
    destruct (guess id ty (q, r)); cbn [length]; lia. }
  assert (∀ σ, P [] σ σ) as Hnil by (intros σ _ _ _ _; apply budget_nonneg).
  destruct (mspec_run T _ _ _ _ _ E Hm Hclock (iserve_all_ind T P qs _ _ Hnil Hcons))
    as (_ & _ & Hb & Hqs).
  unfold P in Hb. rewrite Hqs in Hb. specialize (Hb eq_refl Hmax (or_intror Hf) Hig).
  unfold budget in Hb. fold k. case_match; lia.
Qed.

(** C26: on a service without a database Login, RefreshToken and Logout always
    answer, and do what [login_post], [refresh_post] and [logout_post] say:
    which of the outcomes is due, the response, and every field of the state
    that decides about later requests. *)
Theorem identity_requests_exact s :
  in_memory s →
  (∀ req, ∃ r s', Login req s = Done r s' ∧ in_memory s'
     ∧ login_post (λ t, ∃ n, t = reading s n) req (st s) (st s') r)
  ∧ (∀ req, ∃ r s', RefreshToken req s = Done r s' ∧ in_memory s'
     ∧ refresh_post (λ t, ∃ n, t = reading s n) req (st s) (st s') r)
  ∧ (∀ req, ∃ r s', Logout req s = Done r s' ∧ in_memory s'
     ∧ logout_post req (st s) (st s') r).
Proof.
  intros Hm. set (T t := ∃ n, t = reading s n).
  assert (∀ n, T (reading s n)) as HT by (intros n; by exists n).
  split_and!; intros req.
  - destruct (mspec_call T _ s _ Hm HT (Login_spec T req _ _)) as (r & s' & E & ? & _ & ?). eauto.
  - destruct (mspec_call T _ s _ Hm HT (RefreshToken_spec T req _ _)) as (r & s' & E & ? & _ & ?).
    eauto.
  - destruct (mspec_call T _ s _ Hm HT (Logout_spec T req _ _)) as (r & s' & E & ? & _ & ?). eauto.
Qed.

(** While an actor is locked out no login succeeds, whatever the secret: it
    is denied, without a token, and neither the sessions nor the failure counts
    nor the lockouts change. *)
Theorem login_lockout_denies s req id ty :
  in_memory s → validateLoginRequest req = inl (id, ty) →
  (∀ n, reading s n < map_get zero_time (lockedUntil (st s)) (lockKey id ty)) →
  ∃ r s', Login req s = Done r s' ∧ ResCode (tr_Meta r) = RESULT_CODE_DENIED
    ∧ tr_Token r = None ∧ same_vault (st s) (st s').
Proof.
  intros Hm Hv Hclock.
  destruct (mspec_call (λ t, t < map_get zero_time (lockedUntil (st s)) (lockKey id ty)) _ s _ Hm
    Hclock (Login_spec _ req _ _)) as (r & s' & E & _ & _ & _ & Hl).
  rewrite Hv in Hl. exists r, s'. split; [done|].
  destruct Hl as (t & t1 & _ & Ht1 & _ & Hl). cbv zeta in Hl.
  assert (locked_at (st s) (lockKey id ty) t1 = true) as Hlock by by apply Z.ltb_lt.
  destruct (rate_limited _ _ _); [by destruct Hl as ((? & _ & ?) & ?)|].
  rewrite Hlock in Hl. by destruct Hl as ((? & _ & ?) & ?).
Qed.

(** ** With any database *)

Lemma wlp_reply_code meta ty code reason s :
  wlp (login_reply meta ty code reason) (λ r _, ResCode (tr_Meta r) = code) s.
Proof.
  unfold login_reply. eapply post_seq; [apply wlp_true|]. intros [] s1 _.
  unfold token_reply. eapply post_seq; [|intros m s2 Hm; apply post_ret; exact Hm].
  unfold responseMeta. eapply post_seq; [apply wlp_true|]. intros t s2 _. by apply post_ret.
Qed.

Definition db_mode s : Prop := is_Some (db (base s)).

Lemma wlp_run_db {A} (f : D → A * D) s :
  wlp (run_db f) (λ a s', db_mode s' ∧ ∃ d, a = (f d).1) s.
Proof.
  unfold run_db, post. destruct (db (base s)) as [d|]; [|done].
  destruct (f d) as [a d'] eqn:E. split; [by eexists|]. exists d. by rewrite E.
Qed.

Lemma wlp_now_db s : db_mode s → wlp now (λ _ s', db_mode s') s.
Proof. intros Hs. by eapply post_done; [apply now_eq|]. Qed.

Lemma wlp_dbEnabled {B} (k : bool → M (Svc D IdentityState) B) Q s :
  db_mode s → wlp (k true) Q s → wlp (dbEnabled ≫= k) Q s.
Proof.
  intros [d Hd] Hk. apply post_bind, post_gets. by rewrite Hd.
Qed.

Lemma rateLimitExceeded_db id ty s : db_mode s → wlp (rateLimitExceeded id ty) (λ _ s', db_mode s') s.
Proof.
  intros Hs. unfold rateLimitExceeded. apply post_bind, post_gets.
  destruct (_ <=? 0); [by apply post_ret|]. apply wlp_dbEnabled; [done|].
  apply post_bind, post_gets. eapply post_seq; [apply wlp_run_db|].
  intros r s1 [? _]. by apply post_ret.
Qed.

Lemma checkLocked_db id ty s : db_mode s → wlp (checkLocked id ty) (λ _ s', db_mode s') s.
Proof.
  intros Hs. unfold checkLocked. apply wlp_dbEnabled; [done|].
  eapply post_seq; [apply wlp_run_db|]. intros [[until|]|e] s1 [Hs1 _]; try by apply post_ret.
  eapply post_seq; [by apply wlp_now_db|]. intros t s2 Hs2. by apply post_ret.
Qed.

(** The database holds an active credential that the secret matches. *)
Definition credential_matches (id : string) (ty : ActorTyp) (secret : string) : Prop :=
  ∃ d hash, (q_credential id (ActorTyp_String ty) d).1 = Ok (Some (hash, "active"))
    ∧ bcrypt_Compare hash secret = true.

Lemma verifyCredentials_db id ty secret s :
  db_mode s →
  wlp (verifyCredentials id ty secret) (λ b _, b = Ok true → credential_matches id ty secret) s.
Proof.
  intros Hs. unfold verifyCredentials. apply wlp_dbEnabled; [done|].
  eapply post_seq; [apply wlp_run_db|]. intros r s1 [_ [d ->]]. apply post_ret.
  destruct (q_credential _ _ d) as [[[[hash status]|]|e] d'] eqn:E; simpl; try done.
  destruct (decide (status ≠ "active")) as [|Hst]; [done|]. apply dec_stable in Hst as ->.
  intros [= Hc]. exists d, hash. by rewrite E.
Qed.

(** C34: with a database, whatever it does, a login succeeds only if the table
    returned an active credential of that actor and bcrypt accepts the secret
    for its hash. *)
Theorem login_db_sound s req r s' :
  db_mode s → Login (Some req) s = Done r s' → ResCode (tr_Meta r) = RESULT_CODE_OK →
  ∃ id ty, validateLoginRequest (Some req) = inl (id, ty)
    ∧ credential_matches id ty (login_secret req).
Proof.
  intros Hs E Hok. revert Hok.
  refine (post_elim True _ (λ r _, ResCode (tr_Meta r) = RESULT_CODE_OK → _) _ _ _ _ E).
  assert (∀ meta ty code reason s (P : Prop), code ≠ RESULT_CODE_OK →
    wlp (login_reply meta ty code reason) (λ r _, ResCode (tr_Meta r) = RESULT_CODE_OK → P) s) as Hno.
  { intros meta ty code reason s0 P Hc. eapply post_mono; [apply wlp_reply_code|].
    intros r0 s1 ->. done. }
  assert (∀ {A} (m : M (Svc D IdentityState) A) k (P : TokenResponse → Prop) s,
    (∀ a s, wlp (k a) (λ r _, P r) s) → wlp (m ≫= k) (λ r _, P r) s) as Hskip.
  { intros A m k P s0 Hk. eapply post_seq; [apply wlp_true|]. intros a s1 _. apply Hk. }
  unfold Login. destruct (validateLoginRequest (Some req)) as [[id ty]|reason].
  2:{ apply Hskip. intros a s1. by apply Hno. }
  apply post_bind. unfold lock, post at 1. destruct (mu (base s)); [done|].
  match goal with |- wlp _ _ ?x => assert (db_mode x) as Hs1 by exact Hs; clear Hs; revert Hs1;
    generalize x; intros s1 Hs1 end.
  apply post_bind.
  eapply post_mono with (P := λ r _, ResCode (tr_Meta r) = RESULT_CODE_OK →
    credential_matches id ty (login_secret req)).
  2:{ intros r0 s2 Hr. apply post_bind, post_modify, post_ret. eauto. }
  apply post_on_panic. eapply post_seq; [by apply rateLimitExceeded_db|]. intros [[|]|e] s2 Hs2; [| |by apply Hno].
  { apply Hskip. intros a s3. by apply Hno. }
  eapply post_seq; [by apply checkLocked_db|]. intros [[|]|e] s3 Hs3; [| |by apply Hno].
  { apply Hskip. intros a s4. by apply Hno. }
  eapply post_seq; [by apply verifyCredentials_db|]. intros [[|]|e] s4 Hcred; [| |by apply Hno].
  - eapply post_mono; [apply wlp_true|]. intros r0 s5 _ _. by apply Hcred.
  - do 3 (apply Hskip; intros ? ?). by apply Hno.
Qed.

(** ** Administration *)

(** Credentials and lockouts are administered by operators and services
    only: from any other actor the five requests are denied, and on a service
    without a database leave its state as it was. *)
Theorem identity_admin_only s ctx reason :
  in_memory s →
  (∀ req r s' a, target_actor (sc_Actor req) = Some a → sc_CredentialHash req ≠ "" →
     authorizeIdentityAdmin ctx (sc_Meta req) = (false, reason) →
     SetCredential ctx (Some req) s = Done r s' →
     ResCode (pr_Meta r) = RESULT_CODE_DENIED ∧ DenialReason (pr_Meta r) = reason ∧ st s' = st s)
  ∧ (∀ action status req r s' a, target_actor (aq_Actor req) = Some a →
     authorizeIdentityAdmin ctx (aq_Meta req) = (false, reason) →
     set_status action status ctx (Some req) s = Done r s' →
     ResCode (pr_Meta r) = RESULT_CODE_DENIED ∧ DenialReason (pr_Meta r) = reason ∧ st s' = st s)
  ∧ (∀ req r s' a, target_actor (aq_Actor req) = Some a →
     authorizeIdentityAdmin ctx (aq_Meta req) = (false, reason) →
     (GetLockout ctx (Some req) s = Done r s' ∨ ResetLockout ctx (Some req) s = Done r s') →
     ResCode (lkr_Meta r) = RESULT_CODE_DENIED ∧ lkr_Status r = None ∧ st s' = st s).
Proof.
  intros Hm.
  assert (∀ A (f : ResponseMeta → A) meta oid action (P : A → Prop) h σ evs,
    (∀ m, ResCode m = RESULT_CODE_DENIED → DenialReason m = reason → P (f m)) →
    mspec (λ _, True) (identity_auditDenied meta oid action reason;;
      m ← responseMeta meta RESULT_CODE_DENIED reason; mret (f m)) h σ evs
      (λ r σ' _, σ' = σ ∧ P r)) as Hden.
  { intros A f meta oid action P h σ evs HP. mstep. apply mspec_identity_denied. intros e.
    msteps. by split; [|apply HP]. }
  split_and!.
  - intros req r s' a Ha Hh Hau E. unfold SetCredential in E. rewrite Ha, Hau in E.
    rewrite decide_False in E by done. cbn [negb] in E.
    destruct (mspec_run (λ _, True) _ _ _ _ _ E Hm (λ _, I) (Hden _ mkPlainResponse _ _ _
      (λ r, ResCode (pr_Meta r) = RESULT_CODE_DENIED ∧ DenialReason (pr_Meta r) = reason) _ _ _
      (λ m Hc Hr, conj Hc Hr))) as (_ & _ & Hst & ? & ?). by split_and!.
  - intros action status req r s' a Ha Hau E. unfold set_status in E. rewrite Ha, Hau in E.
    cbn [negb] in E.
    destruct (mspec_run (λ _, True) _ _ _ _ _ E Hm (λ _, I) (Hden _ mkPlainResponse _ _ _
      (λ r, ResCode (pr_Meta r) = RESULT_CODE_DENIED ∧ DenialReason (pr_Meta r) = reason) _ _ _
      (λ m Hc Hr, conj Hc Hr))) as (_ & _ & Hst & ? & ?). by split_and!.
  - intros req r s' a Ha Hau [E|E]; [unfold GetLockout in E|unfold ResetLockout in E];
      rewrite Ha, Hau in E; cbn [negb] in E;
      destruct (mspec_run (λ _, True) _ _ _ _ _ E Hm (λ _, I) (Hden _
        (λ m, mkLockoutResponse m None) _ _ _
        (λ r, ResCode (lkr_Meta r) = RESULT_CODE_DENIED ∧ lkr_Status r = None) _ _ _
        (λ m Hc Hr, conj Hc eq_refl))) as (_ & _ & Hst & ? & ?); by split_and!.
Qed.
End mem.

(** ** Concrete instances *)

Import Concrete.

#[export] Instance env_bcrypt : Bcrypt := {|
  bcrypt_Compare hash secret := bool_decide (hash = "hash:" +:+ secret);
  bcrypt_Cost _ := Some 10; bcrypt_DefaultCost := 10 |}.

(** A database with one active credential. *)
#[export] Instance env_identity_db : IdentityDB () := {|
  q_login_attempts _ _ _ d := (Ok 1, d);
  q_lockout _ _ d := (Ok None, d);
  x_lockout_failure _ _ _ _ d := (Ok (), d);
  x_lockout_reset _ _ d := (Ok (), d);
  q_credential id _ d :=
    (Ok (if decide (id = "alice") then Some ("hash:pw", "active") else None), d);
  x_credential_hash _ _ _ d := (Ok (), d);
  x_credential_status _ _ _ d := (Ok 1, d);
  q_active_credentials d := (Ok 1, d);
  q_lockout_status _ _ d := (Ok None, d);
  x_identity_session _ _ _ _ _ d := (Ok (), d);
  q_identity_session _ d := (Ok None, d);
  x_identity_revoke _ d := (Ok (), d);
  x_identity_insert _ _ _ _ _ d := (Ok (), d);
  x_identity_cleanup _ d := (Ok 0, d) |}.

Definition ex_signer : JWTSigner := mkSigner "default" {[ "default" := "s3cret" ]}.

(** A service of two failures per minute, whose clock stands at [t]. *)
Definition ex_identity (t : Time) (d : option ()) : Svc () IdentityState :=
  mkSvc (mkBase (Some (λ _, t)) (Some NewInMemoryStore) false 0 d 0)
    (mkIdentity ∅ ∅ ∅ (Some ex_signer) Minute Hour Minute 2 60 Minute ∅ false false [] []).

Definition alice_meta : option RequestMeta :=
  Some (mkRequestMeta "r" "" (Some (mkActor "alice" ACTOR_TYPE_PLAYER))).
Definition ex_login (pin : string) : option LoginRequest :=
  Some (mkLoginRequest alice_meta (Some (LoginPlayer (Some ("alice", pin))))).

Definition ex_now : Time := 1704067200 * Second.

Lemma ex_identity_in_memory t : in_memory (ex_identity t None).
Proof. split; [done|done|]. eexists. split; [done|apply NewInMemoryStore_chain_ok]. Qed.

(** Two wrong pins lock the account; then the right one is denied too. *)
Example ex_lockout :
  match iserve_all [ILogin (ex_login "0000"); ILogin (ex_login "1111"); ILogin (ex_login "1234")]
    (ex_identity ex_now None) with
  | Done rs s => (λ x : ireq * iresp, match x.2 with
      RToken r => DenialReason (tr_Meta r) | RPlain _ => "" end) <$> rs
      = ["invalid credentials"; "invalid credentials"; "account locked"]
  | _ => False
  end.
Proof. vm_compute. reflexivity. Qed.

Lemma login_guesses_bounded_witness :
  match iserve_all [ILogin (ex_login "0000"); ILogin (ex_login "1111"); ILogin (ex_login "2222")]
    (ex_identity ex_now None) with
  | Done rs _ => guesses "alice" ACTOR_TYPE_PLAYER rs ≤ 2
  | _ => False
  end.
Proof.
  assert (match iserve_all [ILogin (ex_login "0000"); ILogin (ex_login "1111");
    ILogin (ex_login "2222")] (ex_identity ex_now None) with Done _ _ => True | _ => False end)
    as Hr by (vm_compute; exact I).
  destruct (iserve_all _ _) as [rs s'| |] eqn:E; [|exact Hr..].
  refine (login_guesses_bounded ex_now _ _ rs s' "alice" ACTOR_TYPE_PLAYER
    (ex_identity_in_memory _) E (or_introl eq_refl) _ _ _ _).
  - intros n. unfold reading. cbn -[ex_now Minute]. unfold Minute, Second. lia.
  - vm_compute. discriminate.
  - split; [vm_compute; discriminate|vm_compute; reflexivity].
  - repeat constructor.
Defined.

Definition ex_locked : Svc () IdentityState :=
  (ex_identity ex_now None) <| st ::= λ s, s <| lockedUntil :=
    {[ lockKey "alice" ACTOR_TYPE_PLAYER := ex_now + Minute ]} |> |>.

Lemma in_memory_st {D S} `{!Crypto} (s : Svc D S) f : in_memory s → in_memory (s <| st ::= f |>).
Proof. intros [Hd Hm Hs]. by split. Qed.

Lemma ex_locked_in_memory : in_memory ex_locked.
Proof. apply in_memory_st, ex_identity_in_memory. Qed.

Lemma login_lockout_denies_witness :
  ∃ r s', Login (ex_login "1234") ex_locked = Done r s'
    ∧ ResCode (tr_Meta r) = RESULT_CODE_DENIED ∧ tr_Token r = None
    ∧ same_vault (st ex_locked) (st s').
Proof.
  refine (login_lockout_denies ex_locked (ex_login "1234") "alice" ACTOR_TYPE_PLAYER _ eq_refl _).
  - exact ex_locked_in_memory.
  - intros n. vm_compute. reflexivity.
Defined.

Lemma identity_requests_exact_witness :
  ∃ r s', Login (ex_login "1234") (ex_identity ex_now None) = Done r s' ∧ in_memory s'.
Proof.
  destruct (proj1 (identity_requests_exact _ (ex_identity_in_memory ex_now)) (ex_login "1234"))
    as (r & s' & E & Hm & _). exists r, s'. split; [exact E|exact Hm].
Defined.

Lemma login_db_sound_witness :
  match Login (ex_login "pw") (ex_identity ex_now (Some ())) with
  | Done _ _ => credential_matches (D := ()) "alice" ACTOR_TYPE_PLAYER "pw"
  | _ => False
  end.
Proof.
  assert (match Login (ex_login "pw") (ex_identity ex_now (Some ())) with
    | Done r _ => ResCode (tr_Meta r) = RESULT_CODE_OK | _ => False end) as Hr
    by (vm_compute; reflexivity).
  destruct (Login _ _) as [r s'| |] eqn:E; [|exact Hr..].
  assert (db_mode (ex_identity ex_now (Some ()))) as Hdb by (eexists; reflexivity).
  destruct (login_db_sound (ex_identity ex_now (Some ())) _ r s' Hdb E Hr) as (id & ty & Hv & Hc).
  injection Hv as <- <-. exact Hc.
Defined.

(** A session of alice's. *)
Definition ex_logged_in : Svc () IdentityState :=
  (ex_identity ex_now None) <| st ::= λ s, s <| refreshSessions :=
    {[ "tok-1" := mkIdentitySession "tok-1" "alice" ACTOR_TYPE_PLAYER (ex_now + Hour) false ]} |> |>.
Definition ex_refresh (tok : string) : TokenRequest := mkTokenRequest alice_meta tok.

Lemma refresh_token_single_use_witness :
  match Logout (Some (ex_refresh "tok-1")) ex_logged_in with
  | Done _ s1 =>
      match RefreshToken (Some (ex_refresh "tok-1")) s1 with
      | Done r s3 => token_refused r RESULT_CODE_DENIED "invalid refresh token"
          ∧ refreshSessions (st s3) = refreshSessions (st s1)
      | _ => False
      end
  | _ => False
  end.
Proof.
  assert (match Logout (Some (ex_refresh "tok-1")) ex_logged_in with
    | Done r s1 => ResCode (pr_Meta r) = RESULT_CODE_OK
        ∧ match RefreshToken (Some (ex_refresh "tok-1")) s1 with Done _ _ => True | _ => False end
    | _ => False end) as Hr by (vm_compute; split; [reflexivity|exact I]).
  destruct (Logout _ _) as [r1 s1| |] eqn:E1; [|exact Hr..]. destruct Hr as [Hok Hr].
  destruct (RefreshToken _ s1) as [r s3| |] eqn:E; [|exact Hr..].
  refine (refresh_token_single_use "tok-1" ex_logged_in s1 [] [] s1 (ex_refresh "tok-1") r s3
    (in_memory_st _ _ (ex_identity_in_memory ex_now)) _ eq_refl (Forall_nil_2 _) eq_refl _ _ E).
  - right. exists (ex_refresh "tok-1"), r1. split; [reflexivity|]. split; [exact E1|exact Hok].
  - discriminate.
  - discriminate.
Defined.

Lemma identity_admin_only_witness :
  match ResetLockout None (Some (mkActorRequest alice_meta (Some (mkActor "bob" ACTOR_TYPE_PLAYER)) ""))
    ex_locked with
  | Done r s' => ResCode (lkr_Meta r) = RESULT_CODE_DENIED ∧ lkr_Status r = None
      ∧ st s' = st ex_locked
  | _ => False
  end.
Proof.
  pose proof (proj2 (proj2 (identity_admin_only ex_locked None "unauthorized actor type"
    ex_locked_in_memory))) as Hreset.
  specialize (Hreset (mkActorRequest alice_meta (Some (mkActor "bob" ACTOR_TYPE_PLAYER)) "")).
  assert (match ResetLockout None (Some (mkActorRequest alice_meta
    (Some (mkActor "bob" ACTOR_TYPE_PLAYER)) "")) ex_locked with
    | Done _ _ => True | _ => False end) as Hr by (vm_compute; exact I).
  destruct (ResetLockout _ _ _) as [r s'| |]; [|exact Hr..].
  exact (Hreset r s' _ eq_refl eq_refl (or_intror eq_refl)).
Defined.

(** The audit trail gives refresh tokens away: the record of a login names
    the live refresh token as its object, an operator reads it with
    ListAuditEvents, and exchanges it for a session of the player. *)
Theorem audit_reveals_refresh_token :
  match Login (ex_login "1234") (ex_identity ex_now None) with
  | Done r s =>
      match ListAuditEvents None (Some (mkListAuditEventsRequest (operator_meta "") 0 "" ""))
        (NewAuditService (D := ()) None None [AuditStore (base s)]) with
      | Done l _ =>
          ar_ObjectId <$> lar_Events l = [from_option RefreshTokenOf "" (tr_Token r)]
          ∧ match RefreshToken (Some (ex_refresh (from_option ar_ObjectId "" (head (lar_Events l))))) s with
            | Done r' _ => ResCode (tr_Meta r') = RESULT_CODE_OK
                ∧ (st_Actor <$> tr_Token r') = Some (mkActor "alice" ACTOR_TYPE_PLAYER)
            | _ => False
            end
      | _ => False
      end
  | _ => False
  end.
Proof. vm_compute. split; [reflexivity|]. split; reflexivity. Qed.
