(* ===== verification/Attestation.v ===== *)
(** * Attestation keys and signatures (cmd/attestsign, cmd/attestkeygen, and the
      key lookup of internal/platform/evidence)

    The commands run against an operating system: environment variables, a disk
    that other processes may change between two accesses, and shell commands.
    crypto/ed25519 is the interface [Ed25519] with the law [Ed25519Law]. *)

From S2P Require Import Prelude GoJson GoNet GoBytes AuditTrail Service Listing.
From Stdlib Require Import Ascii.

(** ** The operating system *)

(** The environment of a process. *)
Definition Environ : Type := string → string.

(** What the model does not decide: what other processes do to the files before
    the [n]th access, what a command prints (none if it fails), and which
    writes and directory creations succeed. *)
Class OS := {
  interfere : nat → gmap string string → gmap string string;
  command_output : nat → string → option string;
  write_ok : nat → string → bool;
  mkdir_ok : nat → string → bool;
}.

(** No other process writes. *)
Definition quiet `{OS} : Prop := ∀ n d, interfere n d = d.

Record World := mkWorld { w_time : nat; w_disk : gmap string string }.
#[global] Instance eta_World : Eta World := λ w, mkWorld (w_time w) (w_disk w).

Definition OM (A : Type) : Type := M World A.

Section os.
Context `{OS}.

(** The next access to the system. *)
Definition access : OM nat := λ w,
  Done (w_time w) (mkWorld (S (w_time w)) (interfere (w_time w) (w_disk w))).

(** [os.ReadFile]; [None] is an error. *)
Definition ReadFile (path : string) : OM (option string) :=
  access;; gets (λ w, w_disk w !! path).

(** [os.WriteFile]; the result tells whether it succeeded. *)
Definition WriteFile (path data : string) : OM bool :=
  n ← access;
  if write_ok n path then modify (λ w, w <| w_disk ::= insert path data |>);; mret true
  else mret false.

Definition MkdirAll (path : string) : OM bool := n ← access; mret (mkdir_ok n path).

(** [exec.Command("bash", "-lc", cmd).Output()]. *)
Definition run_command (cmd : string) : OM (option string) :=
  n ← access; mret (command_output n cmd).
End os.

(** ** Errors *)

Inductive ev_error :=
| EMsg (msg : string)
| EMissing (key : string) | ENonEmpty (key : string) | EString (key : string)
| EInvalid (key value : string) | EStringOrNull (key : string) | EBool (key : string)
| EEquals (key : string) (n : Z) | ENonNegative (key : string) | ESHA256 (key : string)
| ERingEntry (entry : string) | ENoKey (keyID : string) (available : list string)
| EKeyLength (n : nat).

Notation "'try' x ← m ; k" := (r ← m; match r with inr e => mret (inr e) | inl x => k end)
  (at level 200, x pattern, m at level 100, k at level 200, only parsing).

(** ** Key material, as both tools read it *)

Definition dev_key_id : string := "dev-default".
Definition defaultDevSeedContext : string := "open-rgs-go-dev-attestation-seed".

(** Text in matching quotes loses them. *)
Definition is_quote (c : ascii) : bool := bool_decide (c = dquote) || bool_decide (c = "'"%char).

Definition normalizeKeyMaterial (raw : string) : string :=
  let trimmed := TrimSpace raw in
  match trimmed, String.rev trimmed with
  | String first (String _ _ as rest), String last _ =>
      if is_quote first && bool_decide (first = last)
      then TrimSpace (String.substring 0 (String.length rest - 1) rest)
      else trimmed
  | _, _ => trimmed
  end.

Section keys.
Context `{OS} (env : Environ).

(** A value from the file, the command or the variable, in this order. *)
Definition resolveValueSource (valueEnv fileEnv commandEnv : string) : OM (string + ev_error) :=
  let p := TrimSpace (env fileEnv) in
  if decide (p ≠ "") then
    data ← ReadFile p;
    mret (match data with
          | None => inr (EMsg ("read " +:+ valueEnv +:+ " file"))
          | Some data => inl (TrimSpace data)
          end)
  else
  let cmdRaw := TrimSpace (env commandEnv) in
  if decide (cmdRaw ≠ "") then
    out ← run_command cmdRaw;
    mret (match out with
          | None => inr (EMsg ("run " +:+ valueEnv +:+ " command"))
          | Some out => inl (TrimSpace out)
          end)
  else mret (inl (TrimSpace (env valueEnv))).

(** The loop over the entries [id:value] of a key ring. *)
Fixpoint parse_ring (parts : list string) (ring : gmap string string)
    : gmap string string + ev_error :=
  match parts with
  | [] => inl ring
  | part :: parts =>
      let p := TrimSpace part in
      if decide (p = "") then parse_ring parts ring
      else match cut_first ":"%char p with
      | None => inr (ERingEntry p)
      | Some (a, b) =>
          if decide (a = "" ∨ b = "") then inr (ERingEntry p)
          else
            let id := TrimSpace a in let val := TrimSpace b in
            if decide (id = "" ∨ val = "") then inr (ERingEntry p)
            else parse_ring parts (<[id := val]> ring)
      end
  end.

(** [os.Getenv(...) == "true"] for one of the two switches of strict mode. *)
Definition enforce_key : bool :=
  bool_decide (env "RGS_VERIFY_EVIDENCE_ENFORCE_ATTESTATION_KEY" = "true")
  || bool_decide (env "GITHUB_ACTIONS" = "true").

(** The text of the key for [keyID]: from the ring, else the single key; [None]
    stands for the development key. *)
Definition resolve_key_text (base keyID : string) : OM (option string + ev_error) :=
  let ringEnv := base +:+ "S" in
  try keyRingRaw ← resolveValueSource ringEnv (ringEnv +:+ "_FILE") (ringEnv +:+ "_COMMAND");
  if decide (keyRingRaw ≠ "") then
    mret (match parse_ring (split_on ","%char keyRingRaw) ∅ with
          | inr e => inr e
          | inl ring =>
              match ring !! keyID with
              | Some raw => inl (Some raw)
              | None => inr (ENoKey keyID (sorted_keys ring))
              end
          end)
  else
    try raw ← resolveValueSource base (base +:+ "_FILE") (base +:+ "_COMMAND");
    mret (
      if decide (raw = "") then
        if negb enforce_key && bool_decide (keyID = dev_key_id) then inl None
        else inr (EMsg (base +:+ " is required for ed25519"))
      else
        let singleID := env "RGS_VERIFY_EVIDENCE_ATTESTATION_KEY_ID" in
        let singleID := if decide (singleID = "") then dev_key_id else singleID in
        if decide (singleID ≠ keyID) then inr (EMsg "key_id mismatch")
        else inl (Some raw)).
End keys.

(** ** crypto/ed25519 *)

(** Keys, messages and signatures are byte strings: a private key is the seed
    followed by the public key. *)
Class Ed25519 := {
  ed_public : string → string;
  ed_sign : string → string → string;
  ed_verify : string → string → string → bool;
}.

Definition SeedSize : nat := 32.
Definition PublicKeySize : nat := 32.
Definition PrivateKeySize : nat := 64.

Class Ed25519Law `{Ed25519} : Prop := {
  ed_public_size seed : String.length seed = SeedSize → String.length (ed_public seed) = PublicKeySize;
  ed_verify_sign seed m : String.length seed = SeedSize →
    ed_verify (ed_public seed) m (ed_sign (seed +:+ ed_public seed) m) = true;
}.

Section ed25519.
Context `{Ed25519}.
Context {W : Type}.

(** The functions of the package panic on a key of the wrong size. *)
Definition NewKeyFromSeed (seed : string) : M W string :=
  if decide (String.length seed = SeedSize) then mret (seed +:+ ed_public seed) else panic.
Definition ed_Sign (priv message : string) : M W string :=
  if decide (String.length priv = PrivateKeySize) then mret (ed_sign priv message) else panic.
Definition ed_Verify (pub message sig : string) : M W bool :=
  if decide (String.length pub = PublicKeySize) then mret (ed_verify pub message sig) else panic.

(** [priv.Public()] and [priv.Seed()]. *)
Definition priv_Public (priv : string) : string :=
  String.substring SeedSize (String.length priv) priv.
Definition priv_Seed (priv : string) : string := String.substring 0 SeedSize priv.
End ed25519.

(** ** Reading keys *)

Section tools.
Context `{OS, Ed25519, Crypto}.

Definition parseEd25519PublicKey (raw : string) : string + ev_error :=
  match StdDecode (normalizeKeyMaterial raw) with
  | None => inr (EMsg "decode ed25519 public key base64")
  | Some decoded =>
      if decide (String.length decoded ≠ PublicKeySize)
      then inr (EKeyLength (String.length decoded)) else inl decoded
  end.

Definition parseEd25519PrivateKey (raw : string) : OM (string + ev_error) :=
  match StdDecode (normalizeKeyMaterial raw) with
  | None => mret (inr (EMsg "decode base64 private key"))
  | Some decoded =>
      if decide (String.length decoded = SeedSize) then
        k ← NewKeyFromSeed decoded; mret (inl k)
      else if decide (String.length decoded = PrivateKeySize) then mret (inl decoded)
      else mret (inr (EKeyLength (String.length decoded)))
  end.

(** [sum[:ed25519.SeedSize]] of a 32-byte hash is all of it. *)
Definition defaultDevEd25519PrivateKey : OM string := NewKeyFromSeed (sha256 defaultDevSeedContext).
Definition defaultDevEd25519PublicKey : OM string :=
  k ← defaultDevEd25519PrivateKey; mret (priv_Public k).

Definition public_base : string := "RGS_VERIFY_EVIDENCE_ATTESTATION_ED25519_PUBLIC_KEY".
Definition private_base : string := "RGS_VERIFY_EVIDENCE_ATTESTATION_ED25519_PRIVATE_KEY".

(** summary_artifact_validator.go *)
Definition resolveEd25519PublicKey (env : Environ) (keyID : string) : OM (string + ev_error) :=
  try text ← resolve_key_text env public_base keyID;
  match text with
  | Some raw => mret (parseEd25519PublicKey raw)
  | None => k ← defaultDevEd25519PublicKey; mret (inl k)
  end.

(** cmd/attestsign/main.go: in strict mode the key must not be in a variable,
    unless the operator allows it. *)
Definition resolveEd25519PrivateKey (env : Environ) (keyID : string) : OM (string + ev_error) :=
  let allowInline := bool_decide (env "RGS_VERIFY_EVIDENCE_ALLOW_INLINE_PRIVATE_KEY" = "true") in
  if enforce_key env && negb allowInline
     && bool_decide (TrimSpace (env private_base) ≠ "" ∨ TrimSpace (env (private_base +:+ "S")) ≠ "")
  then mret (inr (EMsg "inline ed25519 private-key env vars are disabled in strict/CI mode"))
  else
    try text ← resolve_key_text env private_base keyID;
    match text with
    | Some raw => parseEd25519PrivateKey raw
    | None => k ← defaultDevEd25519PrivateKey; mret (inl k)
    end.

Definition algEd25519 : string := "ed25519".

(** summary_artifact_validator.go; the last parameter of the Go function is
    unused. *)
Definition verifyAttestationSignature (env : Environ) (alg keyID attestationData attestationSig : string)
    : OM (option ev_error) :=
  if decide (alg ≠ algEd25519) then mret (Some (EMsg "unsupported attestation algorithm")) else
  key ← resolveEd25519PublicKey env keyID;
  match key with
  | inr e => mret (Some e)
  | inl pub =>
      match hex_DecodeString attestationSig with
      | None => mret (Some (EMsg "decode ed25519 signature hex"))
      | Some sigBytes =>
          ok ← ed_Verify pub attestationData sigBytes;
          mret (if negb ok then Some (EMsg "attestation signature mismatch") else None)
      end
  end.

(** ** cmd/attestsign *)

(** [main] with the values of its four flags; the result is the exit status. *)
Definition attestsign (env : Environ) (inFile outFile alg keyID : string) : OM Z :=
  if decide (inFile = "" ∨ outFile = "") then mret 2 else
  data ← ReadFile inFile;
  match data with
  | None => mret 1
  | Some data =>
  if decide (alg ≠ algEd25519) then mret 1 else
  key ← resolveEd25519PrivateKey env keyID;
  match key with
  | inr _ => mret 1
  | inl priv =>
  sig ← ed_Sign priv data;
  ok ← WriteFile outFile (EncodeToString sig +:+ nl);
  mret (if (ok : bool) then 0 else 1)
  end end.
End tools.

(** ** cmd/attestkeygen *)

Record config := mkConfig {
  alg : string; format : string; outDir : string; verify : bool; keyID : string;
  keyIDVar : string; emitKeyID : bool; privateVar : string; publicVar : string;
  ringOutput : bool; privateMaterialFmt : string;
}.
#[global] Instance eta_config : Eta config := λ c, mkConfig (alg c) (format c) (outDir c)
  (verify c) (keyID c) (keyIDVar c) (emitKeyID c) (privateVar c) (publicVar c) (ringOutput c)
  (privateMaterialFmt c).

Definition keygen_envOr (lookup : Environ) (key fallback : string) : string :=
  let v := TrimSpace (lookup key) in if decide (v ≠ "") then v else fallback.

Definition envOr2 (lookup : Environ) (primary secondary fallback : string) : string :=
  keygen_envOr lookup primary (keygen_envOr lookup secondary fallback).

Definition envBoolOr (lookup : Environ) (key : string) (fallback : bool) : bool :=
  let v := TrimSpace (ToLower (lookup key)) in
  if decide (v ∈ ["1"; "true"; "yes"; "y"; "on"]) then true
  else if decide (v ∈ ["0"; "false"; "no"; "n"; "off"]) then false
  else fallback.

(** The flags' defaults, from the environment. *)
Definition default_config (lookup : Environ) : config := {|
  alg := keygen_envOr lookup "RGS_ATTEST_KEYGEN_ALG" algEd25519;
  format := keygen_envOr lookup "RGS_ATTEST_KEYGEN_FORMAT" "assignments";
  outDir := keygen_envOr lookup "RGS_ATTEST_KEYGEN_OUT_DIR" "";
  verify := envBoolOr lookup "RGS_ATTEST_KEYGEN_VERIFY" false;
  keyID := envOr2 lookup "RGS_ATTEST_KEYGEN_KEY_ID" "RGS_VERIFY_EVIDENCE_ATTESTATION_KEY_ID" "ci-active";
  keyIDVar := keygen_envOr lookup "RGS_ATTEST_KEYGEN_KEY_ID_VAR" "RGS_VERIFY_EVIDENCE_ATTESTATION_KEY_ID";
  emitKeyID := envBoolOr lookup "RGS_ATTEST_KEYGEN_EMIT_KEY_ID" true;
  privateVar := keygen_envOr lookup "RGS_ATTEST_KEYGEN_PRIVATE_VAR" private_base;
  publicVar := keygen_envOr lookup "RGS_ATTEST_KEYGEN_PUBLIC_VAR" (public_base +:+ "S");
  ringOutput := envBoolOr lookup "RGS_ATTEST_KEYGEN_RING" true;
  privateMaterialFmt := keygen_envOr lookup "RGS_ATTEST_KEYGEN_PRIVATE_MATERIAL" "seed" |}.

(** *** Package flag *)

Definition ParseBool (s : string) : option bool :=
  if decide (s ∈ ["1"; "t"; "T"; "TRUE"; "true"; "True"]) then Some true
  else if decide (s ∈ ["0"; "f"; "F"; "FALSE"; "false"; "False"]) then Some false
  else None.

(** The flags of attestkeygen. *)
Inductive keygen_flag :=
| StringFlag (set : string → config → config)
| BoolFlag (set : bool → config → config).

Definition flag_table : list (string * keygen_flag) :=
  [("alg", StringFlag (λ v c, c <| alg := v |>));
   ("format", StringFlag (λ v c, c <| format := v |>));
   ("out-dir", StringFlag (λ v c, c <| outDir := v |>));
   ("verify", BoolFlag (λ v c, c <| verify := v |>));
   ("key-id", StringFlag (λ v c, c <| keyID := v |>));
   ("key-id-var", StringFlag (λ v c, c <| keyIDVar := v |>));
   ("emit-key-id", BoolFlag (λ v c, c <| emitKeyID := v |>));
   ("private-var", StringFlag (λ v c, c <| privateVar := v |>));
   ("public-var", StringFlag (λ v c, c <| publicVar := v |>));
   ("ring", BoolFlag (λ v c, c <| ringOutput := v |>));
   ("private-material", StringFlag (λ v c, c <| privateMaterialFmt := v |>))].

Definition find_flag (name : string) : option keygen_flag :=
  snd <$> list_find (λ '(n, _), n = name) flag_table ≫= λ '(_, p), Some p.

(** What one argument asks for: nothing more, an error, or a flag by name with
    the value behind an equals sign. *)
Inductive flag_arg := EndOfFlags | BadFlag | NamedFlag (name : string) (val : option string).

Definition split_flag (arg : string) : flag_arg :=
  match strip_prefix "-" arg with
  | None | Some EmptyString => EndOfFlags
  | Some name =>
      let name := TrimPrefix name "-" in
      if decide (arg = "--") then EndOfFlags
      else match name with
      | EmptyString => BadFlag
      | String c rest =>
          if decide (c = "-"%char ∨ c = "="%char) then BadFlag
          else match cut_first "="%char rest with
          | Some (n, v) => NamedFlag (String c n) (Some v)
          | None => NamedFlag name None
          end
      end
  end.

(** [flags.Parse]: [None] is an error, the request for help included. *)
Fixpoint parse_flags (args : list string) (c : config) : option config :=
  match args with
  | [] => Some c
  | arg :: args =>
      match split_flag arg with
      | EndOfFlags => Some c
      | BadFlag => None
      | NamedFlag name val =>
          match find_flag name, val with
          | None, _ => None
          | Some (BoolFlag set), None => parse_flags args (set true c)
          | Some (BoolFlag set), Some v => b ← ParseBool v; parse_flags args (set b c)
          | Some (StringFlag set), Some v => parse_flags args (set v c)
          | Some (StringFlag set), None =>
              match args with v :: args => parse_flags args (set v c) | [] => None end
          end
      end
  end.

Definition parseConfig (args : list string) (lookup : Environ) : option config :=
  parse_flags args (default_config lookup).

(** *** Key material *)

Record keyMaterial := mkMaterial { privateValue : string; publicValue : string }.

Definition renderKeyMaterial (cfg : config) (pub priv : string) : keyMaterial :=
  let privateBytes := if decide (privateMaterialFmt cfg = "seed") then priv_Seed priv else priv in
  let privateValue := StdEncoding privateBytes in
  let publicValue := StdEncoding pub in
  if ringOutput cfg
  then mkMaterial (keyID cfg +:+ ":" +:+ privateValue) (keyID cfg +:+ ":" +:+ publicValue)
  else mkMaterial privateValue publicValue.

Definition assignment (var val : string) : string := var +:+ "=" +:+ val.

Definition renderAssignments (cfg : config) (material : keyMaterial) : list string :=
  if decide (format cfg = "github-secrets") then [privateValue material; publicValue material]
  else (if emitKeyID cfg then [assignment (keyIDVar cfg) (keyID cfg)] else [])
    ++ [assignment (privateVar cfg) (privateValue material);
        assignment (publicVar cfg) (publicValue material)].

Definition stripKeyIDPrefix (val keyID : string) : string + ev_error :=
  match strip_prefix (keyID +:+ ":") val with
  | None => inr (EMsg "expected key id prefix")
  | Some raw => if decide (raw = "") then inr (EMsg "empty key material") else inl raw
  end.

Section keygen.
Context `{OS, Ed25519}.

Definition verifyMaterial (cfg : config) (material : keyMaterial) : OM (option ev_error) :=
  let strip v := if ringOutput cfg then stripKeyIDPrefix v (keyID cfg) else inl v in
  match strip (privateValue material), strip (publicValue material) with
  | inr e, _ | inl _, inr e => mret (Some e)
  | inl privateRaw, inl publicRaw =>
      match StdDecode privateRaw, StdDecode publicRaw with
      | None, _ => mret (Some (EMsg "decode private key base64"))
      | Some _, None => mret (Some (EMsg "decode public key base64"))
      | Some privateDecoded, Some publicDecoded =>
          if decide (String.length publicDecoded ≠ PublicKeySize)
          then mret (Some (EKeyLength (String.length publicDecoded)))
          else
            let compare priv :=
              if decide (priv_Public priv ≠ publicDecoded)
              then Some (EMsg "public key does not match derived private key") else None in
            if decide (String.length privateDecoded = SeedSize) then
              k ← NewKeyFromSeed privateDecoded; mret (compare k)
            else if decide (String.length privateDecoded = PrivateKeySize)
            then mret (compare privateDecoded)
            else mret (Some (EKeyLength (String.length privateDecoded)))
      end
  end.

Definition writeSecretFiles (cfg : config) (material : keyMaterial) : OM (list string + ev_error) :=
  made ← MkdirAll (outDir cfg);
  if negb made then mret (inr (EMsg "create out dir")) else
  let '(privateFile, publicFile, privateFileVar, publicFileVar) :=
    if ringOutput cfg
    then ("private-keys.txt", "public-keys.txt", private_base +:+ "S_FILE", public_base +:+ "S_FILE")
    else ("private-key.txt", "public-key.txt", private_base +:+ "_FILE", public_base +:+ "_FILE") in
  let privatePath := Path_Join (outDir cfg) privateFile in
  let publicPath := Path_Join (outDir cfg) publicFile in
  ok ← WriteFile privatePath (privateValue material +:+ nl);
  if negb ok then mret (inr (EMsg "write private key file")) else
  ok ← WriteFile publicPath (publicValue material +:+ nl);
  if negb ok then mret (inr (EMsg "write public key file")) else
  mret (inl [assignment (keyIDVar cfg) (keyID cfg); assignment privateFileVar privatePath;
             assignment publicFileVar publicPath]).

(** [main]: the exit status and the lines on standard output.  [seed] is what
    crypto/rand gives [ed25519.GenerateKey], none if it fails. *)
Definition attestkeygen (args : list string) (lookup : Environ) (seed : option string)
    : OM (Z * list string) :=
  match parseConfig args lookup with
  | None => mret (2, [])
  | Some cfg =>
  if decide (alg cfg ≠ algEd25519) then mret (2, []) else
  if decide (TrimSpace (keyID cfg) = "") then mret (2, []) else
  if decide (format cfg ≠ "assignments" ∧ format cfg ≠ "github-secrets") then mret (2, []) else
  if decide (privateMaterialFmt cfg ≠ "seed" ∧ privateMaterialFmt cfg ≠ "private")
  then mret (2, []) else
  match seed with
  | None => mret (1, [])
  | Some seed =>
  priv ← NewKeyFromSeed seed;
  let material := renderKeyMaterial cfg (priv_Public priv) priv in
  bad ← (if verify cfg then verifyMaterial cfg material else mret None);
  match bad with
  | Some _ => mret (1, [])
  | None =>
  if decide (outDir cfg ≠ "") then
    lines ← writeSecretFiles cfg material;
    mret (match lines with inr _ => (1, []) | inl lines => (0, lines) end)
  else mret (0, renderAssignments cfg material)
  end end end.
End keygen.
