(* ===== verification/AttestationProofs.v ===== *)
(** * What the attestation tools guarantee

    A key pair written by attestkeygen signs with attestsign and verifies in the
    evidence validator, in strict mode too; the assignments attestkeygen prints
    by default do not work with attestsign. *)

From S2P Require Import Prelude GoJson GoNet GoBytes AuditTrail Service Listing Attestation.
From Stdlib Require Import Ascii.

(** ** Text *)

Lemma split_on_none c s : has_char c s = false → split_on c s = [s].
Proof.
  induction s as [|d s IH]; [done|]. simpl. intros [Hd%bool_decide_eq_false_1 Hs]%orb_false_elim.
  rewrite decide_False by done. by rewrite IH.
Qed.

Lemma cut_first_app c s t : has_char c s = false → cut_first c (s +:+ String c t) = Some (s, t).
Proof.
  induction s as [|d s IH]; intros Hs; [by simpl; rewrite decide_True|].
  simpl in Hs. apply orb_false_elim in Hs as [Hd%bool_decide_eq_false_1 Hs].
  rewrite str_app_cons. simpl. rewrite decide_False by done. by rewrite IH.
Qed.

(** The characters of a key id that a key ring can name. *)
Definition key_char (c : ascii) : bool :=
  graphic c && negb (bool_decide (c = ","%char)) && negb (bool_decide (c = ":"%char)).

Definition key_id_ok (id : string) : Prop := id ≠ "" ∧ str_all key_char id = true.

Lemma key_char_graphic c : key_char c = true → graphic c = true.
Proof. unfold key_char. by intros [[? _]%andb_prop _]%andb_prop. Qed.

Lemma b64_key_char c : b64_text c = true → key_char c = true.
Proof. by destruct c as [[] [] [] [] [] [] [] []]; vm_compute. Qed.

Lemma key_id_graphic id : key_id_ok id → str_all graphic id = true.
Proof. intros [_ H]. by eapply str_all_mono; [apply key_char_graphic|]. Qed.

Lemma b64_key_text s : str_all key_char (StdEncoding s) = true.
Proof. apply (str_all_mono b64_text); [apply b64_key_char|apply StdEncoding_text]. Qed.

Lemma ring_graphic id s : key_id_ok id → str_all graphic (id +:+ ":" +:+ StdEncoding s) = true.
Proof.
  intros Hid. rewrite !str_all_app, (key_id_graphic _ Hid), StdEncoding_graphic. done.
Qed.

(** A key ring of one entry. *)
Lemma parse_ring_one id s : key_id_ok id → s ≠ "" →
  parse_ring (split_on ","%char (id +:+ ":" +:+ StdEncoding s)) ∅ = inl {[ id := StdEncoding s ]}.
Proof.
  intros Hid Hs. pose proof Hid as [Hne Hc].
  pose proof (StdEncoding_nonempty s Hs) as Hse.
  assert (∀ c, key_char c = false → has_char c (StdEncoding s) = false) as Hb
    by (intros c Hk; by apply (str_all_has_char key_char); [|apply b64_key_text]).
  assert (∀ c, key_char c = false → has_char c id = false) as Hi
    by (intros c Hk; by apply (str_all_has_char key_char)).
  rewrite split_on_none.
  2: { rewrite !has_char_app, Hb, Hi by done. done. }
  cbn [parse_ring]. rewrite (TrimSpace_graphic _ (ring_graphic _ s Hid)).
  rewrite decide_False by (by destruct id).
  change (":" +:+ StdEncoding s) with (String ":" (StdEncoding s)).
  rewrite cut_first_app by by apply Hi. rewrite decide_False by naive_solver.
  rewrite (TrimSpace_graphic _ (key_id_graphic _ Hid)), (TrimSpace_graphic _ (StdEncoding_graphic s)).
  rewrite decide_False by naive_solver. done.
Qed.

Lemma normalize_b64 s : normalizeKeyMaterial (StdEncoding s) = StdEncoding s.
Proof.
  unfold normalizeKeyMaterial. rewrite (TrimSpace_graphic _ (StdEncoding_graphic s)).
  pose proof (StdEncoding_text s) as Ht.
  destruct (StdEncoding s) as [|c t]; [done|]. destruct t as [|d t]; [done|].
  destruct (String.rev _) as [|l r]; [done|].
  simpl in Ht. apply andb_prop in Ht as [Hc _].
  assert (is_quote c = false) as -> by (revert Hc; by destruct c as [[] [] [] [] [] [] [] []]; vm_compute).
  done.
Qed.

(** ** Paths *)

Lemma split_on_all p c s : str_all p s = true → Forall (λ x, str_all p x = true) (split_on c s).
Proof.
  induction s as [|d s IH]; simpl; [by repeat constructor|]. intros [Hd Hs]%andb_prop.
  specialize (IH Hs). case_decide; [by constructor|].
  destruct (split_on c s) as [|x l]; [by repeat constructor; simpl; rewrite Hd|].
  inversion IH; subst. constructor; [|done]. simpl. by rewrite Hd.
Qed.

Lemma Join_all p sep l : str_all p sep = true → Forall (λ x, str_all p x = true) l →
  str_all p (Join sep l) = true.
Proof.
  intros Hsep. induction 1 as [|x l Hx Hl IH]; [done|]. simpl. destruct l as [|y l]; [done|].
  by rewrite !str_all_app, Hx, Hsep, IH.
Qed.

Lemma clean_step_all p r kept e : str_all p ".." = true →
  Forall (λ x, str_all p x = true) kept → str_all p e = true →
  Forall (λ x, str_all p x = true) (clean_step r kept e).
Proof.
  intros Hdd Hk He. unfold clean_step. case_decide; [done|]. case_decide; [|by constructor].
  destruct kept as [|k kept]; [by destruct r; repeat constructor|]. inversion Hk; subst.
  case_decide; [by constructor|done].
Qed.

Lemma Clean_all p s : p "/"%char = true → p "."%char = true → str_all p s = true →
  str_all p (Clean s) = true.
Proof.
  intros Hslash Hdot Hs. unfold Clean. cbv zeta.
  assert (∀ l kept, Forall (λ x, str_all p x = true) l → Forall (λ x, str_all p x = true) kept →
    Forall (λ x, str_all p x = true) (foldl (clean_step (HasPrefix s "/")) kept l)) as Hfold.
  { induction l as [|e l IH]; intros kept Hl Hk; [done|]. inversion Hl; subst. simpl.
    apply IH; [done|]. apply clean_step_all; [simpl; by rewrite Hdot|done..]. }
  assert (str_all p (Join "/" (rev (foldl (clean_step (HasPrefix s "/")) [] (split_on "/" s)))) = true) as HJ.
  { apply Join_all; [simpl; by rewrite Hslash|]. apply Forall_rev, Hfold; [by apply split_on_all|done]. }
  destruct (HasPrefix s "/"); [by rewrite str_all_app, HJ; simpl; rewrite Hslash|].
  case_decide; [simpl; by rewrite Hdot|done].
Qed.

Lemma Clean_nonempty s : Clean s ≠ "".
Proof. unfold Clean. cbv zeta. destruct (HasPrefix s "/"); [done|]. by case_decide. Qed.

Lemma Path_Join_graphic d f : str_all graphic d = true → str_all graphic f = true → f ≠ "" →
  str_all graphic (Path_Join d f) = true ∧ Path_Join d f ≠ "".
Proof.
  intros Hd Hf Hne. unfold Path_Join. rewrite (decide_False (P := f = "")) by done.
  case_decide; split; try apply Clean_nonempty; apply Clean_all; try done.
  by rewrite !str_all_app, Hd, Hf.
Qed.

Lemma split_on_app c s t : split_on c (s +:+ String c t) = split_on c s ++ split_on c t.
Proof.
  induction s as [|d s IH]; [by simpl; rewrite decide_True|]. rewrite str_app_cons. simpl.
  rewrite IH. case_decide; [done|]. by destruct (split_on c s) as [|x l] eqn:E; [destruct s; simpl in E; repeat case_match|].
Qed.

Lemma Join_snoc sep l x : l ≠ [] → Join sep (l ++ [x]) = Join sep l +:+ sep +:+ x.
Proof.
  induction l as [|y l IH]; [done|]. intros _. destruct l as [|z l]; [done|].
  cbn [app Join] in *. rewrite IH by done. by rewrite !str_app_assoc.
Qed.

(** A file name: not special to [Clean]. *)
Definition file_name (f : string) : Prop := has_char "/" f = false ∧ f ≠ "" ∧ f ≠ "." ∧ f ≠ "..".

Lemma Path_Join_inj d f g : file_name f → file_name g → Path_Join d f = Path_Join d g → f = g.
Proof.
  assert (∀ r kept f, file_name f → clean_step r kept f = f :: kept) as Hstep.
  { intros r kept h (_ & ? & ? & ?). unfold clean_step. rewrite !decide_False by naive_solver. done. }
  assert (∃ K b, ∀ f, file_name f → Path_Join d f =
    (if (b : bool) then "/" else "") +:+ Join "/" (rev K ++ [f])) as (K & b & HK).
  { destruct (decide (d = "")) as [->|Hd].
    - exists [], false. intros h Hh. unfold Path_Join. rewrite decide_True by done.
      destruct Hh as (Hs & Hne & Hh). rewrite decide_False by done. unfold Clean.
      rewrite split_on_none by done.
      assert (HasPrefix h "/" = false) as ->.
      { destruct h as [|c h]; [done|]. simpl in *.
        apply orb_false_elim in Hs as [Hc%bool_decide_eq_false_1 _].
        unfold HasPrefix. simpl. rewrite decide_False; done. }
      cbn [foldl]. rewrite Hstep by done. simpl. by rewrite decide_False.
    - exists (foldl (clean_step (HasPrefix d "/")) [] (split_on "/" d)), (HasPrefix d "/").
      intros h Hh. unfold Path_Join. rewrite decide_False by done. unfold Clean.
      change (d +:+ "/" +:+ h) with (d +:+ String "/" h).
      assert (HasPrefix (d +:+ String "/" h) "/" = HasPrefix d "/") as ->.
      { destruct d as [|c d]; [done|]. unfold HasPrefix. simpl. by case_decide. }
      rewrite split_on_app, (split_on_none _ h), foldl_snoc, Hstep by (done || apply Hh).
      cbn [rev]. destruct (HasPrefix d "/"); [done|].
      rewrite decide_False; [done|]. destruct Hh as (_ & Hne & _). destruct (rev _) as [|x l] eqn:El.
      + simpl. by destruct h.
      + rewrite Join_snoc by done. destruct (Join "/" (x :: l)); [|done]. by destruct h. }
  intros Hf Hg. rewrite (HK f Hf), (HK g Hg). intros E%str_app_inj_l.
  destruct (rev K) as [|x l] eqn:El; [done|]. rewrite !Join_snoc in E by done.
  by apply str_app_inj_l, str_app_inj_l in E.
Qed.

(** ** Runs *)

(** The environment of a shell that exported the lines. *)
Fixpoint exported (lines : list string) (k : string) : string :=
  match lines with
  | [] => ""
  | l :: lines =>
      match strip_prefix (k +:+ "=") l with Some v => v | None => exported lines k end
  end.

Definition strict_lines (strict : bool) : list string :=
  if strict then ["RGS_VERIFY_EVIDENCE_ENFORCE_ATTESTATION_KEY=true"] else [].

Definition key_id_var : string := "RGS_VERIFY_EVIDENCE_ATTESTATION_KEY_ID".

(** The lines attestkeygen prints in file mode. *)
Definition file_lines (ring : bool) (kid privatePath publicPath : string) : list string :=
  let s := if ring then "S_FILE" else "_FILE" in
  [assignment key_id_var kid; assignment (private_base +:+ s) privatePath;
   assignment (public_base +:+ s) publicPath].

Lemma bind_eq {S A B} (m : M S A) (k : A → M S B) s a s' r :
  m s = Done a s' → k a s' = r → (m ≫= k) s = r.
Proof. intros E Hk. unfold mbind, M_bind. by rewrite E. Qed.

Lemma substring_app_l s t : String.substring 0 (String.length s) (s +:+ t) = s.
Proof. induction s as [|c s IH]; [by destruct t|]. rewrite str_app_cons. simpl. by rewrite IH. Qed.

Lemma substring_all n s : (String.length s ≤ n)%nat → String.substring 0 n s = s.
Proof.
  revert n. induction s as [|c s IH]; intros [|n] Hn; simpl in *; try done; [lia|].
  by rewrite IH by lia.
Qed.

Lemma substring_app_r s t n : (String.length t ≤ n)%nat →
  String.substring (String.length s) n (s +:+ t) = t.
Proof.
  intros Hn. induction s as [|c s IH]; [by apply substring_all|]. rewrite str_app_cons. done.
Qed.

Section runs.
Context `{OS, Ed25519, !Ed25519Law, Crypto}.
Context (Hquiet : quiet).

Lemma access_quiet w : access w = Done (w_time w) (mkWorld (S (w_time w)) (w_disk w)).
Proof. unfold access. by rewrite Hquiet. Qed.

Lemma ReadFile_quiet path w :
  ReadFile path w = Done (w_disk w !! path) (mkWorld (S (w_time w)) (w_disk w)).
Proof. unfold ReadFile. by eapply bind_eq; [apply access_quiet|]. Qed.

Lemma WriteFile_quiet path data w : write_ok (w_time w) path = true →
  WriteFile path data w = Done true (mkWorld (S (w_time w)) (<[path := data]> (w_disk w))).
Proof. intros E. unfold WriteFile. eapply bind_eq; [apply access_quiet|]. by rewrite E. Qed.

(** [done_disk m w a d]: [m] returns [a] and leaves the disk [d]. *)
Definition done_disk {A} (m : OM A) (w : World) (a : A) (d : gmap string string) : Prop :=
  ∃ w', m w = Done a w' ∧ w_disk w' = d.

Lemma done_disk_bind {A B} (m : OM A) (k : A → OM B) w a d b d' :
  done_disk m w a d → (∀ w', w_disk w' = d → done_disk (k a) w' b d') → done_disk (m ≫= k) w b d'.
Proof.
  intros (w1 & E1 & Hd1) Hk. destruct (Hk w1 Hd1) as (w2 & E2 & Hd2). exists w2.
  split; [by eapply bind_eq|done].
Qed.

Lemma done_disk_ret {A} (a : A) w d : w_disk w = d → done_disk (mret a) w a d.
Proof. by exists w. Qed.

Lemma done_disk_read path w : done_disk (ReadFile path) w (w_disk w !! path) (w_disk w).
Proof. eexists. split; [apply ReadFile_quiet|done]. Qed.

Section resolve.
Context (env : Environ) (base : string).

(** A file that holds one line. *)
Lemma resolve_file w v f c path line :
  env f = path → path ≠ "" → str_all graphic path = true →
  w_disk w !! path = Some (line +:+ nl) → line ≠ "" → str_all graphic line = true →
  done_disk (resolveValueSource env v f c) w (inl line) (w_disk w).
Proof.
  intros Hf Hne Hp Hd Hl Hg. unfold resolveValueSource. rewrite Hf, (TrimSpace_graphic path) by done.
  rewrite decide_True by done. eapply done_disk_bind; [apply done_disk_read|].
  intros w' Hw. rewrite Hd. simpl. rewrite TrimSpace_line by done. by apply done_disk_ret.
Qed.

Lemma resolve_unset w v f c :
  env v = "" → env f = "" → env c = "" →
  done_disk (resolveValueSource env v f c) w (inl "") (w_disk w).
Proof.
  intros Hv Hf Hc. unfold resolveValueSource. rewrite Hv, Hf, Hc.
  change (TrimSpace "") with "". simpl. by apply done_disk_ret.
Qed.

Lemma resolve_ring w kid path s :
  env (base +:+ "S" +:+ "_FILE") = path → path ≠ "" → str_all graphic path = true →
  w_disk w !! path = Some ((kid +:+ ":" +:+ StdEncoding s) +:+ nl) → key_id_ok kid → s ≠ "" →
  done_disk (resolve_key_text env base kid) w (inl (Some (StdEncoding s))) (w_disk w).
Proof.
  intros Hf Hne Hp Hd Hk Hs. unfold resolve_key_text. cbv zeta. rewrite str_app_assoc.
  assert (kid +:+ ":" +:+ StdEncoding s ≠ "") as Hline by (destruct Hk; by destruct kid).
  eapply done_disk_bind; [by eapply resolve_file; [..|apply ring_graphic]|]. intros w' Hw. cbv iota beta.
  rewrite decide_True by done. rewrite (parse_ring_one _ _ Hk Hs).
  rewrite lookup_singleton_eq. by apply done_disk_ret.
Qed.

Lemma resolve_single w kid path s :
  env (base +:+ "S") = "" → env (base +:+ "S" +:+ "_FILE") = "" → env (base +:+ "S" +:+ "_COMMAND") = "" →
  env key_id_var = kid → env (base +:+ "_FILE") = path → path ≠ "" → str_all graphic path = true →
  w_disk w !! path = Some (StdEncoding s +:+ nl) → kid ≠ "" → s ≠ "" →
  done_disk (resolve_key_text env base kid) w (inl (Some (StdEncoding s))) (w_disk w).
Proof.
  intros Hr1 Hr2 Hr3 Hk Hf Hne Hp Hd Hkid Hs. unfold resolve_key_text. cbv zeta. rewrite !str_app_assoc.
  eapply done_disk_bind; [by apply resolve_unset|]. intros w' Hw. cbv iota beta.
  rewrite decide_False by (intros []; done).
  assert (StdEncoding s ≠ "") as Hse by by apply StdEncoding_nonempty.
  eapply done_disk_bind.
  { rewrite <- Hw in Hd. apply (resolve_file _ _ _ _ path (StdEncoding s)); try done. apply StdEncoding_graphic. }
  intros w2 Hw2. cbv iota beta. rewrite decide_False by done.
  change "RGS_VERIFY_EVIDENCE_ATTESTATION_KEY_ID" with key_id_var. rewrite Hk.
  rewrite (decide_False (P := kid = "")) by done. rewrite decide_False by (intros []; done).
  apply done_disk_ret. congruence.
Qed.
End resolve.

(** *** attestkeygen *)

Lemma bind_done_inv {S A B} (m : M S A) (k : A → M S B) s r s' :
  (m ≫= k) s = Done r s' → ∃ a s1, m s = Done a s1 ∧ k a s1 = Done r s'.
Proof. unfold mbind, M_bind. destruct (m s); [eauto|done..]. Qed.

Lemma NewKeyFromSeed_inv {W} seed (w w' : W) k :
  NewKeyFromSeed seed w = Done k w' → k = seed +:+ ed_public seed ∧ w' = w ∧ String.length seed = SeedSize.
Proof. unfold NewKeyFromSeed. case_decide; [|done]. by intros [= <- <-]. Qed.

Lemma verifyMaterial_pure cfg mat w r w' : verifyMaterial cfg mat w = Done r w' → w' = w.
Proof.
  unfold verifyMaterial. cbv zeta. intros E. repeat case_match; try by injection E as _ <-.
  all: apply bind_done_inv in E as (k & w1 & (_ & -> & _)%NewKeyFromSeed_inv & E); by injection E.
Qed.

Lemma WriteFile_inv path data w w' : WriteFile path data w = Done true w' →
  w_disk w' = <[path := data]> (w_disk w).
Proof.
  unfold WriteFile. intros (n & w1 & E1 & E)%bind_done_inv. rewrite access_quiet in E1.
  injection E1 as <- <-. case_match; [|done]. by injection E as <-.
Qed.

Definition private_file (ring : bool) : string := if ring then "private-keys.txt" else "private-key.txt".
Definition public_file (ring : bool) : string := if ring then "public-keys.txt" else "public-key.txt".

Lemma writeSecretFiles_inv cfg mat w lines w' : keyIDVar cfg = key_id_var →
  writeSecretFiles cfg mat w = Done (inl lines) w' →
  let pp := Path_Join (outDir cfg) (private_file (ringOutput cfg)) in
  let qp := Path_Join (outDir cfg) (public_file (ringOutput cfg)) in
  lines = file_lines (ringOutput cfg) (keyID cfg) pp qp
  ∧ w_disk w' = <[qp := publicValue mat +:+ nl]> (<[pp := privateValue mat +:+ nl]> (w_disk w)).
Proof.
  intros Hvar. unfold writeSecretFiles. intros (made & w1 & E1 & E)%bind_done_inv.
  assert (w_disk w1 = w_disk w) as Hw1.
  { unfold MkdirAll in E1. apply bind_done_inv in E1 as (n & w0 & E0 & E1). rewrite access_quiet in E0.
    injection E0 as <- <-. by injection E1 as _ <-. }
  destruct made; [|done]. cbv iota zeta beta delta [negb] in E.
  assert (∀ pf qf pv qv, (ok ← WriteFile (Path_Join (outDir cfg) pf) (privateValue mat +:+ nl);
      if negb ok then mret (inr (EMsg "write private key file")) else
      ok ← WriteFile (Path_Join (outDir cfg) qf) (publicValue mat +:+ nl);
      if negb ok then mret (inr (EMsg "write public key file")) else
      mret (inl [assignment (keyIDVar cfg) (keyID cfg); assignment pv (Path_Join (outDir cfg) pf);
        assignment qv (Path_Join (outDir cfg) qf)])) w1 = Done (inl lines) w' →
    lines = [assignment (keyIDVar cfg) (keyID cfg); assignment pv (Path_Join (outDir cfg) pf);
        assignment qv (Path_Join (outDir cfg) qf)]
    ∧ w_disk w' = <[Path_Join (outDir cfg) qf := publicValue mat +:+ nl]>
        (<[Path_Join (outDir cfg) pf := privateValue mat +:+ nl]> (w_disk w))) as Hgen.
  { intros pf qf pv qv (ok & w2 & E2 & Ek)%bind_done_inv. destruct ok; [|done].
    apply WriteFile_inv in E2. apply bind_done_inv in Ek as (ok & w3 & E3 & Ek). destruct ok; [|done].
    apply WriteFile_inv in E3. injection Ek as <- <-. by rewrite E3, E2, Hw1. }
  rewrite Hvar in *. destruct (ringOutput cfg); by apply Hgen in E.
Qed.

(** The key pair in the files of a successful run. *)
Lemma attestkeygen_files args lookup cfg seed w lines w' :
  parseConfig args lookup = Some cfg → keyIDVar cfg = key_id_var → outDir cfg ≠ "" →
  attestkeygen args lookup (Some seed) w = Done (0, lines) w' →
  let mat := renderKeyMaterial cfg (ed_public seed) (seed +:+ ed_public seed) in
  let pp := Path_Join (outDir cfg) (private_file (ringOutput cfg)) in
  let qp := Path_Join (outDir cfg) (public_file (ringOutput cfg)) in
  String.length seed = SeedSize ∧ lines = file_lines (ringOutput cfg) (keyID cfg) pp qp
  ∧ w_disk w' !! pp = Some (privateValue mat +:+ nl) ∧ w_disk w' !! qp = Some (publicValue mat +:+ nl).
Proof.
  intros Hcfg Hvar Hout. unfold attestkeygen. rewrite Hcfg. intros E. cbv zeta.
  do 4 (case_decide; [done|]).
  apply bind_done_inv in E as (priv & w1 & (-> & -> & Hlen)%NewKeyFromSeed_inv & E).
  assert (priv_Public (seed +:+ ed_public seed) = ed_public seed) as Hpub.
  { unfold priv_Public. rewrite <- Hlen. apply substring_app_r. rewrite str_len_app. lia. }
  rewrite Hpub in E. set (mat := renderKeyMaterial _ _ _) in *.
  apply bind_done_inv in E as (bad & w2 & Ev & E).
  assert (w2 = w) as ->.
  { destruct (verify cfg); [by eapply verifyMaterial_pure|by injection Ev]. }
  destruct bad; [done|]. rewrite decide_True in E by done.
  apply bind_done_inv in E as (res & w3 & Ew & E). destruct res as [l|]; [|done].
  injection E as <- <-. apply writeSecretFiles_inv in Ew as [-> Hd]; [|done].
  rewrite Hd. split_and!; [done..| |by rewrite lookup_insert_eq].
  rewrite lookup_insert_ne; [by rewrite lookup_insert_eq|].
  intros Heq%Path_Join_inj; destruct (ringOutput cfg); done.
Qed.

(** *** Signing and verifying with the files *)

Section exported_env.
Context (ring strict : bool) (kid pp qp : string).
Let env : Environ := exported (file_lines ring kid pp qp ++ strict_lines strict).

(** The variables the two tools read. *)
Lemma exported_keys :
  env (private_base +:+ (if ring then "S" +:+ "_FILE" else "_FILE")) = pp
  ∧ env (public_base +:+ (if ring then "S" +:+ "_FILE" else "_FILE")) = qp
  ∧ env key_id_var = kid
  ∧ env private_base = "" ∧ env (private_base +:+ "S") = "" ∧ env (public_base +:+ "S") = ""
  ∧ env (private_base +:+ "S" +:+ "_COMMAND") = "" ∧ env (public_base +:+ "S" +:+ "_COMMAND") = ""
  ∧ (ring = false → env (private_base +:+ "S" +:+ "_FILE") = ""
     ∧ env (public_base +:+ "S" +:+ "_FILE") = "").
Proof. subst env. destruct ring, strict; vm_compute; done. Qed.

Lemma exported_key_text (pub : bool) w s :
  key_id_ok kid → s ≠ "" → let path := if pub then qp else pp in
  path ≠ "" → str_all graphic path = true →
  w_disk w !! path = Some ((if ring then kid +:+ ":" +:+ StdEncoding s else StdEncoding s) +:+ nl) →
  done_disk (resolve_key_text env (if pub then public_base else private_base) kid) w
    (inl (Some (StdEncoding s))) (w_disk w).
Proof.
  intros Hk Hs path Hne Hg Hd. destruct exported_keys as (E1 & E2 & E3 & E4 & E5 & E6 & E7 & E8 & E9).
  destruct ring.
  - eapply (resolve_ring _ _ _ _ path); try done. by destruct pub.
  - destruct E9 as [E9 E10]; [done|].
    destruct pub; by eapply (resolve_single _ _ _ _ path); try done; apply Hk.
Qed.
End exported_env.

Lemma parse_public s : String.length s = PublicKeySize → parseEd25519PublicKey (StdEncoding s) = inl s.
Proof.
  intros Hs. unfold parseEd25519PublicKey. rewrite normalize_b64, StdDecode_StdEncoding.
  by rewrite decide_False by lia.
Qed.

(** The private key is read back from its seed and from its full form. *)
Lemma parse_private seed (full : bool) w : String.length seed = SeedSize →
  done_disk (parseEd25519PrivateKey (StdEncoding (if full then seed +:+ ed_public seed else seed))) w
    (inl (seed +:+ ed_public seed)) (w_disk w).
Proof.
  intros Hs. unfold parseEd25519PrivateKey. rewrite normalize_b64, StdDecode_StdEncoding.
  pose proof (ed_public_size seed Hs) as Hp. destruct full.
  - rewrite !str_len_app, Hs, Hp. by apply done_disk_ret.
  - rewrite decide_True by done. unfold NewKeyFromSeed.
    eapply done_disk_bind; [rewrite decide_True by done; by apply done_disk_ret|].
    intros w' Hw. by apply done_disk_ret.
Qed.

Lemma nonempty_len s n : String.length s = S n → s ≠ "".
Proof. by destruct s. Qed.

(** What attestsign and the validator make of the files of attestkeygen. *)
Lemma resolve_private ring strict kid pp qp seed full w :
  let env := exported (file_lines ring kid pp qp ++ strict_lines strict) in
  let s := if (full : bool) then seed +:+ ed_public seed else seed in
  key_id_ok kid → String.length seed = SeedSize → pp ≠ "" → str_all graphic pp = true →
  w_disk w !! pp = Some ((if ring then kid +:+ ":" +:+ StdEncoding s else StdEncoding s) +:+ nl) →
  done_disk (resolveEd25519PrivateKey env kid) w (inl (seed +:+ ed_public seed)) (w_disk w).
Proof.
  intros env s Hk Hseed Hne Hg Hd.
  destruct (exported_keys ring strict kid pp qp) as (_ & _ & _ & E4 & E5 & _).
  fold env in E4, E5. unfold resolveEd25519PrivateKey. cbv zeta. rewrite E4, E5.
  change (TrimSpace "") with "". rewrite (bool_decide_eq_false_2 ("" ≠ "" ∨ "" ≠ "")) by naive_solver.
  rewrite andb_false_r. assert (s ≠ "") as Hs by (subst s; destruct seed; [done|by destruct full]).
  eapply done_disk_bind; [by apply (exported_key_text ring strict kid pp qp false w s)|].
  intros w' Hw. cbv iota beta. rewrite <- Hw. by apply parse_private.
Qed.

Lemma resolve_public ring strict kid pp qp pub w :
  let env := exported (file_lines ring kid pp qp ++ strict_lines strict) in
  key_id_ok kid → String.length pub = PublicKeySize → qp ≠ "" → str_all graphic qp = true →
  w_disk w !! qp = Some ((if ring then kid +:+ ":" +:+ StdEncoding pub else StdEncoding pub) +:+ nl) →
  done_disk (resolveEd25519PublicKey env kid) w (inl pub) (w_disk w).
Proof.
  intros env Hk Hpub Hne Hg Hd. unfold resolveEd25519PublicKey. assert (pub ≠ "") by by destruct pub.
  eapply done_disk_bind; [by apply (exported_key_text ring strict kid pp qp true w pub)|].
  intros w' Hw. cbv iota beta. rewrite parse_public by done. by apply done_disk_ret.
Qed.

End runs.

(** ** The default output *)

Section default_output.
Context `{OS, Ed25519, Crypto}.

(** The lines attestkeygen prints without flags and environment. *)
Definition default_lines (seed : string) : list string :=
  [assignment key_id_var "ci-active";
   assignment private_base ("ci-active:" +:+ StdEncoding seed);
   assignment (public_base +:+ "S") ("ci-active:" +:+ StdEncoding (ed_public seed))].

Lemma default_output seed w : String.length seed = SeedSize →
  attestkeygen [] (λ _, "") (Some seed) w = Done (0, default_lines seed) w.
Proof.
  intros Hs. unfold attestkeygen. change (parseConfig [] (λ _, "")) with (Some (default_config (λ _, ""))).
  assert (default_config (λ _, "") = mkConfig algEd25519 "assignments" "" false "ci-active" key_id_var
    true private_base (public_base +:+ "S") true "seed") as -> by by vm_compute.
  cbn [alg keyID format privateMaterialFmt outDir verify].
  change (TrimSpace "ci-active") with "ci-active".
  do 4 (rewrite decide_False by naive_solver).
  unfold NewKeyFromSeed. rewrite decide_True by done. unfold mbind, M_bind, mret, M_ret. cbv iota beta.
  unfold renderKeyMaterial, priv_Seed, priv_Public. cbn [privateMaterialFmt ringOutput].
  rewrite <- Hs, substring_app_l, substring_app_r by (rewrite str_len_app; lia).
  by rewrite decide_False by (intros []; done).
Qed.

Lemma ring_entry_not_base64 s : str_all graphic s = true → StdDecode ("ci-active:" +:+ s) = None.
Proof.
  intros Hs. unfold StdDecode. rewrite strip_newlines_graphic; [done|]. by rewrite str_all_app, Hs.
Qed.

(** The default output of attestkeygen cannot be used for signing: it puts a
    key ring entry into the variable of the single private key, and attestsign
    refuses it, whatever it is to sign. *)
Theorem keygen_default_unusable seed w w' inFile outFile alg :
  String.length seed = SeedSize →
  attestkeygen [] (λ _, "") (Some seed) w = Done (0, default_lines seed) w
  ∧ ∃ status w2, attestsign (exported (default_lines seed)) inFile outFile alg "ci-active" w'
      = Done status w2 ∧ status ≠ 0.
Proof.
  intros Hs. split; [by apply default_output|].
  unfold attestsign. case_decide; [by eexists _, _|].
  unfold ReadFile, mbind, M_bind, access, gets. cbv iota beta.
  destruct (_ !! inFile) as [data|]; [|by eexists _, _].
  case_decide; [by eexists _, _|].
  set (env := exported (default_lines seed)).
  assert (env private_base = "ci-active:" +:+ StdEncoding seed ∧ env key_id_var = "ci-active"
    ∧ enforce_key env = false ∧ env (private_base +:+ "S") = "" ∧ env (private_base +:+ "S" +:+ "_FILE") = ""
    ∧ env (private_base +:+ "S" +:+ "_COMMAND") = "" ∧ env (private_base +:+ "_FILE") = ""
    ∧ env (private_base +:+ "_COMMAND") = "") as (E1 & E2 & E3 & E4 & E5 & E6 & E7 & E8).
  { subst env. unfold default_lines, enforce_key. generalize (StdEncoding seed), (StdEncoding (ed_public seed)).
    intros a b. vm_compute. done. }
  unfold resolveEd25519PrivateKey, resolve_key_text, resolveValueSource. cbv zeta. rewrite E3.
  cbn [andb]. cbv iota. rewrite !str_app_assoc, E4, E5, E6, E7, E8, E1.
  change "RGS_VERIFY_EVIDENCE_ATTESTATION_KEY_ID" with key_id_var. rewrite E2.
  change (TrimSpace "") with "". pose proof (StdEncoding_graphic seed) as Hg.
  rewrite (TrimSpace_graphic ("ci-active:" +:+ _)) by by rewrite str_all_app, Hg.
  unfold mbind, M_bind, mret, M_ret. repeat (rewrite decide_False by (intros []; done)). cbv iota beta.
  rewrite decide_False by done. rewrite (decide_False (P := "ci-active" = "")) by done.
  rewrite decide_False by (intros []; done). cbv iota.
  unfold parseEd25519PrivateKey.
  assert (normalizeKeyMaterial ("ci-active:" +:+ StdEncoding seed) = "ci-active:" +:+ StdEncoding seed) as ->.
  { unfold normalizeKeyMaterial. rewrite TrimSpace_graphic by by rewrite str_all_app, Hg.
    rewrite !str_app_cons, str_app_nil. by destruct (String.rev (String _ _)). }
  rewrite ring_entry_not_base64 by done. by eexists _, _.
Qed.
End default_output.

(** ** Concrete instances *)

Module AttestationExample.
(** SHA-256 replaced by the identity, and signatures by the public key with the
    message. *)
#[export] Instance ex_crypto : Crypto := λ s, s.
#[export] Instance ex_ed : Ed25519 := {|
  ed_public seed := seed;
  ed_sign priv m := priv_Public priv +:+ m;
  ed_verify pub m sig := bool_decide (sig = pub +:+ m) |}.
#[export] Instance ex_law : Ed25519Law.
Proof.
  split; [done|]. intros seed m Hs. simpl. apply bool_decide_eq_true_2. f_equal.
  unfold priv_Public. rewrite <- Hs. apply substring_app_r. rewrite str_len_app. lia.
Qed.
#[export] Instance ex_os : OS := {|
  interfere _ d := d; command_output _ _ := None; write_ok _ _ := true; mkdir_ok _ _ := true |}.

Definition seed : string := "0123456789abcdef0123456789abcdef".

Definition keygen_world : World := mkWorld 0 {[ "/run/attestation.json" := "some attestation" ]}.
End AttestationExample.
Import AttestationExample.

Lemma ex_quiet : quiet.
Proof. done. Qed.

Definition keygen_args : list string := ["--out-dir"; "/keys"; "--verify"].
Definition keygen_cfg : config :=
  (default_config (λ _, "")) <| outDir := "/keys" |> <| verify := true |>.

Lemma done_or_false {S A} (r : outcome S A) (P : A → S → Prop) :
  match r with Done a s => P a s | _ => False end → ∃ a s, r = Done a s ∧ P a s.
Proof. destruct r; [eauto|done..]. Qed.

Lemma keygen_runs : ∃ lines w1, attestkeygen keygen_args (λ _, "") (Some seed) keygen_world = Done (0, lines) w1
  ∧ w_disk w1 !! "/run/attestation.json" = Some "some attestation"
  ∧ w_disk w1 !! "/run/attestation.sig" = None.
Proof.
  destruct (done_or_false (attestkeygen keygen_args (λ _, "") (Some seed) keygen_world)
    (λ r w1, r.1 = 0 ∧ w_disk w1 !! "/run/attestation.json" = Some "some attestation"
      ∧ w_disk w1 !! "/run/attestation.sig" = None)) as ([st lines] & w1 & E & Est & Hin & Hout).
  { vm_compute. repeat split. }
  simpl in Est. subst st. exists lines, w1. split; [exact E|]. split; [exact Hin|exact Hout].
Qed.


Lemma keygen_default_unusable_witness :
  attestkeygen [] (λ _, "") (Some seed) keygen_world = Done (0, default_lines seed) keygen_world
  ∧ ∃ status w2, attestsign (exported (default_lines seed)) "/run/attestation.json" "/run/attestation.sig"
      algEd25519 "ci-active" keygen_world = Done status w2 ∧ status ≠ 0.
Proof. by apply (keygen_default_unusable seed keygen_world keygen_world). Defined.
