(* ===== verification/GoDuration.v ===== *)
(** * Durations as text (package time)

    [time.ParseDuration] as the server's settings use it and
    [time.Duration.String] as the status reports use it; on whole seconds the
    first inverts the second. *)

From S2P Require Import Prelude GoTime GoJson GoBytes GoJsonRead.
From Stdlib Require Import Ascii SpecFloat.

(** ** Parsing *)

Definition two63 : Z := 2 ^ 63.

(** [leadingInt]: the value of the leading digits and the rest; none if the
    value passes 2^63. *)
Fixpoint leadingInt (x : Z) (s : string) : option (Z * string) :=
  match s with
  | EmptyString => Some (x, s)
  | String c s' =>
      match digit_val c with
      | None => Some (x, s)
      | Some d =>
          if two63 / 10 <? x then None
          else let x := x * 10 + d in if two63 <? x then None else leadingInt x s'
      end
  end.

(** [leadingFraction]: value, scale and rest; digits past the precision are
    skipped. *)
Fixpoint leadingFraction (x : Z) (scale : float64) (overflow : bool) (s : string)
    : Z * float64 * string :=
  match s with
  | EmptyString => (x, scale, s)
  | String c s' =>
      match digit_val c with
      | None => (x, scale, s)
      | Some d =>
          if overflow then leadingFraction x scale true s'
          else if (two63 - 1) / 10 <? x then leadingFraction x scale true s'
          else
            let y := x * 10 + d in
            if two63 <? y then leadingFraction x scale true s'
            else leadingFraction y (SFmul f64_prec f64_emax scale (f64 10)) false s'
      end
  end.

(** The unit: everything up to the next dot or digit. *)
Fixpoint take_unit (s : string) : string * string :=
  match s with
  | EmptyString => ("", "")
  | String c s' =>
      if decide (c = "."%char ∨ is_Some (digit_val c)) then ("", s)
      else let '(u, rest) := take_unit s' in (String c u, rest)
  end.

Definition byte (n : N) : ascii := ascii_of_N n.
Definition micro_sign : string := String (byte 194) (String (byte 181) "").
Definition greek_mu : string := String (byte 206) (String (byte 188) "").

(** [unitMap]. *)
Definition unit_of (u : string) : option Z :=
  if decide (u = "ns") then Some 1
  else if decide (u = "us" ∨ u = micro_sign +:+ "s" ∨ u = greek_mu +:+ "s") then Some 1000
  else if decide (u = "ms") then Some 1000000
  else if decide (u = "s") then Some Second
  else if decide (u = "m") then Some Minute
  else if decide (u = "h") then Some Hour
  else None.

(** The integer part [v] and the fraction [f / scale] of a unit, in
    nanoseconds. *)
Definition in_unit (v f : Z) (scale : float64) (unit : Z) : option Z :=
  if two63 / unit <? v then None
  else
    let v := v * unit in
    if 0 <? f then
      let v := v + trunc (SFmul f64_prec f64_emax (f64 f)
                            (SFdiv f64_prec f64_emax (f64 unit) scale)) in
      if two63 <? v then None else Some v
    else Some v.

(** One number with its unit: its value in nanoseconds and the rest. *)
Definition parse_component (s : string) : option (Z * string) :=
  '(v, s1) ← leadingInt 0 s;
  let pre := bool_decide (s1 ≠ s) in
  let '(f, scale, s2, post) :=
    match strip_prefix "." s1 with
    | Some t => let '(f, scale, rest) := leadingFraction 0 (f64 1) false t in
        (f, scale, rest, bool_decide (rest ≠ t))
    | None => (0, f64 1, s1, false)
    end in
  if negb (pre || post) then None
  else
    let '(u, rest) := take_unit s2 in
    if decide (u = "") then None
    else unit ← unit_of u; v ← in_unit v f scale unit; Some (v, rest).

(** The loop; each round takes at least one byte, so the length of the text is
    enough fuel. *)
Fixpoint parse_components (fuel : nat) (d : Z) (s : string) : option Z :=
  match s, fuel with
  | EmptyString, _ => Some d
  | _, O => None
  | _, S fuel =>
      '(v, rest) ← parse_component s;
      let d := d + v in
      if two63 <? d then None else parse_components fuel d rest
  end.

(** [time.ParseDuration]; [None] is an error. *)
Definition ParseDuration (s : string) : option Duration :=
  let '(neg, s) :=
    match s with
    | String c s' => if decide (c = "-"%char) then (true, s')
                     else if decide (c = "+"%char) then (false, s') else (false, s)
    | EmptyString => (false, s)
    end in
  if decide (s = "0") then Some 0
  else if decide (s = "") then None
  else
    d ← parse_components (String.length s) 0 s;
    if neg : bool then Some (- d)
    else if two63 - 1 <? d then None else Some d.

(** ** Printing *)

(** [fmtFrac]: the last [prec] decimal digits of [v], trailing zeros dropped,
    with a dot unless all are zero. *)
Fixpoint frac_digits (prec : nat) (v : Z) (acc : string) : string :=
  match prec with
  | O => acc
  | S prec =>
      let d := v mod 10 in
      let acc := if decide (acc = "" ∧ d = 0) then "" else FormatInt d +:+ acc in
      frac_digits prec (v / 10) acc
  end.
Definition fmtFrac (v : Z) (prec : nat) : string :=
  let ds := frac_digits prec v "" in if decide (ds = "") then "" else "." +:+ ds.

Definition with_sign (neg : bool) (s : string) : string := if neg then "-" +:+ s else s.

(** [Duration.String]. *)
Definition Duration_String (d : Duration) : string :=
  let u := Z.abs d in
  if u =? 0 then "0s"
  else with_sign (d <? 0) (
    if u <? 1000 then FormatInt u +:+ "ns"
    else if u <? 1000000 then FormatInt (u / 1000) +:+ fmtFrac u 3 +:+ micro_sign +:+ "s"
    else if u <? Second then FormatInt (u / 1000000) +:+ fmtFrac u 6 +:+ "ms"
    else
      let secs := u / Second in
      let mins := secs / 60 in
      let hours := mins / 60 in
      (if 0 <? hours then FormatInt hours +:+ "h" else "")
      +:+ (if 0 <? mins then FormatInt (mins mod 60) +:+ "m" else "")
      +:+ FormatInt (secs mod 60) +:+ fmtFrac u 9 +:+ "s").

Example ParseDuration_examples :
  ParseDuration "15m" = Some (15 * Minute) ∧ ParseDuration "24h" = Some (24 * Hour)
  ∧ ParseDuration "1h15m30.918273645s" = Some (Hour + 15 * Minute + 30918273645)
  ∧ ParseDuration "-1.5h" = Some (- (90 * Minute)) ∧ ParseDuration ".5s" = Some 500000000
  ∧ ParseDuration "5" = None ∧ ParseDuration "" = None ∧ ParseDuration "1x" = None
  ∧ ParseDuration "9223372036854775808ns" = None
  ∧ ParseDuration "-9223372036854775808ns" = Some (- two63)
  ∧ ParseDuration ("1" +:+ micro_sign +:+ "s") = Some 1000 ∧ ParseDuration "+0" = Some 0.
Proof. by vm_compute. Qed.

Example Duration_String_examples :
  Duration_String (Hour + 15 * Minute + 30918000000) = "1h15m30.918s"
  ∧ Duration_String (90 * Minute) = "1h30m0s" ∧ Duration_String 1500000 = "1.5ms"
  ∧ Duration_String (-100) = "-100ns" ∧ Duration_String 0 = "0s"
  ∧ Duration_String 61000000000 = "1m1s" ∧ Duration_String (2 * Hour + 5) = "2h0m0.000000005s".
Proof. by vm_compute. Qed.

(** ** Round trip on whole seconds *)

Lemma digit_val_range c d : digit_val c = Some d → 0 ≤ d ≤ 9.
Proof.
  unfold digit_val. destruct (Z.leb_spec 48 (Z.of_N (N_of_ascii c))); [|done].
  destruct (Z.leb_spec (Z.of_N (N_of_ascii c)) 57); [|done]. intros [= <-]. lia.
Qed.

Lemma parse_digits_mono s acc n : 0 ≤ acc → parse_digits acc s = Some n → acc ≤ n.
Proof.
  revert acc. induction s as [|c s IH]; intros acc Hacc; simpl; [intros [= ->]; lia|].
  destruct (digit_val c) as [d|] eqn:Hd; [|done]. apply digit_val_range in Hd.
  intros Hs%IH; lia.
Qed.

Lemma leadingInt_digits s acc n rest : 0 ≤ acc → n ≤ two63 →
  parse_digits acc s = Some n → leadingInt acc (s +:+ rest) = leadingInt n rest.
Proof.
  intros Hacc Hn. revert acc Hacc. induction s as [|c s IH]; intros acc Hacc; simpl.
  { by intros [= ->]. }
  destruct (digit_val c) as [d|] eqn:Hd; [|done]. simpl. intros Hs.
  pose proof (digit_val_range _ _ Hd). pose proof (parse_digits_mono s (10 * acc + d) n ltac:(lia) Hs).
  destruct (Z.ltb_spec (two63 / 10) acc) as [Hlt|_].
  { pose proof (Z.mul_succ_div_gt two63 10 ltac:(lia)). lia. }
  destruct (Z.ltb_spec two63 (acc * 10 + d)); [lia|].
  rewrite <- (IH (10 * acc + d)) by (done || lia). f_equal. lia.
Qed.

(** The text does not start with a digit, or starts with one. *)
Definition ends_number (s : string) : Prop :=
  match s with String c _ => digit_val c = None | EmptyString => True end.
Definition starts_number (s : string) : Prop :=
  match s with String c _ => is_Some (digit_val c) | EmptyString => True end.

Lemma leadingInt_FormatInt n rest : 0 ≤ n ≤ two63 → ends_number rest →
  leadingInt 0 (FormatInt n +:+ rest) = Some (n, rest).
Proof.
  intros [Hn Hm] Hr. rewrite (leadingInt_digits _ 0 n rest) by (done || lia || by apply parse_digits_pretty).
  destruct rest as [|c rest]; [done|]. simpl in Hr |- *. by rewrite Hr.
Qed.

Lemma starts_number_FormatInt n rest : 0 ≤ n ≤ int64_max → starts_number (FormatInt n +:+ rest).
Proof.
  intros Hn. pose proof (parse_digits_pretty n ltac:(lia)) as Hp.
  pose proof (FormatInt_nonempty n Hn). destruct (FormatInt n) as [|c s]; [done|].
  simpl in *. by destruct (digit_val c).
Qed.

(** A whole number of hours, minutes or seconds, and what follows it. *)
Lemma parse_component_unit n (u : ascii) unit rest :
  0 ≤ n → unit_of (String u "") = Some unit → 0 < unit → n * unit ≤ int64_max →
  u ≠ "."%char → digit_val u = None → starts_number rest →
  parse_component (FormatInt n +:+ String u rest) = Some (n * unit, rest).
Proof.
  intros Hn Hu Hunit Hmax Hdot Hdig Hrest. unfold int64_max in *.
  assert (0 ≤ n ≤ int64_max) as Hn' by (unfold int64_max; nia).
  unfold parse_component. rewrite leadingInt_FormatInt by (done || unfold two63, int64_max in *; lia).
  cbn [mbind option_bind].
  rewrite bool_decide_true.
  2: { intros E%(f_equal String.length). rewrite str_len_app in E.
       pose proof (FormatInt_nonempty n Hn'). destruct (FormatInt n); [done|]. simpl in E. lia. }
  simpl strip_prefix. rewrite decide_False by done. cbn [orb negb].
  simpl take_unit. rewrite decide_False by (rewrite Hdig; intros [?|[? ?]]; done).
  assert (take_unit rest = ("", rest)) as ->.
  { destruct rest as [|c rest]; [done|]. simpl. rewrite decide_True; [done|by right]. }
  rewrite decide_False by done. rewrite Hu. cbn [mbind option_bind]. unfold in_unit.
  destruct (Z.ltb_spec (two63 / unit) n) as [Hlt|_]; [|done].
  assert (two63 < n * unit); [|unfold two63 in *; lia].
  pose proof (Z.mul_succ_div_gt two63 unit Hunit). nia.
Qed.

Lemma parse_components_unit fuel d n (u : ascii) unit rest :
  0 ≤ n → unit_of (String u "") = Some unit → 0 < unit → n * unit ≤ int64_max →
  u ≠ "."%char → digit_val u = None → starts_number rest → d + n * unit ≤ int64_max →
  parse_components (S fuel) d (FormatInt n +:+ String u rest)
  = parse_components fuel (d + n * unit) rest.
Proof.
  intros Hn Hu Hunit Hmax Hdot Hdig Hrest Hd. cbn [parse_components].
  rewrite (parse_component_unit n u unit rest) by done. cbn [mbind option_bind].
  destruct (Z.ltb_spec two63 (d + n * unit)); [unfold two63, int64_max in *; lia|].
  by destruct (FormatInt n).
Qed.

(** A number below [b] followed by the unit [u], as [Duration.String] prints it. *)
Lemma frac_digits_zero prec v : v mod 10 ^ Z.of_nat prec = 0 → frac_digits prec v "" = "".
Proof.
  revert v. induction prec as [|prec IH]; intros v Hv; [done|]. cbn [frac_digits].
  rewrite Nat2Z.inj_succ, Z.pow_succ_r in Hv by lia.
  rewrite Z.rem_mul_r in Hv by (try apply Z.pow_pos_nonneg; lia).
  pose proof (Z.mod_pos_bound v 10 ltac:(lia)).
  pose proof (Z.mod_pos_bound (v / 10) (10 ^ Z.of_nat prec) ltac:(apply Z.pow_pos_nonneg; lia)).
  rewrite decide_True by (split; [done|lia]). apply IH. lia.
Qed.

Lemma fmtFrac_seconds n : fmtFrac (n * Second) 9 = "".
Proof. unfold fmtFrac. rewrite frac_digits_zero; [done|]. apply Z_mod_mult. Qed.

(** Hours, minutes and seconds read back. *)
Lemma parse_hms h m sec fuel :
  0 ≤ h → 0 ≤ m < 60 → 0 ≤ sec < 60 → h * Hour + m * Minute + sec * Second ≤ int64_max →
  (3 ≤ fuel)%nat →
  let text := (if 0 <? h then FormatInt h +:+ "h" else "")
    +:+ (if 0 <? h * 60 + m then FormatInt m +:+ "m" else "") +:+ FormatInt sec +:+ "s" in
  parse_components fuel 0 text = Some (h * Hour + m * Minute + sec * Second).
Proof.
  intros Hh Hm Hs Hmax Hfuel. cbv zeta. unfold Hour, Minute, Second in *.
  assert (0 ≤ m ≤ int64_max ∧ 0 ≤ sec ≤ int64_max) as [Hm' Hs'] by (unfold int64_max; lia).
  destruct fuel as [|[|[|fuel]]]; [lia..|].
  assert (∀ fuel d, 0 ≤ d → d + sec * Second ≤ int64_max →
    parse_components (S fuel) d (FormatInt sec +:+ "s") = Some (d + sec * Second)) as Hsec.
  { intros k d ? Hd. rewrite (parse_components_unit _ _ _ _ Second) by (done || unfold Second in *; lia).
    by destruct k. }
  assert (∀ fuel d, 0 ≤ d → d + m * Minute + sec * Second ≤ int64_max →
    parse_components (S (S fuel)) d (FormatInt m +:+ String "m" (FormatInt sec +:+ "s"))
    = Some (d + m * Minute + sec * Second)) as Hmin.
  { intros k d ? Hd.
    rewrite (parse_components_unit _ _ _ _ Minute)
      by (done || by apply starts_number_FormatInt || unfold Minute, Second in *; lia).
    apply Hsec; unfold Minute, Second in *; lia. }
  destruct (Z.ltb_spec 0 h), (Z.ltb_spec 0 (h * 60 + m)); try lia.
  - rewrite !str_app_assoc, !str_app_cons, !str_app_nil.
    rewrite (parse_components_unit _ _ _ _ Hour)
      by (done || by apply starts_number_FormatInt || unfold Hour, Minute, Second in *; lia).
    apply Hmin; unfold Hour, Minute, Second in *; lia.
  - rewrite str_app_nil, str_app_assoc, str_app_cons, str_app_nil.
    rewrite Hmin; unfold Hour, Minute, Second in *; [f_equal; lia|lia..].
  - rewrite !str_app_nil, Hsec; unfold Hour, Minute, Second in *; [f_equal; lia|lia..].
Qed.

(** ** The fuel is enough *)

Lemma leadingInt_len s x v rest : leadingInt x s = Some (v, rest) →
  (String.length rest ≤ String.length s)%nat.
Proof.
  revert x. induction s as [|c s IH]; intros x; simpl; [by intros [= _ <-]|].
  destruct (digit_val c); [|intros [= _ <-]; simpl; lia].
  do 2 (destruct (_ <? _); [done|]). intros Hr%IH. lia.
Qed.

Lemma leadingFraction_len s x scale o :
  (String.length (leadingFraction x scale o s).2 ≤ String.length s)%nat.
Proof.
  revert x scale o. induction s as [|c s IH]; intros x scale o; simpl; [lia|].
  destruct (digit_val c); [|simpl; lia]. cbv zeta.
  assert (∀ x scale o, String.length (leadingFraction x scale o s).2 ≤ S (String.length s))%nat as IH'
    by (intros ? ? ?; apply Nat.le_le_succ_r, IH).
  destruct o; [apply IH'|]. do 2 (destruct (_ <? _); [apply IH'|]). apply IH'.
Qed.

Lemma take_unit_len s : (String.length (take_unit s).1 + String.length (take_unit s).2
  = String.length s)%nat.
Proof.
  induction s as [|c s IH]; [done|]. simpl. case_decide; [done|].
  destruct (take_unit s). simpl in *. lia.
Qed.

Lemma strip_dot_len s t : strip_prefix "." s = Some t → (String.length t < String.length s)%nat.
Proof. destruct s as [|c s]; [done|]. simpl. case_decide; [|done]. intros [= <-]. lia. Qed.

Lemma parse_component_len s v rest : parse_component s = Some (v, rest) →
  (String.length rest < String.length s)%nat.
Proof.
  unfold parse_component. destruct (leadingInt 0 s) as [[w s1]|] eqn:E1; [|done].
  apply leadingInt_len in E1. cbn [mbind option_bind].
  assert (∃ f scale s2 post, match strip_prefix "." s1 with
    | Some t => let '(f, scale, rest) := leadingFraction 0 (f64 1) false t in
        (f, scale, rest, bool_decide (rest ≠ t))
    | None => (0, f64 1, s1, false)
    end = (f, scale, s2, post) ∧ (String.length s2 ≤ String.length s1)%nat)
    as (f & scale & s2 & post & -> & E2).
  { destruct (strip_prefix "." s1) as [t|] eqn:Et; [|by repeat eexists].
    pose proof (leadingFraction_len t 0 (f64 1) false) as Hl. apply strip_dot_len in Et.
    destruct (leadingFraction _ _ _ _) as [[f scale] s2]. simpl in Hl.
    repeat eexists. lia. }
  destruct (negb _); [done|]. pose proof (take_unit_len s2) as E3.
  destruct (take_unit s2) as [u r]. simpl in E3. destruct (decide (u = "")) as [|Hu]; [done|].
  destruct u; [done|]. destruct (unit_of _); [|done]. cbn [mbind option_bind].
  destruct (in_unit _ _ _ _); [|done]. intros [= _ <-]. simpl in E3. lia.
Qed.

(** Any fuel that gives a result and any that is not less than the length of
    the text give the same result. *)
Lemma parse_components_fuel n m d s r : (String.length s ≤ m)%nat →
  parse_components n d s = Some r → parse_components m d s = Some r.
Proof.
  revert m d s. induction n as [|n IH]; intros m d s Hm; [by destruct s, m|].
  destruct s as [|c s]; [by destruct m|]. destruct m as [|m]; [simpl in Hm; lia|].
  cbn [parse_components]. destruct (parse_component _) as [[v rest]|] eqn:E; [|done].
  apply parse_component_len in E. cbn [mbind option_bind].
  destruct (_ <? _); [done|]. apply IH. lia.
Qed.

(** [ParseDuration] inverts [Duration.String] on whole seconds. *)
Theorem duration_roundtrip n : - int64_max ≤ n * Second ≤ int64_max →
  ParseDuration (Duration_String (n * Second)) = Some (n * Second).
Proof.
  intros Hn. unfold Duration_String. set (u := Z.abs (n * Second)).
  destruct (Z.eqb_spec u 0) as [E|Hne].
  { assert (n = 0) as -> by (unfold u, Second in *; lia). done. }
  assert (u = Z.abs n * Second) as Hu by (unfold u, Second; lia).
  assert (Second ≤ u) by (unfold Second in *; lia). cbv zeta.
  rewrite !(proj2 (Z.ltb_ge u _)) by (unfold Second in *; lia).
  assert (u / Second = Z.abs n) as -> by (rewrite Hu; by apply Z_div_mult).
  assert (fmtFrac u 9 = "") as -> by (rewrite Hu; apply fmtFrac_seconds).
  set (k := Z.abs n) in *. rewrite str_app_nil.
  pose proof (Z.mod_pos_bound k 60 ltac:(lia)). pose proof (Z.mod_pos_bound (k / 60) 60 ltac:(lia)).
  assert (0 ≤ k / 60 / 60) by (apply Z.div_pos; [apply Z.div_pos|]; lia).
  pose proof (Z.div_mod k 60 ltac:(lia)). pose proof (Z.div_mod (k / 60) 60 ltac:(lia)).
  assert (k / 60 / 60 * Hour + (k / 60) mod 60 * Minute + k mod 60 * Second = u) as Hsum
    by (unfold Hour, Minute, Second in *; lia).
  pose proof (parse_hms (k / 60 / 60) ((k / 60) mod 60) (k mod 60) 3 ltac:(done) ltac:(done)
    ltac:(done) ltac:(lia) ltac:(lia)) as Hp. cbv zeta in Hp. rewrite Hsum in Hp.
  replace (k / 60 / 60 * 60 + (k / 60) mod 60) with (k / 60) in Hp by lia.
  assert (starts_number ((if 0 <? k / 60 / 60 then FormatInt (k / 60 / 60) +:+ "h" else "")
    +:+ (if 0 <? k / 60 then FormatInt ((k / 60) mod 60) +:+ "m" else "")
    +:+ FormatInt (k mod 60) +:+ "s")) as Hstart.
  { unfold int64_max, Second in *.
    repeat destruct (0 <? _); rewrite ?str_app_assoc, ?str_app_nil;
      apply starts_number_FormatInt; unfold int64_max; lia. }
  set (text := (if _ : bool then _ else _) +:+ _) in *.
  assert (parse_components (String.length text) 0 text = Some u) as Hp'
    by (by eapply parse_components_fuel; [|exact Hp]).
  assert (text ≠ "" ∧ text ≠ "0") as [Ht0 Ht1].
  { split; intros E; rewrite E in Hp'; [injection Hp' as E0; lia|discriminate Hp']. }
  clearbody text. unfold with_sign, ParseDuration.
  destruct (Z.ltb_spec (n * Second) 0).
  - rewrite str_app_cons, str_app_nil, decide_True by done. cbv iota beta.
    rewrite !decide_False by done. rewrite Hp'. cbn [mbind option_bind]. f_equal. unfold u. lia.
  - destruct text as [|c t]; [done|]. simpl in Hstart.
    rewrite (decide_False (P := c = "-"%char)), (decide_False (P := c = "+"%char))
      by (intros ->; by destruct Hstart).
    rewrite !decide_False by done. rewrite Hp'. cbn [mbind option_bind].
    destruct (Z.ltb_spec (two63 - 1) u); [unfold two63, int64_max in *; lia|]. f_equal. unfold u. lia.
Qed.
