(* ===== verification/Startup.v ===== *)
(** * Server configuration and JWT key rotation (cmd/rgsd/main.go,
      internal/platform/auth/keyset_source.go)

    How the server reads its settings, which settings it refuses in production,
    where the keys of the access tokens come from, and the goroutine that
    reloads them.  Files, commands and the environment are those of
    Attestation.v. *)

From S2P Require Import Prelude GoTime GoJson GoNet GoBytes GoJsonRead AuditTrail Service Listing Auth Attestation.
From Stdlib Require Import Ascii.

(** ** Settings *)

(** [None] stands for [log.Fatalf]. *)
Definition envOr (env : Environ) (key def : string) : string :=
  let v := env key in if decide (v = "") then def else v.

Definition mustParseIntEnv (env : Environ) (key : string) (def : Z) : option Z :=
  let raw := envOr env key "" in
  if decide (raw = "") then Some def else Atoi raw.

Definition mustParseBoolEnv (env : Environ) (key : string) (def : bool) : option bool :=
  let raw := TrimSpace (envOr env key "") in
  if decide (raw = "") then Some def
  else if decide (ToLower raw ∈ ["1"; "true"; "yes"; "on"]) then Some true
  else if decide (ToLower raw ∈ ["0"; "false"; "no"; "off"]) then Some false
  else None.

Definition dev_secret : string := "dev-insecure-change-me".

Inductive runtime_error :=
| ErrDatabaseRequired | ErrTLSRequired | ErrDefaultSecret | ErrExternalKeyset.

Definition validateProductionRuntime (strict strictExternalJWTKeyset : bool) (databaseURL : string)
    (tlsEnabled : bool) (jwtSigningSecret jwtKeysetSpec jwtKeysetFile jwtKeysetCommand : string)
    : option runtime_error :=
  if negb strict then None
  else if decide (TrimSpace databaseURL = "") then Some ErrDatabaseRequired
  else if negb tlsEnabled then Some ErrTLSRequired
  else if decide (TrimSpace jwtKeysetSpec = "" ∧ TrimSpace jwtKeysetFile = ""
            ∧ TrimSpace jwtKeysetCommand = "" ∧ jwtSigningSecret = dev_secret)
  then Some ErrDefaultSecret
  else if strictExternalJWTKeyset
       && bool_decide (TrimSpace jwtKeysetFile = "" ∧ TrimSpace jwtKeysetCommand = "")
  then Some ErrExternalKeyset
  else None.

(** The download signing keys [kid:secret,...]; malformed entries are skipped. *)
Definition parseKeyValueSecrets (spec : string) : gmap string string :=
  foldl (λ out part,
    let entry := TrimSpace part in
    if decide (entry = "") then out
    else match cut_first ":"%char entry with
    | None => out
    | Some (k, v) =>
        let kid := TrimSpace k in
        let secret := TrimSpace v in
        if decide (kid = "" ∨ secret = "") then out else <[kid := secret]> out
    end) ∅ (split_on ","%char spec).

(** ** Keysets from JSON *)

Inductive keyset_error :=
| KReadFile | KCommandEmpty | KCommand | KDecode | KSet (e : auth_error).

(** The decoded [hmacKeysetFile]. *)
Record keyset_file := mkKeysetFile { kf_ActiveKID : string; kf_Keys : gmap string string }.

(** A member of the map [keys]: null gives the empty string. *)
Definition decode_secret (m : option (gmap string string)) (kv : string * any)
    : option (gmap string string) :=
  m ← m;
  match kv.2 with
  | JStr s => Some (<[kv.1 := s]> m)
  | JNull => Some (<[kv.1 := ""]> m)
  | _ => None
  end.

(** A member of the document; a second [keys] adds to the first. *)
Definition decode_member (f : option keyset_file) (kv : string * any) : option keyset_file :=
  f ← f;
  if decide (fold_name kv.1 = "ACTIVE_KID") then
    match kv.2 with
    | JStr s => Some (mkKeysetFile s (kf_Keys f))
    | JNull => Some f
    | _ => None
    end
  else if decide (fold_name kv.1 = "KEYS") then
    match kv.2 with
    | JObj l => m ← foldl decode_secret (Some (kf_Keys f)) l; Some (mkKeysetFile (kf_ActiveKID f) m)
    | JNull => Some (mkKeysetFile (kf_ActiveKID f) ∅)
    | _ => None
    end
  else Some f.

Definition decode_keyset (raw : string) : option keyset_file :=
  l ← Unmarshal_struct raw; foldl decode_member (Some (mkKeysetFile "" ∅)) l.

(** The order in which Go iterates over a map: any order of its entries. *)
Class MapOrder := map_order : gmap string string → list (string * string).
Class MapOrderLaw `{MapOrder} : Prop := map_order_perm m : map_order m ≡ₚ map_to_list m.

Section keysets.
Context `{OS, MapOrder, Crypto}.

Definition LoadHMACKeysetJSON (raw : string) : HMACKeyset + keyset_error :=
  match decode_keyset raw with
  | None => inr KDecode
  | Some f =>
      match keyset_of_payload (kf_ActiveKID f) (map_order (kf_Keys f)) with
      | inl k => inl k
      | inr e => inr (KSet e)
      end
  end.

Definition LoadHMACKeysetFile (path : string) : OM (HMACKeyset + keyset_error) :=
  raw ← ReadFile path;
  mret (match raw with None => inr KReadFile | Some raw => LoadHMACKeysetJSON raw end).

Definition LoadHMACKeysetCommand (command : string) : OM (HMACKeyset + keyset_error) :=
  let command := TrimSpace command in
  if decide (command = "") then mret (inr KCommandEmpty)
  else
    out ← run_command command;
    mret (match out with None => inr KCommand | Some out => LoadHMACKeysetJSON out end).

(** The active key id and the entries in the order of their ids, hashed. *)
Definition fingerprint_text (k : HMACKeyset) : string :=
  foldl (λ joined kid, joined +:+ "|" +:+ kid +:+ ":" +:+ map_get "" (Keys k) kid)
    (ActiveKID k) (sorted_keys (Keys k)).
Definition keysetFingerprint (k : HMACKeyset) : string :=
  EncodeToString (sha256 (fingerprint_text k)).

(** The settings that decide where the keys come from. *)
Record jwt_settings := mkJwtSettings {
  js_secret : string; js_spec : string; js_activeKID : string; js_file : string; js_command : string }.

Definition loadJWTKeyset (c : jwt_settings) : OM (HMACKeyset * string + keyset_error) :=
  let with_fingerprint r :=
    match r with inl k => inl (k, keysetFingerprint k) | inr e => inr e end in
  if decide (TrimSpace (js_file c) ≠ "") then
    r ← LoadHMACKeysetFile (js_file c); mret (with_fingerprint r)
  else if decide (TrimSpace (js_command c) ≠ "") then
    r ← LoadHMACKeysetCommand (js_command c); mret (with_fingerprint r)
  else
    mret (with_fingerprint
      (match ParseHMACKeyset (js_secret c) (js_spec c) (js_activeKID c) with
       | inl k => inl k | inr e => inr (KSet e) end)).

(** ** The refresh goroutine *)

(** The signer and the verifier the whole server shares, and the fingerprint of
    the keyset they were given last. *)
Record key_state := mkKeyState {
  ks_signer : JWTSigner; ks_verifier : JWTVerifier; ks_fingerprint : string }.

(** Start-up: none if the keys cannot be loaded, which is fatal. *)
Definition start_keys (c : jwt_settings) : OM (option key_state) :=
  r ← loadJWTKeyset c;
  mret (match r with
        | inl (k, fp) =>
            Some (mkKeyState (NewJWTSignerWithKeyset k) (NewJWTVerifierWithKeyset k) fp)
        | inr _ => None
        end).

(** One tick.  The goroutine exists only if the keys are external. *)
Definition refresh_tick (c : jwt_settings) (s : key_state) : OM key_state :=
  r ← loadJWTKeyset c;
  mret (match r with
        | inr _ => s
        | inl (loaded, fingerprint) =>
            if decide (fingerprint = ks_fingerprint s) then s
            else
              let '(signer, e) := signer_SetKeyset loaded (ks_signer s) in
              let s := mkKeyState signer (ks_verifier s) (ks_fingerprint s) in
              match e with
              | Some _ => s
              | None =>
                  let '(verifier, e) := verifier_SetKeyset loaded (ks_verifier s) in
                  let s := mkKeyState (ks_signer s) verifier (ks_fingerprint s) in
                  match e with
                  | Some _ => s
                  | None => mkKeyState (ks_signer s) (ks_verifier s) fingerprint
                  end
              end
        end).

Fixpoint refresh_ticks (n : nat) (c : jwt_settings) (s : key_state) : OM key_state :=
  match n with
  | O => mret s
  | S n => s ← refresh_tick c s; refresh_ticks n c s
  end.
End keysets.
