(* ===== verification/StartupProofs.v ===== *)
(** * What start-up and key rotation guarantee

    Signer and verifier always hold one and the same valid keyset, so tokens the
    server signs are tokens it accepts; in production the built-in secret is not
    used unless the operator supplies it; and a rotation can be missed because
    the fingerprint of a keyset is not injective. *)

From S2P Require Import Prelude GoTime GoJson GoNet GoBytes GoJsonRead AuditTrail Service Listing.
From S2P Require Import Auth AuthProofs Attestation AttestationProofs Startup.
From Stdlib Require Import Ascii.

(** ** Trimming twice *)

Lemma strip_any_len pats s t : Forall (λ p, p ≠ "") pats → strip_any pats s = Some t →
  (String.length t < String.length s)%nat.
Proof.
  induction 1 as [|p pats Hp _ IH]; [done|]. simpl.
  destruct (strip_prefix p s) as [u|] eqn:E; [|done]. intros [= ->].
  rewrite (strip_prefix_len _ _ _ E). destruct p; [done|]. simpl. lia.
Qed.

Lemma trim_left_stop pats n s : Forall (λ p, p ≠ "") pats → (String.length s ≤ n)%nat →
  strip_any pats (trim_left pats n s) = None.
Proof.
  intros Hp. revert s. induction n as [|n IH]; intros s Hn.
  - destruct s; [|simpl in Hn; lia]. simpl. destruct (strip_any pats "") as [t|] eqn:E; [|done].
    apply strip_any_len in E; [simpl in E; lia|done].
  - simpl. destruct (strip_any pats s) as [t|] eqn:E; [|done]. apply IH.
    apply strip_any_len in E; [lia|done].
Qed.

(** A prefix of a string that starts with no pattern starts with none. *)
Lemma strip_any_prefix pats s t : strip_any pats (s +:+ t) = None → strip_any pats s = None.
Proof.
  induction pats as [|p pats IH]; [done|]. simpl.
  assert (∀ p s, is_Some (strip_prefix p s) → is_Some (strip_prefix p (s +:+ t))) as Hp.
  { clear. induction p as [|c p IH]; intros s; [done|]. simpl. destruct s as [|d s]; [by intros [? ?]|].
    rewrite str_app_cons. case_decide; [apply IH|by intros [? ?]]. }
  destruct (strip_prefix p s) as [u|] eqn:E.
  - destruct (Hp p s) as [v ->]; [by rewrite E|done].
  - destruct (strip_prefix p (s +:+ t)); [done|]. apply IH.
Qed.

(** What is left after trimming on the left is an end of the string. *)
Lemma trim_left_suffix pats n s : ∃ p, s = p +:+ trim_left pats n s.
Proof.
  revert s. induction n as [|n IH]; intros s; [by exists ""|]. simpl.
  destruct (strip_any pats s) as [t|] eqn:E; [|by exists ""].
  assert (∃ p, s = p +:+ t) as [p ->].
  { clear IH. induction pats as [|p pats IHp]; [done|]. simpl in E.
    destruct (strip_prefix p s) as [u|] eqn:Ep; [|auto]. injection E as ->.
    exists p. by apply strip_prefix_app. }
  destruct (IH t) as [p' Hp']. exists (p +:+ p'). by rewrite str_app_assoc, <- Hp'.
Qed.

Lemma TrimSpace_idempotent s : TrimSpace (TrimSpace s) = TrimSpace s.
Proof.
  assert (Forall (λ p, p ≠ "") white_space ∧ Forall (λ p, p ≠ "") (String.rev <$> white_space)) as [Hw Hr]
    by (split; repeat constructor; vm_compute; congruence).
  unfold TrimSpace at 2 3. cbv zeta.
  set (l := trim_left white_space (String.length s) s).
  set (r := trim_left (String.rev <$> white_space) (String.length l) (String.rev l)).
  assert (strip_any white_space l = None) as Hl by by apply trim_left_stop.
  assert (String.length (String.rev l) = String.length l) as Hlen.
  { clear. induction l as [|c l IH]; [done|]. change (String c l) with (String c "" +:+ l).
    rewrite str_rev_snoc, !str_len_app, IH. simpl. lia. }
  assert (strip_any (String.rev <$> white_space) r = None) as Hrr by (apply trim_left_stop; [done|lia]).
  assert (strip_any white_space (String.rev r) = None) as Hlr.
  { destruct (trim_left_suffix (String.rev <$> white_space) (String.length l) (String.rev l)) as [p Hp].
    fold r in Hp. apply (strip_any_prefix _ _ (String.rev p)).
    by rewrite <- str_rev_snoc, <- Hp, str_rev_involutive. }
  unfold TrimSpace. cbv zeta. rewrite (trim_left_none white_space) by done.
  by rewrite str_rev_involutive, trim_left_none.
Qed.

(** ** Loaded keysets are valid *)

(** A keyset the server can run with. *)
Definition usable (k : HMACKeyset) : Prop := keyset_ok k ∧ TrimSpace (ActiveKID k) ≠ "".

Lemma payload_usable active keys k : keyset_of_payload active keys = inl k → usable k.
Proof.
  unfold keyset_of_payload. cbv zeta. set (act := if decide _ then _ else _).
  assert (TrimSpace act ≠ "") as Hact.
  { subst act. case_decide as Ha; [done|]. by rewrite TrimSpace_idempotent. }
  assert (∀ l m, (∀ kid secret, m !! kid = Some secret → secret ≠ "") →
    ∀ kid secret, fold_left (λ (m : gmap string string) '(kid, secret),
      if decide (TrimSpace kid = "" ∨ TrimSpace secret = "") then m
      else <[TrimSpace kid := TrimSpace secret]> m) l m !! kid = Some secret → secret ≠ "") as Hfold.
  { induction l as [|[k0 v0] l IH]; intros m Hm; [done|]. simpl. apply IH. intros kid secret.
    case_decide as Hd; [apply Hm|]. rewrite lookup_insert_Some. intros [[_ <-]|[_ ?]]; [tauto|by eapply Hm]. }
  intros [Hok ->]%checked_keyset_ok; [by split|]. apply Hfold. intros ? ?. by rewrite lookup_empty.
Qed.

Section rotation.
Context `{OS, MapOrder, Crypto}.

Lemma LoadHMACKeysetJSON_usable raw k : LoadHMACKeysetJSON raw = inl k → usable k.
Proof.
  unfold LoadHMACKeysetJSON. destruct (decode_keyset raw); [|done].
  destruct (keyset_of_payload _ _) eqn:E; [|done]. intros [= <-]. by eapply payload_usable.
Qed.

(** The keyset is what the configured source held when it was read: the file if
    one is named, or else the output of the command if there is one, or else the
    specification in the environment. *)
Definition keyset_source (c : jwt_settings) (k : HMACKeyset) : Prop :=
  if decide (TrimSpace (js_file c) ≠ "") then
    ∃ raw w w', ReadFile (js_file c) w = Done (Some raw) w' ∧ LoadHMACKeysetJSON raw = inl k
  else if decide (TrimSpace (js_command c) ≠ "") then
    ∃ raw w w', run_command (TrimSpace (js_command c)) w = Done (Some raw) w'
      ∧ LoadHMACKeysetJSON raw = inl k
  else ParseHMACKeyset (js_secret c) (js_spec c) (js_activeKID c) = inl k.

Lemma loadJWTKeyset_source c w k fp w' :
  loadJWTKeyset c w = Done (inl (k, fp)) w' → keyset_source c k.
Proof.
  unfold loadJWTKeyset, keyset_source. cbv zeta. case_decide; [|case_decide].
  - intros (r & w1 & E1 & E)%bind_done_inv. destruct r as [k'|]; [|done]. injection E as <- _ _.
    unfold LoadHMACKeysetFile in E1. apply bind_done_inv in E1 as (raw & w2 & Er & E1).
    destruct raw as [raw|]; [|done]. injection E1 as E1 _. by exists raw, w, w2.
  - intros (r & w1 & E1 & E)%bind_done_inv. destruct r as [k'|]; [|done]. injection E as <- _ _.
    unfold LoadHMACKeysetCommand in E1. cbv zeta in E1. case_decide; [done|].
    apply bind_done_inv in E1 as (raw & w2 & Er & E1).
    destruct raw as [raw|]; [|done]. injection E1 as E1 _. by exists raw, w, w2.
  - destruct (ParseHMACKeyset _ _ _) as [k'|] eqn:E; [|done]. by intros [= <- _ _].
Qed.

Lemma loadJWTKeyset_usable c w k fp w' :
  loadJWTKeyset c w = Done (inl (k, fp)) w' → usable k ∧ fp = keysetFingerprint k.
Proof.
  unfold loadJWTKeyset. cbv zeta. case_decide; [|case_decide].
  - intros (r & w1 & E1 & E)%bind_done_inv. destruct r as [k'|]; [|done]. injection E as <- <- _.
    split; [|done]. unfold LoadHMACKeysetFile in E1. apply bind_done_inv in E1 as (raw & w2 & _ & E1).
    destruct raw; [|done]. injection E1 as E1 _. by eapply LoadHMACKeysetJSON_usable.
  - intros (r & w1 & E1 & E)%bind_done_inv. destruct r as [k'|]; [|done]. injection E as <- <- _.
    split; [|done]. unfold LoadHMACKeysetCommand in E1. cbv zeta in E1. case_decide; [done|].
    apply bind_done_inv in E1 as (raw & w2 & _ & E1).
    destruct raw; [|done]. injection E1 as E1 _. by eapply LoadHMACKeysetJSON_usable.
  - destruct (ParseHMACKeyset _ _ _) as [k'|] eqn:E; [|done]. intros [= <- <- _].
    split; [|done]. by apply ParseHMACKeyset_ok in E.
Qed.

(** Signer and verifier hold the keyset [k], and the fingerprint is its own. *)
Definition holds (k : HMACKeyset) (s : key_state) : Prop :=
  s = mkKeyState (NewJWTSignerWithKeyset k) (NewJWTVerifierWithKeyset k) (keysetFingerprint k).

Lemma start_keys_holds c w s w' :
  start_keys c w = Done (Some s) w' → ∃ k, usable k ∧ holds k s ∧ keyset_source c k.
Proof.
  unfold start_keys. intros (r & w1 & E1 & E)%bind_done_inv. destruct r as [[k fp]|]; [|done].
  injection E as <- _. pose proof (loadJWTKeyset_source _ _ _ _ _ E1).
  apply loadJWTKeyset_usable in E1 as [? ->]. by exists k.
Qed.

(** A tick installs what it loaded, or leaves everything as it is. *)
Lemma refresh_tick_holds c s w s' w' k : holds k s → refresh_tick c s w = Done s' w' →
  ∃ r, loadJWTKeyset c w = Done r w' ∧
    match r with
    | inr _ => s' = s
    | inl (k', _) => usable k' ∧ (if decide (keysetFingerprint k' = keysetFingerprint k) then s' = s
                                  else holds k' s')
    end.
Proof.
  intros Hs. unfold refresh_tick. intros (r & w1 & E1 & E)%bind_done_inv. exists r.
  destruct r as [[k' fp]|]; [|by injection E as <- <-].
  pose proof (loadJWTKeyset_usable _ _ _ _ _ E1) as [Hu ->]. rewrite Hs in E. cbn [ks_fingerprint] in E.
  destruct (ko_active _ (proj1 Hu)) as [sec Hsec].
  unfold signer_SetKeyset, verifier_SetKeyset in E. rewrite Hsec in E. cbn in E.
  case_decide; by injection E as <- <-.
Qed.

Lemma refresh_ticks_holds n c s w s' w' k : usable k → holds k s →
  refresh_ticks n c s w = Done s' w' → ∃ k', usable k' ∧ holds k' s'.
Proof.
  revert s w k. induction n as [|n IH]; intros s w k Hu Hk; simpl.
  { intros [= <- _]. by exists k. }
  intros (s1 & w1 & E1 & E)%bind_done_inv.
  destruct (refresh_tick_holds _ _ _ _ _ _ Hk E1) as (r & _ & Hr).
  destruct r as [[k' fp]|].
  - destruct Hr as [Hu' Hr]. case_decide; [subst s1; by apply (IH _ _ k Hu Hk E)|by apply (IH _ _ k' Hu' Hr E)].
  - subst s1. by apply (IH _ _ k Hu Hk E).
Qed.

Context `{!JWT, !JWTLaw}.

(** C37: key rotation keeps the server consistent: after start-up and any number
    of reloads, whatever happens to the keyset file or command in between,
    signer and verifier hold the same keyset, its active key exists and no
    secret is empty; so every token the server signs is a token it accepts, with
    the actor it was signed for, exactly until its expiry and the leeway. *)
Theorem key_rotation_consistent c n w0 s0 w1 s w2 :
  start_keys c w0 = Done (Some s0) w1 → refresh_ticks n c s0 w1 = Done s w2 →
  ∃ k, keyset_ok k ∧ ks_signer s = NewJWTSignerWithKeyset k ∧ ks_verifier s = NewJWTVerifierWithKeyset k
    ∧ ∀ actor now ttl tok expiresAt t, AuthID actor ≠ "" → AuthType actor ≠ "" →
      SignActor (Some (ks_signer s)) actor now ttl = inl (tok, expiresAt) →
      ParseActor (ks_verifier s) t tok
        = if t <? Unix expiresAt * Second + leeway then inl actor else inr ErrInvalidToken.
Proof.
  intros (k0 & Hu0 & Hk0 & _)%start_keys_holds E.
  destruct (refresh_ticks_holds _ _ _ _ _ _ _ Hu0 Hk0 E) as (k & [Hok Hact] & Hs).
  unfold holds in Hs. subst s. exists k. cbn [ks_signer ks_verifier]. split_and!; [done..|].
  intros actor now ttl tok expiresAt t Hid Hty Hsign.
  by destruct (signed_token_parses k (NewJWTVerifierWithKeyset k) actor now ttl tok expiresAt t
    Hact Hsign eq_refl Hid Hty).
Qed.

(** In production mode the server runs only with a database and TLS, with an
    external keyset if that is demanded, and never with the built-in secret
    unless the operator put it into the keyset himself. *)
Theorem production_settings_safe ext db tls secret spec kid file cmd w k fp w' :
  validateProductionRuntime true ext db tls secret spec file cmd = None →
  loadJWTKeyset (mkJwtSettings secret spec kid file cmd) w = Done (inl (k, fp)) w' →
  TrimSpace db ≠ "" ∧ tls = true
  ∧ (ext = true → TrimSpace file ≠ "" ∨ TrimSpace cmd ≠ "")
  ∧ (TrimSpace file = "" → TrimSpace cmd = "" → TrimSpace spec = "" →
     ∃ active, Keys k = {[ active := secret ]} ∧ secret ≠ dev_secret).
Proof.
  unfold validateProductionRuntime. intros Hv Hl. cbn [negb] in Hv.
  case_decide as Hdb; [done|]. destruct tls; [|done]. cbn [negb] in Hv. case_decide as Hdef; [done|].
  split_and!; [done..| |].
  - intros ->. cbn [andb] in Hv. case_bool_decide as Hext; [done|].
    destruct (decide (TrimSpace file = "")); [right|by left]. tauto.
  - intros Hf Hc Hs. unfold loadJWTKeyset in Hl. cbv zeta in Hl. cbn [js_file js_command js_secret js_spec js_activeKID] in Hl.
    rewrite Hf, Hc in Hl. rewrite !decide_False in Hl by (intros []; done).
    destruct (ParseHMACKeyset _ _ _) as [k'|] eqn:E; [|done]. injection Hl as <- _ _.
    unfold ParseHMACKeyset in E. cbv zeta in E. rewrite (decide_False (P := TrimSpace spec ≠ "")) in E by (intros []; done).
    case_decide; [done|]. apply checked_keyset_ok in E as [_ ->].
    + eexists. split; [done|]. tauto.
    + intros ? ?. rewrite lookup_singleton_Some. intros [_ <-] ->. tauto.
Qed.
End rotation.

(** ** Concrete instances *)

Module StartupExample.
#[export] Instance ex_order : MapOrder := map_to_list.
#[export] Instance ex_crypto : Crypto := λ s, s.
(** Before the second access the file gets new contents. *)
#[export] Instance rotating_os (content : string) : OS := {|
  interfere n d := if decide (n = 0%nat) then d else <["/keys.json" := content]> d;
  command_output _ _ := None; write_ok _ _ := true; mkdir_ok _ _ := true |}.

Definition settings : jwt_settings := mkJwtSettings dev_secret "" "default" "/keys.json" "".
Definition world (content : string) : World := mkWorld 0 {[ "/keys.json" := content ]}.

Definition old_keys : string := q "{`active_kid`:`a`,`keys`:{`a`:`x|b:y`}}".
Definition new_keys : string := q "{`active_kid`:`a`,`keys`:{`a`:`x`,`b`:`y`}}".
Definition other_keys : string := q "{`active_kid`:`c`,`keys`:{`a`:`x`,`c`:`z`}}".

(** Start-up with one content and a reload with another. *)
Definition rotated (before after : string) : option (key_state * key_state) :=
  match start_keys (H := rotating_os after) settings (world before) with
  | Done (Some s0) w =>
      match refresh_ticks (H := rotating_os after) 1 settings s0 w with
      | Done s _ => Some (s0, s)
      | _ => None
      end
  | _ => None
  end.
End StartupExample.
Import StartupExample.

(** A rotation can be missed: the fingerprint joins ids and secrets with
    unescaped separators, so a different keyset may have the same one, and the
    goroutine then keeps the old keys. *)
Theorem rotation_missed :
  ∃ s0 s, rotated old_keys new_keys = Some (s0, s) ∧ s = s0
    ∧ LoadHMACKeysetJSON new_keys = inl (mkKeyset "a" {[ "a" := "x"; "b" := "y" ]})
    ∧ signer_keys (ks_signer s) = {[ "a" := "x|b:y" ]}.
Proof.
  eexists _, _. split; [by vm_compute|]. split; [by vm_compute|]. split; by vm_compute.
Qed.

Lemma rotation_runs : ∃ s0 w1 s w2,
  start_keys (H := rotating_os other_keys) settings (world old_keys) = Done (Some s0) w1
  ∧ refresh_ticks (H := rotating_os other_keys) 2 settings s0 w1 = Done s w2
  ∧ signer_activeKID (ks_signer s) = "c".
Proof. eexists _, _, _, _. split; [by vm_compute|]. split; by vm_compute. Qed.

Lemma key_rotation_consistent_witness :
  ∃ s k, signer_activeKID (ks_signer s) = "c" ∧ keyset_ok k
    ∧ ks_signer s = NewJWTSignerWithKeyset k ∧ ks_verifier s = NewJWTVerifierWithKeyset k.
Proof.
  destruct rotation_runs as (s0 & w1 & s & w2 & E0 & E1 & Hc).
  destruct (key_rotation_consistent (H := rotating_os other_keys) settings 2 (world old_keys) s0 w1 s w2 E0 E1)
    as (k & Hok & Hs & Hv & _).
  exists s, k. split; [exact Hc|]. split; [exact Hok|]. split; [exact Hs|exact Hv].
Defined.

Lemma production_settings_safe_witness :
  TrimSpace "postgres://db" ≠ "" ∧ true = true
  ∧ (true = true → TrimSpace "/keys.json" ≠ "" ∨ TrimSpace "" ≠ "")
  ∧ (TrimSpace "/keys.json" = "" → TrimSpace "" = "" → TrimSpace "" = "" →
     ∃ active, Keys (mkKeyset "a" {[ "a" := "x|b:y" ]}) = {[ active := dev_secret ]} ∧ dev_secret ≠ dev_secret).
Proof.
  eapply (production_settings_safe (H := rotating_os old_keys) true "postgres://db" true dev_secret "" "default"
    "/keys.json" "" (world old_keys) (mkKeyset "a" {[ "a" := "x|b:y" ]})); vm_compute; reflexivity.
Defined.

(** A second witness, where the secret itself is the key. *)
Example production_secret_used :
  validateProductionRuntime true false "postgres://db" true "s3cret" "" "" "" = None
  ∧ validateProductionRuntime true false "postgres://db" true dev_secret "" "" "" = Some ErrDefaultSecret
  ∧ ParseHMACKeyset "s3cret" "" "default" = inl (mkKeyset "default" {[ "default" := "s3cret" ]}).
Proof. by vm_compute. Qed.
