(* ===== verification/Metrics.v ===== *)
(** * Metrics and the HTTP pipeline (metrics.go, and the handler chain of
      cmd/rgsd/main.go)

    What the server reports to Prometheus, as the sequence of operations on the
    library's collectors, and the chain a request to the gateway passes: the
    remote access guard, the metrics middleware, the token middleware. *)

From S2P Require Import Prelude GoTime GoJson GoNet GoBytes GoJsonRead AuditTrail Service Auth RemoteAccess.
From Stdlib Require Import Ascii SpecFloat.

(** ** Collectors *)

Inductive collector := Counter | CounterVec (labels : list string) | Gauge
| HistogramVec (labels : list string) (buckets : list float64).

(** [n / 1000] as a float64. *)
Definition thousandths (n : Z) : float64 := ParseFloat false n (-3).

Definition latency_buckets : list float64 :=
  thousandths <$> [5; 10; 25; 50; 100; 250; 500; 1000; 2000; 5000].

(** [NewMetrics]: subsystem, name and kind of every collector; the namespace is
    open_rgs throughout. *)
Definition NewMetrics : list (string * string * collector) :=
  [("ledger_idempotency", "cleanup_runs_total", CounterVec ["result"]);
   ("ledger_idempotency", "cleanup_deleted_total", Counter);
   ("ledger_idempotency", "cleanup_last_deleted", Gauge);
   ("ledger_idempotency", "cleanup_last_run_unix", Gauge);
   ("ledger_idempotency", "keys_total", Gauge);
   ("ledger_idempotency", "keys_expired", Gauge);
   ("identity", "login_attempts_total", CounterVec ["result"; "actor_type"]);
   ("identity", "lockout_activations_total", CounterVec ["actor_type"]);
   ("identity", "sessions_active", Gauge);
   ("identity", "sessions_revoked", Gauge);
   ("identity", "sessions_expired", Gauge);
   ("remote_access", "decisions_total", CounterVec ["outcome"]);
   ("remote_access", "inmemory_log_entries", Gauge);
   ("remote_access", "inmemory_log_cap", Gauge);
   ("rpc", "requests_total", CounterVec ["transport"; "method"; "result"]);
   ("rpc", "request_duration_seconds", HistogramVec ["transport"; "method"] latency_buckets);
   ("http", "requests_total", CounterVec ["method"; "path"; "status"]);
   ("http", "request_duration_seconds", HistogramVec ["method"; "path"] latency_buckets)].

(** An operation on a collector, named by subsystem and name. *)
Inductive metric_op :=
| Inc (sub name : string) (labels : list string)
| Add (sub name : string) (v : float64)
| Set_ (sub name : string) (v : float64)
| Observe (sub name : string) (labels : list string) (v : float64).

(** [utf8.ValidString]; each round takes at least one byte. *)
Fixpoint valid_utf8_fuel (fuel : nat) (s : string) : bool :=
  match s, fuel with
  | EmptyString, _ => true
  | _, O => false
  | _, S fuel => let n := utf8_len s in negb (n =? 0)%nat && valid_utf8_fuel fuel (String.substring n (String.length s - n) s)
  end.

Definition ValidString (s : string) : bool := valid_utf8_fuel (String.length s) s.

(** The label values a vector with these label names accepts. *)
Definition labels_fit (values labels : list string) : bool :=
  bool_decide (length values = length labels) && forallb ValidString values.

(** The operation fits a registered collector; the library panics on a vector
    with the wrong number of label values or one that is not UTF-8, and on a
    negative [Add]. *)
Definition find_collector (sub name : string) : option collector :=
  snd <$> List.find (λ '(s, n, _), bool_decide (s = sub) && bool_decide (n = name)) NewMetrics.

Definition op_fits (op : metric_op) : bool :=
  match op with
  | Inc s n ls => match find_collector s n with
      | Some (CounterVec labels) => labels_fit ls labels | _ => false end
  | Add s n v => match find_collector s n with Some Counter => negb (f64_ltb v (f64 0)) | _ => false end
  | Set_ s n _ => match find_collector s n with Some Gauge => true | _ => false end
  | Observe s n ls _ => match find_collector s n with
      | Some (HistogramVec labels _) => labels_fit ls labels | _ => false end
  end.

(** Operations in order, up to the first that panics: those done, and whether
    one panicked. *)
Fixpoint perform (ops : list metric_op) : list metric_op * bool :=
  match ops with
  | [] => ([], false)
  | op :: ops =>
      if op_fits op then let '(done, panicked) := perform ops in (op :: done, panicked)
      else ([], true)
  end.

(** ** Observations *)

(** [d.Seconds()]. *)
Definition Seconds (d : Duration) : float64 :=
  SFadd f64_prec f64_emax (f64 (Z.quot d Second))
    (SFdiv f64_prec f64_emax (f64 (Z.rem d Second)) (f64 1000000000)).

Definition ObserveLedgerIdempotencyCleanup (now : Time) (deleted : Z) (failed : bool) : list metric_op :=
  [Set_ "ledger_idempotency" "cleanup_last_run_unix" (f64 (Unix now));
   Set_ "ledger_idempotency" "cleanup_last_deleted" (f64 deleted)]
  ++ (if failed then [Inc "ledger_idempotency" "cleanup_runs_total" ["error"]]
      else Inc "ledger_idempotency" "cleanup_runs_total" ["success"]
        :: if 0 <? deleted then [Add "ledger_idempotency" "cleanup_deleted_total" (f64 deleted)] else []).

(** The counts of the two queries; [None] is an error. *)
Definition RefreshLedgerIdempotencyCounts (row : option (Z * Z)) : list metric_op :=
  match row with
  | None => []
  | Some (total, expired) =>
      [Set_ "ledger_idempotency" "keys_total" (f64 total);
       Set_ "ledger_idempotency" "keys_expired" (f64 expired)]
  end.

Definition RefreshIdentitySessionCounts (row : option (Z * Z * Z)) : list metric_op :=
  match row with
  | None => []
  | Some (active, revoked, expired) =>
      [Set_ "identity" "sessions_active" (f64 active);
       Set_ "identity" "sessions_revoked" (f64 revoked);
       Set_ "identity" "sessions_expired" (f64 expired)]
  end.

Definition ObserveIdentityLogin (result : ResultCode) (actorType : ActorTyp) : list metric_op :=
  let outcome := match result with
    | RESULT_CODE_OK => "ok" | RESULT_CODE_DENIED => "denied" | RESULT_CODE_INVALID => "invalid"
    | _ => "error" end in
  [Inc "identity" "login_attempts_total" [outcome; ActorTyp_String actorType]].

Definition ObserveIdentityLockoutActivation (actorType : ActorTyp) : list metric_op :=
  [Inc "identity" "lockout_activations_total" [ActorTyp_String actorType]].

Definition ObserveRemoteAccessDecision (outcome : string) : list metric_op :=
  [Inc "remote_access" "decisions_total" [if decide (outcome = "") then "unknown" else outcome]].

Definition ObserveRemoteAccessLogState (entries cap : Z) : list metric_op :=
  [Set_ "remote_access" "inmemory_log_entries" (f64 (Z.max entries 0));
   Set_ "remote_access" "inmemory_log_cap" (f64 (Z.max cap 0))].

(** google.golang.org/grpc/codes, the ones the server produces and the answer
    [Unknown] of [status.Code] for other errors. *)
Inductive Code := OK | Unknown | InvalidArgument | NotFound | PermissionDenied | ResourceExhausted
| FailedPrecondition | Aborted | Internal | Unauthenticated | OtherCode (name : string).

Definition Code_String (c : Code) : string :=
  match c with
  | OK => "OK" | Unknown => "Unknown" | InvalidArgument => "InvalidArgument"
  | NotFound => "NotFound" | PermissionDenied => "PermissionDenied"
  | ResourceExhausted => "ResourceExhausted" | FailedPrecondition => "FailedPrecondition"
  | Aborted => "Aborted" | Internal => "Internal" | Unauthenticated => "Unauthenticated"
  | OtherCode n => n
  end.

Definition ObserveRPCRequest (transport method : string) (result : Code) (elapsed : Duration)
    : list metric_op :=
  [Inc "rpc" "requests_total" [transport; method; Code_String result];
   Observe "rpc" "request_duration_seconds" [transport; method] (Seconds elapsed)].

Definition status_class (statusCode : Z) : string :=
  if (200 <=? statusCode) && (statusCode <? 300) then "2xx"
  else if (300 <=? statusCode) && (statusCode <? 400) then "3xx"
  else if (400 <=? statusCode) && (statusCode <? 500) then "4xx"
  else "5xx".

Definition ObserveHTTPRequest (method path : string) (statusCode : Z) (elapsed : Duration)
    : list metric_op :=
  [Inc "http" "requests_total" [method; path; status_class statusCode];
   Observe "http" "request_duration_seconds" [method; path] (Seconds elapsed)].

Definition grpcCodeFromHTTPStatus (statusCode : Z) : Code :=
  if (200 <=? statusCode) && (statusCode <? 300) then OK
  else if statusCode =? 400 then InvalidArgument
  else if statusCode =? 401 then Unauthenticated
  else if statusCode =? 403 then PermissionDenied
  else if statusCode =? 404 then NotFound
  else if statusCode =? 409 then Aborted
  else if statusCode =? 429 then ResourceExhausted
  else if (400 <=? statusCode) && (statusCode <? 500) then FailedPrecondition
  else Internal.

(** ** The HTTP chain *)

(** [metricsResponseWriter]: the status its [WriteHeader] calls leave, which are
    the arguments [codes] in order. *)
Definition mw_status (codes : list Z) : Z := default 200 (last codes).

(** [HTTPMetricsMiddleware] after the next handler wrote [codes]; [started] and
    the two later readings are those of time.Now. *)
Definition HTTPMetricsMiddleware (r : HttpRequest) (codes : list Z) (started ended1 ended2 : Time)
    : list metric_op :=
  ObserveRPCRequest "rest" (UrlPath r) (grpcCodeFromHTTPStatus (mw_status codes)) (ended1 - started)
  ++ ObserveHTTPRequest (Method r) (UrlPath r) (mw_status codes) (ended2 - started).

(** [UnaryMetricsInterceptor] after the handler returned an error of code
    [result]. *)
Definition UnaryMetricsInterceptor (fullMethod : string) (result : Code) (started ended : Time)
    : list metric_op :=
  ObserveRPCRequest "grpc" fullMethod result (ended - started).

Definition gateway_skips : list string :=
  ["/v1/system/status"; "/v1/identity/login"; "/v1/identity/refresh"].

(** What a request through the chain did: the statuses written, whether and with
    which context the gateway ran, the metrics of the middleware, and whether
    it panicked (net/http recovers and closes the connection). *)
Record chain_result := mkChainResult {
  cr_codes : list Z; cr_gateway : option Context; cr_ops : list metric_op; cr_panicked : bool }.

(** [guard.Wrap(HTTPMetricsMiddleware(metrics, authenticatedGateway))] on a
    request with an Authorization header, in any state that holds the guard and
    the gateway; [gateway] gives the statuses that are written. *)
Definition serve_chain {S : Type} `{!JWT} (guard : HttpRequest → M S HttpOutcome)
    (time_now : M S Time) (v : JWTVerifier) (gateway : Context → HttpRequest → M S (list Z))
    (r : HttpRequest) (authorization : string) (ctx : Context) : M S chain_result :=
  out ← guard r;
  match out with
  | HttpError _ status => mret (mkChainResult [status] None [] false)
  | ServeNext =>
      started ← time_now;
      t ← time_now;
      '(codes, served) ←
        match HTTPJWTMiddlewareWithSkips v gateway_skips t (UrlPath r) authorization ctx with
        | Refuse _ => mret ([401], None)
        | Pass ctx' => codes ← gateway ctx' r; mret (codes, Some ctx')
        end;
      ended1 ← time_now;
      ended2 ← time_now;
      let '(ops, panicked) := perform (HTTPMetricsMiddleware r codes started ended1 ended2) in
      mret (mkChainResult codes served ops panicked)
  end.
