(* ===== verification/MetricsProofs.v ===== *)
(** * What the metrics and the HTTP chain guarantee

    The observers only use registered collectors, with the right labels; a
    request reaches the gateway only past the guard and the token middleware,
    and is then counted once. *)

From S2P Require Import Prelude GoTime GoJson GoNet GoBytes GoJsonRead AuditTrail Service Ledger Env.
From S2P Require Import Auth AuthProofs RemoteAccess RemoteAccessProofs AttestationProofs Metrics.
From Stdlib Require Import Ascii SpecFloat.

(** ** Observers *)

Lemma binary_round_aux_nonneg m e l :
  f64_ltb (binary_round_aux f64_prec f64_emax false m e l) (f64 0) = false.
Proof.
  unfold binary_round_aux, f64_ltb, SFltb. destruct (shr_fexp _ _ _ _ _) as [r1 e1].
  destruct (shr_fexp _ _ _ _ _) as [r2 e2].
  destruct (shr_m r2); [done| |done]. by destruct (e2 <=? _).
Qed.

Lemma f64_nonneg n : 0 ≤ n → f64_ltb (f64 n) (f64 0) = false.
Proof.
  destruct n as [|p|]; [done| |lia]. intros _. unfold f64 at 1. simpl binary_normalize.
  unfold binary_round. destruct (shl_align _ _ _) as [m e]. apply binary_round_aux_nonneg.
Qed.

(** Decimal numbers are UTF-8. *)
Lemma digit_val_ascii c d : digit_val c = Some d → byte_in 0 127 c = true.
Proof.
  unfold digit_val, byte_in. intros Hd.
  destruct (Z.leb_spec 48 (Z.of_N (N_of_ascii c))); [|done].
  destruct (Z.leb_spec (Z.of_N (N_of_ascii c)) 57); [|done].
  apply andb_true_iff. split; apply N.leb_le; lia.
Qed.

Lemma valid_utf8_ascii fuel c s :
  byte_in 0 127 c = true → valid_utf8_fuel (S fuel) (String c s) = valid_utf8_fuel fuel s.
Proof.
  intros Hc. cbn [valid_utf8_fuel]. assert (utf8_len (String c s) = 1%nat) as ->
    by (unfold utf8_len; by rewrite Hc).
  cbn [Nat.eqb negb andb String.length String.substring]. rewrite Nat.sub_succ, Nat.sub_0_r.
  by rewrite substring_all.
Qed.

Lemma ValidString_digits s acc z : parse_digits acc s = Some z → ValidString s = true.
Proof.
  unfold ValidString. revert acc. induction s as [|c s IH]; intros acc; [done|].
  simpl parse_digits. destruct (digit_val c) as [d|] eqn:Hd; [|done]. intros Hs.
  cbn [String.length]. rewrite valid_utf8_ascii by exact (digit_val_ascii _ _ Hd).
  exact (IH _ Hs).
Qed.

Lemma ValidString_FormatInt z : ValidString (FormatInt z) = true.
Proof.
  destruct (Z_le_dec 0 z); [by eapply ValidString_digits, parse_digits_pretty|].
  destruct z as [|p|p]; [lia..|].
  change (ValidString (String "-" (FormatInt (Z.pos p))) = true).
  unfold ValidString. cbn [String.length]. rewrite valid_utf8_ascii by done.
  by eapply ValidString_digits, parse_digits_pretty.
Qed.

Lemma ValidString_ActorTyp ty : ValidString (ActorTyp_String ty) = true.
Proof. destruct ty; [done..|]. apply ValidString_FormatInt. Qed.

Lemma perform_fits ops : Forall (λ op, op_fits op = true) ops → perform ops = (ops, false).
Proof. induction 1 as [|op ops Hop _ IH]; simpl; [done|]. by rewrite Hop, IH. Qed.

(** The observers called by the services never panic, whatever they are called
    with. *)
Theorem observers_total :
  (∀ now deleted failed, perform (ObserveLedgerIdempotencyCleanup now deleted failed)
     = (ObserveLedgerIdempotencyCleanup now deleted failed, false))
  ∧ (∀ row, perform (RefreshLedgerIdempotencyCounts row) = (RefreshLedgerIdempotencyCounts row, false))
  ∧ (∀ row, perform (RefreshIdentitySessionCounts row) = (RefreshIdentitySessionCounts row, false))
  ∧ (∀ code ty, perform (ObserveIdentityLogin code ty) = (ObserveIdentityLogin code ty, false))
  ∧ (∀ ty, perform (ObserveIdentityLockoutActivation ty) = (ObserveIdentityLockoutActivation ty, false))
  ∧ (∀ entries cap, perform (ObserveRemoteAccessLogState entries cap)
     = (ObserveRemoteAccessLogState entries cap, false)).
Proof.
  split_and!; intros; apply perform_fits.
  - unfold ObserveLedgerIdempotencyCleanup.
    destruct failed; [repeat constructor|]. destruct (Z.ltb_spec 0 deleted); repeat constructor.
    unfold op_fits. simpl find_collector. cbv iota. by rewrite f64_nonneg by lia.
  - destruct row as [[total expired]|]; repeat constructor.
  - destruct row as [[[active revoked] expired]|]; repeat constructor.
  - constructor; [|done]. unfold op_fits, labels_fit. simpl find_collector. cbv iota.
    simpl. rewrite ValidString_ActorTyp. by destruct code.
  - constructor; [|done]. unfold op_fits, labels_fit. simpl find_collector. cbv iota.
    simpl. by rewrite ValidString_ActorTyp.
  - repeat constructor.
Qed.

(** ** Classification *)

(** The two counters of a request agree: its gRPC code is [OK] exactly in class
    2xx, [Internal] exactly in 3xx and 5xx, and a client error otherwise. *)
Lemma status_classes_agree status :
  match status_class status with
  | "2xx" => 200 ≤ status < 300 ∧ grpcCodeFromHTTPStatus status = OK
  | "4xx" => 400 ≤ status < 500 ∧ grpcCodeFromHTTPStatus status ∈
      [InvalidArgument; Unauthenticated; PermissionDenied; NotFound; Aborted; ResourceExhausted;
       FailedPrecondition]
  | "3xx" => 300 ≤ status < 400 ∧ grpcCodeFromHTTPStatus status = Internal
  | _ => (status < 200 ∨ 500 ≤ status) ∧ grpcCodeFromHTTPStatus status = Internal
  end.
Proof.
  unfold status_class, grpcCodeFromHTTPStatus.
  destruct (Z.leb_spec 200 status), (Z.ltb_spec status 300); cbn [andb];
    [split; [lia|done]|..]; try lia;
  destruct (Z.leb_spec 300 status), (Z.ltb_spec status 400); cbn [andb]; try lia;
  destruct (Z.leb_spec 400 status), (Z.ltb_spec status 500); cbn [andb]; try lia;
  repeat match goal with |- context [status =? ?n] => destruct (Z.eqb_spec status n); try lia end;
  (split; [lia|set_solver]).
Qed.

Lemma grpcCode_valid status : ValidString (Code_String (grpcCodeFromHTTPStatus status)) = true.
Proof. unfold grpcCodeFromHTTPStatus. by repeat case_match. Qed.

Lemma status_class_valid status : ValidString (status_class status) = true.
Proof. unfold status_class. by repeat case_match. Qed.

(** The middleware's operations, for a path and a method that are UTF-8; a path
    that is not stops it at the first. *)
Lemma middleware_perform r codes t0 t1 t2 :
  ValidString (Method r) = true →
  perform (HTTPMetricsMiddleware r codes t0 t1 t2)
  = if ValidString (UrlPath r) then (HTTPMetricsMiddleware r codes t0 t1 t2, false) else ([], true).
Proof.
  intros Hm. unfold HTTPMetricsMiddleware, ObserveRPCRequest, ObserveHTTPRequest.
  pose proof (grpcCode_valid (mw_status codes)) as Hc.
  pose proof (status_class_valid (mw_status codes)) as Hs.
  destruct (ValidString (UrlPath r)) eqn:Hp.
  - apply perform_fits. repeat constructor; unfold op_fits, labels_fit;
      simpl find_collector; cbv iota; cbn [forallb length];
      rewrite ?Hm, ?Hp, ?Hc, ?Hs; done.
  - simpl app. cbn [perform]. unfold op_fits at 1, labels_fit. simpl find_collector. cbv iota.
    cbn [forallb length]. by rewrite Hp, andb_false_r.
Qed.

(** ** The chain *)

Section admission.
Context {S : Type} `{!JWT}.

(** The token middleware lets a request through with this context. *)
Definition authenticated (v : JWTVerifier) (t : Time) (path authorization : string)
    (ctx ctx' : Context) : Prop :=
  (path ∈ gateway_skips ∧ ctx' = ctx)
  ∨ ∃ token kid secret actor, authorization = "Bearer " +:+ token
      ∧ ver_keys v !! kid = Some secret ∧ secret ≠ "" ∧ jwt_Valid t token secret = true
      ∧ ParseActor v t token = inl actor ∧ AuthID actor ≠ ""
      ∧ ActorFromContext ctx' = Some actor.

Lemma middleware_authenticates v t path authorization ctx ctx' :
  HTTPJWTMiddlewareWithSkips v gateway_skips t path authorization ctx = Pass ctx' →
  authenticated v t path authorization ctx ctx'.
Proof.
  unfold HTTPJWTMiddlewareWithSkips, authenticated. case_decide; [intros [= <-]; by left|].
  destruct (strip_prefix "Bearer " authorization) as [token|] eqn:Hp; [|done].
  destruct (ParseActor v t token) as [actor|] eqn:Ha; [|done]. intros [= <-]. right.
  destruct (ParseActor_sound _ _ _ _ Ha) as (Hid & _ & kid & secret & Hk & Hs & Hv).
  exists token, kid, secret, actor. split_and!; try done. by rewrite (strip_prefix_app _ _ _ Hp).
Qed.

Lemma admin_not_skipped path : isAdminPath path = true → path ∉ gateway_skips.
Proof.
  intros Hadm Hin. unfold gateway_skips in Hin. rewrite !elem_of_cons in Hin.
  destruct Hin as [->|[->|[->|Hin]]]; [done..|]. by apply not_elem_of_nil in Hin.
Qed.

(** A run of the chain in which the gateway ran: the guard served the request
    first, the token middleware let it through, and the gateway's statuses are
    those recorded. *)
Lemma serve_chain_inv (guard : HttpRequest → M S HttpOutcome) time_now v gateway r authorization
    ctx s res s' ctx' :
  serve_chain guard time_now v gateway r authorization ctx s = Done res s' →
  cr_gateway res = Some ctx' →
  ∃ s1 s2 t s3 s4 codes s5 s6, guard r s = Done ServeNext s1
    ∧ time_now s1 = Done s2.1 s2.2 ∧ time_now s2.2 = Done t s3
    ∧ HTTPJWTMiddlewareWithSkips v gateway_skips t (UrlPath r) authorization ctx = Pass ctx'
    ∧ gateway ctx' r s3 = Done codes s4 ∧ cr_codes res = codes
    ∧ time_now s4 = Done s5.1 s5.2 ∧ time_now s5.2 = Done s6 s'.
Proof.
  unfold serve_chain. intros (out & s1 & Eg & E)%bind_done_inv Hgw.
  destruct out as [|msg status]; [|by injection E as <- _].
  apply bind_done_inv in E as (t1 & s2 & Et1 & E).
  apply bind_done_inv in E as (t & s3 & Et & E).
  apply bind_done_inv in E as ([codes served] & s4 & Em & E).
  apply bind_done_inv in E as (t3 & s5 & Et3 & E).
  apply bind_done_inv in E as (t4 & s6 & Et4 & E).
  destruct (perform _) as [ops panicked]. injection E as <- <-. cbn [cr_gateway cr_codes] in *.
  subst served. destruct (HTTPJWTMiddlewareWithSkips _ _ _ _ _ _) as [ctx1|msg] eqn:Hm; [|done].
  apply bind_done_inv in Em as (codes' & s4' & Egw & Em). injection Em as <- <- <-.
  exists s1, (t1, s2), t, s3, s4', codes', (t3, s5), t4. done.
Qed.
End admission.

Section chain.
Context {D : Type} `{!Wall, !Crypto, !JsonValid, !UnicodeUpper, !AuditDB D, !RemoteDB D, !JWT}.
Implicit Types (s : Svc D GuardState).

Lemma Wrap_trusted r s s1 :
  Wrap r s = Done ServeNext s1 → isAdminPath (UrlPath r) = true →
  isTrusted (st s) (extractSourceIP r).1 = true.
Proof.
  intros E Hadm. destruct (isTrusted _ _) eqn:Htr; [done|].
  by destruct (post_elim _ _ _ _ _ _ (Wrap_untrusted s r Hadm Htr) E).
Qed.

(** A request reaches the gateway only if the guard trusts its source or its
    path is not administrative, and the path is one of the three open ones or
    the bearer token is valid at a reading of the clock; an administrative path
    is never open. *)
Theorem gateway_admission v gateway r authorization ctx s res s' ctx' :
  serve_chain Wrap time_Now v gateway r authorization ctx s = Done res s' →
  cr_gateway res = Some ctx' →
  (isAdminPath (UrlPath r) = true → isTrusted (st s) (extractSourceIP r).1 = true
    ∧ ∃ actor, ActorFromContext ctx' = Some actor ∧ AuthID actor ≠ "")
  ∧ ∃ n, authenticated v (wall n) (UrlPath r) authorization ctx ctx'.
Proof.
  intros E Hgw. destruct (serve_chain_inv _ _ _ _ _ _ _ _ _ _ _ E Hgw)
    as (s1 & s2 & t & s3 & s4 & codes & s5 & s6 & Eg & _ & Et & Hm & _).
  apply middleware_authenticates in Hm. split.
  - intros Hadm. split; [by eapply Wrap_trusted|].
    destruct Hm as [[Hin _]|(? & ? & ? & actor & Ha)]; [by destruct (admin_not_skipped _ Hadm)|].
    exists actor. tauto.
  - injection Et as <- _. by eexists.
Qed.

(** The guard refuses the request, which is answered and not counted. *)
Definition refused (g : GuardState) (r : HttpRequest) (res : chain_result) : Prop :=
  isAdminPath (UrlPath r) = true
  ∧ (isTrusted g (extractSourceIP r).1 = false
     ∨ log_full g = true ∧ failClosedLogPersist g = true)
  ∧ ∃ status, status ∈ [StatusForbidden; StatusServiceUnavailable]
    ∧ res = mkChainResult [status] None [] false.

(** The four operations of a counted request. *)
Definition request_metrics (r : HttpRequest) (status : Z) (d1 d2 : Duration) : list metric_op :=
  [Inc "rpc" "requests_total" ["rest"; UrlPath r; Code_String (grpcCodeFromHTTPStatus status)];
   Observe "rpc" "request_duration_seconds" ["rest"; UrlPath r] (Seconds d1);
   Inc "http" "requests_total" [Method r; UrlPath r; status_class status];
   Observe "http" "request_duration_seconds" [Method r; UrlPath r] (Seconds d2)].

(** The guard lets the request through; the token middleware or the gateway
    answers it, and the status that was written is counted. *)
Definition served (v : JWTVerifier) (gateway : Context → HttpRequest → list Z)
    (authorization : string) (ctx : Context) (g : GuardState) (r : HttpRequest)
    (res : chain_result) : Prop :=
  (isAdminPath (UrlPath r) = true → isTrusted g (extractSourceIP r).1 = true)
  ∧ (∃ t, match HTTPJWTMiddlewareWithSkips v gateway_skips t (UrlPath r) authorization ctx with
     | Refuse _ => cr_codes res = [401] ∧ cr_gateway res = None
     | Pass ctx' => cr_codes res = gateway ctx' r ∧ cr_gateway res = Some ctx'
     end)
  ∧ cr_panicked res = negb (ValidString (UrlPath r))
  ∧ ∃ d1 d2, cr_ops res = if cr_panicked res then []
      else request_metrics r (mw_status (cr_codes res)) d1 d2.

Lemma serve_chain_spec T v gateway r authorization ctx g evs :
  ValidString (Method r) = true →
  mspec (D := D) T (serve_chain Wrap time_Now v (λ ctx r, mret (gateway ctx r)) r authorization ctx) false g evs (λ res _ _,
    refused g r res ∨ served v gateway authorization ctx g r res).
Proof.
  intros Hmeth. unfold serve_chain. mstep. eapply mspec_mono; [apply Wrap_spec|].
  intros out g' evs' Hw. cbv beta in Hw. destruct out as [|msg status].
  - assert (isAdminPath (UrlPath r) = true → isTrusted g (extractSourceIP r).1 = true) as Htr.
    { intros Hadm. rewrite Hadm in Hw. destruct Hw as [(t & _ & Hg) _].
      unfold guarded in Hg. destruct (log_full g && _); [done|]. by destruct (isTrusted g _). }
    clear Hw. do 5 mstep.
    match goal with |- context [HTTPJWTMiddlewareWithSkips v _ ?t _ _ _] => rename t into now end.
    destruct (HTTPJWTMiddlewareWithSkips v gateway_skips now (UrlPath r) authorization ctx)
      as [ctx'|msg] eqn:Hgate;
      msteps; rewrite middleware_perform by done;
      destruct (ValidString (UrlPath r)) eqn:Hp; mstep; right; unfold served; rewrite Hp;
      (split; [done|]; split; [exists now; by rewrite Hgate|]; split; [done|]; first [by exists 0, 0|by do 2 eexists]).
  - mstep. left. destruct (isAdminPath (UrlPath r)) eqn:Hadm; [|by destruct Hw].
    destruct Hw as [(t & _ & Hg) _]. unfold guarded in Hg.
    split; [done|]. destruct (log_full g) eqn:Hfull, (failClosedLogPersist g) eqn:Hfc;
      cbn [andb] in Hg; [injection Hg as -> -> _; split; [by right|]; eexists; split; [|done]; set_solver|..];
      (destruct (isTrusted g (extractSourceIP r).1); [done|]; injection Hg as -> -> _;
       split; [by left|]; eexists; split; [|done]; set_solver).
Qed.

(** What the chain does with a request of UTF-8 method on a guard without a
    database: refused by the guard, it is answered 403 or 503 and not counted;
    let through, it is answered by the token middleware or the gateway, and
    counted once in each of the four request collectors, unless its path is not
    UTF-8: then the middleware panics and nothing is counted. *)
Theorem chain_serves v gateway r authorization ctx s :
  in_memory s → ValidString (Method r) = true →
  ∃ res s', serve_chain Wrap time_Now v (λ ctx r, mret (gateway ctx r)) r authorization ctx s = Done res s' ∧ in_memory s' ∧
    (refused (st s) r res ∨ served v gateway authorization ctx (st s) r res).
Proof.
  intros Hm Hmeth.
  destruct (mspec_call (λ _, True) (serve_chain Wrap time_Now v (λ ctx r, mret (gateway ctx r)) r authorization ctx) s _ Hm (λ _, I)
    (serve_chain_spec _ _ _ _ _ _ _ _ Hmeth)) as (res & s' & E & Hm' & _ & HQ).
  by exists res, s'.
Qed.

(** A request for a path that is not UTF-8, from anybody, makes the metrics
    middleware panic after the response was written; it is not counted. *)
Theorem invalid_path_panics v gateway r authorization ctx s :
  in_memory s → isAdminPath (UrlPath r) = false → ValidString (UrlPath r) = false →
  ValidString (Method r) = true →
  ∃ res s', serve_chain Wrap time_Now v (λ ctx r, mret (gateway ctx r)) r authorization ctx s = Done res s'
    ∧ cr_panicked res = true ∧ cr_ops res = [].
Proof.
  intros Hm Hadm Hp Hmeth.
  destruct (mspec_call (λ _, True) (serve_chain Wrap time_Now v (λ ctx r, mret (gateway ctx r)) r authorization ctx) s _ Hm (λ _, I)
    (serve_chain_spec _ _ _ _ _ _ _ _ Hmeth)) as (res & s' & E & _ & _ & HQ).
  exists res, s'. split; [done|]. destruct HQ as [[Hr _]|(_ & _ & Hpan & d1 & d2 & Hops)].
  - by rewrite Hadm in Hr.
  - rewrite Hp in Hpan. rewrite Hpan in Hops. by split.
Qed.
End chain.

(** ** Concrete instances *)

Import Concrete.

Definition ex_operator_token : string :=
  token_of "k2" (mkClaims "op" "OPERATOR" 0 1804067200) "new".

(** A gateway that answers 200, and a request through the whole chain. *)
Definition ex_chain (r : HttpRequest) (authorization : string) :=
  serve_chain Wrap time_Now (NewJWTVerifierWithKeyset ex_keys) (λ _ _, mret [200]) r authorization (mkContext None)
    (ex_guard 2 true).

Definition ex_path (path : string) : HttpRequest :=
  mkHttpRequest "" "10.0.0.7:5000" "rgs.example:443" path "GET".

Example ex_chain_runs :
  match ex_chain (ex_admin "127.0.0.1:5000") ("Bearer " +:+ ex_operator_token),
        ex_chain (ex_admin "127.0.0.1:5000") "",
        ex_chain (ex_admin "10.0.0.7:5000") ("Bearer " +:+ ex_operator_token),
        ex_chain (ex_path "/v1/identity/login") "" with
  | Done a _, Done b _, Done c _, Done d _ =>
      cr_codes a = [200] ∧ cr_codes b = [401] ∧ cr_codes c = [403] ∧ cr_codes d = [200]
      ∧ length (cr_ops a) = 4%nat ∧ length (cr_ops b) = 4%nat ∧ cr_ops c = []
      ∧ cr_gateway a = Some (mkContext (Some (mkAuthActor "op" "OPERATOR")))
      ∧ cr_gateway b = None ∧ cr_gateway d = Some (mkContext None)
  | _, _, _, _ => False
  end.
Proof. by vm_compute. Qed.

Lemma ex_chain_admin : ∃ res s' ctx',
  ex_chain (ex_admin "127.0.0.1:5000") ("Bearer " +:+ ex_operator_token) = Done res s'
  ∧ cr_gateway res = Some ctx'.
Proof. by vm_compute; do 3 eexists. Qed.

Lemma gateway_admission_witness : ∃ ctx' n,
  authenticated (NewJWTVerifierWithKeyset ex_keys) (wall n) "/v1/audit/events"
    ("Bearer " +:+ ex_operator_token) (mkContext None) ctx'
  ∧ isTrusted (st (ex_guard 2 true)) "127.0.0.1" = true.
Proof.
  destruct ex_chain_admin as (res & s' & ctx' & E & Hg).
  unfold ex_chain in E.
  destruct (gateway_admission (NewJWTVerifierWithKeyset ex_keys) (λ _ _, mret [200])
    (ex_admin "127.0.0.1:5000") ("Bearer " +:+ ex_operator_token) (mkContext None)
    (ex_guard 2 true) res s' ctx' E Hg) as [_ [n Hn]].
  exists ctx', n. split; [exact Hn|reflexivity].
Defined.

Lemma chain_serves_witness : ∃ res s',
  ex_chain (ex_path "/v1/identity/login") "" = Done res s' ∧ in_memory s'.
Proof.
  destruct (chain_serves (NewJWTVerifierWithKeyset ex_keys) (λ _ _, [200])
    (ex_path "/v1/identity/login") "" (mkContext None) (ex_guard 2 true)
    (ex_guard_in_memory _ _) eq_refl) as (res & s' & E & Hm & _).
  exists res, s'. split; [exact E|exact Hm].
Defined.

Lemma invalid_path_panics_witness : ∃ res s',
  ex_chain (ex_path (String "/" (String (ascii_of_N 255) ""))) "" = Done res s'
  ∧ cr_panicked res = true ∧ cr_ops res = [].
Proof.
  exact (invalid_path_panics (NewJWTVerifierWithKeyset ex_keys) (λ _ _, [200])
    (ex_path (String "/" (String (ascii_of_N 255) ""))) "" (mkContext None) (ex_guard 2 true)
    (ex_guard_in_memory _ _) eq_refl eq_refl eq_refl).
Defined.
