(* ===== verification/Server.v ===== *)
(** * The server process (cmd/rgsd/main.go, tls.go, system_grpc.go,
      system_http.go, and the cleanup workers)

    The settings of the process, TLS, the system service, the workers that
    delete expired rows, and how [main] puts the services together.  The
    services of a running server are the fields of [Server]; the reporting
    service owns the ledger and the events service, which it points to. *)

From S2P Require Import Prelude GoTime GoJson GoNet GoBytes GoJsonRead GoDuration AuditTrail Service Listing.
From S2P Require Import Ledger Wagering Sessions Registry Config Events Reporting Extensions RemoteAccess.
From S2P Require Import AuditService Auth Identity Attestation Startup Metrics.
From Stdlib Require Import Ascii.

(** ** TLS (tls.go) *)

Record TLSConfig := mkTLSConfig {
  Enabled : bool; CertFile : string; KeyFile : string; ClientCAFile : string;
  RequireClientCert : bool; MinVersionTLS12 : bool }.

(** What crypto/tls and crypto/x509 make of PEM text; [None] is an error. *)
Class TLSLib := {
  Certificate : Type;
  CertPool : Type;
  X509KeyPair : string → string → option Certificate;
  AppendCertsFromPEM : string → option CertPool }.

Inductive ClientAuthType := NoClientCert | RequireAndVerifyClientCert.
Definition VersionTLS12 : Z := 771.

(** The fields of tls.Config the server sets; a minimum version of 0 is the
    library's default. *)
Record tls_Config `{TLSLib} := mkTls {
  Certificates : list Certificate; MinVersion : Z; ClientAuth : ClientAuthType;
  ClientCAs : option CertPool }.

Inductive tls_error := TlsNotConfigured | TlsKeypair | TlsNoCAFile | TlsReadCA | TlsParseCA.

Section tls.
Context `{OS, TLSLib}.

Definition LoadX509KeyPair (certFile keyFile : string) : OM (option Certificate) :=
  c ← ReadFile certFile;
  match c with
  | None => mret None
  | Some certPEM =>
      k ← ReadFile keyFile;
      mret (keyPEM ← k; X509KeyPair certPEM keyPEM)
  end.

Definition BuildTLSConfig (c : TLSConfig) : OM (option tls_Config + tls_error) :=
  if negb (Enabled c) then mret (inl None)
  else if decide (CertFile c = "" ∨ KeyFile c = "") then mret (inr TlsNotConfigured)
  else
    pair ← LoadX509KeyPair (CertFile c) (KeyFile c);
    match pair with
    | None => mret (inr TlsKeypair)
    | Some cert =>
        let minVersion := if MinVersionTLS12 c then VersionTLS12 else 0 in
        if negb (RequireClientCert c)
        then mret (inl (Some (mkTls _ [cert] minVersion NoClientCert None)))
        else if decide (ClientCAFile c = "") then mret (inr TlsNoCAFile)
        else
          ca ← ReadFile (ClientCAFile c);
          mret match ca with
          | None => inr TlsReadCA
          | Some ca =>
              match AppendCertsFromPEM ca with
              | None => inr TlsParseCA
              | Some pool =>
                  inl (Some (mkTls _ [cert] minVersion RequireAndVerifyClientCert (Some pool)))
              end
          end
    end.
End tls.

(** ** The system service (system_grpc.go, system_http.go) *)

Record SystemService := mkSystem { StartedAt : Time; Version : string }.

Record GetSystemStatusRequest := mkGetSystemStatusRequest { gss_Meta : option RequestMeta }.
Record GetSystemStatusResponse := mkGetSystemStatusResponse {
  gssr_Meta : ResponseMeta; ServiceName : string; gssr_Version : string; Uptime : string }.

(** [t.Sub(u)]: the difference, held within an int64. *)
Definition Time_Sub (t u : Time) : Duration := Z.max int64_min (Z.min int64_max (t - u)).

Definition GetSystemStatus {D} `{!Wall} (req : option GetSystemStatusRequest)
    : M (Svc D SystemService) GetSystemStatusResponse :=
  let requestID := match req ≫= gss_Meta with Some m => RequestId m | None => "" end in
  t ← now;
  started ← get_st StartedAt; version ← get_st Version;
  mret (mkGetSystemStatusResponse (mkResponseMeta requestID RESULT_CODE_OK "" (FormatRFC3339Nano t))
    "open-rgs-go" version (Duration_String (Time_Sub t started))).

(** [SystemHandler.health]: status and body. *)
Definition health : Z * string := (200, "ok").

(** ** Cleanup workers (ledger_postgres.go, identity_postgres.go) *)

(** What one tick does: batches until one fails, deletes nothing or is not
    full.  The results of the batches in order; [None] if the fuel runs out. *)
Fixpoint cleanup_batches {S} (fuel : nat) (batchSize : Z) (cleanup : M S (res Z))
    : M S (option (list (res Z))) :=
  match fuel with
  | O => mret None
  | Datatypes.S fuel =>
      r ← cleanup;
      match r with
      | Err e => mret (Some [Err e])
      | Ok deleted =>
          if deleted =? 0 then mret (Some [Ok deleted])
          else if deleted <? batchSize then mret (Some [Ok deleted])
          else rest ← cleanup_batches fuel batchSize cleanup;
               mret (cons (Ok deleted) <$> rest)
      end
  end.

Definition batch_size (batchSize : Z) : Z := if batchSize <=? 0 then 500 else batchSize.

(** What the ledger worker reports to its observer for a batch: the number of
    rows, and whether there was an error. *)
Definition observed_batch (r : res Z) : Z * bool :=
  match r with Ok deleted => (deleted, false) | Err _ => (0, true) end.

Section workers.
Context {D : Type} `{!Wall, !Crypto, !JsonValid, !AuditDB D, !LedgerDB D, !IdentityDB D}.

(** A tick of [StartIdempotencyCleanupWorker] with the observer's calls; no
    worker is started without a database or with an interval that is not
    positive. *)
Definition StartIdempotencyCleanupWorker (fuel : nat) (interval : Duration) (batchSize : Z)
    : M (Svc D LedgerState) (option (list (Z * bool))) :=
  enabled ← dbEnabled;
  if negb enabled || (interval <=? 0) then mret (Some [])
  else
    let batchSize := batch_size batchSize in
    rs ← cleanup_batches fuel batchSize (CleanupExpiredIdempotencyKeys batchSize);
    mret (map observed_batch <$> rs).

(** A tick of [StartSessionCleanupWorker]. *)
Definition StartSessionCleanupWorker (fuel : nat) (interval : Duration) (batchSize : Z)
    : M (Svc D IdentityState) (option (list (res Z))) :=
  enabled ← dbEnabled;
  if negb enabled || (interval <=? 0) then mret (Some [])
  else
    let batchSize := batch_size batchSize in
    cleanup_batches fuel batchSize (CleanupExpiredSessions batchSize).
End workers.

(** ** Settings *)

Record Settings := mkSettings {
  c_version : string; c_grpcAddr : string; c_httpAddr : string; c_trustedCIDRs : list string;
  c_databaseURL : string; c_jwt : jwt_settings; c_keysetRefreshInterval : Duration;
  c_downloadSigningKeys : string; c_accessTTL : Duration; c_refreshTTL : Duration;
  c_lockoutTTL : Duration; c_lockoutMaxFailures : Z;
  c_sessionCleanupInterval : Duration; c_sessionCleanupBatch : Z;
  c_rateLimitMaxAttempts : Z; c_rateLimitWindow : Duration;
  c_eftMaxFailures : Z; c_eftLockoutTTL : Duration;
  c_idempotencyTTL : Duration; c_idempotencyCleanupInterval : Duration;
  c_idempotencyCleanupBatch : Z; c_metricsRefreshInterval : Duration;
  c_activityLogCap : Z; c_tls : TLSConfig;
  c_strict : bool; c_strictExternal : bool }.

(** [None] stands for [log.Fatalf]. *)
Definition mustParseDurationEnv (env : Environ) (key def : string) : option Duration :=
  ParseDuration (envOr env key def).

Definition read_settings (env : Environ) : option Settings :=
  let version := envOr env "RGS_VERSION" "dev" in
  keysetRefresh ← mustParseDurationEnv env "RGS_JWT_KEYSET_REFRESH_INTERVAL" "1m";
  accessTTL ← mustParseDurationEnv env "RGS_JWT_ACCESS_TTL" "15m";
  refreshTTL ← mustParseDurationEnv env "RGS_JWT_REFRESH_TTL" "24h";
  lockoutTTL ← mustParseDurationEnv env "RGS_IDENTITY_LOCKOUT_TTL" "15m";
  lockoutMax ← mustParseIntEnv env "RGS_IDENTITY_LOCKOUT_MAX_FAILURES" 5;
  sessionCleanup ← mustParseDurationEnv env "RGS_IDENTITY_SESSION_CLEANUP_INTERVAL" "15m";
  sessionBatch ← mustParseIntEnv env "RGS_IDENTITY_SESSION_CLEANUP_BATCH" 500;
  rateMax ← mustParseIntEnv env "RGS_IDENTITY_LOGIN_RATE_LIMIT_MAX_ATTEMPTS" 60;
  rateWindow ← mustParseDurationEnv env "RGS_IDENTITY_LOGIN_RATE_LIMIT_WINDOW" "1m";
  eftMax ← mustParseIntEnv env "RGS_EFT_FRAUD_MAX_FAILURES" 5;
  eftTTL ← mustParseDurationEnv env "RGS_EFT_FRAUD_LOCKOUT_TTL" "15m";
  idemTTL ← mustParseDurationEnv env "RGS_LEDGER_IDEMPOTENCY_TTL" "24h";
  idemCleanup ← mustParseDurationEnv env "RGS_LEDGER_IDEMPOTENCY_CLEANUP_INTERVAL" "15m";
  idemBatch ← mustParseIntEnv env "RGS_LEDGER_IDEMPOTENCY_CLEANUP_BATCH" 500;
  metricsRefresh ← mustParseDurationEnv env "RGS_METRICS_REFRESH_INTERVAL" "1m";
  logCap ← mustParseIntEnv env "RGS_REMOTE_ACCESS_ACTIVITY_LOG_CAP" 5000;
  strict ← mustParseBoolEnv env "RGS_STRICT_PRODUCTION_MODE" (bool_decide (version ≠ "dev"));
  strictExternal ← mustParseBoolEnv env "RGS_STRICT_EXTERNAL_JWT_KEYSET" strict;
  Some (mkSettings version (envOr env "RGS_GRPC_ADDR" ":8081") (envOr env "RGS_HTTP_ADDR" ":8080")
    (split_on ","%char (envOr env "RGS_TRUSTED_CIDRS" "127.0.0.1/32,::1/128"))
    (envOr env "RGS_DATABASE_URL" "")
    (mkJwtSettings (envOr env "RGS_JWT_SIGNING_SECRET" dev_secret) (envOr env "RGS_JWT_KEYSET" "")
       (envOr env "RGS_JWT_ACTIVE_KID" "default") (envOr env "RGS_JWT_KEYSET_FILE" "")
       (envOr env "RGS_JWT_KEYSET_COMMAND" ""))
    keysetRefresh (envOr env "RGS_DOWNLOAD_SIGNING_KEYS" "") accessTTL refreshTTL lockoutTTL
    lockoutMax sessionCleanup sessionBatch rateMax rateWindow eftMax eftTTL idemTTL idemCleanup
    idemBatch metricsRefresh logCap
    (mkTLSConfig (bool_decide (envOr env "RGS_TLS_ENABLED" "false" = "true"))
       (envOr env "RGS_TLS_CERT_FILE" "") (envOr env "RGS_TLS_KEY_FILE" "")
       (envOr env "RGS_TLS_CLIENT_CA_FILE" "")
       (bool_decide (envOr env "RGS_TLS_REQUIRE_CLIENT_CERT" "false" = "true")) true)
    strict strictExternal).

(** ** The process *)

Record Server {D : Type} `{TLSLib} := mkServer {
  srv_settings : Settings;
  srv_tls : option tls_Config;
  srv_keys : key_state;
  srv_system : Svc D SystemService;
  srv_identity : Svc D IdentityState;
  srv_wagering : Svc D WageringState;
  srv_registry : Svc D RegistryState;
  srv_reporting : Svc D (ReportingState D);
  srv_config : Svc D ConfigState;
  srv_promotions : Svc D PromotionsState;
  srv_overlay : Svc D OverlayState;
  srv_sessions : Svc D SessionsState;
  srv_guard : Svc D GuardState;
  srv_audit : Svc D (AuditState D) }.
Global Arguments Server D {_}.

#[global] Instance eta_Server D `{TLSLib} : Eta (Server D) := λ s,
  mkServer _ _ (srv_settings s) (srv_tls s) (srv_keys s) (srv_system s) (srv_identity s)
    (srv_wagering s) (srv_registry s) (srv_reporting s) (srv_config s) (srv_promotions s)
    (srv_overlay s) (srv_sessions s) (srv_guard s) (srv_audit s).

Inductive fatal :=
| FatalSettings | FatalRuntime (e : runtime_error) | FatalTLS (e : tls_error) | FatalKeyset
| FatalDatabase | FatalCredentialsQuery | FatalNoCredentials | FatalListen | FatalGuard
| StartPanic.

(** The state after set-up calls; they panic or block on no fresh service. *)
Definition configure {D S A} (m : M (Svc D S) A) (s : Svc D S) : option (A * Svc D S) :=
  match m s with Done a s' => Some (a, s') | _ => None end.

Definition setup {D S} (m : M (Svc D S) ()) (s : Svc D S) : option (Svc D S) :=
  snd <$> configure m s.

(** A step of [main] that may end the process. *)
Definition or_fatal {A B} (e : fatal) (m : option A) (k : A → B + fatal) : B + fatal :=
  match m with Some a => k a | None => inr e end.

Section start.
Context {D : Type} `{!OS, !TLSLib, !MapOrder, !Wall, !Crypto, !JsonValid, !UnicodeUpper, !Random}.
Context `{!JWT, !Bcrypt, !JsonDecodeMap, !AuditDB D, !LedgerDB D, !WageringDB D, !SessionsDB D}.
Context `{!RegistryDB D, !ConfigDB D, !EventsDB D, !ReportingDB D, !ExtensionsDB D, !RemoteDB D}.
Context `{!AuditQueryDB D, !IdentityDB D}.

(** Connecting to the database ([sql.Open] and the ping), and whether the gRPC
    address can be bound. *)
Context (open_db : string → option D) (listen : string → bool).

(** [clock.RealClock]. *)
Definition RealClock : option (nat → Time) := Some wall.

(** The identity service: with a database it must hold an active credential. *)
Definition start_identity (c : Settings) (keys : key_state) (handle : option D)
    : Svc D IdentityState + fatal :=
  or_fatal StartPanic (NewIdentityService RealClock (js_secret (c_jwt c)) (c_accessTTL c)
    (c_refreshTTL c) handle) $ λ s,
  or_fatal StartPanic (configure (SetJWTSigner (Some (ks_signer keys));;
    SetLockoutPolicy (c_lockoutMaxFailures c) (c_lockoutTTL c);;
    SetLoginRateLimit (c_rateLimitMaxAttempts c) (c_rateLimitWindow c)) s) $ λ '(_, s),
  match handle with
  | None => inl s
  | Some _ =>
      or_fatal StartPanic (configure HasActiveCredentials s) $ λ '(r, s),
      match r with
      | Err _ => inr FatalCredentialsQuery
      | Ok ok => if ok : bool then inl s else inr FatalNoCredentials
      end
  end.

Definition start_ledger (c : Settings) (handle : option D) : option (Svc D LedgerState) :=
  setup (
    SetEFTFraudPolicy (c_eftMaxFailures c) (c_eftLockoutTTL c);;
    SetDisableInMemoryIdempotencyCache (c_strict c);;
    SetIdempotencyTTL (c_idempotencyTTL c)) (NewLedgerService RealClock handle).

(** The guard has a store of its own, and the database only if there is one. *)
Definition start_guard (c : Settings) (handle : option D) : option (Svc D GuardState) :=
  g ← NewRemoteAccessGuard (D := D) RealClock (Some NewInMemoryStore) (c_trustedCIDRs c);
  setup (
    (match handle with Some _ => guard_SetDB handle | None => mret () end);;
    SetDisableInMemoryActivityCache (c_strict c);;
    SetFailClosedOnLogPersistenceFailure (c_strict c);;
    SetInMemoryActivityLogCap (c_activityLogCap c);;
    SetDecisionObserver true;;
    SetLogStateObserver true) g.

(** The stores the audit service lists. *)
Definition audit_stores (identity : Svc D IdentityState) (registry : Svc D RegistryState)
    (reporting : Svc D (ReportingState D)) (config : Svc D ConfigState)
    (promotions : Svc D PromotionsState) (overlay : Svc D OverlayState)
    (sessions : Svc D SessionsState) (guard : Svc D GuardState) : list (option InMemoryStore) :=
  let store {S} (s : Svc D S) := AuditStore (base s) in
  [rep_Ledger (st reporting) ≫= store; store registry; rep_Events (st reporting) ≫= store;
   store reporting; store config; store identity; store promotions; store overlay;
   store sessions; store guard].

(** From the database on; [startedAt] is the time the process started. *)
Definition start_services (c : Settings) (tlsCfg : option tls_Config) (keys : key_state)
    (startedAt : Time) (handle : option D) : Server D + fatal :=
  match start_identity c keys handle with
  | inr e => inr e
  | inl identity =>
      let handle := db (base identity) in
      let strict {S} (set : bool → M (Svc D S) ()) (s : Svc D S) : option (Svc D S) := setup (set (c_strict c)) s in
      or_fatal StartPanic (setup (SetMetricsObservers true true) identity) $ λ identity,
      or_fatal StartPanic (start_ledger c handle) $ λ ledger,
      or_fatal StartPanic (strict wagering_SetDisableInMemoryIdempotencyCache
        (NewWageringService RealClock handle)) $ λ wagering,
      or_fatal StartPanic (strict registry_SetDisableInMemoryCache
        (NewRegistryService RealClock handle)) $ λ registry,
      or_fatal StartPanic (strict events_SetDisableInMemoryCache
        (NewEventsService RealClock handle)) $ λ events,
      or_fatal StartPanic (strict reporting_SetDisableInMemoryCache
        (NewReportingService RealClock (Some ledger) (Some events) handle)) $ λ reporting,
      or_fatal StartPanic (setup (
        config_SetDisableInMemoryCache (c_strict c);;
        SetDownloadSignatureKeys (map_order (parseKeyValueSecrets (c_downloadSigningKeys c))))
        (NewConfigService RealClock handle)) $ λ config,
      or_fatal StartPanic (strict promotions_SetDisableInMemoryCache
        (NewPromotionsService RealClock handle)) $ λ promotions,
      or_fatal StartPanic (strict overlay_SetDisableInMemoryCache
        (NewUISystemOverlayService RealClock handle)) $ λ overlay,
      or_fatal StartPanic (strict SetDisableInMemoryCache
        (NewSessionsService RealClock handle)) $ λ sessions,
      if negb (listen (c_grpcAddr c)) then inr FatalListen else
      or_fatal FatalGuard (start_guard c handle) $ λ guard,
      let audit := NewAuditService RealClock (Some guard)
        (audit_stores identity registry reporting config promotions overlay sessions guard) in
      or_fatal StartPanic (setup
        (match handle with Some _ => audit_SetDB handle | None => mret () end) audit) $ λ audit,
      inl (mkServer _ _ c tlsCfg keys
        (mkSvc (mkBase RealClock None false 0 None 0) (mkSystem startedAt (c_version c)))
        identity wagering registry reporting config promotions overlay sessions guard audit)
  end.

(** [main] up to the point where the two servers accept requests. *)
Definition start (env : Environ) (startedAt : Time) : OM (Server D + fatal) :=
  match read_settings env with
  | None => mret (inr FatalSettings)
  | Some c =>
      let j := c_jwt c in
      match validateProductionRuntime (c_strict c) (c_strictExternal c) (c_databaseURL c)
        (Enabled (c_tls c)) (js_secret j) (js_spec j) (js_file j) (js_command j) with
      | Some e => mret (inr (FatalRuntime e))
      | None =>
          tls ← BuildTLSConfig (c_tls c);
          match tls with
          | inr e => mret (inr (FatalTLS e))
          | inl tlsCfg =>
              keys ← start_keys j;
              mret match keys with
              | None => inr FatalKeyset
              | Some keys =>
                  if decide (c_databaseURL c = "") then start_services c tlsCfg keys startedAt None
                  else or_fatal FatalDatabase (open_db (c_databaseURL c)) $ λ d,
                    start_services c tlsCfg keys startedAt (Some d)
              end
          end
      end
  end.
End start.
