(* ===== verification/ServerProofs.v ===== *)
(** * What the server process guarantees

    TLS and production settings as they reach the running services, the state
    of the services when the servers start, and the cleanup workers. *)

From S2P Require Import Prelude GoTime GoJson GoNet GoBytes GoJsonRead GoDuration AuditTrail Service Listing.
From S2P Require Import Ledger Wagering Sessions Registry Config Events Reporting Extensions RemoteAccess.
From S2P Require Import AuditService Auth AuthProofs Identity Attestation AttestationProofs Startup.
From S2P Require Import StartupProofs Metrics Server Env.
From Stdlib Require Import Ascii.

(** ** TLS *)

Section tls.
Context `{!OS, !TLSLib}.

(** A TLS configuration that is built in the world [w] serves the certificate
    that the configured files make a key pair of, at the configured minimum
    version, and verifies client certificates against the authorities of the
    configured file if they are required. *)
Definition tls_matches (c : TLSConfig) (w : World) (t : tls_Config) : Prop :=
  Enabled c = true
  ∧ (∃ certPEM keyPEM cert w1 w2, ReadFile (CertFile c) w = Done (Some certPEM) w1
       ∧ ReadFile (KeyFile c) w1 = Done (Some keyPEM) w2
       ∧ X509KeyPair certPEM keyPEM = Some cert ∧ Certificates t = [cert]
       ∧ if RequireClientCert c
         then ClientAuth t = RequireAndVerifyClientCert
           ∧ ∃ ca pool w3, ReadFile (ClientCAFile c) w2 = Done (Some ca) w3
               ∧ AppendCertsFromPEM ca = Some pool ∧ ClientCAs t = Some pool
         else ClientAuth t = NoClientCert)
  ∧ MinVersion t = (if MinVersionTLS12 c then VersionTLS12 else 0).

Lemma BuildTLSConfig_spec c w :
  wp (BuildTLSConfig c) (λ r _,
    match r with
    | inl None => Enabled c = false
    | inl (Some t) => tls_matches c w t
    | inr _ => Enabled c = true
    end) w.
Proof.
  unfold BuildTLSConfig, tls_matches. destruct (Enabled c) eqn:Hen; cbn [negb]; [|by apply post_ret].
  case_decide; [by apply post_ret|]. unfold LoadX509KeyPair.
  apply post_bind, post_bind. eapply post_done; [reflexivity|]. cbv beta.
  destruct (w_disk _ !! CertFile c) as [cp|] eqn:Hcert; [|by apply post_ret].
  apply post_bind. eapply post_done; [reflexivity|]. cbv beta.
  destruct (w_disk _ !! KeyFile c) as [kp|] eqn:Hkey; apply post_ret; [|by apply post_ret].
  cbn [mbind option_bind]. destruct (X509KeyPair cp kp) as [cert|] eqn:Hpair; [|by apply post_ret].
  destruct (RequireClientCert c) eqn:Hreq; cbn [negb].
  2:{ apply post_ret. split_and!; [done| |done]. exists cp, kp, cert. eexists _, _.
      split; [by rewrite <- Hcert|]. split; [by rewrite <- Hkey|]. by split_and!. }
  case_decide; [by apply post_ret|].
  apply post_bind. eapply post_done; [reflexivity|]. cbv beta.
  destruct (w_disk _ !! ClientCAFile c) as [ca|] eqn:Hca; [|by apply post_ret].
  destruct (AppendCertsFromPEM ca) as [pool|] eqn:Hpool; [|by apply post_ret]. apply post_ret.
  split_and!; [done| |done]. exists cp, kp, cert. eexists _, _.
  split; [by rewrite <- Hcert|]. split; [by rewrite <- Hkey|]. split_and!; [done..|].
  exists ca, pool. eexists. split; [by rewrite <- Hca|done].
Qed.
End tls.

(** ** Start-up *)

Section start.
Context {D : Type} `{!OS, !TLSLib, !MapOrder, !Wall, !Crypto, !JsonValid, !UnicodeUpper, !Random}.
Context `{!JWT, !Bcrypt, !JsonDecodeMap, !AuditDB D, !LedgerDB D, !WageringDB D, !SessionsDB D}.
Context `{!RegistryDB D, !ConfigDB D, !EventsDB D, !ReportingDB D, !ExtensionsDB D, !RemoteDB D}.
Context `{!AuditQueryDB D, !IdentityDB D}.
Context (open_db : string → option D) (listen : string → bool).

(** A service as its constructor and the set-up calls leave it: on the real
    clock, its mutex free, an empty audit store, nothing counted. *)
Definition fresh (handle : option D) {S} (σ : S) : Svc D S :=
  mkSvc (mkBase RealClock (Some NewInMemoryStore) false 0 handle 0) σ.

Lemma fresh_in_memory {S} (σ : S) : in_memory (fresh None σ).
Proof. apply NewService_in_memory. Qed.

(** The identity service of a server with these settings and keys. *)
Definition identity_state (c : Settings) (keys : key_state) (σ : IdentityState) : Prop :=
  tokenSigner σ = Some (ks_signer keys) ∧ refreshSessions σ = ∅
  ∧ maxFailures σ = (if c_lockoutMaxFailures c <=? 0 then 5 else c_lockoutMaxFailures c)
  ∧ lockoutTTL σ = (if c_lockoutTTL c <=? 0 then 15 * Minute else c_lockoutTTL c)
  ∧ loginRateMax σ = (if c_rateLimitMaxAttempts c <? 0 then 0 else c_rateLimitMaxAttempts c)
  ∧ loginRateWindow σ = (if c_rateLimitWindow c <=? 0 then Minute else c_rateLimitWindow c).

Lemma setup_identity c keys handle σ :
  configure (D := D) (SetJWTSigner (Some (ks_signer keys));;
    SetLockoutPolicy (c_lockoutMaxFailures c) (c_lockoutTTL c);;
    SetLoginRateLimit (c_rateLimitMaxAttempts c) (c_rateLimitWindow c)) (fresh handle σ)
  = Some ((), fresh handle (σ
      <| tokenSigner := Some (ks_signer keys) |>
      <| maxFailures := if c_lockoutMaxFailures c <=? 0 then 5 else c_lockoutMaxFailures c |>
      <| lockoutTTL := if c_lockoutTTL c <=? 0 then 15 * Minute else c_lockoutTTL c |>
      <| loginRateMax := if c_rateLimitMaxAttempts c <? 0 then 0 else c_rateLimitMaxAttempts c |>
      <| loginRateWindow := if c_rateLimitWindow c <=? 0 then Minute else c_rateLimitWindow c |>)).
Proof. reflexivity. Qed.

Lemma active_credentials_fresh d (σ : IdentityState) r s :
  configure (D := D) HasActiveCredentials (fresh (Some d) σ) = Some (r, s) →
  ∃ d', s = fresh (Some d') σ.
Proof.
  unfold configure, HasActiveCredentials, dbEnabled, run_db, gets, mbind, M_bind. simpl.
  destruct (q_active_credentials d) as [r' d']. intros [= _ <-]. by exists d'.
Qed.

Lemma start_identity_spec c keys handle s :
  start_identity (D := D) c keys handle = inl s →
  ∃ d σ, s = fresh d σ ∧ identity_state c keys σ ∧ (d = None ↔ handle = None).
Proof.
  unfold start_identity. destruct (NewIdentityService _ _ _ _ _) as [s0|] eqn:E; [|done].
  assert (∃ σ0, s0 = fresh handle σ0 ∧ refreshSessions σ0 = ∅) as (σ0 & -> & Hs).
  { unfold NewIdentityService in E. destruct (NewJWTSigner _) as [signer|]; [|done].
    injection E as <-. by eexists. }
  cbn [or_fatal]. rewrite setup_identity. cbn [or_fatal].
  match goal with |- context [fresh handle ?x] =>
    assert (identity_state c keys x) as Hσ by (split_and!; done); revert Hσ; generalize x end.
  intros σ Hσ. destruct handle as [d|].
  - destruct (configure _ _) as [[r s1]|] eqn:Ec; [|done]. cbn [or_fatal].
    apply active_credentials_fresh in Ec as [d' ->].
    destruct r as [[]|]; [|done..]. intros [= <-]. by exists (Some d'), σ.
  - intros [= <-]. by exists None, σ.
Qed.

(** The guard of a server with these settings. *)
Definition guard_state (c : Settings) (g : GuardState) : Prop :=
  failClosedLogPersist g = c_strict c ∧ RemoteAccess.disableInMemoryCache g = c_strict c
  ∧ inMemoryLogCap g = (if c_activityLogCap c <? 0 then 0 else c_activityLogCap c)
  ∧ logs g = [] ∧ trusted g ≠ []
  ∧ ∃ ns, parse_trusted (c_trustedCIDRs c) = Some ns ∧ trusted g = (if decide (ns = []) then loopback else ns).

Lemma start_guard_spec c handle s :
  start_guard (D := D) c handle = Some s → ∃ g, s = fresh handle g ∧ guard_state c g.
Proof.
  unfold start_guard, NewRemoteAccessGuard.
  destruct (parse_trusted _) as [ns|] eqn:Hns; [|done]. cbn [mbind option_bind default].
  intros E. assert (loopback ≠ []) as Hlo by (by vm_compute).
  destruct handle; injection E as <-; eexists; (split; [reflexivity|]);
    (split_and!; [done..| |exists ns; split; [done|]; by destruct ns]); by destruct ns.
Qed.

(** The state of every service when the servers start, for a database handle
    [d]. *)
Definition ledger_at (c : Settings) : LedgerState := NewLedgerState
  <| eftFraudMaxFailures := if c_eftMaxFailures c <=? 0 then 5 else c_eftMaxFailures c |>
  <| eftFraudLockoutTTL := if c_eftLockoutTTL c <=? 0 then 15 * Minute else c_eftLockoutTTL c |>
  <| disableInMemIdemCache := c_strict c |>
  <| idempotencyTTL := if c_idempotencyTTL c <=? 0 then 24 * Hour else c_idempotencyTTL c |>.

Record started (c : Settings) (tlsCfg : option tls_Config) (keys : key_state) (d : option D)
    (srv : Server D) : Prop := {
  sd_settings : srv_settings srv = c;
  sd_tls : srv_tls srv = tlsCfg;
  sd_keys : srv_keys srv = keys;
  sd_identity : ∃ σ, srv_identity srv = fresh d σ ∧ identity_state c keys σ;
  sd_reporting : srv_reporting srv = fresh d ((NewReportingState (Some (fresh d (ledger_at c)))
    (Some (fresh d (NewEventsState <| ev_disableInMemoryCache := c_strict c |>))))
    <| rep_disableInMemoryCache := c_strict c |>);
  sd_wagering : srv_wagering srv = fresh d (mkWagering ∅ ∅ ∅ ∅ 0 (c_strict c));
  sd_registry : srv_registry srv = fresh d (mkRegistry ∅ (c_strict c));
  sd_config : srv_config srv = fresh d (NewConfigState
    <| cfg_disableInMemoryCache := c_strict c |>
    <| downloadSigKeys := install_keys (map_order (parseKeyValueSecrets (c_downloadSigningKeys c))) |>);
  sd_promotions : srv_promotions srv = fresh d (NewPromotionsState
    <| promo_disableInMemoryCache := c_strict c |>);
  sd_overlay : srv_overlay srv = fresh d (NewOverlayState
    <| overlay_disableInMemoryCache := c_strict c |>);
  sd_sessions : srv_sessions srv = fresh d (mkSessions ∅ Hour (c_strict c));
  sd_guard : ∃ g, srv_guard srv = fresh d g ∧ guard_state c g;
  sd_audit : db (base (srv_audit srv)) = d ∧ remoteGuard (st (srv_audit srv)) = Some (srv_guard srv) }.

Lemma start_services_spec c tlsCfg keys t handle srv :
  start_services listen c tlsCfg keys t handle = inl srv →
  ∃ d, (d = None ↔ handle = None) ∧ started c tlsCfg keys d srv.
Proof.
  unfold start_services. destruct (start_identity c keys handle) as [s|] eqn:Ei; [|done].
  apply start_identity_spec in Ei as (d & σ & -> & Hσ & Hd). cbn [base fresh db].
  unfold or_fatal, start_ledger.
  repeat match goal with
  | |- match setup ?m ?x with Some _ => _ | None => _ end = _ → _ =>
      let E := fresh "E" in destruct (setup m x) eqn:E; [injection E as <-|done]
  end.
  destruct (listen _); [|done]. cbn [negb].
  destruct (start_guard c d) as [guard|] eqn:Eg; [|done].
  apply start_guard_spec in Eg as (g & -> & Hg).
  destruct (setup _ _) as [audit|] eqn:Ea; [|done]. intros [= <-].
  exists d. split; [done|]. split; try reflexivity.
  - eexists. split; [reflexivity|]. by destruct Hσ as (? & ? & ? & ? & ? & ?).
  - by exists g.
  - cbn [srv_audit]. by destruct d; injection Ea as <-.
Qed.

Lemma read_settings_tls12 env c : read_settings env = Some c → MinVersionTLS12 (c_tls c) = true.
Proof.
  unfold read_settings. cbv zeta.
  repeat (match goal with |- (?m ≫= _) = _ → _ => destruct m; [|done] end; cbn [mbind option_bind]).
  by intros [= <-].
Qed.

(** A server that started: its settings were read and accepted, its keys
    loaded, and its services are in the states above. *)
Lemma start_spec env t w srv w' :
  start open_db listen env t w = Done (inl srv) w' →
  ∃ c keys k d, read_settings env = Some c
    ∧ validateProductionRuntime (c_strict c) (c_strictExternal c) (c_databaseURL c)
        (Enabled (c_tls c)) (js_secret (c_jwt c)) (js_spec (c_jwt c)) (js_file (c_jwt c))
        (js_command (c_jwt c)) = None
    ∧ usable k ∧ ks_signer keys = NewJWTSignerWithKeyset k
    ∧ ks_verifier keys = NewJWTVerifierWithKeyset k
    ∧ match srv_tls srv with Some t => tls_matches (c_tls c) w t | None => Enabled (c_tls c) = false end
    ∧ (d = None ↔ c_databaseURL c = "")
    ∧ (MinVersionTLS12 (c_tls c) = true ∧ keyset_source (c_jwt c) k) ∧ started c (srv_tls srv) keys d srv.
Proof.
  unfold start. destruct (read_settings env) as [c|] eqn:Hc; [|done].
  destruct (validateProductionRuntime _ _ _ _ _ _ _ _) eqn:Hv; [done|].
  intros (tls & w1 & Etls & E)%bind_done_inv.
  pose proof (post_elim _ _ _ _ _ _ (BuildTLSConfig_spec (c_tls c) w) Etls) as Htls.
  cbv beta in Htls. destruct tls as [tlsCfg|e]; [|done].
  apply bind_done_inv in E as (keys & w2 & Ekeys & E). destruct keys as [keys|]; [|done].
  apply start_keys_holds in Ekeys as (k & Hk & Hkeys & Hsrc). unfold holds in Hkeys.
  injection E as E _.
  assert (∃ handle, (handle = None ↔ c_databaseURL c = "")
    ∧ start_services listen c tlsCfg keys t handle = inl srv) as (handle & Hh & Es).
  { case_decide; [by exists None|]. unfold or_fatal in E.
    destruct (open_db _) as [d|]; [|done]. by exists (Some d). }
  apply start_services_spec in Es as (d & Hd & Hs).
  exists c, keys, k, d. rewrite (sd_tls _ _ _ _ _ Hs). do 3 (split; [done|]).
  do 2 (split; [by rewrite Hkeys|]). split; [by destruct tlsCfg|]. split; [by rewrite Hd|].
  split; [split; [by eapply read_settings_tls12|done]|done].
Qed.

Definition connected {S} (s : Svc D S) : Prop := is_Some (db (base s)).

(** C12: a server that starts in production mode runs with the settings of its
    environment and is hardened by them: it listens with TLS 1.2 or newer with
    the certificate of the configured files, and verifies client certificates
    against the configured authorities if they are required; every service is
    connected to the database and serves nothing from memory; the guard is
    fail-closed; the signer of the identity service and the verifier of requests
    hold one usable keyset, which is what the configured source held; that
    source is a file or a command unless RGS_STRICT_EXTERNAL_JWT_KEYSET was
    switched off; and it is never the built-in development secret alone. *)
Theorem production_start_hardened env t w srv w' :
  start open_db listen env t w = Done (inl srv) w' → c_strict (srv_settings srv) = true →
  read_settings env = Some (srv_settings srv)
  ∧ (∃ cfg, srv_tls srv = Some cfg ∧ MinVersion cfg = VersionTLS12
      ∧ tls_matches (c_tls (srv_settings srv)) w cfg)
  ∧ (connected (srv_identity srv) ∧ connected (srv_wagering srv) ∧ connected (srv_registry srv)
    ∧ connected (srv_reporting srv) ∧ connected (srv_config srv) ∧ connected (srv_promotions srv)
    ∧ connected (srv_overlay srv) ∧ connected (srv_sessions srv) ∧ connected (srv_guard srv)
    ∧ connected (srv_audit srv))
  ∧ (∃ ls es, rep_Ledger (st (srv_reporting srv)) = Some ls ∧ connected ls
    ∧ disableInMemIdemCache (st ls) = true
    ∧ rep_Events (st (srv_reporting srv)) = Some es ∧ connected es
    ∧ ev_disableInMemoryCache (st es) = true)
  ∧ (disableInMemCache (st (srv_wagering srv)) = true
    ∧ reg_disableInMemoryCache (st (srv_registry srv)) = true
    ∧ rep_disableInMemoryCache (st (srv_reporting srv)) = true
    ∧ cfg_disableInMemoryCache (st (srv_config srv)) = true
    ∧ promo_disableInMemoryCache (st (srv_promotions srv)) = true
    ∧ overlay_disableInMemoryCache (st (srv_overlay srv)) = true
    ∧ Sessions.disableInMemoryCache (st (srv_sessions srv)) = true)
  ∧ (failClosedLogPersist (st (srv_guard srv)) = true
    ∧ RemoteAccess.disableInMemoryCache (st (srv_guard srv)) = true
    ∧ trusted (st (srv_guard srv)) ≠ [])
  ∧ ∃ k, keyset_ok k ∧ tokenSigner (st (srv_identity srv)) = Some (NewJWTSignerWithKeyset k)
      ∧ ks_verifier (srv_keys srv) = NewJWTVerifierWithKeyset k
      ∧ let j := c_jwt (srv_settings srv) in
        keyset_source j k
        ∧ (c_strictExternal (srv_settings srv) = true →
             TrimSpace (js_file j) ≠ "" ∨ TrimSpace (js_command j) ≠ "")
        ∧ (TrimSpace (js_file j) = "" → TrimSpace (js_command j) = "" → TrimSpace (js_spec j) = "" →
             js_secret j ≠ dev_secret).
Proof.
  intros (c & keys & k & d & Hread & Hv & [Hk _] & Hsig & Hver & Htls & Hd & [Hmin Hsrc] & Hs)%start_spec.
  destruct Hs as [-> _ -> (σ & -> & Hσ) -> -> -> -> -> -> -> (g & -> & Hg) Ha].
  intros Hstrict. rewrite Hstrict in *. unfold validateProductionRuntime in Hv.
  cbn [negb] in Hv. destruct (decide (TrimSpace (c_databaseURL c) = "")) as [|Hdb]; [done|].
  destruct (Enabled (c_tls c)) eqn:Hen; [|done]. cbn [negb] in Hv.
  case_decide as Hsecret; [done|].
  assert (is_Some d) as Hsome.
  { destruct d; [by eexists|]. destruct Hdb. by rewrite (proj1 Hd eq_refl). }
  destruct Hσ as (Hsigner & _). destruct Hg as (Hf & Hc & _ & _ & Hn & _).
  unfold connected. split_and!; try done.
  - destruct (srv_tls srv) as [cfg|]; [|congruence]. exists cfg. split_and!; [done| |done].
    destruct Htls as (_ & _ & Hver'). by rewrite Hmin in Hver'.
  - by rewrite (proj1 Ha).
  - eexists _, _. split_and!; [reflexivity|done|exact Hstrict|reflexivity|done|done].
  - exact (eq_trans Hf Hstrict).
  - exact (eq_trans Hc Hstrict).
  - exists k. split_and!; [done| |done|done| |].
    + rewrite <- Hsig. exact Hsigner.
    + intros Hext. rewrite Hext in Hv. cbn [andb] in Hv.
      destruct (bool_decide _) eqn:Hb in Hv; [done|]. apply bool_decide_eq_false in Hb.
      destruct (decide (TrimSpace (js_file (c_jwt c)) = "")) as [E|]; [|by left]. right. tauto.
    + intros Hf1 Hf2 Hf3 Hf4. by apply Hsecret.
Qed.

(** A server started without a database keeps everything in memory: every
    service satisfies the hypothesis of the theorems about services in memory,
    with its mutex free, an intact audit chain and empty tables. *)
Theorem development_start_in_memory env t w srv w' :
  start open_db listen env t w = Done (inl srv) w' → c_databaseURL (srv_settings srv) = "" →
  in_memory (srv_identity srv) ∧ in_memory (srv_wagering srv) ∧ in_memory (srv_registry srv)
  ∧ in_memory (srv_reporting srv) ∧ in_memory (srv_config srv) ∧ in_memory (srv_promotions srv)
  ∧ in_memory (srv_overlay srv) ∧ in_memory (srv_sessions srv) ∧ in_memory (srv_guard srv)
  ∧ (∃ ls es, rep_Ledger (st (srv_reporting srv)) = Some ls ∧ in_memory ls
      ∧ accounts (st ls) = ∅ ∧ transactionsByAcct (st ls) = ∅
      ∧ rep_Events (st (srv_reporting srv)) = Some es ∧ in_memory es ∧ sig_events (st es) = ∅)
  ∧ wagers (st (srv_wagering srv)) = ∅ ∧ refreshSessions (st (srv_identity srv)) = ∅.
Proof.
  intros (c & keys & k & d & _ & _ & _ & _ & _ & _ & Hd & _ & Hs)%start_spec.
  destruct Hs as [-> _ _ (σ & -> & Hσ) -> -> -> -> -> -> -> (g & -> & Hg) Ha].
  intros Hdb. assert (d = None) as -> by by apply Hd. destruct Hσ as (_ & Hr & _).
  split_and!; try apply fresh_in_memory; try done.
  eexists _, _. split_and!; try reflexivity; apply fresh_in_memory.
Qed.
End start.

(** ** Cleanup workers *)

(** What the two DELETE statements do: of the [expired d] expired rows they
    delete the [n] oldest, or all if there are fewer, and report how many; or
    they fail. *)
Definition deletes_expired {D} (x : Z → D → res Z * D) (expired : D → Z) : Prop :=
  ∀ n d, 0 < n → 0 ≤ expired d ∧
    match x n d with
    | (Ok k, d') => k = Z.min n (expired d) ∧ expired d' = expired d - k
    | (Err _, _) => True
    end.

(** How many rows a tick deleted, if no batch failed. *)
Fixpoint deleted_rows (rs : list (res Z)) : option Z :=
  match rs with
  | [] => Some 0
  | Ok k :: rs => n ← deleted_rows rs; Some (k + n)
  | Err _ :: _ => None
  end.

Section workers.
Context {D S : Type} (x : Z → D → res Z * D) (expired : D → Z) (Hx : deletes_expired x expired).
Implicit Types s : Svc D S.

(** The cleanup of a batch is the statement on the database. *)
Definition runs_statement (n : Z) (m : M (Svc D S) (res Z)) : Prop :=
  ∀ s d, db (base s) = Some d → m s = run_db (x n) s.

(** With fuel for the full batches a tick ends; it leaves the service alone
    and, unless a batch fails, no expired row. *)
Lemma cleanup_batches_total fuel n m s d :
  0 < n → runs_statement n m → db (base s) = Some d → (Z.to_nat (expired d / n) < fuel)%nat →
  ∃ rs s' d', cleanup_batches fuel n m s = Done (Some rs) s' ∧ st s' = st s
    ∧ db (base s') = Some d'
    ∧ match deleted_rows rs with Some k => k = expired d ∧ expired d' = 0 | None => True end.
Proof.
  intros Hn Hm. revert s d. induction fuel as [|fuel IH]; intros s d Hd Hf; [lia|].
  cbn [cleanup_batches]. unfold mbind, M_bind at 1. rewrite (Hm _ _ Hd). unfold run_db. rewrite Hd.
  destruct (Hx n d Hn) as [Hpos Hk]. destruct (x n d) as [[k|e] d'] eqn:Ex.
  2: { eexists _, _, _. split_and!; [done..|]. done. }
  destruct Hk as [Hk Hd']. set (s1 := s <| base ::= _ |>).
  assert (db (base s1) = Some d') as Hd1 by done. assert (st s1 = st s) as Hst1 by done.
  clearbody s1. destruct (Z.eqb_spec k 0) as [Hk0|Hk0].
  { eexists _, s1, d'. split_and!; [done..|]. simpl. lia. }
  destruct (Z.ltb_spec k n) as [Hlt|Hge].
  { eexists _, s1, d'. split_and!; [done..|]. simpl. lia. }
  assert (k = n) as -> by lia.
  destruct (IH s1 d' Hd1) as (rs & s2 & d2 & E & Hst & Hdb & Hrs).
  { rewrite Hd'. replace (expired d) with (expired d - n + 1 * n) in Hf by lia.
    rewrite Z.div_add in Hf by lia.
    pose proof (Z.div_pos (expired d - n) n ltac:(lia) Hn). lia. }
  unfold M_bind. rewrite E. eexists _, s2, d2. split_and!; [done|congruence|done|]. simpl.
  destruct (deleted_rows rs) as [j|]; simpl; [lia|done].
Qed.
End workers.

Section worker_theorems.
Context {D : Type} `{!Wall, !Crypto, !JsonValid, !AuditDB D, !LedgerDB D, !IdentityDB D}.
Context (expired : D → Z).

Lemma batch_size_pos n : 0 < batch_size n.
Proof. unfold batch_size. destruct (Z.leb_spec n 0); lia. Qed.

Lemma batch_size_idem n : (if batch_size n <=? 0 then 500 else batch_size n) = batch_size n.
Proof. pose proof (batch_size_pos n). destruct (Z.leb_spec (batch_size n) 0); lia. Qed.

(** C38: a tick of the ledger's cleanup worker ends, whatever the database holds: it
    deletes batch after batch until no expired key is left or a statement fails,
    and reports every batch; the ledger is untouched. *)
Theorem idempotency_cleanup_terminates interval batch (s : Svc D LedgerState) d :
  deletes_expired x_idempotency_cleanup expired → 0 < interval → db (base s) = Some d →
  ∃ fuel rs s' d', StartIdempotencyCleanupWorker fuel interval batch s
      = Done (Some (map observed_batch rs)) s'
    ∧ st s' = st s ∧ db (base s') = Some d'
    ∧ match deleted_rows rs with Some k => k = expired d ∧ expired d' = 0 | None => True end.
Proof.
  intros Hx Hi Hd. exists (S (Z.to_nat (expired d / batch_size batch))).
  destruct (cleanup_batches_total (S := LedgerState) x_idempotency_cleanup expired Hx
    (S (Z.to_nat (expired d / batch_size batch))) (batch_size batch)
    (CleanupExpiredIdempotencyKeys (batch_size batch)) s d (batch_size_pos _)) as (rs & s' & d' & E & Hrest);
    [|done|lia|].
  { intros s0 d0 Hd0. unfold CleanupExpiredIdempotencyKeys, dbEnabled, gets, mbind, M_bind.
    by rewrite Hd0, batch_size_idem. }
  exists rs, s', d'. split; [|done]. unfold StartIdempotencyCleanupWorker, dbEnabled, gets.
  unfold mbind, M_bind. rewrite Hd, (proj2 (Z.leb_gt _ _)) by done. cbn [negb orb].
  by rewrite E.
Qed.

Theorem session_cleanup_terminates interval batch (s : Svc D IdentityState) d :
  deletes_expired x_identity_cleanup expired → 0 < interval → db (base s) = Some d →
  ∃ fuel rs s' d', StartSessionCleanupWorker fuel interval batch s = Done (Some rs) s'
    ∧ st s' = st s ∧ db (base s') = Some d'
    ∧ match deleted_rows rs with Some k => k = expired d ∧ expired d' = 0 | None => True end.
Proof.
  intros Hx Hi Hd. exists (S (Z.to_nat (expired d / batch_size batch))).
  destruct (cleanup_batches_total (S := IdentityState) x_identity_cleanup expired Hx
    (S (Z.to_nat (expired d / batch_size batch))) (batch_size batch)
    (CleanupExpiredSessions (batch_size batch)) s d (batch_size_pos _)) as (rs & s' & d' & E & Hrest);
    [|done|lia|].
  { intros s0 d0 Hd0. unfold CleanupExpiredSessions, dbEnabled, gets, mbind, M_bind.
    by rewrite Hd0, batch_size_idem. }
  exists rs, s', d'. split; [|done]. unfold StartSessionCleanupWorker, dbEnabled, gets.
  unfold mbind, M_bind. rewrite Hd, (proj2 (Z.leb_gt _ _)) by done. cbn [negb orb].
  by rewrite E.
Qed.
End worker_theorems.

(** The status endpoint always answers OK under the id of the request, with the
    time of the answer; if the server has run for whole seconds, the uptime it
    shows reads back as that time. *)
Theorem system_status_uptime {D} `{!Wall} req (s : Svc D SystemService) :
  ∃ r s', GetSystemStatus req s = Done r s' ∧ st s' = st s
    ∧ ResCode (gssr_Meta r) = RESULT_CODE_OK
    ∧ RespRequestId (gssr_Meta r) = requestID (req ≫= gss_Meta)
    ∧ gssr_Version r = Version (st s)
    ∧ ∀ n, reading s (ticks (base s)) = StartedAt (st s) + n * Second →
        0 ≤ n * Second ≤ int64_max → ParseDuration (Uptime r) = Some (n * Second).
Proof.
  unfold GetSystemStatus, mbind, M_bind. rewrite now_eq. eexists _, _. split; [reflexivity|].
  cbn. split_and!; [done|done|by destruct (req ≫= gss_Meta)|done|].
  intros n Hn Hb. rewrite Hn.
  unfold Time_Sub. rewrite Z.min_r, Z.max_r by (unfold int64_min; lia).
  replace (StartedAt (st s) + n * Second - StartedAt (st s)) with (n * Second) by lia.
  apply duration_roundtrip. lia.
Qed.

(** ** Concrete instances *)

Module ServerExample.
Import Concrete.
#[export] Existing Instances env_wall env_crypto env_json env_upper env_random env_audit_db.

#[export] Instance ex_tls : TLSLib := {|
  Certificate := string; CertPool := string;
  X509KeyPair cert key := Some (cert +:+ key); AppendCertsFromPEM ca := Some ca |}.
#[export] Instance ex_os : OS := {|
  interfere _ d := d; command_output _ _ := None; write_ok _ _ := true; mkdir_ok _ _ := true |}.
#[export] Instance ex_order : MapOrder := map_to_list.

(** A database that is the number of its expired rows, with an active
    credential. *)
#[export] Instance ex_identity_db : IdentityDB Z := {|
  q_login_attempts _ _ _ d := (Ok 1, d);
  q_lockout _ _ d := (Ok None, d);
  x_lockout_failure _ _ _ _ d := (Ok (), d);
  x_lockout_reset _ _ d := (Ok (), d);
  q_credential _ _ d := (Ok None, d);
  x_credential_hash _ _ _ d := (Ok (), d);
  x_credential_status _ _ _ d := (Ok 1, d);
  q_active_credentials d := (Ok 1, d);
  q_lockout_status _ _ d := (Ok None, d);
  x_identity_session _ _ _ _ _ d := (Ok (), d);
  q_identity_session _ d := (Ok None, d);
  x_identity_revoke _ d := (Ok (), d);
  x_identity_insert _ _ _ _ _ d := (Ok (), d);
  x_identity_cleanup n d := (Ok (Z.min n (Z.max 0 d)), d - Z.min n (Z.max 0 d)) |}.
#[export] Instance ex_ledger_db : LedgerDB Z := {|
  q_eft_locked_until _ d := (Ok None, d);
  x_eft_failure _ _ _ d := (Ok (), d);
  x_eft_reset _ d := (Ok (), d);
  x_ensure_account _ _ _ _ d := (Ok (), d);
  x_insert_transaction _ _ _ _ _ _ _ _ _ _ d := (Ok (), d);
  x_insert_posting _ _ _ _ _ d := (Ok (), d);
  x_adjust_balance _ _ d := (Ok (), d);
  q_balance _ d := (Ok None, d);
  q_list_transactions _ _ _ d := (Ok [], d);
  q_find_transaction _ _ _ d := (Ok None, d);
  q_idempotency _ _ d := (Ok None, d);
  x_idempotency _ _ _ _ _ _ d := (Ok (), d);
  x_idempotency_cleanup n d := (Ok (Z.min n (Z.max 0 d)), d - Z.min n (Z.max 0 d)) |}.

(** Settings and files of a production server. *)
Definition prod_env : Environ := λ key,
  if decide (key = "RGS_VERSION") then "1.4.0"
  else if decide (key = "RGS_DATABASE_URL") then "postgres://rgs"
  else if decide (key = "RGS_TLS_ENABLED") then "true"
  else if decide (key = "RGS_TLS_CERT_FILE") then "/tls/cert.pem"
  else if decide (key = "RGS_TLS_KEY_FILE") then "/tls/key.pem"
  else if decide (key = "RGS_JWT_KEYSET_FILE") then "/keys.json"
  else "".
Definition dev_env : Environ := λ _, "".
Definition prod_world : World := mkWorld 0
  {[ "/tls/cert.pem" := "cert"; "/tls/key.pem" := "key"; "/keys.json" := StartupExample.old_keys ]}.

Definition ex_start_server (env : Environ) : outcome World (Server Z + fatal) :=
  start (D := Z) (λ _, Some 7) (λ _, true) env 0 prod_world.
End ServerExample.
Import ServerExample.

Definition starts (env : Environ) (P : Server Z → bool) : bool :=
  match ex_start_server env with Done (inl srv) _ => P srv | _ => false end.

Lemma starts_inv env P : starts env P = true →
  ∃ srv w, ex_start_server env = Done (inl srv) w ∧ P srv = true.
Proof.
  unfold starts. destruct (ex_start_server env) as [[srv|e] w| |]; try discriminate.
  intros HP. by exists srv, w.
Qed.

Lemma ex_production : ∃ srv w, ex_start_server prod_env = Done (inl srv) w
  ∧ c_strict (srv_settings srv) = true.
Proof. apply starts_inv. by vm_compute. Qed.

Lemma ex_development : ∃ srv w, ex_start_server dev_env = Done (inl srv) w
  ∧ c_databaseURL (srv_settings srv) = "".
Proof.
  destruct (starts_inv dev_env (λ srv, bool_decide (c_databaseURL (srv_settings srv) = "")))
    as (srv & w & E & HP); [by vm_compute|].
  exists srv, w. by split; [|apply bool_decide_eq_true in HP].
Qed.

(** Production without TLS, and with a signing secret that is blank. *)
Example ex_refused :
  match ex_start_server (λ key, if decide (key = "RGS_TLS_ENABLED") then "" else prod_env key),
        ex_start_server (λ key, if decide (key = "RGS_JWT_SIGNING_SECRET") then " " else prod_env key),
        ex_start_server (λ key, if decide (key = "RGS_JWT_ACCESS_TTL") then "15" else dev_env key) with
  | Done a _, Done b _, Done c _ =>
      a = inr (FatalRuntime ErrTLSRequired) ∧ b = inr StartPanic ∧ c = inr FatalSettings
  | _, _, _ => False
  end.
Proof. by vm_compute. Qed.

Lemma production_start_hardened_witness :
  ∃ (srv : Server Z) cfg k, srv_tls srv = Some cfg ∧ MinVersion cfg = VersionTLS12
    ∧ tls_matches (c_tls (srv_settings srv)) prod_world cfg
    ∧ failClosedLogPersist (st (srv_guard srv)) = true
    ∧ ks_verifier (srv_keys srv) = NewJWTVerifierWithKeyset k ∧ keyset_source (c_jwt (srv_settings srv)) k.
Proof.
  destruct ex_production as (srv & w & E & Hs).
  destruct (production_start_hardened (λ _, Some 7) (λ _, true) prod_env 0 prod_world srv w E Hs)
    as (_ & (cfg & Hc & Hv & Ht) & _ & _ & _ & (Hf & _) & (k & _ & _ & Hver & Hk & _)).
  exists srv, cfg, k. split; [exact Hc|]. split; [exact Hv|]. split; [exact Ht|]. split; [exact Hf|].
  split; [exact Hver|exact Hk].
Defined.

Lemma development_start_in_memory_witness : ∃ srv : Server Z, in_memory (srv_wagering srv).
Proof.
  destruct ex_development as (srv & w & E & Hs). exists srv.
  exact (proj1 (proj2 (development_start_in_memory (λ _, Some 7) (λ _, true) dev_env 0 prod_world
    srv w E Hs))).
Defined.

Lemma ex_deletes : deletes_expired (D := Z) x_idempotency_cleanup (Z.max 0).
Proof. intros n d Hn. simpl. lia. Qed.

Lemma idempotency_cleanup_terminates_witness :
  ∃ fuel rs s', StartIdempotencyCleanupWorker fuel Minute 3 (NewLedgerService None (Some 7))
    = Done (Some rs) s'.
Proof.
  destruct (idempotency_cleanup_terminates (D := Z) (Z.max 0) Minute 3
    (NewLedgerService None (Some 7)) 7 ex_deletes eq_refl eq_refl) as (fuel & rs & s' & d' & E & _).
  exists fuel, (map observed_batch rs), s'. exact E.
Defined.

Example ex_cleanup :
  match StartIdempotencyCleanupWorker 5 Minute 3 (NewLedgerService None (Some 7)) with
  | Done rs s => rs = Some [(3, false); (3, false); (1, false)] ∧ db (base s) = Some 0
  | _ => False
  end.
Proof. by vm_compute. Qed.
