(* ===== verification/Gateway.v ===== *)
(** * The REST gateway (gen/rgs/v1/*.pb.gw.go, cmd/rgsd/main.go)

    The routes the server registers, what the generated code does with a
    request (decode the body, take path and query parameters, call the
    service), and the HTTP server in front of it.  The multiplexer and the
    marshaler of grpc-gateway are interfaces; [MuxLaw] states what the
    documentation says of path templates. *)

From S2P Require Import Prelude GoTime GoJson GoNet GoBytes GoJsonRead GoDuration AuditTrail Service Listing.
From S2P Require Import Ledger Wagering Sessions Registry Config Events Reporting Extensions RemoteAccess.
From S2P Require Import AuditService Auth Identity Attestation Startup Metrics Server.
From Stdlib Require Import Ascii.

(** ** Requests and path templates *)

(** [rq_escaped] is the path as it was sent ([EscapedPath]), [UrlPath] the
    decoded one; [rq_form] is what [ParseForm] finds, none if it fails. *)
Record RestRequest := mkRest {
  rq_http : HttpRequest; rq_escaped : string; rq_authorization : string; rq_body : string;
  rq_form : option (list (string * string)) }.

(** A template [/lit/{name}/lit:verb]; the verb is empty if there is none. *)
Inductive segment := Lit (s : string) | Capture (name : string).
Record pattern := mkPattern { p_segments : list segment; p_verb : string }.

(** The path of a template under a binding of its names. *)
Definition seg_text (params : gmap string string) (g : segment) : option string :=
  match g with Lit s => Some s | Capture name => params !! name end.
Fixpoint segs_path (params : gmap string string) (l : list segment) : option string :=
  match l with
  | [] => Some ""
  | g :: l => t ← seg_text params g; rest ← segs_path params l; Some ("/" +:+ t +:+ rest)
  end.
Definition instantiate (p : pattern) (params : gmap string string) : option string :=
  path ← segs_path params (p_segments p);
  Some (path +:+ (if decide (p_verb p = "") then "" else ":" +:+ p_verb p)).

(** The multiplexer: the position of the handler it calls among the registered
    ones with the values of the path parameters, or none if it answers itself;
    the status of its own answer, the status of an error, and whether the
    request's metadata headers are malformed. *)
Class Mux := {
  mux_find : list (string * pattern) → RestRequest → option (nat * gmap string string);
  mux_status : RestRequest → Z;
  HTTPStatusFromCode : Code → Z;
  AnnotateIncomingContext : RestRequest → option Code }.

(** A handler is called only for a path that its template produces. *)
Class MuxLaw `{Mux} : Prop :=
  mux_matches : ∀ routes rq i params, mux_find routes rq = Some (i, params) →
    ∃ method p, routes !! i = Some (method, p)
      ∧ instantiate p params = Some (UrlPath (rq_http rq)).

(** The marshaler and the query parser, for one request message: decoding a
    body into a message, with the end of the input told apart from other
    errors; and [PopulateQueryParameters] with the names it must not set. *)
Inductive decode_result := DecodeOk | DecodeEOF | DecodeError.
Class GwMessage (Req : Type) := {
  gw_decode : string → Req → Req * decode_result;
  gw_query : list (string * string) → list string → Req → option Req }.

(** [PopulateFieldFromPath]. *)
Class GwPopulate (Req : Type) := gw_populate : string → string → Req → option Req.

(** The zero value of a message. *)
Class GwZero (Req : Type) := gw_zero : Req.

(** ** Steps of the generated functions *)

Section steps.
Context {S : Type}.

Definition decode_body {Req A} `{!GwMessage Req, !GwZero Req} (rq : RestRequest)
    (k : Req → M S (A + Code)) : M S (A + Code) :=
  match gw_decode (rq_body rq) gw_zero with
  | (_, DecodeError) => mret (inr InvalidArgument)
  | (protoReq, _) => k protoReq
  end.

(** [runtime.String] accepts every value. *)
Definition path_param {A} (pathParams : gmap string string) (name : string)
    (k : string → M S (A + Code)) : M S (A + Code) :=
  match pathParams !! name with
  | None => mret (inr InvalidArgument)
  | Some val => k val
  end.

Definition populate_field {Req A} `{!GwPopulate Req} (name val : string) (protoReq : Req)
    (k : Req → M S (A + Code)) : M S (A + Code) :=
  match gw_populate name val protoReq with
  | None => mret (inr InvalidArgument)
  | Some protoReq => k protoReq
  end.

Definition query_params {Req A} `{!GwMessage Req} (rq : RestRequest) (filter : list string)
    (protoReq : Req) (k : Req → M S (A + Code)) : M S (A + Code) :=
  match rq_form rq with
  | None => mret (inr InvalidArgument)
  | Some form =>
      match gw_query form filter protoReq with
      | None => mret (inr InvalidArgument)
      | Some protoReq => k protoReq
      end
  end.

(** The services return a response and no error. *)
Definition call {A} (m : M S A) : M S (A + Code) := r ← m; mret (inl r).
End steps.

#[global] Instance zero_ListAuditEvents : GwZero ListAuditEventsRequest := mkListAuditEventsRequest None 0 "" "".
#[global] Instance zero_ListRemoteAccess : GwZero ListRemoteAccessActivitiesRequest :=
  mkListRemoteAccessActivitiesRequest None 0 "".
#[global] Instance zero_VerifyAuditChain : GwZero VerifyAuditChainRequest := mkVerifyAuditChainRequest None "".
#[global] Instance zero_Propose : GwZero ProposeConfigChangeRequest :=
  mkProposeConfigChangeRequest None "" "" "" "".
#[global] Instance zero_Approve : GwZero ApproveConfigChangeRequest := mkApproveConfigChangeRequest None "" "".
#[global] Instance zero_Apply : GwZero ApplyConfigChangeRequest := mkApplyConfigChangeRequest None "" "".
#[global] Instance zero_History : GwZero ListConfigHistoryRequest := mkListConfigHistoryRequest None "" 0 "".
#[global] Instance zero_RecordDownload : GwZero RecordDownloadLibraryChangeRequest :=
  mkRecordDownloadLibraryChangeRequest None None.
#[global] Instance zero_ListDownload : GwZero ListDownloadLibraryChangesRequest :=
  mkListDownloadLibraryChangesRequest None 0 "".
#[global] Instance zero_SubmitEvent : GwZero SubmitSignificantEventRequest :=
  mkSubmitSignificantEventRequest None None.
#[global] Instance zero_SubmitMeter : GwZero SubmitMeterRequest := mkSubmitMeterRequest None None.
#[global] Instance zero_ListEvents : GwZero ListEventsRequest := mkListEventsRequest None "" "" "" 0 "".
#[global] Instance zero_ListMeters : GwZero ListMetersRequest := mkListMetersRequest None "" "" "" "" 0 "".
#[global] Instance zero_Bonus : GwZero RecordBonusTransactionRequest := mkRecordBonusTransactionRequest None None.
#[global] Instance zero_ListBonus : GwZero ListRecentBonusTransactionsRequest :=
  mkListRecentBonusTransactionsRequest None "" 0.
#[global] Instance zero_Award : GwZero RecordPromotionalAwardRequest := mkRecordPromotionalAwardRequest None None.
#[global] Instance zero_ListAwards : GwZero ListPromotionalAwardsRequest :=
  mkListPromotionalAwardsRequest None "" "" 0 "".
#[global] Instance zero_Window : GwZero SubmitSystemWindowEventRequest := mkSubmitSystemWindowEventRequest None None.
#[global] Instance zero_ListWindows : GwZero ListSystemWindowEventsRequest :=
  mkListSystemWindowEventsRequest None "" "" "" 0 "".
#[global] Instance zero_Login : GwZero LoginRequest := mkLoginRequest None None.
#[global] Instance zero_Token : GwZero TokenRequest := mkTokenRequest None "".
#[global] Instance zero_SetCredential : GwZero SetCredentialRequest := mkSetCredentialRequest None None "" "".
#[global] Instance zero_Actor : GwZero ActorRequest := mkActorRequest None None "".
#[global] Instance zero_GetBalance : GwZero GetBalanceRequest := mkGetBalanceRequest None "".
#[global] Instance zero_Deposit : GwZero DepositRequest := mkDepositRequest None "" None "".
#[global] Instance zero_Withdraw : GwZero WithdrawRequest := mkWithdrawRequest None "" None.
#[global] Instance zero_ToDevice : GwZero TransferToDeviceRequest := mkTransferToDeviceRequest None "" "" None.
#[global] Instance zero_ToAccount : GwZero TransferToAccountRequest := mkTransferToAccountRequest None "" None.
#[global] Instance zero_ListTransactions : GwZero ListTransactionsRequest := mkListTransactionsRequest None "" 0 "".
#[global] Instance zero_Upsert : GwZero UpsertEquipmentRequest := mkUpsertEquipmentRequest None None "".
#[global] Instance zero_GetEquipment : GwZero GetEquipmentRequest := mkGetEquipmentRequest None "".
#[global] Instance zero_ListEquipment : GwZero ListEquipmentRequest :=
  mkListEquipmentRequest None 0 "" EQUIPMENT_STATUS_UNSPECIFIED.
#[global] Instance zero_Generate : GwZero GenerateReportRequest :=
  mkGenerateReportRequest None REPORT_TYPE_UNSPECIFIED REPORT_INTERVAL_UNSPECIFIED REPORT_FORMAT_UNSPECIFIED "".
#[global] Instance zero_ListRuns : GwZero ListReportRunsRequest :=
  mkListReportRunsRequest None REPORT_TYPE_UNSPECIFIED 0 "".
#[global] Instance zero_GetRun : GwZero GetReportRunRequest := mkGetReportRunRequest None "".
#[global] Instance zero_StartSession : GwZero StartSessionRequest := mkStartSessionRequest None "" "" 0.
#[global] Instance zero_EndSession : GwZero EndSessionRequest := mkEndSessionRequest None "" "".
#[global] Instance zero_GetSession : GwZero GetSessionRequest := mkGetSessionRequest None "".
#[global] Instance zero_Status : GwZero GetSystemStatusRequest := mkGetSystemStatusRequest None.
#[global] Instance zero_Place : GwZero PlaceWagerRequest := mkPlaceWagerRequest None "" "" None.
#[global] Instance zero_Settle : GwZero SettleWagerRequest := mkSettleWagerRequest None "" None "".
#[global] Instance zero_Cancel : GwZero CancelWagerRequest := mkCancelWagerRequest None "" "".

(** ** The generated handlers (the functions [local_request_...]) *)

Section gateway.
Context {D : Type} `{!OS, !TLSLib, !MapOrder, !Wall, !Crypto, !JsonValid, !UnicodeUpper, !Random}.
Context `{!JWT, !Bcrypt, !JsonDecodeMap, !AuditDB D, !LedgerDB D, !WageringDB D, !SessionsDB D}.
Context `{!RegistryDB D, !ConfigDB D, !EventsDB D, !ReportingDB D, !ExtensionsDB D, !RemoteDB D}.
Context `{!AuditQueryDB D, !IdentityDB D}.
Context `{!ProtoJSON DepositResponse, !ProtoJSON WithdrawResponse,
  !ProtoJSON TransferToDeviceResponse, !ProtoJSON TransferToAccountResponse,
  !ProtoJSON PlaceWagerResponse, !ProtoJSON SettleWagerResponse, !ProtoJSON CancelWagerResponse}.
Context `{!Mux, !GwPopulate UpsertEquipmentRequest}.
Context `{!GwMessage ListAuditEventsRequest, !GwMessage ListRemoteAccessActivitiesRequest,
  !GwMessage VerifyAuditChainRequest, !GwMessage ProposeConfigChangeRequest,
  !GwMessage ApproveConfigChangeRequest, !GwMessage ApplyConfigChangeRequest,
  !GwMessage ListConfigHistoryRequest, !GwMessage RecordDownloadLibraryChangeRequest,
  !GwMessage ListDownloadLibraryChangesRequest, !GwMessage SubmitSignificantEventRequest,
  !GwMessage SubmitMeterRequest, !GwMessage ListEventsRequest, !GwMessage ListMetersRequest,
  !GwMessage RecordBonusTransactionRequest, !GwMessage ListRecentBonusTransactionsRequest,
  !GwMessage RecordPromotionalAwardRequest, !GwMessage ListPromotionalAwardsRequest,
  !GwMessage SubmitSystemWindowEventRequest, !GwMessage ListSystemWindowEventsRequest}.
Context `{!GwMessage LoginRequest, !GwMessage TokenRequest, !GwMessage SetCredentialRequest,
  !GwMessage ActorRequest, !GwMessage GetBalanceRequest, !GwMessage DepositRequest,
  !GwMessage WithdrawRequest, !GwMessage TransferToDeviceRequest,
  !GwMessage TransferToAccountRequest, !GwMessage ListTransactionsRequest,
  !GwMessage UpsertEquipmentRequest, !GwMessage GetEquipmentRequest,
  !GwMessage ListEquipmentRequest, !GwMessage GenerateReportRequest,
  !GwMessage ListReportRunsRequest, !GwMessage GetReportRunRequest,
  !GwMessage StartSessionRequest, !GwMessage EndSessionRequest, !GwMessage GetSessionRequest,
  !GwMessage GetSystemStatusRequest, !GwMessage PlaceWagerRequest, !GwMessage SettleWagerRequest,
  !GwMessage CancelWagerRequest}.

Definition local_handler (S A : Type) : Type :=
  Context → RestRequest → gmap string string → M (Svc D S) (A + Code).

Definition local_request_AuditService_ListAuditEvents_0 : local_handler (AuditState D) _ := λ ctx rq pathParams,
  query_params rq [] (gw_zero : ListAuditEventsRequest) $ λ q,
  call (ListAuditEvents (Some ctx) (Some q)).

Definition local_request_AuditService_ListRemoteAccessActivities_0 : local_handler (AuditState D) _ := λ ctx rq pathParams,
  query_params rq [] (gw_zero : ListRemoteAccessActivitiesRequest) $ λ q,
  call (ListRemoteAccessActivities (Some ctx) (Some q)).

Definition local_request_AuditService_VerifyAuditChain_0 : local_handler (AuditState D) _ := λ ctx rq pathParams,
  decode_body rq $ λ q : VerifyAuditChainRequest,
  call (VerifyAuditChain (Some ctx) (Some q)).

Definition local_request_ConfigService_ProposeConfigChange_0 : local_handler ConfigState _ := λ ctx rq pathParams,
  decode_body rq $ λ q : ProposeConfigChangeRequest,
  call (ProposeConfigChange (Some ctx) (Some q)).

Definition local_request_ConfigService_ApproveConfigChange_0 : local_handler ConfigState _ := λ ctx rq pathParams,
  decode_body rq $ λ q : ApproveConfigChangeRequest,
  path_param pathParams "change_id" $ λ val,
  let q := mkApproveConfigChangeRequest (ap_Meta q) val (ap_Reason q) in
  call (ApproveConfigChange (Some ctx) (Some q)).

Definition local_request_ConfigService_ApplyConfigChange_0 : local_handler ConfigState _ := λ ctx rq pathParams,
  decode_body rq $ λ q : ApplyConfigChangeRequest,
  path_param pathParams "change_id" $ λ val,
  let q := mkApplyConfigChangeRequest (al_Meta q) val (al_Reason q) in
  call (ApplyConfigChange (Some ctx) (Some q)).

Definition local_request_ConfigService_ListConfigHistory_0 : local_handler ConfigState _ := λ ctx rq pathParams,
  query_params rq [] (gw_zero : ListConfigHistoryRequest) $ λ q,
  call (ListConfigHistory (Some ctx) (Some q)).

Definition local_request_ConfigService_RecordDownloadLibraryChange_0 : local_handler ConfigState _ := λ ctx rq pathParams,
  decode_body rq $ λ q : RecordDownloadLibraryChangeRequest,
  call (RecordDownloadLibraryChange (Some ctx) (Some q)).

Definition local_request_ConfigService_ListDownloadLibraryChanges_0 : local_handler ConfigState _ := λ ctx rq pathParams,
  query_params rq [] (gw_zero : ListDownloadLibraryChangesRequest) $ λ q,
  call (ListDownloadLibraryChanges (Some ctx) (Some q)).

Definition local_request_EventsService_SubmitSignificantEvent_0 : local_handler EventsState _ := λ ctx rq pathParams,
  decode_body rq $ λ q : SubmitSignificantEventRequest,
  call (SubmitSignificantEvent (Some ctx) (Some q)).

Definition local_request_EventsService_SubmitMeterSnapshot_0 : local_handler EventsState _ := λ ctx rq pathParams,
  decode_body rq $ λ q : SubmitMeterRequest,
  call (SubmitMeterSnapshot (Some ctx) (Some q)).

Definition local_request_EventsService_SubmitMeterDelta_0 : local_handler EventsState _ := λ ctx rq pathParams,
  decode_body rq $ λ q : SubmitMeterRequest,
  call (SubmitMeterDelta (Some ctx) (Some q)).

Definition local_request_EventsService_ListEvents_0 : local_handler EventsState _ := λ ctx rq pathParams,
  query_params rq [] (gw_zero : ListEventsRequest) $ λ q,
  call (ListEvents (Some ctx) (Some q)).

Definition local_request_EventsService_ListMeters_0 : local_handler EventsState _ := λ ctx rq pathParams,
  query_params rq [] (gw_zero : ListMetersRequest) $ λ q,
  call (ListMeters (Some ctx) (Some q)).

Definition local_request_PromotionsService_RecordBonusTransaction_0 : local_handler PromotionsState _ := λ ctx rq pathParams,
  decode_body rq $ λ q : RecordBonusTransactionRequest,
  call (RecordBonusTransaction (Some ctx) (Some q)).

Definition local_request_PromotionsService_ListRecentBonusTransactions_0 : local_handler PromotionsState _ := λ ctx rq pathParams,
  query_params rq [] (gw_zero : ListRecentBonusTransactionsRequest) $ λ q,
  call (ListRecentBonusTransactions (Some ctx) (Some q)).

Definition local_request_PromotionsService_RecordPromotionalAward_0 : local_handler PromotionsState _ := λ ctx rq pathParams,
  decode_body rq $ λ q : RecordPromotionalAwardRequest,
  call (RecordPromotionalAward (Some ctx) (Some q)).

Definition local_request_PromotionsService_ListPromotionalAwards_0 : local_handler PromotionsState _ := λ ctx rq pathParams,
  query_params rq [] (gw_zero : ListPromotionalAwardsRequest) $ λ q,
  call (ListPromotionalAwards (Some ctx) (Some q)).

Definition local_request_UISystemOverlayService_SubmitSystemWindowEvent_0 : local_handler OverlayState _ := λ ctx rq pathParams,
  decode_body rq $ λ q : SubmitSystemWindowEventRequest,
  call (SubmitSystemWindowEvent (Some ctx) (Some q)).

Definition local_request_UISystemOverlayService_ListSystemWindowEvents_0 : local_handler OverlayState _ := λ ctx rq pathParams,
  query_params rq [] (gw_zero : ListSystemWindowEventsRequest) $ λ q,
  call (ListSystemWindowEvents (Some ctx) (Some q)).

Definition local_request_IdentityService_Login_0 : local_handler IdentityState _ := λ ctx rq pathParams,
  decode_body rq $ λ q : LoginRequest,
  call (Login (Some q)).

Definition local_request_IdentityService_Logout_0 : local_handler IdentityState _ := λ ctx rq pathParams,
  decode_body rq $ λ q : TokenRequest,
  call (Logout (Some q)).

Definition local_request_IdentityService_RefreshToken_0 : local_handler IdentityState _ := λ ctx rq pathParams,
  decode_body rq $ λ q : TokenRequest,
  call (RefreshToken (Some q)).

Definition local_request_IdentityService_SetCredential_0 : local_handler IdentityState _ := λ ctx rq pathParams,
  decode_body rq $ λ q : SetCredentialRequest,
  call (SetCredential (Some ctx) (Some q)).

Definition local_request_IdentityService_DisableCredential_0 : local_handler IdentityState _ := λ ctx rq pathParams,
  decode_body rq $ λ q : ActorRequest,
  call (DisableCredential (Some ctx) (Some q)).

Definition local_request_IdentityService_EnableCredential_0 : local_handler IdentityState _ := λ ctx rq pathParams,
  decode_body rq $ λ q : ActorRequest,
  call (EnableCredential (Some ctx) (Some q)).

Definition local_request_IdentityService_GetLockout_0 : local_handler IdentityState _ := λ ctx rq pathParams,
  query_params rq [] (gw_zero : ActorRequest) $ λ q,
  call (GetLockout (Some ctx) (Some q)).

Definition local_request_IdentityService_ResetLockout_0 : local_handler IdentityState _ := λ ctx rq pathParams,
  decode_body rq $ λ q : ActorRequest,
  call (ResetLockout (Some ctx) (Some q)).

Definition local_request_LedgerService_GetBalance_0 : local_handler LedgerState _ := λ ctx rq pathParams,
  let q : GetBalanceRequest := gw_zero in
  path_param pathParams "account_id" $ λ val,
  let q := mkGetBalanceRequest (gb_Meta q) val in
  query_params rq ["account_id"] q $ λ q,
  call (GetBalance (Some ctx) (Some q)).

Definition local_request_LedgerService_Deposit_0 : local_handler LedgerState _ := λ ctx rq pathParams,
  decode_body rq $ λ q : DepositRequest,
  call (Deposit (Some ctx) (Some q)).

Definition local_request_LedgerService_Withdraw_0 : local_handler LedgerState _ := λ ctx rq pathParams,
  decode_body rq $ λ q : WithdrawRequest,
  call (Withdraw (Some ctx) (Some q)).

Definition local_request_LedgerService_TransferToDevice_0 : local_handler LedgerState _ := λ ctx rq pathParams,
  decode_body rq $ λ q : TransferToDeviceRequest,
  call (TransferToDevice (Some ctx) (Some q)).

Definition local_request_LedgerService_TransferToAccount_0 : local_handler LedgerState _ := λ ctx rq pathParams,
  decode_body rq $ λ q : TransferToAccountRequest,
  call (TransferToAccount (Some ctx) (Some q)).

Definition local_request_LedgerService_ListTransactions_0 : local_handler LedgerState _ := λ ctx rq pathParams,
  let q : ListTransactionsRequest := gw_zero in
  path_param pathParams "account_id" $ λ val,
  let q := mkListTransactionsRequest (lt_Meta q) val (lt_PageSize q) (lt_PageToken q) in
  query_params rq ["account_id"] q $ λ q,
  call (ListTransactions (Some ctx) (Some q)).

Definition local_request_RegistryService_UpsertEquipment_0 : local_handler RegistryState _ := λ ctx rq pathParams,
  decode_body rq $ λ q : UpsertEquipmentRequest,
  path_param pathParams "equipment.equipment_id" $ λ val,
  populate_field "equipment.equipment_id" val q $ λ q,
  call (UpsertEquipment (Some ctx) (Some q)).

Definition local_request_RegistryService_GetEquipment_0 : local_handler RegistryState _ := λ ctx rq pathParams,
  let q : GetEquipmentRequest := gw_zero in
  path_param pathParams "equipment_id" $ λ val,
  let q := mkGetEquipmentRequest (ge_Meta q) val in
  query_params rq ["equipment_id"] q $ λ q,
  call (GetEquipment (Some ctx) (Some q)).

Definition local_request_RegistryService_ListEquipment_0 : local_handler RegistryState _ := λ ctx rq pathParams,
  query_params rq [] (gw_zero : ListEquipmentRequest) $ λ q,
  call (ListEquipment (Some ctx) (Some q)).

Definition local_request_ReportingService_GenerateReport_0 : local_handler (ReportingState D) _ := λ ctx rq pathParams,
  decode_body rq $ λ q : GenerateReportRequest,
  call (GenerateReport (Some ctx) (Some q)).

Definition local_request_ReportingService_ListReportRuns_0 : local_handler (ReportingState D) _ := λ ctx rq pathParams,
  query_params rq [] (gw_zero : ListReportRunsRequest) $ λ q,
  call (ListReportRuns (Some ctx) (Some q)).

Definition local_request_ReportingService_GetReportRun_0 : local_handler (ReportingState D) _ := λ ctx rq pathParams,
  let q : GetReportRunRequest := gw_zero in
  path_param pathParams "report_run_id" $ λ val,
  let q := mkGetReportRunRequest (grr_Meta q) val in
  query_params rq ["report_run_id"] q $ λ q,
  call (GetReportRun (Some ctx) (Some q)).

Definition local_request_SessionsService_StartSession_0 : local_handler SessionsState _ := λ ctx rq pathParams,
  decode_body rq $ λ q : StartSessionRequest,
  call (StartSession (Some ctx) (Some q)).

Definition local_request_SessionsService_EndSession_0 : local_handler SessionsState _ := λ ctx rq pathParams,
  decode_body rq $ λ q : EndSessionRequest,
  call (EndSession (Some ctx) (Some q)).

Definition local_request_SessionsService_GetSession_0 : local_handler SessionsState _ := λ ctx rq pathParams,
  let q : GetSessionRequest := gw_zero in
  path_param pathParams "session_id" $ λ val,
  let q := mkGetSessionRequest (gs_Meta q) val in
  query_params rq ["session_id"] q $ λ q,
  call (Sessions.GetSession (Some ctx) (Some q)).

Definition local_request_SystemService_GetSystemStatus_0 : local_handler SystemService _ := λ ctx rq pathParams,
  query_params rq [] (gw_zero : GetSystemStatusRequest) $ λ q,
  call (GetSystemStatus (Some q)).

Definition local_request_WageringService_PlaceWager_0 : local_handler WageringState _ := λ ctx rq pathParams,
  decode_body rq $ λ q : PlaceWagerRequest,
  call (PlaceWager (Some ctx) (Some q)).

Definition local_request_WageringService_SettleWager_0 : local_handler WageringState _ := λ ctx rq pathParams,
  decode_body rq $ λ q : SettleWagerRequest,
  path_param pathParams "wager_id" $ λ val,
  let q := mkSettleWagerRequest (Wagering.sw_Meta q) val (sw_Payout q) (sw_OutcomeRef q) in
  call (SettleWager (Some ctx) (Some q)).

Definition local_request_WageringService_CancelWager_0 : local_handler WageringState _ := λ ctx rq pathParams,
  decode_body rq $ λ q : CancelWagerRequest,
  path_param pathParams "wager_id" $ λ val,
  let q := mkCancelWagerRequest (cw_Meta q) val (cw_Reason q) in
  call (CancelWager (Some ctx) (Some q)).

(** ** The services of the server *)

(** Running a computation on a part of a state. *)
Definition zoom {St T A} (get : St → T) (set : T → St → St) (m : M T A) : M St A := λ s,
  match m (get s) with
  | Done a t => Done a (set t s)
  | Panic t => Panic (set t s)
  | Deadlock => Deadlock
  end.

Notation SM := (M (Server D)).

Definition on_system {A} (m : M (Svc D SystemService) A) : SM A :=
  zoom srv_system (λ x s, s <| srv_system := x |>) m.
Definition on_identity {A} (m : M (Svc D IdentityState) A) : SM A :=
  zoom srv_identity (λ x s, s <| srv_identity := x |>) m.
Definition on_wagering {A} (m : M (Svc D WageringState) A) : SM A :=
  zoom srv_wagering (λ x s, s <| srv_wagering := x |>) m.
Definition on_registry {A} (m : M (Svc D RegistryState) A) : SM A :=
  zoom srv_registry (λ x s, s <| srv_registry := x |>) m.
Definition on_reporting {A} (m : M (Svc D (ReportingState D)) A) : SM A :=
  zoom srv_reporting (λ x s, s <| srv_reporting := x |>) m.
Definition on_config {A} (m : M (Svc D ConfigState) A) : SM A :=
  zoom srv_config (λ x s, s <| srv_config := x |>) m.
Definition on_promotions {A} (m : M (Svc D PromotionsState) A) : SM A :=
  zoom srv_promotions (λ x s, s <| srv_promotions := x |>) m.
Definition on_overlay {A} (m : M (Svc D OverlayState) A) : SM A :=
  zoom srv_overlay (λ x s, s <| srv_overlay := x |>) m.
Definition on_sessions {A} (m : M (Svc D SessionsState) A) : SM A :=
  zoom srv_sessions (λ x s, s <| srv_sessions := x |>) m.
Definition on_guard {A} (m : M (Svc D GuardState) A) : SM A :=
  zoom srv_guard (λ x s, s <| srv_guard := x |>) m.

(** The ledger and the events service live where the reporting service points
    to; a nil pointer would panic. *)
Definition on_ledger_srv {A} (m : M (Svc D LedgerState) A) : SM A :=
  r ← on_reporting (on_ledger m); match r with Some a => mret a | None => panic end.
Definition on_events_srv {A} (m : M (Svc D EventsState) A) : SM A :=
  r ← on_reporting (on_events m); match r with Some a => mret a | None => panic end.

(** The audit service reads the stores and the guard of the other services as
    they are now; the guard may change (its clock advances). *)
Definition audit_view (s : Server D) : Svc D (AuditState D) :=
  mkSvc (base (srv_audit s)) (mkAuditState
    (audit_stores (srv_identity s) (srv_registry s) (srv_reporting s) (srv_config s)
       (srv_promotions s) (srv_overlay s) (srv_sessions s) (srv_guard s))
    (Some (srv_guard s))).
Definition on_audit {A} (m : M (Svc D (AuditState D)) A) : SM A :=
  zoom audit_view (λ x s, s <| srv_audit := mkSvc (base x) (st (srv_audit s)) |>
    <| srv_guard := default (srv_guard s) (remoteGuard (st x)) |>) m.

(** ** Routes *)

(** A registered handler: HTTP method, path template, name of the RPC, and what
    it does. *)
Record route (St : Type) := mkRoute {
  rt_method : string; rt_pattern : pattern; rt_rpc : string;
  rt_run : Context → RestRequest → gmap string string → M St (() + Code) }.
Global Arguments mkRoute {St}.
Global Arguments rt_method {St}.
Global Arguments rt_pattern {St}.
Global Arguments rt_rpc {St}.
Global Arguments rt_run {St}.

(** The closure given to [mux.Handle], between the annotation of the context
    and the answer. *)
Definition handle {S A} (method : string) (p : pattern) (rpc : string)
    (lift : M (Svc D S) (A + Code) → SM (A + Code)) (h : local_handler S A) : route (Server D) :=
  mkRoute method p rpc (λ ctx rq pathParams,
    r ← lift (h ctx rq pathParams);
    mret match r with inl _ => inl () | inr c => inr c end).

Definition RegisterSystemServiceHandlerServer : list (route (Server D)) :=
  [handle "GET" (mkPattern [Lit "v1"; Lit "system"; Lit "status"] "")
     "/rgs.v1.SystemService/GetSystemStatus" on_system local_request_SystemService_GetSystemStatus_0].

Definition RegisterIdentityServiceHandlerServer : list (route (Server D)) :=
  [handle "POST" (mkPattern [Lit "v1"; Lit "identity"; Lit "login"] "")
     "/rgs.v1.IdentityService/Login" on_identity local_request_IdentityService_Login_0;
   handle "POST" (mkPattern [Lit "v1"; Lit "identity"; Lit "logout"] "")
     "/rgs.v1.IdentityService/Logout" on_identity local_request_IdentityService_Logout_0;
   handle "POST" (mkPattern [Lit "v1"; Lit "identity"; Lit "refresh"] "")
     "/rgs.v1.IdentityService/RefreshToken" on_identity local_request_IdentityService_RefreshToken_0;
   handle "POST" (mkPattern [Lit "v1"; Lit "identity"; Lit "credentials"] "set")
     "/rgs.v1.IdentityService/SetCredential" on_identity local_request_IdentityService_SetCredential_0;
   handle "POST" (mkPattern [Lit "v1"; Lit "identity"; Lit "credentials"] "disable")
     "/rgs.v1.IdentityService/DisableCredential" on_identity local_request_IdentityService_DisableCredential_0;
   handle "POST" (mkPattern [Lit "v1"; Lit "identity"; Lit "credentials"] "enable")
     "/rgs.v1.IdentityService/EnableCredential" on_identity local_request_IdentityService_EnableCredential_0;
   handle "GET" (mkPattern [Lit "v1"; Lit "identity"; Lit "lockouts"] "")
     "/rgs.v1.IdentityService/GetLockout" on_identity local_request_IdentityService_GetLockout_0;
   handle "POST" (mkPattern [Lit "v1"; Lit "identity"; Lit "lockouts"] "reset")
     "/rgs.v1.IdentityService/ResetLockout" on_identity local_request_IdentityService_ResetLockout_0].

Definition RegisterLedgerServiceHandlerServer : list (route (Server D)) :=
  [handle "GET" (mkPattern [Lit "v1"; Lit "ledger"; Lit "accounts"; Capture "account_id"; Lit "balance"] "")
     "/rgs.v1.LedgerService/GetBalance" on_ledger_srv local_request_LedgerService_GetBalance_0;
   handle "POST" (mkPattern [Lit "v1"; Lit "ledger"; Lit "deposits"] "")
     "/rgs.v1.LedgerService/Deposit" on_ledger_srv local_request_LedgerService_Deposit_0;
   handle "POST" (mkPattern [Lit "v1"; Lit "ledger"; Lit "withdrawals"] "")
     "/rgs.v1.LedgerService/Withdraw" on_ledger_srv local_request_LedgerService_Withdraw_0;
   handle "POST" (mkPattern [Lit "v1"; Lit "ledger"; Lit "transfers"; Lit "device"] "")
     "/rgs.v1.LedgerService/TransferToDevice" on_ledger_srv local_request_LedgerService_TransferToDevice_0;
   handle "POST" (mkPattern [Lit "v1"; Lit "ledger"; Lit "transfers"; Lit "account"] "")
     "/rgs.v1.LedgerService/TransferToAccount" on_ledger_srv local_request_LedgerService_TransferToAccount_0;
   handle "GET" (mkPattern [Lit "v1"; Lit "ledger"; Lit "accounts"; Capture "account_id"; Lit "transactions"] "")
     "/rgs.v1.LedgerService/ListTransactions" on_ledger_srv local_request_LedgerService_ListTransactions_0].

Definition RegisterWageringServiceHandlerServer : list (route (Server D)) :=
  [handle "POST" (mkPattern [Lit "v1"; Lit "wagering"; Lit "wagers"] "")
     "/rgs.v1.WageringService/PlaceWager" on_wagering local_request_WageringService_PlaceWager_0;
   handle "POST" (mkPattern [Lit "v1"; Lit "wagering"; Lit "wagers"; Capture "wager_id"] "settle")
     "/rgs.v1.WageringService/SettleWager" on_wagering local_request_WageringService_SettleWager_0;
   handle "POST" (mkPattern [Lit "v1"; Lit "wagering"; Lit "wagers"; Capture "wager_id"] "cancel")
     "/rgs.v1.WageringService/CancelWager" on_wagering local_request_WageringService_CancelWager_0].

Definition RegisterRegistryServiceHandlerServer : list (route (Server D)) :=
  [handle "PUT" (mkPattern [Lit "v1"; Lit "registry"; Lit "equipment"; Capture "equipment.equipment_id"] "")
     "/rgs.v1.RegistryService/UpsertEquipment" on_registry local_request_RegistryService_UpsertEquipment_0;
   handle "GET" (mkPattern [Lit "v1"; Lit "registry"; Lit "equipment"; Capture "equipment_id"] "")
     "/rgs.v1.RegistryService/GetEquipment" on_registry local_request_RegistryService_GetEquipment_0;
   handle "GET" (mkPattern [Lit "v1"; Lit "registry"; Lit "equipment"] "")
     "/rgs.v1.RegistryService/ListEquipment" on_registry local_request_RegistryService_ListEquipment_0].

Definition RegisterEventsServiceHandlerServer : list (route (Server D)) :=
  [handle "POST" (mkPattern [Lit "v1"; Lit "events"; Lit "significant"] "")
     "/rgs.v1.EventsService/SubmitSignificantEvent" on_events_srv local_request_EventsService_SubmitSignificantEvent_0;
   handle "POST" (mkPattern [Lit "v1"; Lit "events"; Lit "meters"; Lit "snapshot"] "")
     "/rgs.v1.EventsService/SubmitMeterSnapshot" on_events_srv local_request_EventsService_SubmitMeterSnapshot_0;
   handle "POST" (mkPattern [Lit "v1"; Lit "events"; Lit "meters"; Lit "delta"] "")
     "/rgs.v1.EventsService/SubmitMeterDelta" on_events_srv local_request_EventsService_SubmitMeterDelta_0;
   handle "GET" (mkPattern [Lit "v1"; Lit "events"; Lit "significant"] "")
     "/rgs.v1.EventsService/ListEvents" on_events_srv local_request_EventsService_ListEvents_0;
   handle "GET" (mkPattern [Lit "v1"; Lit "events"; Lit "meters"] "")
     "/rgs.v1.EventsService/ListMeters" on_events_srv local_request_EventsService_ListMeters_0].

Definition RegisterReportingServiceHandlerServer : list (route (Server D)) :=
  [handle "POST" (mkPattern [Lit "v1"; Lit "reporting"; Lit "runs"] "")
     "/rgs.v1.ReportingService/GenerateReport" on_reporting local_request_ReportingService_GenerateReport_0;
   handle "GET" (mkPattern [Lit "v1"; Lit "reporting"; Lit "runs"] "")
     "/rgs.v1.ReportingService/ListReportRuns" on_reporting local_request_ReportingService_ListReportRuns_0;
   handle "GET" (mkPattern [Lit "v1"; Lit "reporting"; Lit "runs"; Capture "report_run_id"] "")
     "/rgs.v1.ReportingService/GetReportRun" on_reporting local_request_ReportingService_GetReportRun_0].

Definition RegisterConfigServiceHandlerServer : list (route (Server D)) :=
  [handle "POST" (mkPattern [Lit "v1"; Lit "config"; Lit "changes"] "propose")
     "/rgs.v1.ConfigService/ProposeConfigChange" on_config local_request_ConfigService_ProposeConfigChange_0;
   handle "POST" (mkPattern [Lit "v1"; Lit "config"; Lit "changes"; Capture "change_id"] "approve")
     "/rgs.v1.ConfigService/ApproveConfigChange" on_config local_request_ConfigService_ApproveConfigChange_0;
   handle "POST" (mkPattern [Lit "v1"; Lit "config"; Lit "changes"; Capture "change_id"] "apply")
     "/rgs.v1.ConfigService/ApplyConfigChange" on_config local_request_ConfigService_ApplyConfigChange_0;
   handle "GET" (mkPattern [Lit "v1"; Lit "config"; Lit "history"] "")
     "/rgs.v1.ConfigService/ListConfigHistory" on_config local_request_ConfigService_ListConfigHistory_0;
   handle "POST" (mkPattern [Lit "v1"; Lit "config"; Lit "download-library"] "record")
     "/rgs.v1.ConfigService/RecordDownloadLibraryChange" on_config local_request_ConfigService_RecordDownloadLibraryChange_0;
   handle "GET" (mkPattern [Lit "v1"; Lit "config"; Lit "download-library"] "")
     "/rgs.v1.ConfigService/ListDownloadLibraryChanges" on_config local_request_ConfigService_ListDownloadLibraryChanges_0].

Definition RegisterPromotionsServiceHandlerServer : list (route (Server D)) :=
  [handle "POST" (mkPattern [Lit "v1"; Lit "promotions"; Lit "bonus-transactions"] "")
     "/rgs.v1.PromotionsService/RecordBonusTransaction" on_promotions local_request_PromotionsService_RecordBonusTransaction_0;
   handle "GET" (mkPattern [Lit "v1"; Lit "promotions"; Lit "bonus-transactions"] "")
     "/rgs.v1.PromotionsService/ListRecentBonusTransactions" on_promotions local_request_PromotionsService_ListRecentBonusTransactions_0;
   handle "POST" (mkPattern [Lit "v1"; Lit "promotions"; Lit "awards"] "")
     "/rgs.v1.PromotionsService/RecordPromotionalAward" on_promotions local_request_PromotionsService_RecordPromotionalAward_0;
   handle "GET" (mkPattern [Lit "v1"; Lit "promotions"; Lit "awards"] "")
     "/rgs.v1.PromotionsService/ListPromotionalAwards" on_promotions local_request_PromotionsService_ListPromotionalAwards_0].

Definition RegisterUISystemOverlayServiceHandlerServer : list (route (Server D)) :=
  [handle "POST" (mkPattern [Lit "v1"; Lit "ui"; Lit "system-window-events"] "")
     "/rgs.v1.UISystemOverlayService/SubmitSystemWindowEvent" on_overlay local_request_UISystemOverlayService_SubmitSystemWindowEvent_0;
   handle "GET" (mkPattern [Lit "v1"; Lit "ui"; Lit "system-window-events"] "")
     "/rgs.v1.UISystemOverlayService/ListSystemWindowEvents" on_overlay local_request_UISystemOverlayService_ListSystemWindowEvents_0].

Definition RegisterSessionsServiceHandlerServer : list (route (Server D)) :=
  [handle "POST" (mkPattern [Lit "v1"; Lit "sessions"] "start")
     "/rgs.v1.SessionsService/StartSession" on_sessions local_request_SessionsService_StartSession_0;
   handle "POST" (mkPattern [Lit "v1"; Lit "sessions"] "end")
     "/rgs.v1.SessionsService/EndSession" on_sessions local_request_SessionsService_EndSession_0;
   handle "GET" (mkPattern [Lit "v1"; Lit "sessions"; Capture "session_id"] "")
     "/rgs.v1.SessionsService/GetSession" on_sessions local_request_SessionsService_GetSession_0].

Definition RegisterAuditServiceHandlerServer : list (route (Server D)) :=
  [handle "GET" (mkPattern [Lit "v1"; Lit "audit"; Lit "events"] "")
     "/rgs.v1.AuditService/ListAuditEvents" on_audit local_request_AuditService_ListAuditEvents_0;
   handle "GET" (mkPattern [Lit "v1"; Lit "audit"; Lit "remote-access"] "")
     "/rgs.v1.AuditService/ListRemoteAccessActivities" on_audit local_request_AuditService_ListRemoteAccessActivities_0;
   handle "POST" (mkPattern [Lit "v1"; Lit "audit"; Lit "chain"] "verify")
     "/rgs.v1.AuditService/VerifyAuditChain" on_audit local_request_AuditService_VerifyAuditChain_0].

(** Everything [main] registers, in its order. *)
Definition api : list (route (Server D)) :=
  RegisterSystemServiceHandlerServer ++ RegisterIdentityServiceHandlerServer
  ++ RegisterLedgerServiceHandlerServer ++ RegisterWageringServiceHandlerServer
  ++ RegisterRegistryServiceHandlerServer ++ RegisterEventsServiceHandlerServer
  ++ RegisterReportingServiceHandlerServer ++ RegisterConfigServiceHandlerServer
  ++ RegisterPromotionsServiceHandlerServer ++ RegisterUISystemOverlayServiceHandlerServer
  ++ RegisterSessionsServiceHandlerServer ++ RegisterAuditServiceHandlerServer.

(** The route of a request and the values of its path parameters. *)
Definition route_of (rq : RestRequest) : option (route (Server D) * gmap string string) :=
  '(i, params) ← mux_find ((λ r, (rt_method r, rt_pattern r)) <$> api) rq;
  rt ← api !! i; Some (rt, params).

(** [gwMux.ServeHTTP]: the statuses written. *)
Definition gateway (rq : RestRequest) (ctx : Context) : SM (list Z) :=
  match route_of rq with
  | None => mret [mux_status rq]
  | Some (rt, pathParams) =>
      match AnnotateIncomingContext rq with
      | Some c => mret [HTTPStatusFromCode c]
      | None =>
          r ← rt_run rt ctx rq pathParams;
          mret [match r with inl _ => 200 | inr c => HTTPStatusFromCode c end]
      end
  end.

(** ** The HTTP server *)

(** [cleanPath] of net/http: an unclean path is redirected. *)
Definition cleanPath (p : string) : string :=
  let p := if HasPrefix p "/" then p else "/" +:+ p in
  let np := Clean p in
  if HasPrefix (String.rev p) "/" && bool_decide (np ≠ "/") then np +:+ "/" else np.

(** The handlers of the process: health, metrics (the Prometheus handler, which
    answers 200), and the guarded gateway for everything else. *)
Definition serve_http (rq : RestRequest) : SM chain_result :=
  let r := rq_http rq in
  let own status := mret (mkChainResult [status] None [] false) in
  if bool_decide (Method r ≠ "CONNECT") && bool_decide (cleanPath (rq_escaped rq) ≠ rq_escaped rq)
  then own 301
  else if decide (UrlPath r = "/healthz") then own health.1
  else if decide (UrlPath r = "/metrics") then own 200
  else
    v ← gets (λ s, ks_verifier (srv_keys s));
    serve_chain (λ r, on_guard (Wrap r)) (on_guard time_Now) v (λ ctx _, gateway rq ctx)
      r (rq_authorization rq) (mkContext None).
End gateway.

(** The methods the gRPC server serves without a token. *)
Definition grpc_open : list string :=
  ["/rgs.v1.SystemService/GetSystemStatus"; "/rgs.v1.IdentityService/Login";
   "/rgs.v1.IdentityService/RefreshToken"; "/grpc.health.v1.Health/Check"].
