(* ===== verification/GatewayProofs.v ===== *)
(** * What the REST gateway guarantees

    Which requests reach which service, composed with the guard and the token
    middleware, and what a player can do over REST. *)

From S2P Require Import Prelude GoTime GoJson GoNet GoBytes GoJsonRead GoDuration AuditTrail Service Listing.
From S2P Require Import Ledger LedgerSpec LedgerMem LedgerProofs LedgerTheorems Wagering Sessions Registry.
From S2P Require Import Config Events Reporting Extensions RemoteAccess RemoteAccessProofs AuditService.
From S2P Require Import Auth AuthProofs Identity Attestation AttestationProofs Startup Metrics.
From S2P Require Import MetricsProofs Server ServerProofs Gateway EventsProofs ReportingProofs Env.
From S2P Require Import WageringProofs SessionsProofs RegistryProofs ExtensionsProofs AuditProofs IdentityProofs StartupProofs.
From Stdlib Require Import Ascii.

(** ** Templates *)

Lemma HasPrefix_app p s : HasPrefix (p +:+ s) p = true.
Proof.
  unfold HasPrefix. assert (strip_prefix p (p +:+ s) = Some s) as ->; [|done].
  induction p as [|c p IH]; [done|]. rewrite str_app_cons. simpl. by rewrite decide_True.
Qed.

Lemma HasPrefix_trans s p q : HasPrefix s p = true → HasPrefix p q = true → HasPrefix s q = true.
Proof.
  unfold HasPrefix. destruct (strip_prefix p s) as [t|] eqn:E; [|done]. intros _.
  destruct (strip_prefix q p) as [u|] eqn:E'; [|done]. intros _.
  apply strip_prefix_app in E as ->. apply strip_prefix_app in E' as ->.
  rewrite str_app_assoc. apply HasPrefix_app.
Qed.

(** The text of a template up to its first name, and whether that is all of
    it. *)
Fixpoint segs_prefix (l : list segment) : string * bool :=
  match l with
  | [] => ("", true)
  | Lit s :: l => let '(rest, all) := segs_prefix l in ("/" +:+ s +:+ rest, all)
  | Capture _ :: _ => ("/", false)
  end.

(** Whether the template can produce the path, judged by that prefix. *)
Definition may_produce (p : pattern) (path : string) : bool :=
  let '(prefix, all) := segs_prefix (p_segments p) in
  if all then bool_decide (path = prefix +:+ (if decide (p_verb p = "") then "" else ":" +:+ p_verb p))
  else HasPrefix path prefix.

Lemma segs_path_prefix params l path :
  segs_path params l = Some path →
  ∃ rest, path = (segs_prefix l).1 +:+ rest ∧ ((segs_prefix l).2 = true → rest = "").
Proof.
  revert path. induction l as [|g l IH]; intros path; simpl.
  { intros [= <-]. by exists "". }
  destruct g as [s|name]; simpl.
  - destruct (segs_path params l) as [p|]; [|done]. intros [= <-].
    destruct (IH p eq_refl) as (rest & -> & Hrest). destruct (segs_prefix l) as [prefix all].
    simpl in *. exists rest. by rewrite !str_app_assoc.
  - destruct (params !! name) as [t|]; [|done]. simpl.
    destruct (segs_path params l) as [p|]; [|done]. intros [= <-]. by exists (t +:+ p).
Qed.

Lemma instantiate_may p params path : instantiate p params = Some path → may_produce p path = true.
Proof.
  unfold instantiate, may_produce. destruct (segs_path params _) as [q|] eqn:E; [|done].
  apply segs_path_prefix in E as (rest & -> & Hrest). intros [= <-].
  destruct (segs_prefix _) as [prefix []]; simpl in *.
  - rewrite (Hrest eq_refl), str_app_nil_r. by apply bool_decide_eq_true_2.
  - rewrite str_app_assoc. apply HasPrefix_app.
Qed.

Lemma may_produce_prefix p path : may_produce p path = true →
  HasPrefix path (segs_prefix (p_segments p)).1 = true.
Proof.
  unfold may_produce. destruct (segs_prefix _) as [prefix []]; simpl; [|done].
  rewrite bool_decide_eq_true. intros ->. apply HasPrefix_app.
Qed.

Lemma isAdminPath_prefix path p : HasPrefix path p = true → isAdminPath p = true → isAdminPath path = true.
Proof.
  unfold isAdminPath. intros Hp. rewrite !orb_true_iff.
  pose proof (λ q, HasPrefix_trans path p q Hp) as Ht. intros [[H|H]|H]; auto.
Qed.

(** The RPCs of the administrative services. *)
Definition admin_rpc (rpc : string) : bool :=
  HasPrefix rpc "/rgs.v1.ConfigService/" || HasPrefix rpc "/rgs.v1.ReportingService/"
  || HasPrefix rpc "/rgs.v1.AuditService/".

(** Running on a part of the state. *)
Lemma zoom_inv {St T A} (get : St → T) set (m : M T A) s a s' :
  zoom get set m s = Done a s' → ∃ t, m (get s) = Done a t ∧ s' = set t s.
Proof. unfold zoom. destruct (m (get s)) as [b t| |]; [|done..]. intros [= <- <-]. by exists t. Qed.

(** The constant at the head of a term; the next test that a generated function
    makes on a request, with the refusals solved. *)
Ltac head_of t := lazymatch t with ?f _ => head_of f | _ => t end.
Ltac parse_step :=
  lazymatch goal with
  | |- context [gw_decode ?a ?b] => destruct (gw_decode a b) as [? []]
  | |- context [rq_form ?a] => destruct (rq_form a)
  | |- context [gw_query ?a ?b ?c] => destruct (gw_query a b c)
  | |- context [gw_populate ?a ?b ?c] => destruct (gw_populate a b c)
  | |- context [?a !! ?b] => destruct (a !! b)
  end; try (left; split_and?; reflexivity).

(** Putting a part of the server back where it was read. *)
Ltac same_state :=
  intros []; cbn; first [reflexivity | by match goal with x : Svc _ (AuditState _) |- _ => destruct x end].

#[export] Instance ledgerAccount_eq_dec : EqDecision ledgerAccount.
Proof. solve_decision. Defined.

Section gateway.
Context {D : Type} `{!OS, !TLSLib, !MapOrder, !Wall, !Crypto, !JsonValid, !UnicodeUpper, !Random}.
Context `{!JWT, !Bcrypt, !JsonDecodeMap, !AuditDB D, !LedgerDB D, !WageringDB D, !SessionsDB D}.
Context `{!RegistryDB D, !ConfigDB D, !EventsDB D, !ReportingDB D, !ExtensionsDB D, !RemoteDB D}.
Context `{!AuditQueryDB D, !IdentityDB D}.
Context `{!ProtoJSON DepositResponse, !ProtoJSON WithdrawResponse,
  !ProtoJSON TransferToDeviceResponse, !ProtoJSON TransferToAccountResponse,
  !ProtoJSON PlaceWagerResponse, !ProtoJSON SettleWagerResponse, !ProtoJSON CancelWagerResponse}.
Context `{!Mux, !GwPopulate UpsertEquipmentRequest}.
Context `{!GwMessage ListAuditEventsRequest, !GwMessage ListRemoteAccessActivitiesRequest,
  !GwMessage VerifyAuditChainRequest, !GwMessage ProposeConfigChangeRequest,
  !GwMessage ApproveConfigChangeRequest, !GwMessage ApplyConfigChangeRequest,
  !GwMessage ListConfigHistoryRequest, !GwMessage RecordDownloadLibraryChangeRequest,
  !GwMessage ListDownloadLibraryChangesRequest, !GwMessage SubmitSignificantEventRequest,
  !GwMessage SubmitMeterRequest, !GwMessage ListEventsRequest, !GwMessage ListMetersRequest,
  !GwMessage RecordBonusTransactionRequest, !GwMessage ListRecentBonusTransactionsRequest,
  !GwMessage RecordPromotionalAwardRequest, !GwMessage ListPromotionalAwardsRequest,
  !GwMessage SubmitSystemWindowEventRequest, !GwMessage ListSystemWindowEventsRequest}.
Context `{!GwMessage LoginRequest, !GwMessage TokenRequest, !GwMessage SetCredentialRequest,
  !GwMessage ActorRequest, !GwMessage GetBalanceRequest, !GwMessage DepositRequest,
  !GwMessage WithdrawRequest, !GwMessage TransferToDeviceRequest,
  !GwMessage TransferToAccountRequest, !GwMessage ListTransactionsRequest,
  !GwMessage UpsertEquipmentRequest, !GwMessage GetEquipmentRequest,
  !GwMessage ListEquipmentRequest, !GwMessage GenerateReportRequest,
  !GwMessage ListReportRunsRequest, !GwMessage GetReportRunRequest,
  !GwMessage StartSessionRequest, !GwMessage EndSessionRequest, !GwMessage GetSessionRequest,
  !GwMessage GetSystemStatusRequest, !GwMessage PlaceWagerRequest, !GwMessage SettleWagerRequest,
  !GwMessage CancelWagerRequest}.

Implicit Types (s : Server D).

(** The table: an RPC that is not open has no template that could produce an
    open path, and the templates of the administrative services only produce
    administrative paths. *)
Definition route_ok (p : pattern) (rpc : string) : bool :=
  (bool_decide (rpc ∈ grpc_open) || negb (existsb (may_produce p) gateway_skips))
  && (negb (admin_rpc rpc)
      || isAdminPath (segs_prefix (p_segments p)).1 && negb (bool_decide (rpc ∈ grpc_open))).

Lemma api_ok : forallb (λ rt : route (Server D), route_ok (rt_pattern rt) (rt_rpc rt)) api = true.
Proof. by vm_compute. Qed.

Lemma route_of_elem rq rt params : route_of (D := D) rq = Some (rt, params) → rt ∈ api.
Proof.
  unfold route_of. destruct (mux_find _ rq) as [[i ps]|]; [|done]. cbn [mbind option_bind].
  destruct (api !! i) as [rt'|] eqn:Ei; [|done]. intros [= -> _]. apply list_elem_of_lookup. by exists i.
Qed.

Lemma route_of_may `{!MuxLaw} rq rt params : route_of (D := D) rq = Some (rt, params) →
  may_produce (rt_pattern rt) (UrlPath (rq_http rq)) = true ∧ route_ok (rt_pattern rt) (rt_rpc rt) = true.
Proof.
  unfold route_of. destruct (mux_find _ rq) as [[i ps]|] eqn:Ef; [|done]. cbn [mbind option_bind].
  destruct (api !! i) as [rt'|] eqn:Ei; [|done]. intros [= -> ->].
  destruct (mux_matches _ _ _ _ Ef) as (method & p & Hl & Hp).
  rewrite list_lookup_fmap, Ei in Hl. injection Hl as _ <-. split; [by eapply instantiate_may|].
  pose proof api_ok as Hok. rewrite forallb_forall in Hok. apply Hok.
  apply list_elem_of_In, list_elem_of_lookup. by exists i.
Qed.

(** A path that is open belongs to an RPC that is open. *)
Lemma open_route `{!MuxLaw} rq rt params : route_of (D := D) rq = Some (rt, params) →
  UrlPath (rq_http rq) ∈ gateway_skips → rt_rpc rt ∈ grpc_open.
Proof.
  intros [Hmay Hok]%route_of_may Hskip. unfold route_ok in Hok. apply andb_prop in Hok as [Hopen _].
  apply orb_true_iff in Hopen as [Ho|Hopen]; [by apply bool_decide_eq_true in Ho|].
  apply negb_true_iff in Hopen. exfalso.
  assert (existsb (may_produce (rt_pattern rt)) gateway_skips = true) as Hex; [|congruence].
  apply existsb_exists. eexists. split; [by apply list_elem_of_In|exact Hmay].
Qed.

(** The reading of the clock at which the token of a request is checked: the
    second one after the guard has let the request through. *)
Definition http_check_time (rq : RestRequest) s : option Time :=
  match Wrap (rq_http rq) (srv_guard s) with
  | Done ServeNext g => Some (wall (S (ticks (base g))))
  | _ => None
  end.

(** A request that passed the guard and the token middleware. *)
Lemma serve_http_inv rq s res s' ctx' :
  serve_http rq s = Done res s' → cr_gateway res = Some ctx' →
  (isAdminPath (UrlPath (rq_http rq)) = true →
     isTrusted (st (srv_guard s)) (extractSourceIP (rq_http rq)).1 = true)
  ∧ (∃ t, http_check_time rq s = Some t
       ∧ authenticated (ks_verifier (srv_keys s)) t (UrlPath (rq_http rq))
           (rq_authorization rq) (mkContext None) ctx')
  ∧ ∃ g codes s4 g', gateway rq ctx' (s <| srv_guard := g |>) = Done codes s4
      ∧ s' = s4 <| srv_guard := g' |>.
Proof.
  unfold serve_http. intros E Hgw.
  destruct (_ && _); [by injection E as <- _|]. case_decide; [by injection E as <- _|].
  case_decide; [by injection E as <- _|]. apply bind_done_inv in E as (v & s0 & Ev & E).
  injection Ev as <- <-. destruct (serve_chain_inv _ _ _ _ _ _ _ _ _ _ _ E Hgw)
    as (s1 & s2 & t & s3 & s4 & codes & s5 & s6 & Eg & Et1 & Et & Hm & Egw & _ & Et3 & Et4).
  apply zoom_inv in Eg as (g1 & Eg & ->). apply zoom_inv in Et1 as (g2 & Et1 & Hs2).
  apply zoom_inv in Et as (g3 & Et & ->). apply zoom_inv in Et3 as (g5 & _ & Hs5).
  apply zoom_inv in Et4 as (g6 & _ & ->). rewrite Hs2 in Egw. rewrite Hs5. split_and!.
  - intros Hadm. by eapply Wrap_trusted.
  - exists t. split; [|by eapply middleware_authenticates]. unfold http_check_time. rewrite Eg.
    injection Et1 as _ <-. rewrite Hs2 in Et. by injection Et as <- _.
  - exists g3, codes, s4, g6. split; [exact Egw|done].
Qed.

(** C10: the REST interface protects every RPC.  A service is called only for one
    of the RPCs that are open over gRPC, too, or with a bearer token that is
    valid under a key of the server at the time the server reads for the check,
    after the guard has let the request through, whose actor the service then
    sees.  The configuration, reporting and audit services are never open, and
    they are called only for requests whose source address is in a trusted
    network; that address is what [extractSourceIP] takes for it, the first entry
    of the X-Forwarded-For header if the request carries one and the address of
    the peer otherwise. *)
Theorem rest_api_protected `{!MuxLaw} rq s res s' ctx' rt params :
  serve_http rq s = Done res s' → cr_gateway res = Some ctx' →
  route_of rq = Some (rt, params) →
  (rt_rpc rt ∈ grpc_open
   ∨ ∃ token kid secret actor t, http_check_time rq s = Some t
      ∧ rq_authorization rq = "Bearer " +:+ token
      ∧ ver_keys (ks_verifier (srv_keys s)) !! kid = Some secret ∧ secret ≠ ""
      ∧ jwt_Valid t token secret = true
      ∧ ParseActor (ks_verifier (srv_keys s)) t token = inl actor ∧ AuthID actor ≠ ""
      ∧ ActorFromContext ctx' = Some actor)
  ∧ (admin_rpc (rt_rpc rt) = true →
      isTrusted (st (srv_guard s)) (extractSourceIP (rq_http rq)).1 = true
      ∧ rt_rpc rt ∉ grpc_open).
Proof.
  intros E Hgw Hr. destruct (route_of_may _ _ _ Hr) as [Hmay Hok].
  destruct (serve_http_inv _ _ _ _ _ E Hgw) as (Htr & (t & Ht & Hauth) & _).
  unfold route_ok in Hok. apply andb_prop in Hok as [_ Hadm]. split.
  - destruct Hauth as [[Hskip _]|(token & kid & secret & actor & Hrest)]; [left; by eapply open_route|].
    right. exists token, kid, secret, actor, t. split; [exact Ht|exact Hrest].
  - intros Ha. rewrite Ha in Hadm. cbn [negb orb] in Hadm. apply andb_prop in Hadm as [Hp Hno].
    split; [|by apply negb_true_iff, bool_decide_eq_false in Hno].
    apply Htr. by eapply isAdminPath_prefix; [apply may_produce_prefix|].
Qed.

(** ** What a request does to the ledger, the events and the reports

    The three services that share state were verified by the requests
    [rep_req] and their effect [rep_serve].  The gateway adds no other way to
    change them. *)

(** The context a request came with. *)
Definition lreq_ctx (q : lreq) : option Context :=
  match q with
  | ReqGetBalance ctx _ | ReqDeposit ctx _ | ReqWithdraw ctx _ | ReqTransferToDevice ctx _
  | ReqTransferToAccount ctx _ | ReqListTransactions ctx _ => ctx
  end.
Definition ev_ctx (q : ev_req) : option Context :=
  match q with
  | EEvent ctx _ | ESnapshot ctx _ | EDelta ctx _ | EListEvents ctx _ | EListMeters ctx _ => ctx
  end.
Definition rep_ctx (q : rep_req) : option Context :=
  match q with
  | QLedger q => lreq_ctx q
  | QEvents q => ev_ctx q
  | QGenerate ctx _ | QListRuns ctx _ | QGetRun ctx _ => ctx
  end.

(** A generated function either answers by itself or calls its service. *)
Lemma decode_body_inv {S Req A} `{!GwMessage Req, !GwZero Req} rq (k : Req → M S (A + Code)) x r x' :
  decode_body rq k x = Done r x' → x' = x ∨ ∃ q, k q x = Done r x'.
Proof.
  unfold decode_body. destruct (gw_decode _ _) as [q []]; intros E; try (right; by exists q).
  injection E as _ <-. by left.
Qed.

Lemma path_param_inv {S A} params name (k : string → M S (A + Code)) x r x' :
  path_param params name k x = Done r x' → x' = x ∨ ∃ v, k v x = Done r x'.
Proof.
  unfold path_param. destruct (params !! name) as [v|]; intros E; [right; by exists v|].
  injection E as _ <-. by left.
Qed.

Lemma query_params_inv {S Req A} `{!GwMessage Req} rq names (q0 : Req) (k : Req → M S (A + Code)) x r x' :
  query_params rq names q0 k x = Done r x' → x' = x ∨ ∃ q, k q x = Done r x'.
Proof.
  unfold query_params. destruct (rq_form rq) as [form|]; [destruct (gw_query _ _ _) as [q|]|];
    intros E; [right; by exists q|injection E as _ <-; by left..].
Qed.

Lemma call_inv {S A} (m : M S A) x r x' : call m x = Done r x' → ∃ a, m x = Done a x'.
Proof. intros (a & s1 & E & [= _ <-])%bind_done_inv. by exists a. Qed.

(** The state is unchanged, or that after a request with the context. *)
Definition acts {S Q R} (run : Q → M S R) (cx : Q → option Context) (ctx : Context) (x x' : S) : Prop :=
  x' = x ∨ ∃ q r, cx q = Some ctx ∧ run q x = Done r x'.

Definition platform_acts := acts (S := Svc D (ReportingState D)) rep_serve rep_ctx.

Lemma on_ledger_acts {A} ctx (m : M (Svc D LedgerState) A) x x' a :
  (∀ l r l', m l = Done r l' → acts serve lreq_ctx ctx l l') →
  on_ledger m x = Done a x' → platform_acts ctx x x'.
Proof.
  intros Hm. unfold on_ledger. destruct (rep_Ledger (st x)) as [l|] eqn:El; [|intros [= _ <-]; by left].
  destruct (m l) as [r l'| |] eqn:E; [|done..]. intros [= _ <-].
  destruct (Hm _ _ _ E) as [->|(q & r' & Hctx & E')].
  - left. destruct x as [b [p e o z u v]]. simpl in El. by subst p.
  - right. exists (QLedger q), []. split; [done|]. cbn [rep_serve].
    unfold mbind, M_bind, on_ledger. by rewrite El, E'.
Qed.

Lemma on_events_acts {A} ctx (m : M (Svc D EventsState) A) x x' a :
  (∀ l r l', m l = Done r l' → acts ev_serve ev_ctx ctx l l') →
  on_events m x = Done a x' → platform_acts ctx x x'.
Proof.
  intros Hm. unfold on_events. destruct (rep_Events (st x)) as [l|] eqn:El; [|intros [= _ <-]; by left].
  destruct (m l) as [r l'| |] eqn:E; [|done..]. intros [= _ <-].
  destruct (Hm _ _ _ E) as [->|(q & r' & Hctx & E')].
  - left. destruct x as [b [p e o z u v]]. simpl in El. by subst e.
  - right. exists (QEvents q), []. split; [done|]. cbn [rep_serve].
    unfold mbind, M_bind, on_events. by rewrite El, E'.
Qed.

(** A route that leaves the three services alone, or makes one request of
    theirs with the caller's context and is not open. *)
Definition route_acts (rt : route (Server D)) : Prop :=
  ∀ ctx rq params s r s', rt_run rt ctx rq params s = Done r s' →
    srv_keys s' = srv_keys s
    ∧ (srv_reporting s' = srv_reporting s
       ∨ rt_rpc rt ∉ grpc_open ∧ platform_acts ctx (srv_reporting s) (srv_reporting s')).

Lemma handle_inv {S A} method p rpc lift (h : local_handler S A) ctx rq params s r s' :
  rt_run (handle (D := D) method p rpc lift h) ctx rq params s = Done r s' →
  ∃ a, lift (h ctx rq params) s = Done a s'.
Proof. intros (a & s1 & E & [= _ <-])%bind_done_inv. by exists a. Qed.

(** The routes of the other services. *)
Lemma zoom_route_acts {S A} get (set : Svc D S → Server D → Server D) method p rpc (h : local_handler S A) :
  (∀ t s, srv_keys (set t s) = srv_keys s ∧ srv_reporting (set t s) = srv_reporting s) →
  route_acts (handle method p rpc (zoom get set) h).
Proof.
  intros Hset ctx rq params s r s' (a & (t & _ & ->)%zoom_inv)%handle_inv.
  destruct (Hset t s). auto.
Qed.

Lemma reporting_route_acts {A} method p rpc (h : local_handler (ReportingState D) A) :
  rpc ∉ grpc_open →
  (∀ ctx rq params x r x', h ctx rq params x = Done r x' → platform_acts ctx x x') →
  route_acts (handle method p rpc on_reporting h).
Proof.
  intros Hrpc Hh ctx rq params s r s' (a & (t & E & ->)%zoom_inv)%handle_inv.
  split; [done|right]. split; [done|]. by eapply Hh.
Qed.

Lemma ledger_route_acts {A} method p rpc (h : local_handler LedgerState A) :
  rpc ∉ grpc_open →
  (∀ ctx rq params x r x', h ctx rq params x = Done r x' → acts serve lreq_ctx ctx x x') →
  route_acts (handle method p rpc on_ledger_srv h).
Proof.
  intros Hrpc Hh ctx rq params s r s' (a & (b & s1 & (t & E & ->)%zoom_inv & Eb)%bind_done_inv)%handle_inv.
  destruct b as [b|]; [|done]. injection Eb as _ <-. split; [done|right]. split; [done|].
  eapply on_ledger_acts; [|exact E]. eauto.
Qed.

Lemma events_route_acts {A} method p rpc (h : local_handler EventsState A) :
  rpc ∉ grpc_open →
  (∀ ctx rq params x r x', h ctx rq params x = Done r x' → acts ev_serve ev_ctx ctx x x') →
  route_acts (handle method p rpc on_events_srv h).
Proof.
  intros Hrpc Hh ctx rq params s r s' (a & (b & s1 & (t & E & ->)%zoom_inv & Eb)%bind_done_inv)%handle_inv.
  destruct b as [b|]; [|done]. injection Eb as _ <-. split; [done|right]. split; [done|].
  eapply on_events_acts; [|exact E]. eauto.
Qed.

Ltac local_step E :=
  first [apply decode_body_inv in E as [->|(? & E)]
        |apply path_param_inv in E as [->|(? & E)]
        |apply query_params_inv in E as [->|(? & E)]];
  [by left|].
Ltac local_acts c :=
  intros ctx rq params x r x' E; repeat local_step E; apply call_inv in E as [a E]; right;
  eexists (c (Some ctx) _), _; split; [reflexivity|]; cbn [rep_serve serve ev_serve];
  unfold mbind, M_bind; rewrite E; reflexivity.

Lemma api_acts : Forall route_acts api.
Proof.
  assert (∀ rpc, bool_decide (rpc ∈ grpc_open) = false → rpc ∉ grpc_open) as Hno
    by (intros rpc; apply bool_decide_eq_false).
  repeat first [apply Forall_nil; done | apply Forall_app; split | apply Forall_cons; split];
    try (by apply zoom_route_acts).
  - apply ledger_route_acts; [by apply Hno|]. local_acts ReqGetBalance.
  - apply ledger_route_acts; [by apply Hno|]. local_acts ReqDeposit.
  - apply ledger_route_acts; [by apply Hno|]. local_acts ReqWithdraw.
  - apply ledger_route_acts; [by apply Hno|]. local_acts ReqTransferToDevice.
  - apply ledger_route_acts; [by apply Hno|]. local_acts ReqTransferToAccount.
  - apply ledger_route_acts; [by apply Hno|]. local_acts ReqListTransactions.
  - apply events_route_acts; [by apply Hno|]. local_acts EEvent.
  - apply events_route_acts; [by apply Hno|]. local_acts ESnapshot.
  - apply events_route_acts; [by apply Hno|]. local_acts EDelta.
  - apply events_route_acts; [by apply Hno|]. local_acts EListEvents.
  - apply events_route_acts; [by apply Hno|]. local_acts EListMeters.
  - apply reporting_route_acts; [by apply Hno|]. local_acts QGenerate.
  - apply reporting_route_acts; [by apply Hno|]. local_acts QListRuns.
  - apply reporting_route_acts; [by apply Hno|]. local_acts QGetRun.
Qed.

(** One request over HTTP: the platform is as it was, or one of its requests
    was made in the name of the actor of a token that was valid at the time of
    the check. *)
Definition token_request rq (v : JWTVerifier) (t : Time) (ctx : Context) : Prop :=
  ∃ token kid secret actor, rq_authorization rq = "Bearer " +:+ token
    ∧ ver_keys v !! kid = Some secret ∧ secret ≠ "" ∧ jwt_Valid t token secret = true
    ∧ ParseActor v t token = inl actor ∧ AuthID actor ≠ ""
    ∧ ActorFromContext ctx = Some actor.

Lemma gateway_acts `{!MuxLaw} rq ctx s codes s' :
  gateway rq ctx s = Done codes s' →
  srv_keys s' = srv_keys s
  ∧ (srv_reporting s' = srv_reporting s
     ∨ ∃ rt params, route_of rq = Some (rt, params) ∧ rt_rpc rt ∉ grpc_open
         ∧ platform_acts ctx (srv_reporting s) (srv_reporting s')).
Proof.
  unfold gateway. destruct (route_of rq) as [[rt params]|] eqn:Hr; [|intros [= _ <-]; auto].
  destruct (AnnotateIncomingContext rq) as [c|]; [intros [= _ <-]; auto|].
  intros (r & s1 & E & [= _ <-])%bind_done_inv.
  assert (route_acts rt) as Hrt.
  { pose proof api_acts as Hall. rewrite Forall_forall in Hall. apply Hall. by eapply route_of_elem. }
  destruct (Hrt _ _ _ _ _ _ E) as [Hk [He|[Ho Ha]]]; [by auto|]. split; [done|]. right. eauto.
Qed.

(** A request that does not reach the gateway touches the guard only. *)
Definition guard_only s s' : Prop := ∃ g, s' = s <| srv_guard := g |>.

Lemma guard_only_refl s : guard_only s s.
Proof. exists (srv_guard s). by destruct s. Qed.

Lemma guard_only_trans s1 s2 s3 : guard_only s1 s2 → guard_only s2 s3 → guard_only s1 s3.
Proof. intros [g ->] [g' ->]. by exists g'. Qed.

Lemma on_guard_only {A} (m : M (Svc D GuardState) A) s a s' : on_guard m s = Done a s' → guard_only s s'.
Proof. intros (g & _ & ->)%zoom_inv. by exists g. Qed.

Lemma serve_http_refused rq s res s' :
  serve_http rq s = Done res s' → cr_gateway res = None → guard_only s s'.
Proof.
  unfold serve_http. intros E Hgw.
  destruct (_ && _); [injection E as _ <-; apply guard_only_refl|].
  case_decide; [injection E as _ <-; apply guard_only_refl|].
  case_decide; [injection E as _ <-; apply guard_only_refl|].
  apply bind_done_inv in E as (v & s0 & Ev & E). injection Ev as <- <-. unfold serve_chain in E.
  apply bind_done_inv in E as (out & s1 & E1%on_guard_only & E).
  destruct out as [|msg status]; [|by injection E as _ <-].
  apply bind_done_inv in E as (t1 & s2 & E2%on_guard_only & E).
  apply bind_done_inv in E as (t & s3 & E3%on_guard_only & E).
  apply bind_done_inv in E as ([codes served] & s4 & Em & E).
  apply bind_done_inv in E as (t3 & s5 & E5%on_guard_only & E).
  apply bind_done_inv in E as (t4 & s6 & E6%on_guard_only & E).
  destruct (perform _) as [ops panicked]. injection E as <- <-. cbn [cr_gateway] in Hgw. subst served.
  destruct (HTTPJWTMiddlewareWithSkips _ _ _ _ _ _) as [ctx1|msg] eqn:Hm.
  { apply bind_done_inv in Em as (codes' & s4' & Egw & Em). by injection Em. }
  injection Em as _ <-. eauto 10 using guard_only_trans.
Qed.

Lemma serve_http_acts `{!MuxLaw} rq s res s' :
  serve_http rq s = Done res s' →
  srv_keys s' = srv_keys s
  ∧ (srv_reporting s' = srv_reporting s
     ∨ ∃ t ctx, http_check_time rq s = Some t ∧ token_request rq (ks_verifier (srv_keys s)) t ctx
         ∧ platform_acts ctx (srv_reporting s) (srv_reporting s')).
Proof.
  intros E. destruct (cr_gateway res) as [ctx|] eqn:Hgw.
  2:{ destruct (serve_http_refused _ _ _ _ E Hgw) as [g ->]. auto. }
  destruct (serve_http_inv _ _ _ _ _ E Hgw) as (_ & (t & Ht & Hauth) & g & codes & s4 & g' & Eg & ->).
  destruct (gateway_acts _ _ _ _ _ Eg) as [Hk [He|(rt & params & Hr & Ho & Ha)]]; [by auto|].
  split; [exact Hk|]. right. exists t, ctx. split; [exact Ht|]. split; [|exact Ha].
  destruct Hauth as [[Hskip _]|(token & kid & secret & actor & Hrest)].
  - destruct Ho. by eapply open_route.
  - exists token, kid, secret, actor. exact Hrest.
Qed.

(** ** Accounts *)

(** An account changes only for a caller who may use it. *)
Definition authorized_changes ctx (σ σ' : LedgerState) : Prop :=
  ∀ a, accounts σ' !! a ≠ accounts σ !! a → ∃ meta, (ledger_authorize ctx meta a).1 = true.

Lemma mutated_authorized {Req R} `{!Mutation Req R, !MutationSound Req R} T ctx req σ (r : R) σ' new :
  mutated T ctx req σ r σ' new → authorized_changes ctx σ σ'.
Proof.
  intros Hmu a Ha. inversion Hmu; subst; try done.
  all: match goal with Hx : admissible _ ?req _ |- _ =>
    destruct (decide (a = m_account req)) as [->|Hne]; [eexists; by eapply ad_authorized|] end.
  all: destruct Ha; change accounts with (λ x, bk_accounts (books_of x)).
  - cbv beta. rewrite ml_store_books, fail_eft_books, books_of_set. simpl. by rewrite lookup_insert_ne.
  - cbv beta. match goal with |- context [clear_eft ?i ?x] =>
      change (books_of (clear_eft i x)) with (books_of x) end.
    rewrite ml_store_books. match goal with |- context [books_of ?x] => unfold x end.
    rewrite ml_bump_books, books_of_set. simpl. by rewrite lookup_insert_ne.
Qed.

Lemma serve_authorized T q σ evs :
  mspec (D := D) T (serve q) false σ evs (λ _ σ' _,
    advances σ σ' ∧ authorized_changes (lreq_ctx q) σ σ').
Proof.
  destruct q; cbn [serve lreq_ctx]; mstep;
    (eapply mspec_mono;
     [first [apply GetBalance_reads | apply ListTransactions_reads | apply mutation_law]|]).
  1,6: intros r σ' evs' [-> _]; mstep; split; [apply advances_refl|by intros a].
  all: intros r σ' evs' (new & _ & Hmu); mstep;
    exact (conj (mutated_advances _ _ _ _ _ _ _ Hmu) (mutated_authorized _ _ _ _ _ _ _ Hmu)).
Qed.

Lemma authorized_same ctx σ : authorized_changes ctx σ σ.
Proof. by intros a. Qed.

Lemma rep_serve_authorized T ls es n q σ evs :
  rep_inv ls es n σ → n < int64_max →
  mspec (D := D) T (rep_serve q) false σ evs (λ _ σ' _,
    ∃ ls', rep_Ledger σ' = Some ls' ∧ authorized_changes (rep_ctx q) (st ls) (st ls')).
Proof.
  intros Hinv Hmax. pose proof (ri_next _ _ _ _ Hinv). pose proof (ri_ledger _ _ _ _ Hinv) as Hl.
  destruct q as [q|q|ctx req|ctx req|ctx req]; cbn [rep_serve rep_ctx]; mstep.
  - eapply rspec_on_ledger; [apply Hinv|apply Hinv|apply serve_authorized|].
    intros r ls' _ [_ Ha]. mstep. by exists ls'.
  - assert (nextBuffer (st es) < int64_max) as Hlt by (pose proof (ri_events_n _ _ _ _ Hinv); lia).
    eapply rspec_on_events; [apply Hinv|apply Hinv|apply ev_serve_spec; [apply Hinv|done]|].
    intros r es' _ _. mstep. exists ls. split; [done|apply authorized_same].
  - eapply mspec_mono; [eapply GenerateReport_spec; [done|lia]|].
    intros r σ' evs' [(-> & _)|(q & t & t' & p & _ & _ & _ & _ & _ & _ & ->)]; mstep;
      exists ls; (split; [done|apply authorized_same]).
  - eapply mspec_mono; [by eapply ListReportRuns_spec|]. intros r σ' evs' [-> _]. mstep.
    exists ls. split; [done|apply authorized_same].
  - eapply mspec_mono; [by eapply GetReportRun_spec|]. intros r σ' evs' [-> _]. mstep.
    exists ls. split; [done|apply authorized_same].
Qed.

(** ** Servers without a database *)

(** The ledger, the events and the reports are intact, with at most [n]
    entries each. *)
Record platform_ok (n : Z) s (ls : Svc D LedgerState) (es : Svc D EventsState) : Prop := {
  po_memory : in_memory (srv_reporting s);
  po_inv : rep_inv ls es n (st (srv_reporting s)) }.

Lemma platform_step n s s' ls es ctx :
  platform_ok n s ls es → n < int64_max → platform_acts ctx (srv_reporting s) (srv_reporting s') →
  ∃ ls' es', platform_ok (n + 1) s' ls' es' ∧ authorized_changes (Some ctx) (st ls) (st ls').
Proof.
  intros [Hm Hinv] Hn [He|(q & a & Hctx & E)].
  { exists ls, es. split; [|apply authorized_same]. split; rewrite He; [done|].
    eapply rep_inv_weaken; [done|lia]. }
  destruct (mspec_run (λ _, True) _ _ _ _ _ E Hm (λ _, I) (rep_serve_spec _ _ _ _ _ _ _ Hinv Hn))
    as (Hm' & _ & (ls' & es' & Hinv') & _).
  destruct (mspec_run (λ _, True) _ _ _ _ _ E Hm (λ _, I) (rep_serve_authorized _ _ _ _ _ _ _ Hinv Hn))
    as (_ & _ & ls2 & Hl2 & Ha).
  rewrite (ri_ledger _ _ _ _ Hinv') in Hl2. injection Hl2 as <-. rewrite Hctx in Ha.
  exists ls', es'. split; [by split|done].
Qed.

(** An actor the ledger lets use an account: an operator, a service, or the
    player the account belongs to. *)
Definition may_use (actor : AuthActor) (account : string) : Prop :=
  let t := actorTypeFromString (AuthType actor) in
  t = ACTOR_TYPE_OPERATOR ∨ t = ACTOR_TYPE_SERVICE ∨ t = ACTOR_TYPE_PLAYER ∧ AuthID actor = account.

Lemma authorize_token ctx actor meta a :
  ActorFromContext ctx = Some actor → (ledger_authorize (Some ctx) meta a).1 = true → may_use actor a.
Proof.
  intros Hctx. unfold ledger_authorize, may_use.
  destruct (resolveActor (Some ctx) meta) as [x|] eqn:Hr; [|done].
  rewrite (resolveActor_token _ _ _ _ Hctx Hr). cbn [ActorTypeOf ActorId].
  destruct (actorTypeFromString _); try done; [|auto..]. case_decide as Hd; [done|].
  intros _. right. right. split; [done|]. by destruct (decide (AuthID actor = a)); [|destruct Hd].
Qed.

(** The request carries a bearer token that the keys accept at this time, of
    this actor. *)
Definition bears_token_of rq (v : JWTVerifier) (t : Time) (actor : AuthActor) : Prop :=
  ∃ token kid secret, rq_authorization rq = "Bearer " +:+ token
    ∧ ver_keys v !! kid = Some secret ∧ secret ≠ "" ∧ jwt_Valid t token secret = true
    ∧ ParseActor v t token = inl actor.

(** One request to a server without a database, whatever its route, headers
    and body: the books stay correct (each balance is the sum of the account's
    transactions, each transaction is balanced), and an account changes only
    if the request bears a token that the server accepts, of an operator, a
    service, or the player the account belongs to. *)
Lemma serve_http_accounts `{!MuxLaw} rq s res s' n ls es :
  serve_http rq s = Done res s' → platform_ok n s ls es → n < int64_max →
  ∃ ls' es', platform_ok (n + 1) s' ls' es'
    ∧ ∀ a, accounts (st ls') !! a ≠ accounts (st ls) !! a →
        ∃ t actor, http_check_time rq s = Some t
          ∧ bears_token_of rq (ks_verifier (srv_keys s)) t actor ∧ may_use actor a.
Proof.
  intros E Hok Hn. destruct (serve_http_acts _ _ _ _ E) as [_ [He|(t & ctx & Ht & Htok & Ha)]].
  { exists ls, es. destruct Hok as [Hm Hinv]. split; [|by intros a]. split; rewrite He; [done|].
    eapply rep_inv_weaken; [done|lia]. }
  destruct (platform_step _ _ _ _ _ _ Hok Hn Ha) as (ls' & es' & Hok' & Hauth).
  exists ls', es'. split; [done|]. intros a Hne. destruct (Hauth a Hne) as [meta Hmeta].
  destruct Htok as (token & kid & secret & actor & Hz & Hk & Hs & Hv & Hp & _ & Hctx).
  exists t, actor. split; [done|]. split; [|by eapply authorize_token]. by exists token, kid, secret.
Qed.

(** ** Runs *)

Fixpoint serve_rest (rqs : list RestRequest) : M (Server D) (list chain_result) :=
  match rqs with
  | [] => mret []
  | rq :: rqs => r ← serve_http rq; rs ← serve_rest rqs; mret (r :: rs)
  end.

(** The request was made in the run by an HTTP request that bore a token of its
    actor, valid when the server checked it. *)
Definition made_in (rqs : list RestRequest) s (q : rep_req) : Prop :=
  ∃ before rq after rs0 s0 t ctx, rqs = before ++ rq :: after ∧ serve_rest before s = Done rs0 s0
    ∧ http_check_time rq s0 = Some t ∧ rep_ctx q = Some ctx
    ∧ token_request rq (ks_verifier (srv_keys s)) t ctx.

Lemma made_in_cons rq rqs s r s1 q :
  serve_http rq s = Done r s1 → srv_keys s1 = srv_keys s → made_in rqs s1 q → made_in (rq :: rqs) s q.
Proof.
  intros E Hk (before & rq0 & after & rs0 & s0 & t & ctx & -> & E0 & Ht & Hctx & Htok).
  exists (rq :: before), rq0, after, (r :: rs0), s0, t, ctx. split; [done|]. rewrite Hk in Htok.
  split; [|done]. cbn [serve_rest]. unfold mbind, M_bind. by rewrite E, E0.
Qed.

(** C11: the REST interface refines the platform: any run of HTTP requests, with or
    without a database, changes the ledger, the events and the reports as a run
    of their own requests does, at most one for each HTTP request, and each made
    by an HTTP request of the run in the name of the actor of its token, which
    was valid under the server's keys when the server checked it. *)
Theorem rest_refines_platform `{!MuxLaw} rqs s rs s' :
  serve_rest rqs s = Done rs s' →
  ∃ qs acks, (length qs ≤ length rqs)%nat
    ∧ rep_serve_all qs (srv_reporting s) = Done acks (srv_reporting s')
    ∧ ∀ q, q ∈ qs → made_in rqs s q.
Proof.
  revert s rs. induction rqs as [|rq rqs IH]; intros s rs; cbn [serve_rest].
  { intros [= _ <-]. exists [], []. split_and!; [done..|]. by intros q ?%not_elem_of_nil. }
  intros (r & s1 & E & (rs1 & s2 & Es & [= _ <-])%bind_done_inv)%bind_done_inv.
  destruct (serve_http_acts _ _ _ _ E) as [Hk Ha]. destruct (IH _ _ Es) as (qs & acks & Hlen & Hall & Htok).
  assert (∀ q, q ∈ qs → made_in (rq :: rqs) s q) as Htok'.
  { intros q Hq. eapply made_in_cons; [exact E|exact Hk|by apply Htok]. }
  assert (srv_reporting s1 = srv_reporting s
    ∨ ∃ t ctx q a, http_check_time rq s = Some t ∧ rep_ctx q = Some ctx
      ∧ token_request rq (ks_verifier (srv_keys s)) t ctx
      ∧ rep_serve q (srv_reporting s) = Done a (srv_reporting s1))
    as [He|(t & ctx & q & a & Ht & Hctx & Hreq & Eq)].
  { destruct Ha as [He|(t & ctx & Ht & Hreq & [He|(q & a & Hctx & Eq)])]; [by left..|]. right. eauto 10. }
  - exists qs, acks. rewrite <- He. split_and!; [simpl; lia|done..].
  - exists (q :: qs), (a ++ acks). split_and!; [simpl; lia| |].
    + cbn [rep_serve_all]. unfold mbind, M_bind. by rewrite Eq, Hall.
    + intros q' [->|Hq']%elem_of_cons; [|by apply Htok']. by exists [], rq, rqs, [], s, t, ctx.
Qed.

Lemma serve_rest_accounts `{!MuxLaw} rqs s rs s' n ls es :
  serve_rest rqs s = Done rs s' → platform_ok n s ls es → n + Z.of_nat (length rqs) ≤ int64_max →
  ∃ ls' es', platform_ok (n + Z.of_nat (length rqs)) s' ls' es'
    ∧ ∀ a, accounts (st ls') !! a ≠ accounts (st ls) !! a →
        ∃ rq t actor, rq ∈ rqs ∧ bears_token_of rq (ks_verifier (srv_keys s)) t actor ∧ may_use actor a.
Proof.
  revert s rs n ls es. induction rqs as [|rq rqs IH]; intros s rs n ls es; cbn [serve_rest length].
  { intros [= _ <-] Hok _. exists ls, es. rewrite Z.add_0_r. by split; [|intros a]. }
  intros (r & s1 & E & (rs1 & s2 & Es & [= _ <-])%bind_done_inv)%bind_done_inv Hok Hlen.
  destruct (serve_http_acts _ _ _ _ E) as [Hk _].
  destruct (serve_http_accounts _ _ _ _ _ _ _ E Hok) as (ls1 & es1 & Hok1 & Hc1); [lia|].
  destruct (IH _ _ _ _ _ Es Hok1) as (ls2 & es2 & Hok2 & Hc2); [lia|].
  exists ls2, es2. split. { by replace (n + Z.of_nat (S (length rqs))) with (n + 1 + Z.of_nat (length rqs)) by lia. }
  intros a Hne. destruct (decide (accounts (st ls1) !! a = accounts (st ls) !! a)) as [He|He].
  - rewrite <- He in Hne. destruct (Hc2 a Hne) as (rq0 & t & actor & Hin & Hb & Hu). exists rq0, t, actor.
    rewrite Hk in Hb. split; [by right|done].
  - destruct (Hc1 a He) as (t & actor & _ & Hb & Hu). exists rq, t, actor. split; [by left|done].
Qed.

(** A server that started without a database has an intact platform. *)
Lemma started_platform env t w srv w' open_db listen :
  start open_db listen env t w = Done (inl srv) w' → c_databaseURL (srv_settings srv) = "" →
  ∃ ls es, platform_ok 0 srv ls es ∧ accounts (st ls) = ∅.
Proof.
  intros (c & keys & k & d & _ & Hv & _ & _ & _ & _ & Hd & _ & Hs)%start_spec.
  rewrite (sd_settings _ _ _ _ _ Hs). intros Hdb.
  assert (d = None) as -> by by apply Hd.
  assert (c_strict c = false) as Hstrict.
  { destruct (c_strict c); [|done]. rewrite Hdb in Hv. unfold validateProductionRuntime in Hv.
    simpl in Hv. done. }
  eexists _, _. split; [|]. { split; rewrite (sd_reporting _ _ _ _ _ Hs); [apply fresh_in_memory|].
    rewrite Hstrict. split; try done; simpl; try apply fresh_in_memory;
      [apply no_books_inv|apply ev_inv_new|apply store_ok_empty]. }
  done.
Qed.

(** Whatever requests a server gets over HTTP that started without a database,
    the books stay correct: the ledger, the events and the reports satisfy
    their invariants and no mutex is left locked.  An account exists only if
    one of the requests bore a token that the server accepts, of an operator, a
    service, or the player the account belongs to. *)
Theorem rest_run_correct `{!MuxLaw} open_db listen env t w srv w' rqs rs srv' :
  start open_db listen env t w = Done (inl srv) w' → c_databaseURL (srv_settings srv) = "" →
  serve_rest rqs srv = Done rs srv' → Z.of_nat (length rqs) ≤ int64_max →
  ∃ ls es, platform_ok (Z.of_nat (length rqs)) srv' ls es
    ∧ ∀ a acct, accounts (st ls) !! a = Some acct →
        ∃ rq t actor, rq ∈ rqs ∧ bears_token_of rq (ks_verifier (srv_keys srv)) t actor ∧ may_use actor a.
Proof.
  intros Hstart Hdb E Hlen. destruct (started_platform _ _ _ _ _ _ _ Hstart Hdb) as (ls0 & es0 & Hok0 & Hemp).
  destruct (serve_rest_accounts _ _ _ _ _ _ _ E Hok0) as (ls & es & Hok & Ha); [lia|].
  exists ls, es. split; [by rewrite Z.add_0_l in Hok|]. intros a acct Hacct. apply Ha.
  by rewrite Hacct, Hemp, lookup_empty.
Qed.
End gateway.

(** ** Concrete instances *)

Module GatewayExample.
Export Concrete.
Import ServerExample.
#[export] Existing Instances ex_tls ex_os ex_order.
#[export] Existing Instances env_jwt env_bcrypt env_json_map down_db env_sessions_db env_registry_db.
#[export] Existing Instances RepTable.rep_events_db RepTable.reporting_db ExtTable.extensions_db.
#[export] Existing Instances env_remote_db env_audit_query env_identity_db.
#[export] Instance env_config_db : ConfigDB () := {|
  x_config_change _ _ _ _ _ _ _ _ _ _ _ _ _ d := (Ok (), d);
  x_config_value _ _ _ _ d := (Ok (), d);
  x_download _ _ _ _ _ _ _ _ _ _ _ d := (Ok (), d);
  q_config_value _ _ d := (Ok None, d);
  q_config_change _ d := (Ok None, d);
  q_config_history _ _ _ d := (Ok [], d);
  q_downloads _ _ d := (Ok [], d) |}.

(** A multiplexer for the templates without names: the first route with the
    method and the path of the request. *)
Fixpoint find_route (n : nat) (routes : list (string * pattern)) (rq : RestRequest) : option nat :=
  match routes with
  | [] => None
  | (method, p) :: routes =>
      if bool_decide (method = Method (rq_http rq) ∧ instantiate p ∅ = Some (UrlPath (rq_http rq)))
      then Some n else find_route (S n) routes rq
  end.
#[export] Instance ex_mux : Mux := {|
  mux_find routes rq := i ← find_route 0 routes rq; Some (i, ∅);
  mux_status _ := 404; HTTPStatusFromCode _ := 400; AnnotateIncomingContext _ := None |}.

Lemma find_route_found n routes rq i : find_route n routes rq = Some i →
  ∃ j method p, i = (n + j)%nat ∧ routes !! j = Some (method, p)
    ∧ instantiate p ∅ = Some (UrlPath (rq_http rq)).
Proof.
  revert n. induction routes as [|[method p] routes IH]; intros n; cbn [find_route]; [done|].
  case_bool_decide as Hp.
  - intros [= <-]. exists 0%nat, method, p. split; [lia|]. by split; [|apply Hp].
  - intros (j & m & q & -> & Hj & Hq)%IH. exists (S j), m, q. split; [lia|done].
Qed.

#[export] Instance ex_mux_law : MuxLaw.
Proof.
  intros routes rq i params E. unfold mux_find, ex_mux in E.
  destruct (find_route 0 routes rq) as [k|] eqn:Ef; [|done].
  change (Some (k, (∅ : gmap string string)) = Some (i, params)) in E. injection E as <- <-.
  apply find_route_found in Ef as (j & method & p & -> & Hj & Hp). by exists method, p.
Qed.

(** Messages whose decoder keeps the default, but for a deposit of 500. *)
#[export] Instance ex_message {Req} : GwMessage Req | 10 := {|
  gw_decode _ q := (q, DecodeEOF); gw_query _ _ q := Some q |}.
#[export] Instance ex_deposit_message : GwMessage DepositRequest := {|
  gw_decode _ _ := (mkDepositRequest (Some (mkRequestMeta "r" "key" None)) "alice" (usd 500) "auth", DecodeOk);
  gw_query _ _ q := Some q |}.
#[export] Instance ex_populate {Req} : GwPopulate Req := λ _ _ q, Some q.

Definition alice_token : string :=
  token_of "default" (mkClaims "alice" "PLAYER" 0 1804067200) dev_secret.
Definition operator_token : string :=
  token_of "default" (mkClaims "op-1" "OPERATOR" 0 1804067200) dev_secret.
Definition rest (method path authorization : string) : RestRequest :=
  mkRest (mkHttpRequest "" "10.0.0.7:5000" "rgs.example:443" path method) path authorization "" (Some []).

Definition dev_start : outcome World (Server () + fatal) :=
  start (D := ()) (λ _, None) (λ _, true) dev_env 0 prod_world.
Definition requests : list RestRequest :=
  [rest "GET" "/healthz" ""; rest "POST" "/v1/ledger/deposits" "";
   rest "POST" "/v1/ledger/deposits" ("Bearer " +:+ alice_token);
   rest "GET" "/v1/audit/events" ("Bearer " +:+ alice_token)].
End GatewayExample.
Import GatewayExample ServerExample.

(** Runs the server on the requests and checks the result. *)
Definition serves (rqs : list RestRequest) (P : Server () → list chain_result → Server () → bool) : bool :=
  match dev_start with
  | Done (inl srv) _ => match serve_rest rqs srv with Done rs srv' => P srv rs srv' | _ => false end
  | _ => false
  end.

Example ex_codes : serves requests (λ srv rs srv',
  bool_decide (cr_codes <$> rs = [[200]; [401]; [200]; [403]])) = true.
Proof. by vm_compute. Qed.

Lemma serves_inv rqs P : serves rqs P = true → ∃ srv w rs srv',
  dev_start = Done (inl srv) w ∧ serve_rest rqs srv = Done rs srv' ∧ P srv rs srv' = true.
Proof.
  unfold serves. destruct dev_start as [[srv|e] w| |]; try discriminate.
  destruct (serve_rest rqs srv) as [rs srv'| |] eqn:E; try discriminate.
  intros HP. exists srv, w, rs, srv'. split; [reflexivity|]. split; [exact E|exact HP].
Qed.

Lemma ex_rest_run : ∃ srv w rs srv', dev_start = Done (inl srv) w
  ∧ serve_rest requests srv = Done rs srv' ∧ c_databaseURL (srv_settings srv) = ""
  ∧ ∃ ls acct, rep_Ledger (st (srv_reporting srv')) = Some ls
      ∧ accounts (st ls) !! "alice" = Some acct ∧ available acct = 500.
Proof.
  destruct (serves_inv requests (λ srv _ srv', bool_decide (c_databaseURL (srv_settings srv) = "")
    && match rep_Ledger (st (srv_reporting srv')) with
       | Some ls => bool_decide (available <$> accounts (st ls) !! "alice" = Some 500)
       | None => false end)) as (srv & w & rs & srv' & E & Es & HP); [by vm_compute|].
  apply andb_prop in HP as [Hdb HP]. apply bool_decide_eq_true in Hdb.
  destruct (rep_Ledger (st (srv_reporting srv'))) as [ls|] eqn:El; [|discriminate].
  apply bool_decide_eq_true in HP. destruct (accounts (st ls) !! "alice") as [acct|] eqn:Ea; [|discriminate].
  injection HP as HP. exists srv, w, rs, srv'. split; [exact E|]. split; [exact Es|]. split; [exact Hdb|].
  exists ls, acct. split; [exact El|]. split; [exact Ea|exact HP].
Qed.

Lemma rest_run_correct_witness : ∃ (srv srv' : Server ()) ls es rq t actor,
  platform_ok 4 srv' ls es ∧ rq ∈ requests ∧ bears_token_of rq (ks_verifier (srv_keys srv)) t actor
  ∧ may_use actor "alice".
Proof.
  destruct ex_rest_run as (srv & w & rs & srv' & E & Es & Hdb & ls0 & acct & El & Ha & _).
  destruct (rest_run_correct (λ _, None) (λ _, true) dev_env 0 prod_world srv w requests rs srv' E Hdb Es)
    as (ls & es & Hok & Hacct); [vm_compute; discriminate|].
  assert (ls0 = ls) as ->.
  { pose proof (ri_ledger _ _ _ _ (po_inv _ _ _ _ Hok)) as Hl. rewrite El in Hl. by injection Hl. }
  destruct (Hacct "alice" acct Ha) as (rq & t & actor & Hin & Hb & Hu).
  exists srv, srv', ls, es, rq, t, actor. split; [exact Hok|]. split; [exact Hin|]. split; [exact Hb|exact Hu].
Defined.

Lemma rest_refines_platform_witness : ∃ (srv srv' : Server ()) qs acks,
  rep_serve_all qs (srv_reporting srv) = Done acks (srv_reporting srv').
Proof.
  destruct ex_rest_run as (srv & w & rs & srv' & _ & Es & _).
  destruct (rest_refines_platform requests srv rs srv' Es) as (qs & acks & _ & Eq & _).
  exists srv, srv', qs, acks. exact Eq.
Defined.

Definition deposit_rq : RestRequest := rest "POST" "/v1/ledger/deposits" ("Bearer " +:+ alice_token).

Lemma ex_deposit_served : ∃ (srv : Server ()) res srv' ctx',
  serve_http deposit_rq srv = Done res srv' ∧ cr_gateway res = Some ctx'.
Proof.
  destruct (serves_inv [deposit_rq] (λ _ rs _, match rs with [r] => bool_decide (is_Some (cr_gateway r))
    | _ => false end)) as (srv & w & rs & srv' & _ & Es & HP); [by vm_compute|].
  cbn [serve_rest] in Es. apply bind_done_inv in Es as (r & s1 & E & Es).
  injection Es as <- _. apply bool_decide_eq_true in HP as [ctx' Hc]. exists srv, r, s1, ctx'.
  split; [exact E|exact Hc].
Qed.

Lemma ex_deposit_route : ∃ rt params, route_of (D := ()) deposit_rq = Some (rt, params)
  ∧ rt_rpc rt = "/rgs.v1.LedgerService/Deposit".
Proof.
  assert (match route_of (D := ()) deposit_rq with Some (rt, _) => rt_rpc rt | None => "" end
    = "/rgs.v1.LedgerService/Deposit") as Hr by by vm_compute.
  destruct (route_of (D := ()) deposit_rq) as [[rt params]|]; [|discriminate].
  exists rt, params. split; [reflexivity|exact Hr].
Qed.

(** An operator asks for the reports from the machine itself. *)
Definition runs_rq : RestRequest :=
  mkRest (mkHttpRequest "" "127.0.0.1:5000" "rgs.example:443" "/v1/reporting/runs" "GET")
    "/v1/reporting/runs" ("Bearer " +:+ operator_token) "" (Some []).

Lemma ex_runs_served : ∃ (srv : Server ()) res srv' ctx' rt params,
  serve_http runs_rq srv = Done res srv' ∧ cr_gateway res = Some ctx'
  ∧ route_of (D := ()) runs_rq = Some (rt, params) ∧ admin_rpc (rt_rpc rt) = true.
Proof.
  destruct (serves_inv [runs_rq] (λ _ rs _, match rs with [r] => bool_decide (is_Some (cr_gateway r))
    | _ => false end)) as (srv & w & rs & srv' & _ & Es & HP); [by vm_compute|].
  cbn [serve_rest] in Es. apply bind_done_inv in Es as (r & s1 & E & Es).
  injection Es as <- _. apply bool_decide_eq_true in HP as [ctx' Hc].
  assert (match route_of (D := ()) runs_rq with Some (rt, _) => admin_rpc (rt_rpc rt) | None => false end = true)
    as Hr by by vm_compute.
  destruct (route_of (D := ()) runs_rq) as [[rt params]|] eqn:Hro; [|discriminate].
  exists srv, r, s1, ctx', rt, params. split; [exact E|]. split; [exact Hc|]. split; [reflexivity|exact Hr].
Qed.

Lemma rest_api_protected_witness : ∃ (srv : Server ()) token kid secret t,
  http_check_time runs_rq srv = Some t
  ∧ rq_authorization runs_rq = "Bearer " +:+ token
  ∧ ver_keys (ks_verifier (srv_keys srv)) !! kid = Some secret ∧ jwt_Valid t token secret = true
  ∧ isTrusted (st (srv_guard srv)) (extractSourceIP (rq_http runs_rq)).1 = true.
Proof.
  destruct ex_runs_served as (srv & res & srv' & ctx' & rt & params & E & Hc & Hr & Hadm).
  destruct (rest_api_protected runs_rq srv res srv' ctx' rt params E Hc Hr) as [Htok Htr].
  destruct (Htr Hadm) as [Ht Hno].
  destruct Htok as [Ho|(token & kid & secret & actor & t & Hct & Hz & Hk & _ & Hv & _)].
  - exfalso. exact (Hno Ho).
  - exists srv, token, kid, secret, t. split; [exact Hct|]. split; [exact Hz|]. split; [exact Hk|].
    split; [exact Hv|exact Ht].
Defined.
