(* ===== verification/Answered.v ===== *)
(** * Every request is answered

    A server without a database, as [start] leaves it, answers every HTTP
    request: no handler blocks on a mutex, and the only panic is the one of the
    four configuration requests that do not name their actor.  The invariants of
    all services are kept on the way. *)

From S2P Require Import Prelude GoTime GoJson GoNet GoBytes GoJsonRead GoDuration AuditTrail Service Listing.
From S2P Require Import Ledger LedgerSpec LedgerMem LedgerProofs LedgerTheorems Wagering WageringProofs.
From S2P Require Import Sessions SessionsProofs Registry RegistryProofs Config ConfigProofs Events EventsProofs.
From S2P Require Import Reporting ReportingProofs Extensions ExtensionsProofs RemoteAccess RemoteAccessProofs.
From S2P Require Import AuditService AuditProofs Auth AuthProofs Identity IdentityProofs Attestation AttestationProofs.
From S2P Require Import Startup StartupProofs Metrics MetricsProofs Server ServerProofs Gateway GatewayProofs Env.
From Stdlib Require Import Ascii.

(** ** Handlers that always return *)

Section total.
Context {St : Type} (ok : Z → St → Prop).

(** From a state with at most [n] numbered entries the code returns, in a state
    with at most one more. *)
Definition total {A} (m : M St A) : Prop :=
  ∀ n x, ok n x → n < int64_max → ∃ r x', m x = Done r x' ∧ ok (n + 1) x'.

Lemma total_forget {A B} (m : M St A) (f : A → B) : total (r ← m; mret (f r)) → total m.
Proof.
  intros Ht n x Hx Hn. destruct (Ht n x Hx Hn) as (r & x' & E & Hx').
  apply bind_done_inv in E as (a & x1 & E & E'). injection E' as _ <-. by exists a, x1.
Qed.

Lemma total_call {A} (m : M St A) : total m → total (call m).
Proof.
  intros Ht n x Hx Hn. destruct (Ht n x Hx Hn) as (r & x' & E & Hx').
  exists (inl r), x'. split; [|done]. unfold call, mbind, M_bind. by rewrite E.
Qed.

Context (ok_mono : ∀ n x, ok n x → ok (n + 1) x).

Lemma total_ret {A} (a : A) : total (mret a).
Proof. intros n x Hx _. exists a, x. auto. Qed.

Lemma total_decode_body {Req A} `{!GwMessage Req, !GwZero Req} rq (k : Req → M St (A + Code)) :
  (∀ q, q = (gw_decode (rq_body rq) gw_zero).1 → total (k q)) → total (decode_body rq k).
Proof. intros Hk. unfold decode_body. destruct (gw_decode _ _) as [q []]; auto using total_ret. Qed.

Lemma total_path_param {A} params name (k : string → M St (A + Code)) :
  (∀ v, total (k v)) → total (path_param params name k).
Proof. intros Hk. unfold path_param. destruct (params !! name); auto using total_ret. Qed.

Lemma total_populate {Req A} `{!GwPopulate Req} name v (q : Req) (k : Req → M St (A + Code)) :
  (∀ q, total (k q)) → total (populate_field name v q k).
Proof. intros Hk. unfold populate_field. destruct (gw_populate _ _ _); auto using total_ret. Qed.

Lemma total_query_params {Req A} `{!GwMessage Req} rq names (q : Req) (k : Req → M St (A + Code)) :
  (∀ q, total (k q)) → total (query_params rq names q k).
Proof.
  intros Hk. unfold query_params. destruct (rq_form rq); [|apply total_ret].
  destruct (gw_query _ _ _); auto using total_ret.
Qed.
End total.

(** A service in memory whose own fields satisfy an invariant. *)
Definition svc_ok {D S} `{!Crypto} (I : Z → S → Prop) (n : Z) (x : Svc D S) : Prop :=
  in_memory x ∧ I n (st x).

Lemma total_mspec {D S A} `{!Wall, !Crypto, !JsonValid, !AuditDB D} (I : Z → S → Prop) (m : M (Svc D S) A) :
  (∀ n σ evs, I n σ → n < int64_max → mspec (λ _, True) m false σ evs (λ _ σ' _, I (n + 1) σ')) →
  total (svc_ok I) m.
Proof.
  intros Hm n x [Hx Hi] Hn.
  destruct (mspec_call (λ _, True) m x _ Hx (λ _, Logic.I) (Hm _ _ _ Hi Hn)) as (r & x' & E & Hx' & _ & Hi').
  exists r, x'. by split; [|split].
Qed.

(** ** The services *)

Section services.
Context {D : Type} `{!Wall, !Crypto, !JsonValid, !UnicodeUpper, !Random, !JWT, !Bcrypt, !JsonDecodeMap}.
Context `{!AuditDB D, !LedgerDB D, !WageringDB D, !SessionsDB D, !RegistryDB D, !ConfigDB D, !EventsDB D}.
Context `{!ReportingDB D, !ExtensionsDB D, !RemoteDB D, !AuditQueryDB D, !IdentityDB D}.
Context `{!ProtoJSON DepositResponse, !ProtoJSON WithdrawResponse,
  !ProtoJSON TransferToDeviceResponse, !ProtoJSON TransferToAccountResponse,
  !ProtoJSON PlaceWagerResponse, !ProtoJSON SettleWagerResponse, !ProtoJSON CancelWagerResponse}.

Definition wagering_ok (n : Z) (σ : WageringState) : Prop := winv σ ∧ nextWagerID σ ≤ n.
Definition sessions_ok (n : Z) (σ : SessionsState) : Prop := sinv σ.
Definition registry_ok (n : Z) (σ : RegistryState) : Prop := reg_inv σ.
Definition config_ok (n : Z) (σ : ConfigState) : Prop := (∃ acks, cfg_inv acks σ) ∧ nextChangeID σ ≤ n.
Definition promotions_ok (n : Z) (σ : PromotionsState) : Prop := promo_disableInMemoryCache σ = false.
Definition overlay_ok (n : Z) (σ : OverlayState) : Prop := overlay_disableInMemoryCache σ = false.
Definition reporting_ok (n : Z) (σ : ReportingState D) : Prop := ∃ ls es, rep_inv ls es n σ.
Definition any_ok {S} (n : Z) (σ : S) : Prop := True.

Lemma wserve_total q : total (svc_ok wagering_ok) (wserve (D := D) q).
Proof.
  apply total_mspec. intros n σ evs [Hi Hle] Hn. eapply mspec_mono; [apply wserve_advances|].
  intros r σ' evs' ([_ Hadv] & _). destruct Hadv as (Hi' & Hle' & _); [done|lia|]. split; [done|lia].
Qed.

Lemma sserve_total q : total (svc_ok sessions_ok) (sserve (D := D) q).
Proof.
  apply total_mspec. intros n σ evs Hi Hn. eapply mspec_mono; [by apply sserve_spec|]. by intros r σ' evs' [? _].
Qed.

Lemma reg_serve_total q : total (svc_ok registry_ok) (reg_serve (D := D) q).
Proof.
  apply total_mspec. intros n σ evs Hi Hn. eapply mspec_mono; [by apply reg_serve_spec|]. by intros r σ' evs' [? _].
Qed.

Lemma cfg_serve_total q : names_actor q → total (svc_ok config_ok) (cfg_serve (D := D) q).
Proof.
  intros Hq. apply total_mspec. intros n σ evs [[acks Hi] Hle] Hn.
  eapply mspec_mono; [apply (cfg_serve_spec _ _ _ _ acks); [done|lia|done]|].
  intros r σ' evs' (Hi' & Hle' & _). split; [by eexists|lia].
Qed.

Lemma promo_serve_total q : total (svc_ok promotions_ok) (promo_serve (D := D) q).
Proof.
  apply total_mspec. intros n σ evs Hi Hn. eapply mspec_mono; [by apply promo_serve_spec|].
  intros a σ' evs' Hs. exact (eq_trans (ps_cache _ _ _ Hs) Hi).
Qed.

Lemma overlay_serve_total q : total (svc_ok overlay_ok) (overlay_serve (D := D) q).
Proof.
  apply total_mspec. intros n σ evs Hi Hn. eapply mspec_mono; [by apply overlay_serve_spec|].
  intros a σ' evs' Hs. exact (eq_trans (os_cache _ _ _ Hs) Hi).
Qed.

Lemma rep_serve_total q : total (svc_ok reporting_ok) (rep_serve (D := D) q).
Proof.
  apply total_mspec. intros n σ evs (ls & es & Hi) Hn. eapply mspec_mono; [by eapply rep_serve_spec|].
  intros a σ' evs' [Hs _]. exact Hs.
Qed.

Definition ledger_ok (n : Z) (σ : LedgerState) : Prop := books_inv (books_of σ) ∧ nextTransactionID σ ≤ n.
Definition events_ok (n : Z) (σ : EventsState) : Prop := ev_inv σ ∧ nextBuffer σ ≤ n.

Lemma serve_total q : total (svc_ok ledger_ok) (serve (D := D) q).
Proof.
  apply total_mspec. intros n σ evs [Hb Hle] Hn. eapply mspec_mono; [apply serve_advances|].
  intros r σ' evs' [Hadv _].
  destruct (bstep_inv _ _ (adv_books _ _ Hadv) Hb) as [Hb' Hn']; simpl in *; [lia|]. split; [done|lia].
Qed.

Lemma ev_serve_total q : total (svc_ok events_ok) (ev_serve (D := D) q).
Proof.
  apply total_mspec. intros n σ evs [Hi Hle] Hn. eapply mspec_mono; [apply ev_serve_spec; [done|lia]|].
  intros r σ' evs' (Hi' & Hle' & _). split; [done|lia].
Qed.

(** No request changes the key that tokens are signed with. *)
Definition identity_ok (signer : option JWTSigner) (n : Z) (σ : IdentityState) : Prop :=
  tokenSigner σ = signer.

Lemma iserve_policy T q r σ σ' : iserve_post T q σ σ' r → policy σ' = policy σ.
Proof. destruct q, r; cbn [iserve_post]; try done; [by intros [? _]|by intros [[? _] _]..]. Qed.

Lemma iserve_total {signer} q : total (svc_ok (identity_ok signer)) (iserve (D := D) q).
Proof.
  apply total_mspec. intros n σ evs Hi _. eapply mspec_mono; [apply iserve_spec|].
  intros r σ' evs' Hr. apply iserve_policy in Hr. unfold policy in Hr. injection Hr as Hr _ _ _ _ _ _.
  exact (eq_trans Hr Hi).
Qed.

(** The administration of identities, without a database. *)
Ltac admin_step :=
  lazymatch goal with
  | |- mspec _ (identity_auditDenied _ _ _ _) _ _ _ _ => apply mspec_identity_denied; intros ?
  | |- mspec _ (plain_reply _ _ _) _ _ _ _ => unfold plain_reply
  | |- mspec _ (lockout_reply _ _ _) _ _ _ _ => unfold lockout_reply
  | |- mspec _ (setCredentialHash _ _ _) _ _ _ _ => unfold setCredentialHash
  | |- mspec _ (setCredentialStatus _ _ _) _ _ _ _ => unfold setCredentialStatus
  | |- mspec _ (resetFailures _ _) _ _ _ _ => unfold resetFailures
  | |- mspec _ (lockoutStatus _) _ _ _ _ => unfold lockoutStatus
  | |- mspec _ (identity_appendAudit _ _ _ _ _ _ _) _ _ _ _ => unfold identity_appendAudit
  | |- mspec _ (match ?x with _ => _ end) _ _ _ _ => destruct x
  | |- mspec _ _ _ _ _ _ => mstep
  end; cbv zeta; simpl negb; cbv iota.
Ltac admin_total :=
  apply total_mspec; intros n σ evs Hi _; cbv zeta; repeat admin_step; exact Hi.

Lemma SetCredential_total {signer} ctx req : total (svc_ok (identity_ok signer)) (SetCredential (D := D) ctx req).
Proof. unfold SetCredential. admin_total. Qed.

Lemma set_status_total {signer} action status ctx req :
  total (svc_ok (identity_ok signer)) (set_status (D := D) action status ctx req).
Proof. unfold set_status. admin_total. Qed.

Lemma GetLockout_total {signer} ctx req : total (svc_ok (identity_ok signer)) (GetLockout (D := D) ctx req).
Proof. unfold GetLockout. admin_total. Qed.

Lemma ResetLockout_total {signer} ctx req : total (svc_ok (identity_ok signer)) (ResetLockout (D := D) ctx req).
Proof. unfold ResetLockout. admin_total. Qed.

(** *** The audit service *)

(** It has no database and sees a guard in memory. *)
Definition audit_ok (n : Z) (x : Svc D (AuditState D)) : Prop :=
  db (base x) = None ∧ ∃ g, remoteGuard (st x) = Some g ∧ in_memory g.

Definition returns {A} (m : M (Svc D (AuditState D)) A) : Prop :=
  ∀ x, audit_ok 0 x → ∃ r x', m x = Done r x' ∧ audit_ok 0 x'.

Lemma returns_ret {A} (a : A) : returns (mret a).
Proof. intros x Hx. by exists a, x. Qed.

Lemma returns_bind {A B} (m : M (Svc D (AuditState D)) A) (k : A → M (Svc D (AuditState D)) B) :
  returns m → (∀ a, returns (k a)) → returns (m ≫= k).
Proof.
  intros Hm Hk x Hx. destruct (Hm x Hx) as (a & x1 & E & Hx1). destruct (Hk a x1 Hx1) as (b & x2 & E2 & Hx2).
  exists b, x2. split; [|done]. unfold mbind, M_bind. by rewrite E.
Qed.

Lemma returns_gets {A} (f : Svc D (AuditState D) → A) : returns (gets f).
Proof. intros x Hx. by exists (f x), x. Qed.

Lemma returns_responseMeta meta code reason : returns (responseMeta meta code reason).
Proof. intros x [Hd Hg]. rewrite responseMeta_eq. eexists _, _. split; [reflexivity|]. by split. Qed.

Lemma returns_paginate {A} (items : list A) token size : returns (paginate items token size).
Proof. intros x Hx. rewrite paginate_eq. eexists _, _. by split; [reflexivity|]. Qed.

Lemma returns_no_db {A} (m m' : M (Svc D (AuditState D)) A) :
  returns m' → returns (b ← dbEnabled; if (b : bool) then m else m').
Proof.
  intros Hm x Hx. unfold dbEnabled, mbind, M_bind, gets. destruct Hx as [Hd Hg]. rewrite Hd. by apply Hm.
Qed.

Lemma returns_no_db_neg {A} (m m' : M (Svc D (AuditState D)) A) :
  returns m' → returns (b ← dbEnabled; if negb b then m' else m).
Proof.
  intros Hm x Hx. unfold dbEnabled, mbind, M_bind, gets. destruct Hx as [Hd Hg]. rewrite Hd. by apply Hm.
Qed.

Lemma Activities_eq (g : Svc D GuardState) : in_memory g → ∃ l g', Activities g = Done l g' ∧ in_memory g'.
Proof.
  intros Hg. assert (total (svc_ok any_ok) (Activities (D := D))) as Ht.
  { apply total_mspec. intros n σ evs _ _. unfold Activities. msteps. apply mspec_or_else. msteps.
    destruct (disableInMemoryCache σ); msteps; done. }
  destruct (Ht 0 g (conj Hg I)) as (l & g' & E & Hg' & _); [done|]. by exists l, g'.
Qed.

Lemma returns_guard_Activities : returns guard_Activities.
Proof.
  intros x (Hd & g & Hg & Hm). unfold guard_Activities. rewrite Hg.
  destruct (Activities_eq g Hm) as (l & g' & -> & Hm'). eexists _, _. split; [reflexivity|].
  split; [done|]. by exists g'.
Qed.

Ltac audit_step :=
  lazymatch goal with
  | |- returns (_ ≫= _) => first [apply returns_no_db | apply returns_no_db_neg | apply returns_bind; [|intros ?]]
  | |- returns (mret _) => apply returns_ret
  | |- returns (get_st _) => apply returns_gets
  | |- returns (responseMeta _ _ _) => apply returns_responseMeta
  | |- returns (paginate _ _ _) => apply returns_paginate
  | |- returns guard_Activities => apply returns_guard_Activities
  | |- returns (events_reply _ _ _) => unfold events_reply
  | |- returns (activities_reply _ _ _) => unfold activities_reply
  | |- returns (verify_reply _ _ _ _) => unfold verify_reply
  | |- returns (match ?x with _ => _ end) => destruct x
  end; cbv zeta.

Lemma returns_total {A} (m : M (Svc D (AuditState D)) A) : returns m → total audit_ok m.
Proof. intros Hm n x Hx _. exact (Hm x Hx). Qed.

Lemma ListAuditEvents_total ctx req : total audit_ok (ListAuditEvents (D := D) ctx req).
Proof. apply returns_total. unfold ListAuditEvents; cbv zeta. repeat audit_step. Qed.

Lemma ListRemoteAccessActivities_total ctx req :
  total audit_ok (ListRemoteAccessActivities (D := D) ctx req).
Proof. apply returns_total. unfold ListRemoteAccessActivities; cbv zeta. repeat audit_step. Qed.

Lemma VerifyAuditChain_total ctx req : total audit_ok (VerifyAuditChain (D := D) ctx req).
Proof. apply returns_total. unfold VerifyAuditChain; cbv zeta. repeat audit_step. Qed.
Lemma GetSystemStatus_total req : total (λ _ _, True) (GetSystemStatus (D := D) req).
Proof.
  intros n x _ _. unfold GetSystemStatus, mbind, M_bind. rewrite now_eq. by eexists _, _.
Qed.
End services.

(** A handler is total because the request it serves is. *)
Tactic Notation "by_request" uconstr(lem) := apply (total_forget _ _ _ lem).
Tactic Notation "by_config" uconstr(q) :=
  refine (total_forget _ _ _ (cfg_serve_total q _)); cbn [names_actor]; intros ? [= <-].

(** The operations the server offers, each by the lemma of its service; left is
    that a configuration change names its actor. *)
Ltac op_total :=
  lazymatch goal with
  | |- total _ (GetSystemStatus _) => apply GetSystemStatus_total
  | |- total _ (Login _) => by_request (iserve_total (ILogin (Some _)))
  | |- total _ (Logout _) => by_request (iserve_total (ILogout (Some _)))
  | |- total _ (RefreshToken _) => by_request (iserve_total (IRefresh (Some _)))
  | |- total _ (SetCredential (Some ?ctx) _) => apply SetCredential_total
  | |- total _ (DisableCredential (Some ?ctx) _) => apply set_status_total
  | |- total _ (EnableCredential (Some ?ctx) _) => apply set_status_total
  | |- total _ (GetLockout (Some ?ctx) _) => apply GetLockout_total
  | |- total _ (ResetLockout (Some ?ctx) _) => apply ResetLockout_total
  | |- total _ (GetBalance (Some ?ctx) _) => by_request (serve_total (ReqGetBalance (Some ctx) (Some _)))
  | |- total _ (Deposit (Some ?ctx) _) => by_request (serve_total (ReqDeposit (Some ctx) (Some _)))
  | |- total _ (Withdraw (Some ?ctx) _) => by_request (serve_total (ReqWithdraw (Some ctx) (Some _)))
  | |- total _ (TransferToDevice (Some ?ctx) _) => by_request (serve_total (ReqTransferToDevice (Some ctx) (Some _)))
  | |- total _ (TransferToAccount (Some ?ctx) _) => by_request (serve_total (ReqTransferToAccount (Some ctx) (Some _)))
  | |- total _ (ListTransactions (Some ?ctx) _) => by_request (serve_total (ReqListTransactions (Some ctx) (Some _)))
  | |- total _ (PlaceWager (Some ?ctx) _) => by_request (wserve_total (WPlace (Some ctx) (Some _)))
  | |- total _ (SettleWager (Some ?ctx) _) => by_request (wserve_total (WSettle (Some ctx) (Some _)))
  | |- total _ (CancelWager (Some ?ctx) _) => by_request (wserve_total (WCancel (Some ctx) (Some _)))
  | |- total _ (UpsertEquipment (Some ?ctx) _) => by_request (reg_serve_total (RUpsert (Some ctx) (Some _)))
  | |- total _ (GetEquipment (Some ?ctx) _) => by_request (reg_serve_total (RGet (Some ctx) (Some _)))
  | |- total _ (ListEquipment (Some ?ctx) _) => by_request (reg_serve_total (RList (Some ctx) (Some _)))
  | |- total _ (SubmitSignificantEvent (Some ?ctx) _) => by_request (ev_serve_total (EEvent (Some ctx) (Some _)))
  | |- total _ (SubmitMeterSnapshot (Some ?ctx) _) => by_request (ev_serve_total (ESnapshot (Some ctx) _))
  | |- total _ (SubmitMeterDelta (Some ?ctx) _) => by_request (ev_serve_total (EDelta (Some ctx) _))
  | |- total _ (ListEvents (Some ?ctx) _) => by_request (ev_serve_total (EListEvents (Some ctx) (Some _)))
  | |- total _ (ListMeters (Some ?ctx) _) => by_request (ev_serve_total (EListMeters (Some ctx) (Some _)))
  | |- total _ (GenerateReport (Some ?ctx) _) => by_request (rep_serve_total (QGenerate (Some ctx) (Some _)))
  | |- total _ (ListReportRuns (Some ?ctx) _) => by_request (rep_serve_total (QListRuns (Some ctx) (Some _)))
  | |- total _ (GetReportRun (Some ?ctx) _) => by_request (rep_serve_total (QGetRun (Some ctx) (Some _)))
  | |- total _ (ProposeConfigChange (Some ?ctx) _) => by_config (CPropose (Some ctx) (Some _))
  | |- total _ (ApproveConfigChange (Some ?ctx) _) => by_config (CApprove (Some ctx) (Some _))
  | |- total _ (ApplyConfigChange (Some ?ctx) _) => by_config (CApply (Some ctx) (Some _))
  | |- total _ (ListConfigHistory (Some ?ctx) _) => by_request (cfg_serve_total (CHistory (Some ctx) (Some _)) I)
  | |- total _ (RecordDownloadLibraryChange (Some ?ctx) _) => by_config (CRecord (Some ctx) (Some _))
  | |- total _ (ListDownloadLibraryChanges (Some ?ctx) _) => by_request (cfg_serve_total (CDownloads (Some ctx) (Some _)) I)
  | |- total _ (RecordBonusTransaction (Some ?ctx) _) => by_request (promo_serve_total (PBonus (Some ctx) (Some _)))
  | |- total _ (ListRecentBonusTransactions (Some ?ctx) _) => by_request (promo_serve_total (PListBonus (Some ctx) (Some _)))
  | |- total _ (RecordPromotionalAward (Some ?ctx) _) => by_request (promo_serve_total (PAward (Some ctx) (Some _)))
  | |- total _ (ListPromotionalAwards (Some ?ctx) _) => by_request (promo_serve_total (PListAwards (Some ctx) (Some _)))
  | |- total _ (SubmitSystemWindowEvent (Some ?ctx) _) => by_request (overlay_serve_total (OSubmit (Some ctx) (Some _)))
  | |- total _ (ListSystemWindowEvents (Some ?ctx) _) => by_request (overlay_serve_total (OList (Some ctx) (Some _)))
  | |- total _ (StartSession (Some ?ctx) _) => by_request (sserve_total (SStart (Some ctx) (Some _)))
  | |- total _ (EndSession (Some ?ctx) _) => by_request (sserve_total (SEnd (Some ctx) (Some _)))
  | |- total _ (Sessions.GetSession (Some ?ctx) _) => by_request (sserve_total (SGet (Some ctx) (Some _)))
  | |- total _ (ListAuditEvents (Some ?ctx) _) => apply ListAuditEvents_total
  | |- total _ (ListRemoteAccessActivities (Some ?ctx) _) => apply ListRemoteAccessActivities_total
  | |- total _ (VerifyAuditChain (Some ?ctx) _) => apply VerifyAuditChain_total
  end.

(** ** The server *)

Section server.
Context {D : Type} `{!OS, !TLSLib, !MapOrder, !Wall, !Crypto, !JsonValid, !UnicodeUpper, !Random}.
Context `{!JWT, !Bcrypt, !JsonDecodeMap, !AuditDB D, !LedgerDB D, !WageringDB D, !SessionsDB D}.
Context `{!RegistryDB D, !ConfigDB D, !EventsDB D, !ReportingDB D, !ExtensionsDB D, !RemoteDB D}.
Context `{!AuditQueryDB D, !IdentityDB D}.
Context `{!ProtoJSON DepositResponse, !ProtoJSON WithdrawResponse,
  !ProtoJSON TransferToDeviceResponse, !ProtoJSON TransferToAccountResponse,
  !ProtoJSON PlaceWagerResponse, !ProtoJSON SettleWagerResponse, !ProtoJSON CancelWagerResponse}.
Context `{!Mux, !GwPopulate UpsertEquipmentRequest}.
Context `{!GwMessage ListAuditEventsRequest, !GwMessage ListRemoteAccessActivitiesRequest,
  !GwMessage VerifyAuditChainRequest, !GwMessage ProposeConfigChangeRequest,
  !GwMessage ApproveConfigChangeRequest, !GwMessage ApplyConfigChangeRequest,
  !GwMessage ListConfigHistoryRequest, !GwMessage RecordDownloadLibraryChangeRequest,
  !GwMessage ListDownloadLibraryChangesRequest, !GwMessage SubmitSignificantEventRequest,
  !GwMessage SubmitMeterRequest, !GwMessage ListEventsRequest, !GwMessage ListMetersRequest,
  !GwMessage RecordBonusTransactionRequest, !GwMessage ListRecentBonusTransactionsRequest,
  !GwMessage RecordPromotionalAwardRequest, !GwMessage ListPromotionalAwardsRequest,
  !GwMessage SubmitSystemWindowEventRequest, !GwMessage ListSystemWindowEventsRequest}.
Context `{!GwMessage LoginRequest, !GwMessage TokenRequest, !GwMessage SetCredentialRequest,
  !GwMessage ActorRequest, !GwMessage GetBalanceRequest, !GwMessage DepositRequest,
  !GwMessage WithdrawRequest, !GwMessage TransferToDeviceRequest,
  !GwMessage TransferToAccountRequest, !GwMessage ListTransactionsRequest,
  !GwMessage UpsertEquipmentRequest, !GwMessage GetEquipmentRequest,
  !GwMessage ListEquipmentRequest, !GwMessage GenerateReportRequest,
  !GwMessage ListReportRunsRequest, !GwMessage GetReportRunRequest,
  !GwMessage StartSessionRequest, !GwMessage EndSessionRequest, !GwMessage GetSessionRequest,
  !GwMessage GetSystemStatusRequest, !GwMessage PlaceWagerRequest, !GwMessage SettleWagerRequest,
  !GwMessage CancelWagerRequest}.

Implicit Types (s : Server D).
(** The key that the server signs tokens with. *)
Context (signer : option JWTSigner).

Record server_ok (n : Z) s : Prop := {
  so_guard : in_memory (srv_guard s);
  so_identity : svc_ok (identity_ok signer) n (srv_identity s);
  so_wagering : svc_ok wagering_ok n (srv_wagering s);
  so_sessions : svc_ok sessions_ok n (srv_sessions s);
  so_registry : svc_ok registry_ok n (srv_registry s);
  so_config : svc_ok config_ok n (srv_config s);
  so_promotions : svc_ok promotions_ok n (srv_promotions s);
  so_overlay : svc_ok overlay_ok n (srv_overlay s);
  so_reporting : svc_ok reporting_ok n (srv_reporting s);
  so_audit : db (base (srv_audit s)) = None }.

Lemma svc_ok_mono {S} (I : Z → S → Prop) (x : Svc D S) n m :
  (∀ σ, I n σ → I m σ) → svc_ok I n x → svc_ok I m x.
Proof. intros Hi [Hx Hs]. split; auto. Qed.

Lemma server_ok_mono n m s : server_ok n s → n ≤ m → server_ok m s.
Proof.
  intros [] Hle. split; try done.
  - eapply svc_ok_mono; [|done]. intros σ [? ?]. split; [done|lia].
  - eapply svc_ok_mono; [|done]. intros σ [? ?]. split; [done|lia].
  - eapply svc_ok_mono; [|done]. intros σ (ls & es & Hi). exists ls, es. by eapply rep_inv_weaken.
Qed.

(** The actor a configuration request names itself, which its handler reads
    without a check; [None] for all other RPCs. *)
Definition body_meta (rpc : string) (rq : RestRequest) : option (option RequestMeta) :=
  if decide (rpc = "/rgs.v1.ConfigService/ProposeConfigChange")
  then Some (pc_Meta (gw_decode (rq_body rq) gw_zero).1)
  else if decide (rpc = "/rgs.v1.ConfigService/ApproveConfigChange")
  then Some (ap_Meta (gw_decode (rq_body rq) gw_zero).1)
  else if decide (rpc = "/rgs.v1.ConfigService/ApplyConfigChange")
  then Some (al_Meta (gw_decode (rq_body rq) gw_zero).1)
  else if decide (rpc = "/rgs.v1.ConfigService/RecordDownloadLibraryChange")
  then Some (rd_Meta (gw_decode (rq_body rq) gw_zero).1)
  else None.
Definition named (rpc : string) (rq : RestRequest) : Prop :=
  ∀ meta, body_meta rpc rq = Some meta → carries_actor meta.

(** A configuration change that names its actor; any other request. *)
Definition names_actor_itself (rq : RestRequest) : Prop :=
  ∀ (rt : route (Server D)) params, route_of rq = Some (rt, params) → named (rt_rpc rt) rq.

Definition route_total (rt : route (Server D)) : Prop :=
  ∀ ctx rq params s n, server_ok n s → n < int64_max → named (rt_rpc rt) rq →
    ∃ r s', rt_run rt ctx rq params s = Done r s' ∧ server_ok (n + 1) s'.

Lemma lift_route_total {S A} (ok : Z → Svc D S → Prop) lift method p rpc (h : local_handler S A) :
  (∀ n s m, server_ok n s → n < int64_max → total ok m →
     ∃ r s', lift m s = Done r s' ∧ server_ok (n + 1) s') →
  (∀ ctx rq params, named rpc rq → total ok (h ctx rq params)) →
  route_total (handle method p rpc lift h).
Proof.
  intros Hlift Hh ctx rq params s n Hs Hn Hname.
  destruct (Hlift n s _ Hs Hn (Hh ctx rq params Hname)) as (r & s' & E & Hs').
  eexists _, s'. split; [|done]. unfold handle. cbn [rt_run]. unfold mbind, M_bind. by rewrite E.
Qed.

Lemma zoom_lift {S A} (ok : Z → Svc D S → Prop) get (set : Svc D S → Server D → Server D) :
  (∀ n s, server_ok n s → ok n (get s)) →
  (∀ n s x, server_ok n s → ok n x → server_ok n (set x s)) →
  ∀ n s (m : M (Svc D S) A), server_ok n s → n < int64_max → total ok m →
    ∃ r s', zoom get set m s = Done r s' ∧ server_ok (n + 1) s'.
Proof.
  intros Hget Hset n s m Hs Hn Hm. destruct (Hm n (get s)) as (r & x' & E & Hx'); [auto|done|].
  exists r, (set x' s). unfold zoom. rewrite E. split; [done|]. apply Hset; [|done].
  eapply server_ok_mono; [done|lia].
Qed.

Lemma ledger_lift {A} n s (m : M (Svc D LedgerState) A) :
  server_ok n s → n < int64_max → total (svc_ok ledger_ok) m →
  ∃ r s', on_ledger_srv m s = Done r s' ∧ server_ok (n + 1) s'.
Proof.
  intros Hs Hn Hm. destruct (so_reporting _ _ Hs) as [Hmem (ls & es & Hi)].
  destruct (Hm n ls) as (r & ls' & E & Hml & Hb & Hle);
    [split; [apply Hi|split; [apply Hi|apply Hi]]|done|].
  eexists r, _. split.
  { unfold on_ledger_srv, on_reporting, zoom, on_ledger, mbind, M_bind.
    rewrite (ri_ledger _ _ _ _ Hi), E. reflexivity. }
  destruct (server_ok_mono _ (n + 1) _ Hs) as []; [lia|]. split; try done.
  split; [destruct Hmem; by split|]. exists ls', es.
  destruct (rep_inv_weaken _ _ _ (n + 1) _ Hi) as []; [lia|]. by split.
Qed.

Lemma events_lift {A} n s (m : M (Svc D EventsState) A) :
  server_ok n s → n < int64_max → total (svc_ok events_ok) m →
  ∃ r s', on_events_srv m s = Done r s' ∧ server_ok (n + 1) s'.
Proof.
  intros Hs Hn Hm. destruct (so_reporting _ _ Hs) as [Hmem (ls & es & Hi)].
  destruct (Hm n es) as (r & es' & E & Hml & Hb & Hle);
    [split; [apply Hi|split; [apply Hi|apply Hi]]|done|].
  eexists r, _. split.
  { unfold on_events_srv, on_reporting, zoom, on_events, mbind, M_bind.
    rewrite (ri_events _ _ _ _ Hi), E. reflexivity. }
  destruct (server_ok_mono _ (n + 1) _ Hs) as []; [lia|]. split; try done.
  split; [destruct Hmem; by split|]. exists ls, es'.
  destruct (rep_inv_weaken _ _ _ (n + 1) _ Hi) as []; [lia|]. by split.
Qed.

Lemma audit_lift {A} n s (m : M (Svc D (AuditState D)) A) :
  server_ok n s → n < int64_max → total audit_ok m →
  ∃ r s', on_audit m s = Done r s' ∧ server_ok (n + 1) s'.
Proof.
  apply zoom_lift.
  - intros k x Hx. split; [apply Hx|]. exists (srv_guard x). split; [done|apply Hx].
  - intros k x y Hx (Hd & g & Hg & Hm). destruct Hx. split; try done. simpl. by rewrite Hg.
Qed.

(** The invariants only get weaker. *)
Lemma fixed_mono {S} (I : Z → S → Prop) n (x : Svc D S) :
  (∀ σ, I n σ → I (n + 1) σ) → svc_ok I n x → svc_ok I (n + 1) x.
Proof. apply svc_ok_mono. Qed.

Lemma bounded_mono {S} (P : S → Prop) (next : S → Z) n (x : Svc D S) :
  svc_ok (λ n σ, P σ ∧ next σ ≤ n) n x → svc_ok (λ n σ, P σ ∧ next σ ≤ n) (n + 1) x.
Proof. apply svc_ok_mono. intros σ [? ?]. split; [done|lia]. Qed.

Lemma reporting_mono n (x : Svc D (ReportingState D)) :
  svc_ok reporting_ok n x → svc_ok reporting_ok (n + 1) x.
Proof.
  apply svc_ok_mono. intros σ (ls & es & Hi). exists ls, es. eapply rep_inv_weaken; [done|lia].
Qed.

Ltac solve_mono :=
  intros ? ?; first [exact id | by apply fixed_mono | apply bounded_mono | apply reporting_mono].
Ltac local_total :=
  intros ctx rq params Hname;
  repeat first
    [apply total_decode_body; [solve_mono|intros q Hq]
    |apply total_path_param; [solve_mono|intros v]
    |apply total_populate; [solve_mono|intros q']
    |apply total_query_params; [solve_mono|intros q]];
  apply total_call; op_total; subst; by apply Hname.

Ltac service_lift := apply zoom_lift; [intros k x Hx; apply Hx|intros k x y [] Hy; by split].
Ltac split_routes lift :=
  repeat (apply Forall_cons; split); [..|apply Forall_nil; done];
  (eapply lift_route_total; [lift|local_total]).

Lemma api_total : Forall route_total api.
Proof.
  unfold api. repeat (apply Forall_app; split).
  - unfold RegisterSystemServiceHandlerServer. split_routes ltac:(apply (zoom_lift (λ _ _, True)); [done|intros k x y [] _; by split]).
  - unfold RegisterIdentityServiceHandlerServer. split_routes ltac:(service_lift).
  - unfold RegisterLedgerServiceHandlerServer. split_routes ltac:(apply ledger_lift).
  - unfold RegisterWageringServiceHandlerServer. split_routes ltac:(service_lift).
  - unfold RegisterRegistryServiceHandlerServer. split_routes ltac:(service_lift).
  - unfold RegisterEventsServiceHandlerServer. split_routes ltac:(apply events_lift).
  - unfold RegisterReportingServiceHandlerServer. split_routes ltac:(service_lift).
  - unfold RegisterConfigServiceHandlerServer. split_routes ltac:(service_lift).
  - unfold RegisterPromotionsServiceHandlerServer. split_routes ltac:(service_lift).
  - unfold RegisterUISystemOverlayServiceHandlerServer. split_routes ltac:(service_lift).
  - unfold RegisterSessionsServiceHandlerServer. split_routes ltac:(service_lift).
  - unfold RegisterAuditServiceHandlerServer. split_routes ltac:(apply audit_lift).
Qed.

(** *** The HTTP chain *)

Lemma on_guard_ok {A} (m : M (Svc D GuardState) A) n s :
  (∀ σ evs, mspec (λ _, True) m false σ evs (λ _ _ _, True)) → server_ok n s →
  ∃ r s', on_guard m s = Done r s' ∧ server_ok n s'.
Proof.
  intros Hm Hs.
  destruct (mspec_call (λ _, True) m (srv_guard s) _ (so_guard _ _ Hs) (λ _, Logic.I) (Hm _ _))
    as (r & g & E & Hg & _).
  exists r, (s <| srv_guard := g |>). unfold on_guard, zoom. rewrite E. split; [done|].
  destruct Hs. by split.
Qed.

Lemma gateway_total rq ctx n s :
  server_ok n s → n < int64_max →
  names_actor_itself rq →
  ∃ codes s', gateway rq ctx s = Done codes s' ∧ server_ok (n + 1) s'.
Proof.
  intros Hs Hn Hname. assert (server_ok (n + 1) s) as Hs1 by (eapply server_ok_mono; [done|lia]).
  unfold gateway. destruct (route_of rq) as [[rt params]|] eqn:Hr; [|by eexists _, _].
  destruct (AnnotateIncomingContext rq) as [c|]; [by eexists _, _|].
  assert (route_total rt) as Hrt.
  { pose proof api_total as Hall. rewrite Forall_forall in Hall. apply Hall. by eapply route_of_elem. }
  destruct (Hrt ctx rq params s n Hs Hn (Hname rt params Hr)) as (r & s' & E & Hs').
  eexists _, s'. split; [|done]. unfold mbind, M_bind. by rewrite E.
Qed.

Lemma serve_http_total rq n s :
  server_ok n s → n < int64_max →
  names_actor_itself rq →
  ∃ res s', serve_http rq s = Done res s' ∧ server_ok (n + 1) s'.
Proof.
  intros Hs Hn Hname. assert (server_ok (n + 1) s) as Hs' by (eapply server_ok_mono; [done|lia]).
  unfold serve_http. destruct (_ && _); [by eexists _, _|]. case_decide; [by eexists _, _|].
  case_decide; [by eexists _, _|].
  assert (∀ k x, server_ok k x → ∃ t x', on_guard time_Now x = Done t x' ∧ server_ok k x') as Htime.
  { intros k x Hx. apply on_guard_ok; [|done]. intros σ evs. by mstep. }
  destruct (on_guard_ok (Wrap (rq_http rq)) n s) as (out & s1 & E1 & Hs1); 
    [intros σ evs; eapply mspec_mono; [apply Wrap_spec|done]|done|].
  unfold gets, serve_chain, mbind, M_bind. rewrite E1. destruct out; [|eexists _, _; split; [done|];
    eapply server_ok_mono; [done|lia]].
  destruct (Htime _ _ Hs1) as (t2 & s2 & -> & Hs2). destruct (Htime _ _ Hs2) as (t3 & s3 & -> & Hs3).
  set (m := match HTTPJWTMiddlewareWithSkips _ _ _ _ _ _ with Pass _ => _ | Refuse _ => _ end).
  assert (∃ r s4, m s3 = Done r s4 ∧ server_ok (n + 1) s4) as ([codes served] & s4 & -> & Hs4).
  { unfold m. destruct (HTTPJWTMiddlewareWithSkips _ _ _ _ _ _) as [ctx|msg].
    - destruct (gateway_total rq ctx n s3 Hs3 Hn Hname) as (codes & s4 & -> & Hs4). by eexists _, _.
    - eexists _, _. split; [done|]. eapply server_ok_mono; [done|lia]. }
  destruct (Htime _ _ Hs4) as (t5 & s5 & -> & Hs5). destruct (Htime _ _ Hs5) as (t6 & s6 & -> & Hs6).
  destruct (perform _). by eexists _, _.
Qed.

(** ** Runs *)

(** A server that started without a database. *)
Lemma started_server_ok open_db listen env t w srv w' :
  start open_db listen env t w = Done (inl srv) w' → c_databaseURL (srv_settings srv) = "" →
  signer = Some (ks_signer (srv_keys srv)) → server_ok 0 srv.
Proof.
  intros (c & keys & k & d & _ & Hv & _ & _ & _ & _ & Hd & _ & Hs)%start_spec.
  rewrite (sd_settings _ _ _ _ _ Hs), (sd_keys _ _ _ _ _ Hs). intros Hdb Hsig.
  assert (d = None) as -> by by apply Hd.
  assert (c_strict c = false) as Hstrict.
  { destruct (c_strict c); [|done]. rewrite Hdb in Hv. unfold validateProductionRuntime in Hv.
    simpl in Hv. done. }
  destruct Hs as [_ _ _ (σ & Hid & Hσ) Hrep Hwag Hreg Hcfg Hpro Hov Hses (g & Hg & _) [Ha _]].
  rewrite Hstrict in *. split; [rewrite Hg; apply fresh_in_memory|..|exact Ha].
  all: (rewrite ?Hid, ?Hrep, ?Hwag, ?Hreg, ?Hcfg, ?Hpro, ?Hov, ?Hses; split; [apply fresh_in_memory|]).
  - rewrite Hsig. apply Hσ.
  - split; [apply winv_new|done].
  - split; [done|]. intros id x. simpl. by rewrite lookup_empty.
  - apply reg_inv_new.
  - split; [|done]. exists []. destruct cfg_inv_new. by split.
  - done.
  - done.
  - eexists _, _. split; try done; simpl; try apply fresh_in_memory;
      [apply no_books_inv|apply ev_inv_new|apply store_ok_empty].
Qed.

(** Any run of requests is answered. *)
Lemma serve_rest_total rqs n s :
  server_ok n s → n + Z.of_nat (length rqs) ≤ int64_max → (∀ rq, rq ∈ rqs → names_actor_itself rq) →
  ∃ rs s', serve_rest rqs s = Done rs s' ∧ length rs = length rqs
    ∧ server_ok (n + Z.of_nat (length rqs)) s'.
Proof.
  revert n s. induction rqs as [|rq rqs IH]; intros n s Hs Hlen Hn; cbn [serve_rest length] in *.
  { exists [], s. rewrite Z.add_0_r. done. }
  destruct (serve_http_total rq n s Hs) as (res & s1 & E & Hs1); [lia|apply Hn; by left|].
  destruct (IH (n + 1) s1 Hs1) as (rs & s2 & Es & Hl & Hs2); [lia|intros; apply Hn; by right|].
  exists (res :: rs), s2. unfold mbind, M_bind. rewrite E, Es. split; [done|]. split; [simpl; congruence|].
  by replace (n + Z.of_nat (S (length rqs))) with (n + 1 + Z.of_nat (length rqs)) by lia.
Qed.
End server.
