(* ===== verification/Grpc.v ===== *)
(** * The gRPC face of the server (gen/rgs/v1/*_grpc.pb.go, cmd/rgsd/main.go)

    The methods of the twelve services as the generated descriptions register
    them, the two interceptors [main] chains in front of them, and what the
    server does with one call.  The gRPC library itself (the wire format, the
    health service, the answer to an unknown method) is an interface. *)

From S2P Require Import Prelude GoTime GoJson GoNet GoBytes GoJsonRead GoDuration AuditTrail Service Listing.
From S2P Require Import Ledger Wagering Sessions Registry Config Events Reporting Extensions RemoteAccess.
From S2P Require Import AuditService Auth Identity Attestation Startup Metrics Server Gateway.
From Stdlib Require Import Ascii.

(** A call: the full method name, the authorization values of its metadata
    (none if there is no metadata), and the encoded message. *)
Record GrpcCall := mkGrpcCall {
  gc_method : string; gc_metadata : option (list string); gc_message : string }.

(** The codec, for one request message. *)
Class GrpcMessage (Req : Type) := grpc_decode : string → option Req.

(** What the library answers itself: to a method nobody registered, to a message
    that cannot be decoded, and the health service: whether it knows the service
    that a [Check] asks for and whether a [List] is small enough to be sent (none
    if the message cannot be decoded), and the code a [Watch] ends with. *)
Class GrpcLib := {
  no_method : GrpcCall → Code;
  bad_message : Code;
  health_Check : string → option bool;
  health_List : string → option bool;
  health_Watch : string → Code }.

(** A [grpc.MethodDesc]: the request message, how it is decoded, and the
    service's method. *)
Record grpc_method (St : Type) := mkMethod {
  gm_name : string; gm_Req : Type; gm_decode : string → option gm_Req;
  gm_call : Context → gm_Req → M St () }.
Global Arguments mkMethod {St}.
Global Arguments gm_name {St}.
Global Arguments gm_Req {St}.
Global Arguments gm_decode {St}.
Global Arguments gm_call {St}.

(** What a call did: the code it was answered with, the context its method ran
    with, and the metrics. *)
Record grpc_result := mkGrpcResult {
  gr_code : Code; gr_served : option Context; gr_ops : list metric_op }.

Section grpc.
Context {D : Type} `{!OS, !TLSLib, !MapOrder, !Wall, !Crypto, !JsonValid, !UnicodeUpper, !Random}.
Context `{!JWT, !Bcrypt, !JsonDecodeMap, !AuditDB D, !LedgerDB D, !WageringDB D, !SessionsDB D}.
Context `{!RegistryDB D, !ConfigDB D, !EventsDB D, !ReportingDB D, !ExtensionsDB D, !RemoteDB D}.
Context `{!AuditQueryDB D, !IdentityDB D}.
Context `{!ProtoJSON DepositResponse, !ProtoJSON WithdrawResponse,
  !ProtoJSON TransferToDeviceResponse, !ProtoJSON TransferToAccountResponse,
  !ProtoJSON PlaceWagerResponse, !ProtoJSON SettleWagerResponse, !ProtoJSON CancelWagerResponse}.
Context `{!GrpcMessage GetSystemStatusRequest, !GrpcMessage LoginRequest,
  !GrpcMessage TokenRequest, !GrpcMessage SetCredentialRequest, !GrpcMessage ActorRequest,
  !GrpcMessage GetBalanceRequest, !GrpcMessage DepositRequest, !GrpcMessage WithdrawRequest,
  !GrpcMessage TransferToDeviceRequest, !GrpcMessage TransferToAccountRequest,
  !GrpcMessage ListTransactionsRequest, !GrpcMessage PlaceWagerRequest,
  !GrpcMessage SettleWagerRequest, !GrpcMessage CancelWagerRequest,
  !GrpcMessage UpsertEquipmentRequest, !GrpcMessage GetEquipmentRequest,
  !GrpcMessage ListEquipmentRequest, !GrpcMessage SubmitSignificantEventRequest,
  !GrpcMessage SubmitMeterRequest, !GrpcMessage ListEventsRequest, !GrpcMessage ListMetersRequest,
  !GrpcMessage GenerateReportRequest, !GrpcMessage ListReportRunsRequest,
  !GrpcMessage GetReportRunRequest, !GrpcMessage ProposeConfigChangeRequest,
  !GrpcMessage ApproveConfigChangeRequest, !GrpcMessage ApplyConfigChangeRequest,
  !GrpcMessage ListConfigHistoryRequest, !GrpcMessage RecordDownloadLibraryChangeRequest,
  !GrpcMessage ListDownloadLibraryChangesRequest, !GrpcMessage RecordBonusTransactionRequest,
  !GrpcMessage ListRecentBonusTransactionsRequest, !GrpcMessage RecordPromotionalAwardRequest,
  !GrpcMessage ListPromotionalAwardsRequest, !GrpcMessage SubmitSystemWindowEventRequest,
  !GrpcMessage ListSystemWindowEventsRequest, !GrpcMessage StartSessionRequest,
  !GrpcMessage EndSessionRequest, !GrpcMessage GetSessionRequest,
  !GrpcMessage ListAuditEventsRequest, !GrpcMessage ListRemoteAccessActivitiesRequest,
  !GrpcMessage VerifyAuditChainRequest}.
Context `{!GrpcLib}.

Notation SM := (M (Server D)).

(** The generated handlers: decode into a new message, then call the service
    through the interceptors. *)
Definition unary {S Req A} `{!GrpcMessage Req} (name : string)
    (lift : M (Svc D S) A → SM A) (f : Context → Req → M (Svc D S) A) : grpc_method (Server D) :=
  mkMethod name Req grpc_decode (λ ctx q, _ ← lift (f ctx q); mret ()).

Definition SystemService_ServiceDesc : list (grpc_method (Server D)) :=
  [unary "/rgs.v1.SystemService/GetSystemStatus" on_system (λ ctx (q : GetSystemStatusRequest),
     GetSystemStatus (Some q))].

Definition IdentityService_ServiceDesc : list (grpc_method (Server D)) :=
  [unary "/rgs.v1.IdentityService/Login" on_identity (λ ctx (q : LoginRequest),
     Login (Some q));
   unary "/rgs.v1.IdentityService/Logout" on_identity (λ ctx (q : TokenRequest),
     Logout (Some q));
   unary "/rgs.v1.IdentityService/RefreshToken" on_identity (λ ctx (q : TokenRequest),
     RefreshToken (Some q));
   unary "/rgs.v1.IdentityService/SetCredential" on_identity (λ ctx (q : SetCredentialRequest),
     SetCredential (Some ctx) (Some q));
   unary "/rgs.v1.IdentityService/DisableCredential" on_identity (λ ctx (q : ActorRequest),
     DisableCredential (Some ctx) (Some q));
   unary "/rgs.v1.IdentityService/EnableCredential" on_identity (λ ctx (q : ActorRequest),
     EnableCredential (Some ctx) (Some q));
   unary "/rgs.v1.IdentityService/GetLockout" on_identity (λ ctx (q : ActorRequest),
     GetLockout (Some ctx) (Some q));
   unary "/rgs.v1.IdentityService/ResetLockout" on_identity (λ ctx (q : ActorRequest),
     ResetLockout (Some ctx) (Some q))].

Definition LedgerService_ServiceDesc : list (grpc_method (Server D)) :=
  [unary "/rgs.v1.LedgerService/GetBalance" on_ledger_srv (λ ctx (q : GetBalanceRequest),
     GetBalance (Some ctx) (Some q));
   unary "/rgs.v1.LedgerService/Deposit" on_ledger_srv (λ ctx (q : DepositRequest),
     Deposit (Some ctx) (Some q));
   unary "/rgs.v1.LedgerService/Withdraw" on_ledger_srv (λ ctx (q : WithdrawRequest),
     Withdraw (Some ctx) (Some q));
   unary "/rgs.v1.LedgerService/TransferToDevice" on_ledger_srv (λ ctx (q : TransferToDeviceRequest),
     TransferToDevice (Some ctx) (Some q));
   unary "/rgs.v1.LedgerService/TransferToAccount" on_ledger_srv (λ ctx (q : TransferToAccountRequest),
     TransferToAccount (Some ctx) (Some q));
   unary "/rgs.v1.LedgerService/ListTransactions" on_ledger_srv (λ ctx (q : ListTransactionsRequest),
     ListTransactions (Some ctx) (Some q))].

Definition WageringService_ServiceDesc : list (grpc_method (Server D)) :=
  [unary "/rgs.v1.WageringService/PlaceWager" on_wagering (λ ctx (q : PlaceWagerRequest),
     PlaceWager (Some ctx) (Some q));
   unary "/rgs.v1.WageringService/SettleWager" on_wagering (λ ctx (q : SettleWagerRequest),
     SettleWager (Some ctx) (Some q));
   unary "/rgs.v1.WageringService/CancelWager" on_wagering (λ ctx (q : CancelWagerRequest),
     CancelWager (Some ctx) (Some q))].

Definition RegistryService_ServiceDesc : list (grpc_method (Server D)) :=
  [unary "/rgs.v1.RegistryService/UpsertEquipment" on_registry (λ ctx (q : UpsertEquipmentRequest),
     UpsertEquipment (Some ctx) (Some q));
   unary "/rgs.v1.RegistryService/GetEquipment" on_registry (λ ctx (q : GetEquipmentRequest),
     GetEquipment (Some ctx) (Some q));
   unary "/rgs.v1.RegistryService/ListEquipment" on_registry (λ ctx (q : ListEquipmentRequest),
     ListEquipment (Some ctx) (Some q))].

Definition EventsService_ServiceDesc : list (grpc_method (Server D)) :=
  [unary "/rgs.v1.EventsService/SubmitSignificantEvent" on_events_srv (λ ctx (q : SubmitSignificantEventRequest),
     SubmitSignificantEvent (Some ctx) (Some q));
   unary "/rgs.v1.EventsService/SubmitMeterSnapshot" on_events_srv (λ ctx (q : SubmitMeterRequest),
     SubmitMeterSnapshot (Some ctx) (Some q));
   unary "/rgs.v1.EventsService/SubmitMeterDelta" on_events_srv (λ ctx (q : SubmitMeterRequest),
     SubmitMeterDelta (Some ctx) (Some q));
   unary "/rgs.v1.EventsService/ListEvents" on_events_srv (λ ctx (q : ListEventsRequest),
     ListEvents (Some ctx) (Some q));
   unary "/rgs.v1.EventsService/ListMeters" on_events_srv (λ ctx (q : ListMetersRequest),
     ListMeters (Some ctx) (Some q))].

Definition ReportingService_ServiceDesc : list (grpc_method (Server D)) :=
  [unary "/rgs.v1.ReportingService/GenerateReport" on_reporting (λ ctx (q : GenerateReportRequest),
     GenerateReport (Some ctx) (Some q));
   unary "/rgs.v1.ReportingService/ListReportRuns" on_reporting (λ ctx (q : ListReportRunsRequest),
     ListReportRuns (Some ctx) (Some q));
   unary "/rgs.v1.ReportingService/GetReportRun" on_reporting (λ ctx (q : GetReportRunRequest),
     GetReportRun (Some ctx) (Some q))].

Definition ConfigService_ServiceDesc : list (grpc_method (Server D)) :=
  [unary "/rgs.v1.ConfigService/ProposeConfigChange" on_config (λ ctx (q : ProposeConfigChangeRequest),
     ProposeConfigChange (Some ctx) (Some q));
   unary "/rgs.v1.ConfigService/ApproveConfigChange" on_config (λ ctx (q : ApproveConfigChangeRequest),
     ApproveConfigChange (Some ctx) (Some q));
   unary "/rgs.v1.ConfigService/ApplyConfigChange" on_config (λ ctx (q : ApplyConfigChangeRequest),
     ApplyConfigChange (Some ctx) (Some q));
   unary "/rgs.v1.ConfigService/ListConfigHistory" on_config (λ ctx (q : ListConfigHistoryRequest),
     ListConfigHistory (Some ctx) (Some q));
   unary "/rgs.v1.ConfigService/RecordDownloadLibraryChange" on_config (λ ctx (q : RecordDownloadLibraryChangeRequest),
     RecordDownloadLibraryChange (Some ctx) (Some q));
   unary "/rgs.v1.ConfigService/ListDownloadLibraryChanges" on_config (λ ctx (q : ListDownloadLibraryChangesRequest),
     ListDownloadLibraryChanges (Some ctx) (Some q))].

Definition PromotionsService_ServiceDesc : list (grpc_method (Server D)) :=
  [unary "/rgs.v1.PromotionsService/RecordBonusTransaction" on_promotions (λ ctx (q : RecordBonusTransactionRequest),
     RecordBonusTransaction (Some ctx) (Some q));
   unary "/rgs.v1.PromotionsService/ListRecentBonusTransactions" on_promotions (λ ctx (q : ListRecentBonusTransactionsRequest),
     ListRecentBonusTransactions (Some ctx) (Some q));
   unary "/rgs.v1.PromotionsService/RecordPromotionalAward" on_promotions (λ ctx (q : RecordPromotionalAwardRequest),
     RecordPromotionalAward (Some ctx) (Some q));
   unary "/rgs.v1.PromotionsService/ListPromotionalAwards" on_promotions (λ ctx (q : ListPromotionalAwardsRequest),
     ListPromotionalAwards (Some ctx) (Some q))].

Definition UISystemOverlayService_ServiceDesc : list (grpc_method (Server D)) :=
  [unary "/rgs.v1.UISystemOverlayService/SubmitSystemWindowEvent" on_overlay (λ ctx (q : SubmitSystemWindowEventRequest),
     SubmitSystemWindowEvent (Some ctx) (Some q));
   unary "/rgs.v1.UISystemOverlayService/ListSystemWindowEvents" on_overlay (λ ctx (q : ListSystemWindowEventsRequest),
     ListSystemWindowEvents (Some ctx) (Some q))].

Definition SessionsService_ServiceDesc : list (grpc_method (Server D)) :=
  [unary "/rgs.v1.SessionsService/StartSession" on_sessions (λ ctx (q : StartSessionRequest),
     StartSession (Some ctx) (Some q));
   unary "/rgs.v1.SessionsService/EndSession" on_sessions (λ ctx (q : EndSessionRequest),
     EndSession (Some ctx) (Some q));
   unary "/rgs.v1.SessionsService/GetSession" on_sessions (λ ctx (q : GetSessionRequest),
     Sessions.GetSession (Some ctx) (Some q))].

Definition AuditService_ServiceDesc : list (grpc_method (Server D)) :=
  [unary "/rgs.v1.AuditService/ListAuditEvents" on_audit (λ ctx (q : ListAuditEventsRequest),
     ListAuditEvents (Some ctx) (Some q));
   unary "/rgs.v1.AuditService/ListRemoteAccessActivities" on_audit (λ ctx (q : ListRemoteAccessActivitiesRequest),
     ListRemoteAccessActivities (Some ctx) (Some q));
   unary "/rgs.v1.AuditService/VerifyAuditChain" on_audit (λ ctx (q : VerifyAuditChainRequest),
     VerifyAuditChain (Some ctx) (Some q))].

(** Everything [main] registers but the health service, in its order. *)
Definition grpc_api : list (grpc_method (Server D)) :=
  SystemService_ServiceDesc ++ IdentityService_ServiceDesc ++ LedgerService_ServiceDesc
  ++ WageringService_ServiceDesc ++ RegistryService_ServiceDesc ++ EventsService_ServiceDesc
  ++ ReportingService_ServiceDesc ++ ConfigService_ServiceDesc ++ PromotionsService_ServiceDesc
  ++ UISystemOverlayService_ServiceDesc ++ SessionsService_ServiceDesc ++ AuditService_ServiceDesc.

(** [grpc.ChainUnaryInterceptor(UnaryMetricsInterceptor(metrics),
    UnaryJWTInterceptor(jwtVerifier, ...))] around a handler; a panic of the
    metrics is not recovered. *)
Definition grpc_chain (c : GrpcCall) (handler : Context → SM Code) : SM grpc_result :=
  started ← on_guard time_Now;
  v ← gets (λ s, ks_verifier (srv_keys s));
  t ← on_guard time_Now;
  '(code, served) ←
    match UnaryJWTInterceptor v grpc_open t (gc_method c) (gc_metadata c) (mkContext None) with
    | Refuse _ => mret (Unauthenticated, None)
    | Pass ctx => code ← handler ctx; mret (code, Some ctx)
    end;
  ended ← on_guard time_Now;
  let '(ops, panicked) := perform (UnaryMetricsInterceptor (gc_method c) code started ended) in
  if (panicked : bool) then panic else mret (mkGrpcResult code served ops).

Definition find_method (name : string) : option (grpc_method (Server D)) :=
  snd <$> list_find (λ gm, gm_name gm = name) grpc_api.

(** [grpcServer] on one call: the message is decoded before the interceptors
    run.  The health service has two unary methods, of which only [Check] is
    open, and one that streams and does not pass the unary interceptors. *)
Definition serve_grpc (c : GrpcCall) : SM grpc_result :=
  let own code := mret (mkGrpcResult code None []) in
  match find_method (gc_method c) with
  | Some gm =>
      match gm_decode gm (gc_message c) with
      | None => own bad_message
      | Some q => grpc_chain c (λ ctx, _ ← gm_call gm ctx q; mret OK)
      end
  | None =>
      if decide (gc_method c = "/grpc.health.v1.Health/Check") then
        match health_Check (gc_message c) with
        | None => own bad_message
        | Some known => grpc_chain c (λ _, mret (if (known : bool) then OK else NotFound))
        end
      else if decide (gc_method c = "/grpc.health.v1.Health/List") then
        match health_List (gc_message c) with
        | None => own bad_message
        | Some fits => grpc_chain c (λ _, mret (if (fits : bool) then OK else ResourceExhausted))
        end
      else if decide (gc_method c = "/grpc.health.v1.Health/Watch")
      then own (health_Watch (gc_message c))
      else own (no_method c)
  end.
End grpc.
