(* ===== verification/GrpcProofs.v ===== *)
(** * What the gRPC face guarantees

    Parity with the REST interface, which calls are served, what they can do to
    the books, and that they are all answered. *)

From S2P Require Import Prelude GoTime GoJson GoNet GoBytes GoJsonRead GoDuration AuditTrail Service Listing.
From S2P Require Import Ledger LedgerSpec LedgerMem LedgerProofs LedgerTheorems Wagering WageringProofs.
From S2P Require Import Sessions SessionsProofs Registry RegistryProofs Config ConfigProofs Events EventsProofs.
From S2P Require Import Reporting ReportingProofs Extensions ExtensionsProofs RemoteAccess RemoteAccessProofs.
From S2P Require Import AuditService AuditProofs Auth AuthProofs Identity IdentityProofs Attestation AttestationProofs.
From S2P Require Import Startup StartupProofs Metrics MetricsProofs Server ServerProofs Gateway GatewayProofs Env.
From S2P Require Import Answered Grpc.
From Stdlib Require Import Ascii.

Section grpc.
Context {D : Type} `{!OS, !TLSLib, !MapOrder, !Wall, !Crypto, !JsonValid, !UnicodeUpper, !Random}.
Context `{!JWT, !Bcrypt, !JsonDecodeMap, !AuditDB D, !LedgerDB D, !WageringDB D, !SessionsDB D}.
Context `{!RegistryDB D, !ConfigDB D, !EventsDB D, !ReportingDB D, !ExtensionsDB D, !RemoteDB D}.
Context `{!AuditQueryDB D, !IdentityDB D}.
Context `{!ProtoJSON DepositResponse, !ProtoJSON WithdrawResponse,
  !ProtoJSON TransferToDeviceResponse, !ProtoJSON TransferToAccountResponse,
  !ProtoJSON PlaceWagerResponse, !ProtoJSON SettleWagerResponse, !ProtoJSON CancelWagerResponse}.
Context `{!Mux, !GwPopulate UpsertEquipmentRequest}.
Context `{!GwMessage ListAuditEventsRequest, !GwMessage ListRemoteAccessActivitiesRequest,
  !GwMessage VerifyAuditChainRequest, !GwMessage ProposeConfigChangeRequest,
  !GwMessage ApproveConfigChangeRequest, !GwMessage ApplyConfigChangeRequest,
  !GwMessage ListConfigHistoryRequest, !GwMessage RecordDownloadLibraryChangeRequest,
  !GwMessage ListDownloadLibraryChangesRequest, !GwMessage SubmitSignificantEventRequest,
  !GwMessage SubmitMeterRequest, !GwMessage ListEventsRequest, !GwMessage ListMetersRequest,
  !GwMessage RecordBonusTransactionRequest, !GwMessage ListRecentBonusTransactionsRequest,
  !GwMessage RecordPromotionalAwardRequest, !GwMessage ListPromotionalAwardsRequest,
  !GwMessage SubmitSystemWindowEventRequest, !GwMessage ListSystemWindowEventsRequest}.
Context `{!GwMessage LoginRequest, !GwMessage TokenRequest, !GwMessage SetCredentialRequest,
  !GwMessage ActorRequest, !GwMessage GetBalanceRequest, !GwMessage DepositRequest,
  !GwMessage WithdrawRequest, !GwMessage TransferToDeviceRequest,
  !GwMessage TransferToAccountRequest, !GwMessage ListTransactionsRequest,
  !GwMessage UpsertEquipmentRequest, !GwMessage GetEquipmentRequest,
  !GwMessage ListEquipmentRequest, !GwMessage GenerateReportRequest,
  !GwMessage ListReportRunsRequest, !GwMessage GetReportRunRequest,
  !GwMessage StartSessionRequest, !GwMessage EndSessionRequest, !GwMessage GetSessionRequest,
  !GwMessage GetSystemStatusRequest, !GwMessage PlaceWagerRequest, !GwMessage SettleWagerRequest,
  !GwMessage CancelWagerRequest}.
Context `{!GrpcMessage GetSystemStatusRequest, !GrpcMessage LoginRequest,
  !GrpcMessage TokenRequest, !GrpcMessage SetCredentialRequest, !GrpcMessage ActorRequest,
  !GrpcMessage GetBalanceRequest, !GrpcMessage DepositRequest, !GrpcMessage WithdrawRequest,
  !GrpcMessage TransferToDeviceRequest, !GrpcMessage TransferToAccountRequest,
  !GrpcMessage ListTransactionsRequest, !GrpcMessage PlaceWagerRequest,
  !GrpcMessage SettleWagerRequest, !GrpcMessage CancelWagerRequest,
  !GrpcMessage UpsertEquipmentRequest, !GrpcMessage GetEquipmentRequest,
  !GrpcMessage ListEquipmentRequest, !GrpcMessage SubmitSignificantEventRequest,
  !GrpcMessage SubmitMeterRequest, !GrpcMessage ListEventsRequest, !GrpcMessage ListMetersRequest,
  !GrpcMessage GenerateReportRequest, !GrpcMessage ListReportRunsRequest,
  !GrpcMessage GetReportRunRequest, !GrpcMessage ProposeConfigChangeRequest,
  !GrpcMessage ApproveConfigChangeRequest, !GrpcMessage ApplyConfigChangeRequest,
  !GrpcMessage ListConfigHistoryRequest, !GrpcMessage RecordDownloadLibraryChangeRequest,
  !GrpcMessage ListDownloadLibraryChangesRequest, !GrpcMessage RecordBonusTransactionRequest,
  !GrpcMessage ListRecentBonusTransactionsRequest, !GrpcMessage RecordPromotionalAwardRequest,
  !GrpcMessage ListPromotionalAwardsRequest, !GrpcMessage SubmitSystemWindowEventRequest,
  !GrpcMessage ListSystemWindowEventsRequest, !GrpcMessage StartSessionRequest,
  !GrpcMessage EndSessionRequest, !GrpcMessage GetSessionRequest,
  !GrpcMessage ListAuditEventsRequest, !GrpcMessage ListRemoteAccessActivitiesRequest,
  !GrpcMessage VerifyAuditChainRequest}.
Context `{!GrpcLib}.

Implicit Types (s : Server D).
(** The key that the server signs tokens with. *)
Context (signer : option JWTSigner).

(** ** Parity with REST *)

(** The reporting service has its pointers to the ledger and the events. *)
Definition attached s : Prop :=
  is_Some (rep_Ledger (st (srv_reporting s))) ∧ is_Some (rep_Events (st (srv_reporting s))).

(** A route does what a method does, unless it refuses the request before the
    service is called. *)
Definition serves_same (rt : route (Server D)) (gm : grpc_method (Server D)) : Prop :=
  gm_name gm = rt_rpc rt ∧ ∀ ctx rq params,
    (∀ s, attached s → rt_run rt ctx rq params s = Done (inr InvalidArgument) s)
    ∨ ∃ q, ∀ s, attached s →
        rt_run rt ctx rq params s = (_ ← gm_call gm ctx q; mret (inl ())) s.

(** A generated function refuses or calls. *)
Definition refuses_or_calls {S Req A} (h : local_handler S A) (f : Context → Req → M (Svc D S) A) : Prop :=
  ∀ ctx rq params, h ctx rq params = mret (inr InvalidArgument) ∨ ∃ q, h ctx rq params = call (f ctx q).

(** Two uses of the same way to reach a service. *)
Record same_lift {S A} (l : M (Svc D S) (A + Code) → M (Server D) (A + Code))
    (l' : M (Svc D S) A → M (Server D) A) : Prop := {
  sl_ret x s : attached s → l (mret x) s = Done x s;
  sl_call m s : l (call m) s = call (l' m) s }.

Lemma same_handle {S Req A} `{!GrpcMessage Req} l l' method p rpc (h : local_handler S A)
    (f : Context → Req → M (Svc D S) A) :
  same_lift l l' → refuses_or_calls h f → serves_same (handle method p rpc l h) (unary rpc l' f).
Proof.
  intros [Hret Hcall] Hh. split; [done|]. intros ctx rq params.
  destruct (Hh ctx rq params) as [E|[q E]]; [left|right; exists q]; intros s Hs;
    unfold handle, unary; cbn [rt_run gm_call]; rewrite E; unfold mbind, M_bind.
  - by rewrite Hret.
  - rewrite Hcall. unfold call, mbind, M_bind. by destruct (l' _ s).
Qed.

Lemma same_zoom {S A} get (set : Svc D S → Server D → Server D) :
  (∀ s, set (get s) s = s) → same_lift (A := A) (zoom get set) (zoom get set).
Proof.
  intros Hset. split.
  - intros x s _. unfold zoom. cbn. by rewrite Hset.
  - intros m s. unfold zoom, call, mbind, M_bind. by destruct (m (get s)).
Qed.

(** A computation that leaves the ledger alone leaves the server alone. *)
Lemma on_ledger_srv_idle {A} (m : M (Svc D LedgerState) A) s l a :
  rep_Ledger (st (srv_reporting s)) = Some l → m l = Done a l → on_ledger_srv m s = Done a s.
Proof.
  intros Hl E. unfold on_ledger_srv, on_reporting, zoom, on_ledger, mbind, M_bind. rewrite Hl, E.
  destruct s as [? ? ? ? ? ? ? [b []]]. cbn in *. by subst.
Qed.

Lemma on_events_srv_idle {A} (m : M (Svc D EventsState) A) s l a :
  rep_Events (st (srv_reporting s)) = Some l → m l = Done a l → on_events_srv m s = Done a s.
Proof.
  intros Hl E. unfold on_events_srv, on_reporting, zoom, on_events, mbind, M_bind. rewrite Hl, E.
  destruct s as [? ? ? ? ? ? ? [b []]]. cbn in *. by subst.
Qed.

Lemma same_ledger {A} : same_lift (A := A) on_ledger_srv on_ledger_srv.
Proof.
  split; [intros x s [[l Hl] _]; by eapply on_ledger_srv_idle|].
  intros m s. unfold on_ledger_srv, on_reporting, zoom, on_ledger, call, mbind, M_bind.
  destruct (rep_Ledger _) as [l|]; [|done]. by destruct (m l).
Qed.

Lemma same_events {A} : same_lift (A := A) on_events_srv on_events_srv.
Proof.
  split; [intros x s [_ [l Hl]]; by eapply on_events_srv_idle|].
  intros m s. unfold on_events_srv, on_reporting, zoom, on_events, call, mbind, M_bind.
  destruct (rep_Events _) as [l|]; [|done]. by destruct (m l).
Qed.

Ltac parses h :=
  intros ctx rq params; let f := head_of h in unfold f, decode_body, path_param, populate_field, query_params;
  repeat parse_step; right; eexists; reflexivity.
Ltac same_route :=
  lazymatch goal with
  | |- serves_same (handle _ _ _ _ ?h) _ =>
      apply same_handle;
      [first [apply same_ledger | apply same_events | apply same_zoom; same_state]|parses h]
  end.

Ltac unfold_both :=
  match goal with |- Forall2 _ ?x ?y => let f := head_of x in let g := head_of y in unfold f, g end.

Lemma api_parity : Forall2 serves_same api grpc_api.
Proof.
  unfold api, grpc_api. repeat apply Forall2_app.
  all: unfold_both.
  all: repeat apply Forall2_cons_2; try apply Forall2_nil_2.
  all: same_route.
Qed.

(** ** Calls *)

(** The value an interceptor or middleware looks for a token in. *)
Definition grpc_authorization (c : GrpcCall) : string :=
  match gc_metadata c with Some (h :: _) => h | _ => "" end.

(** A bearer token of the actor that the keys accept at this time. *)
Definition accepts (v : JWTVerifier) (t : Time) (authorization : string) (actor : AuthActor) : Prop :=
  ∃ token kid secret, authorization = "Bearer " +:+ token
    ∧ ver_keys v !! kid = Some secret ∧ secret ≠ "" ∧ jwt_Valid t token secret = true
    ∧ ParseActor v t token = inl actor.

(** The reading of the clock at which the token of a call is checked: the second
    one the call takes. *)
Definition grpc_check_time s : Time := wall (S (ticks (base (srv_guard s)))).

(** A handler ran for an open method, or with the actor of an accepted token. *)
Definition let_in (c : GrpcCall) s (ctx : Context) : Prop :=
  gc_method c ∈ grpc_open ∧ ctx = mkContext None
  ∨ ∃ actor, accepts (ks_verifier (srv_keys s)) (grpc_check_time s) (grpc_authorization c) actor ∧ AuthID actor ≠ ""
      ∧ ActorFromContext ctx = Some actor.

Lemma perform_grpc name code started ended :
  ValidString name = true → ValidString (Code_String code) = true →
  perform (UnaryMetricsInterceptor name code started ended)
  = (UnaryMetricsInterceptor name code started ended, false).
Proof.
  intros Hn Hc. apply perform_fits. unfold UnaryMetricsInterceptor, ObserveRPCRequest.
  repeat constructor; unfold op_fits, labels_fit; simpl find_collector; cbv iota; simpl; by rewrite Hn, ?Hc.
Qed.

(** The chain around a handler: the clock of the guard is read before and
    after; the handler runs in between if the call is let in. *)
Lemma grpc_chain_inv c h s res s' :
  grpc_chain (D := D) c h s = Done res s' →
  ∃ s1, guard_only s s1 ∧
    match gr_served res with
    | None => gr_code res = Unauthenticated ∧ guard_only s s'
    | Some ctx => let_in c s ctx
        ∧ ∃ s2, h ctx s1 = Done (gr_code res) s2 ∧ guard_only s2 s'
    end.
Proof.
  unfold grpc_chain. intros (t0 & s0 & Et0 & E)%bind_done_inv.
  pose proof (on_guard_only _ _ _ _ Et0) as E0. apply zoom_inv in Et0 as (g0 & Et0 & Hs0). injection Et0 as _ <-.
  apply bind_done_inv in E as (v & s0' & Ev & E). injection Ev as <- <-.
  apply bind_done_inv in E as (t & s1 & Et & E). pose proof (on_guard_only _ _ _ _ Et) as E1.
  apply zoom_inv in Et as (g & Et & _). rewrite Hs0 in Et. injection Et as <- _.
  apply bind_done_inv in E as ([code served] & s2 & Em & E).
  apply bind_done_inv in E as (t3 & s3 & E3%on_guard_only & E).
  destruct (perform _) as [ops []]; [done|]. injection E as <- <-. cbn [gr_served gr_code].
  assert (srv_keys s0 = srv_keys s) as Hk by by destruct E0 as [g1 ->].
  exists s1. split; [by eapply guard_only_trans|]. rewrite Hk in Em.
  destruct (UnaryJWTInterceptor _ _ _ _ _ _) as [ctx|msg] eqn:Hi.
  - apply bind_done_inv in Em as (code' & s2' & Eh & Em). injection Em as <- <- <-. split; [|by exists s2'].
    apply interceptor_authenticates in Hi as [[Ho ->]|(token & rest & kid & secret & actor & Hmd & Hrest)];
      [by left|right]. exists actor. destruct Hrest as (Hk' & Hs & Hv & Hp & Hid & Hctx).
    split; [|by split]. exists token, kid, secret. unfold grpc_authorization. by rewrite Hmd.
  - injection Em as <- <- <-. split; [done|]. eauto 10 using guard_only_trans.
Qed.

(** A call that reached the services. *)
Lemma serve_grpc_inv c s res s' :
  serve_grpc (D := D) c s = Done res s' →
  match gr_served res with
  | None => guard_only s s'
  | Some ctx => let_in c s ctx
      ∧ (guard_only s s'
         ∨ ∃ gm q s1 s2, find_method (gc_method c) = Some gm ∧ gm_decode gm (gc_message c) = Some q
             ∧ guard_only s s1 ∧ gm_call gm ctx q s1 = Done () s2 ∧ guard_only s2 s')
  end.
Proof.
  unfold serve_grpc. destruct (find_method _) as [gm|] eqn:Hf.
  - destruct (gm_decode gm _) as [q|] eqn:Hq; [|intros [= <- <-]; apply guard_only_refl].
    intros (s1 & Hg1 & Hres)%grpc_chain_inv. destruct (gr_served res) as [ctx|]; [|tauto].
    destruct Hres as (Hin & s2 & E & Hg2). split; [done|right].
    apply bind_done_inv in E as ([] & s2' & E & E'). injection E' as _ <-. eauto 10.
  - assert (∀ code, grpc_chain c (λ _, mret code) s = Done res s' →
      match gr_served res with
      | None => guard_only s s'
      | Some ctx => let_in c s ctx ∧ guard_only s s'
      end) as Hown.
    { intros code (s1 & Hg1 & Hres)%grpc_chain_inv. destruct (gr_served res) as [ctx|]; [|tauto].
      destruct Hres as (Hin & s2 & E & Hg2). injection E as _ <-. split; [done|].
      by eapply guard_only_trans. }
    case_decide; [destruct (health_Check _) as [known|]|
      case_decide; [destruct (health_List _) as [fits|]|case_decide]].
    1, 3: intros E%Hown; destruct (gr_served res); tauto.
    all: intros [= <- <-]; apply guard_only_refl.
Qed.

Lemma find_method_elem name gm : find_method (D := D) name = Some gm → gm ∈ grpc_api ∧ gm_name gm = name.
Proof.
  unfold find_method. intros ([i x] & Hl & ->)%fmap_Some. simpl.
  apply list_find_Some in Hl as (Hl & Hn & _). split; [|done]. apply list_elem_of_lookup. by exists i.
Qed.

(** ** What a call does to the ledger, the events and the reports *)

Definition method_acts (gm : grpc_method (Server D)) : Prop :=
  ∀ ctx q s r s', gm_call gm ctx q s = Done r s' →
    srv_keys s' = srv_keys s
    ∧ (srv_reporting s' = srv_reporting s
       ∨ gm_name gm ∉ grpc_open ∧ platform_acts ctx (srv_reporting s) (srv_reporting s')).

Lemma unary_inv {S Req A} `{!GrpcMessage Req} name l (f : Context → Req → M (Svc D S) A) ctx q s r s' :
  gm_call (unary name l f) ctx q s = Done r s' → ∃ a, l (f ctx q) s = Done a s'.
Proof. intros (a & s1 & E & [= _ <-])%bind_done_inv. by exists a. Qed.

Lemma zoom_method_acts {S Req A} `{!GrpcMessage Req} get (set : Svc D S → Server D → Server D) name
    (f : Context → Req → M (Svc D S) A) :
  (∀ t s, srv_keys (set t s) = srv_keys s ∧ srv_reporting (set t s) = srv_reporting s) →
  method_acts (unary name (zoom get set) f).
Proof. intros Hset ctx q s r s' (a & (t & _ & ->)%zoom_inv)%unary_inv. destruct (Hset t s). auto. Qed.

Lemma reporting_method_acts {Req A} `{!GrpcMessage Req} name (f : Context → Req → M (Svc D (ReportingState D)) A) :
  name ∉ grpc_open → (∀ ctx q x r x', f ctx q x = Done r x' → platform_acts ctx x x') →
  method_acts (unary name on_reporting f).
Proof.
  intros Hn Hf ctx q s r s' (a & (t & E & ->)%zoom_inv)%unary_inv.
  split; [done|right]. split; [done|]. by eapply Hf.
Qed.

Lemma ledger_method_acts {Req A} `{!GrpcMessage Req} name (f : Context → Req → M (Svc D LedgerState) A) :
  name ∉ grpc_open → (∀ ctx q x r x', f ctx q x = Done r x' → acts serve lreq_ctx ctx x x') →
  method_acts (unary name on_ledger_srv f).
Proof.
  intros Hn Hf ctx q s r s' (a & (b & s1 & (t & E & ->)%zoom_inv & Eb)%bind_done_inv)%unary_inv.
  destruct b as [b|]; [|done]. injection Eb as _ <-. split; [done|right]. split; [done|].
  eapply on_ledger_acts; [|exact E]. eauto.
Qed.

Lemma events_method_acts {Req A} `{!GrpcMessage Req} name (f : Context → Req → M (Svc D EventsState) A) :
  name ∉ grpc_open → (∀ ctx q x r x', f ctx q x = Done r x' → acts ev_serve ev_ctx ctx x x') →
  method_acts (unary name on_events_srv f).
Proof.
  intros Hn Hf ctx q s r s' (a & (b & s1 & (t & E & ->)%zoom_inv & Eb)%bind_done_inv)%unary_inv.
  destruct b as [b|]; [|done]. injection Eb as _ <-. split; [done|right]. split; [done|].
  eapply on_events_acts; [|exact E]. eauto.
Qed.

Ltac direct_acts c :=
  intros ctx q x r x' E; right; eexists (c (Some ctx) _), _; split; [reflexivity|];
  cbn [rep_serve serve ev_serve]; unfold mbind, M_bind; rewrite E; reflexivity.

Lemma grpc_api_acts : Forall method_acts grpc_api.
Proof.
  assert (∀ rpc, bool_decide (rpc ∈ grpc_open) = false → rpc ∉ grpc_open) as Hno
    by (intros rpc; apply bool_decide_eq_false).
  repeat first [apply Forall_nil; done | apply Forall_app; split | apply Forall_cons; split];
    try (by apply zoom_method_acts).
  - apply ledger_method_acts; [by apply Hno|]. direct_acts ReqGetBalance.
  - apply ledger_method_acts; [by apply Hno|]. direct_acts ReqDeposit.
  - apply ledger_method_acts; [by apply Hno|]. direct_acts ReqWithdraw.
  - apply ledger_method_acts; [by apply Hno|]. direct_acts ReqTransferToDevice.
  - apply ledger_method_acts; [by apply Hno|]. direct_acts ReqTransferToAccount.
  - apply ledger_method_acts; [by apply Hno|]. direct_acts ReqListTransactions.
  - apply events_method_acts; [by apply Hno|]. direct_acts EEvent.
  - apply events_method_acts; [by apply Hno|]. direct_acts ESnapshot.
  - apply events_method_acts; [by apply Hno|]. direct_acts EDelta.
  - apply events_method_acts; [by apply Hno|]. direct_acts EListEvents.
  - apply events_method_acts; [by apply Hno|]. direct_acts EListMeters.
  - apply reporting_method_acts; [by apply Hno|]. direct_acts QGenerate.
  - apply reporting_method_acts; [by apply Hno|]. direct_acts QListRuns.
  - apply reporting_method_acts; [by apply Hno|]. direct_acts QGetRun.
Qed.

Lemma serve_grpc_acts c s res s' :
  serve_grpc (D := D) c s = Done res s' →
  srv_keys s' = srv_keys s
  ∧ (srv_reporting s' = srv_reporting s
     ∨ ∃ ctx actor, accepts (ks_verifier (srv_keys s)) (grpc_check_time s) (grpc_authorization c) actor
         ∧ ActorFromContext ctx = Some actor
         ∧ platform_acts ctx (srv_reporting s) (srv_reporting s')).
Proof.
  intros E%serve_grpc_inv. destruct (gr_served res) as [ctx|]; [|destruct E as [g ->]; auto].
  destruct E as [Hin [[g ->]|(gm & q & s1 & s2 & Hf & _ & [g1 ->] & E & [g2 ->])]]; [by auto|].
  apply find_method_elem in Hf as [Hel Hname]. pose proof grpc_api_acts as Hall.
  rewrite Forall_forall in Hall. destruct (Hall gm Hel _ _ _ _ _ E) as [Hk [He|[Ho Ha]]]; [by auto|].
  split; [done|]. right. destruct Hin as [[Hopen _]|(actor & Hacc & _ & Hctx)]; [by rewrite Hname in Ho|].
  by exists ctx, actor.
Qed.

(** ** Every call is answered *)

(** The actor that a configuration change names itself. *)
Definition message_meta (rpc msg : string) : option (option RequestMeta) :=
  if decide (rpc = "/rgs.v1.ConfigService/ProposeConfigChange") then pc_Meta <$> grpc_decode msg
  else if decide (rpc = "/rgs.v1.ConfigService/ApproveConfigChange") then ap_Meta <$> grpc_decode msg
  else if decide (rpc = "/rgs.v1.ConfigService/ApplyConfigChange") then al_Meta <$> grpc_decode msg
  else if decide (rpc = "/rgs.v1.ConfigService/RecordDownloadLibraryChange")
  then rd_Meta <$> grpc_decode msg
  else None.
Definition message_named (rpc msg : string) : Prop :=
  ∀ meta, message_meta rpc msg = Some meta → carries_actor meta.

Definition method_total (gm : grpc_method (Server D)) : Prop :=
  ∀ ctx msg q s n, server_ok signer n s → n < int64_max → gm_decode gm msg = Some q →
    message_named (gm_name gm) msg →
    ∃ r s', gm_call gm ctx q s = Done r s' ∧ server_ok signer (n + 1) s'.

Lemma unary_total {S Req A} `{!GrpcMessage Req} (ok : Z → Svc D S → Prop) l name
    (f : Context → Req → M (Svc D S) A) :
  (∀ n s m, server_ok signer n s → n < int64_max → total ok m → ∃ r s', l m s = Done r s' ∧ server_ok signer (n + 1) s') →
  (∀ ctx msg q, grpc_decode msg = Some q → message_named name msg → total ok (f ctx q)) →
  method_total (unary name l f).
Proof.
  intros Hlift Hf ctx msg q s n Hs Hn Hq Hname.
  destruct (Hlift n s _ Hs Hn (Hf ctx msg q Hq Hname)) as (r & s' & E & Hs').
  eexists _, s'. split; [|done]. unfold unary. cbn [gm_call]. unfold mbind, M_bind. by rewrite E.
Qed.

Ltac split_methods lift :=
  repeat (apply Forall_cons; split); [..|apply Forall_nil; done];
  (eapply unary_total; [lift|]); intros ctx msg q Hq Hname; op_total;
  apply Hname; unfold message_meta; rewrite Hq; reflexivity.
Ltac service_lift := apply zoom_lift; [intros k x Hx; apply Hx|intros k x y [] Hy; by split].

Lemma grpc_api_total : Forall method_total grpc_api.
Proof.
  unfold grpc_api. repeat (apply Forall_app; split).
  - unfold SystemService_ServiceDesc. split_methods ltac:(apply (zoom_lift signer (λ _ _, True)); [done|intros k x y [] _; by split]).
  - unfold IdentityService_ServiceDesc. split_methods ltac:(service_lift).
  - unfold LedgerService_ServiceDesc. split_methods ltac:(apply ledger_lift).
  - unfold WageringService_ServiceDesc. split_methods ltac:(service_lift).
  - unfold RegistryService_ServiceDesc. split_methods ltac:(service_lift).
  - unfold EventsService_ServiceDesc. split_methods ltac:(apply events_lift).
  - unfold ReportingService_ServiceDesc. split_methods ltac:(service_lift).
  - unfold ConfigService_ServiceDesc. split_methods ltac:(service_lift).
  - unfold PromotionsService_ServiceDesc. split_methods ltac:(service_lift).
  - unfold UISystemOverlayService_ServiceDesc. split_methods ltac:(service_lift).
  - unfold SessionsService_ServiceDesc. split_methods ltac:(service_lift).
  - unfold AuditService_ServiceDesc. split_methods ltac:(apply audit_lift).
Qed.

(** The names of the methods are valid metric labels. *)
Lemma method_names_valid : forallb (λ gm, ValidString (gm_name gm)) grpc_api = true.
Proof. by vm_compute. Qed.

Lemma now_total n s : server_ok signer n s → ∃ t s', on_guard time_Now s = Done t s' ∧ server_ok signer n s'.
Proof. apply on_guard_ok. intros σ evs. by mstep. Qed.

Lemma grpc_chain_total c h n s :
  server_ok signer n s → ValidString (gc_method c) = true →
  (∀ ctx s1, server_ok signer n s1 → ∃ code s2, h ctx s1 = Done code s2 ∧ server_ok signer (n + 1) s2
     ∧ ValidString (Code_String code) = true) →
  ∃ res s', grpc_chain c h s = Done res s' ∧ server_ok signer (n + 1) s'.
Proof.
  intros Hs Hname Hh. unfold grpc_chain, gets, mbind, M_bind.
  destruct (now_total n s Hs) as (t0 & s0 & -> & Hs0). destruct (now_total n s0 Hs0) as (t1 & s1 & -> & Hs1).
  set (m := match UnaryJWTInterceptor _ _ _ _ _ _ with Pass _ => _ | Refuse _ => _ end).
  assert (∃ code served s2, m s1 = Done (code, served) s2 ∧ server_ok signer (n + 1) s2
    ∧ ValidString (Code_String code) = true) as (code & served & s2 & -> & Hs2 & Hc).
  { unfold m. destruct (UnaryJWTInterceptor _ _ _ _ _ _) as [ctx|msg].
    - destruct (Hh ctx s1 Hs1) as (code & s2 & -> & Hs2 & Hc). by exists code, (Some ctx), s2.
    - eexists _, _, s1. split; [done|]. split; [|done]. eapply server_ok_mono; [done|lia]. }
  destruct (now_total _ s2 Hs2) as (t3 & s3 & -> & Hs3). rewrite perform_grpc by done. by eexists _, _.
Qed.

Lemma serve_grpc_total c n s :
  server_ok signer n s → n < int64_max → message_named (gc_method c) (gc_message c) →
  ∃ res s', serve_grpc c s = Done res s' ∧ server_ok signer (n + 1) s'.
Proof.
  intros Hs Hn Hname. assert (server_ok signer (n + 1) s) as Hs1 by (eapply server_ok_mono; [done|lia]).
  unfold serve_grpc. destruct (find_method _) as [gm|] eqn:Hf.
  - destruct (gm_decode gm _) as [q|] eqn:Hq; [|by eexists _, _].
    apply find_method_elem in Hf as [Hel Hm]. apply grpc_chain_total; [done|..].
    + pose proof method_names_valid as Hv. rewrite forallb_forall in Hv. rewrite <- Hm.
      by apply Hv, list_elem_of_In.
    + intros ctx s1 Hs'. pose proof grpc_api_total as Hall. rewrite Forall_forall in Hall.
      rewrite <- Hm in Hname. destruct (Hall gm Hel ctx _ q s1 n Hs' Hn Hq Hname) as (r & s2 & E & Hs2).
      exists OK, s2. unfold mbind, M_bind. by rewrite E.
  - case_decide as Hh; [|case_decide as Hl; [|case_decide; by eexists _, _]].
    + destruct (health_Check _) as [known|]; [|by eexists _, _].
      apply grpc_chain_total; [done|by rewrite Hh|]. intros ctx s1 Hs'. eexists _, s1. split; [done|].
      split; [eapply server_ok_mono; [done|lia]|by destruct known].
    + destruct (health_List _) as [fits|]; [|by eexists _, _].
      apply grpc_chain_total; [done|by rewrite Hl|]. intros ctx s1 Hs'. eexists _, s1. split; [done|].
      split; [eapply server_ok_mono; [done|lia]|by destruct fits].
Qed.

(** ** The contract *)

(** C8: gRPC calls are protected like REST requests: a service is called only for
    an open method, with no actor in the context, or with the actor of a bearer
    token that the server's keys accept at the time the call is checked; a call
    that is not served changes nothing (the clock is read); and a well-formed
    call of any other method without such a token is answered
    [Unauthenticated]. *)
Theorem grpc_api_protected c s res s' :
  serve_grpc c s = Done res s' →
  (∀ ctx, gr_served res = Some ctx → let_in c s ctx)
  ∧ (gr_served res = None → guard_only s s')
  ∧ ∀ gm q, find_method (gc_method c) = Some gm → gm_decode gm (gc_message c) = Some q →
      gc_method c ∉ grpc_open →
      (∀ actor, ¬ accepts (ks_verifier (srv_keys s)) (grpc_check_time s) (grpc_authorization c) actor) →
      gr_code res = Unauthenticated ∧ gr_served res = None.
Proof.
  intros E. pose proof (serve_grpc_inv _ _ _ _ E) as Hinv. split_and!.
  - intros ctx Hs. rewrite Hs in Hinv. apply Hinv.
  - intros Hs. by rewrite Hs in Hinv.
  - intros gm q Hf Hq Ho Hacc. unfold serve_grpc in E. rewrite Hf, Hq in E.
    apply grpc_chain_inv in E as (s1 & _ & E). destruct (gr_served res) as [ctx|]; [|tauto].
    exfalso. destruct E as [[[? _]|(actor & Ha & _)] _]; [done|by eapply Hacc].
Qed.

Lemma method_names : gm_name <$> grpc_api (D := D) = rt_rpc <$> api (D := D) ∧ NoDup (gm_name <$> grpc_api (D := D)).
Proof. split; [by vm_compute|]. apply (bool_decide_unpack _). by vm_compute. Qed.

Lemma find_method_at i gm : grpc_api (D := D) !! i = Some gm → find_method (gm_name gm) = Some gm.
Proof.
  intros Hi. destruct (list_find_elem_of (λ x, gm_name x = gm_name gm) grpc_api gm) as [[j x] Hf]; [|done|].
  { apply list_elem_of_lookup. by exists i. }
  unfold find_method. rewrite Hf. simpl. apply list_find_Some in Hf as (Hj & Hn & _).
  assert (i = j) as ->; [|congruence]. eapply (NoDup_lookup (gm_name <$> grpc_api)); [apply method_names|..].
  - by rewrite list_lookup_fmap, Hi.
  - by rewrite list_lookup_fmap, Hj, <- Hn.
Qed.

(** C9: parity of the two interfaces: they offer the same RPCs, each once, in the
    same order; and what a REST route does with a request is what the gRPC
    method of its name does with some message, in the same context and on any
    state of the server, the same panic or deadlock included; or the route
    refuses the request itself as invalid and nothing changes. *)
Theorem rest_grpc_parity :
  gm_name <$> grpc_api (D := D) = rt_rpc <$> api (D := D) ∧ NoDup (gm_name <$> grpc_api (D := D))
  ∧ ∀ rq rt params, route_of (D := D) rq = Some (rt, params) →
      ∃ gm, find_method (rt_rpc rt) = Some gm ∧
        ∀ ctx, (∀ s, attached s → rt_run rt ctx rq params s = Done (inr InvalidArgument) s)
          ∨ ∃ q, ∀ s, attached s →
              rt_run rt ctx rq params s = (_ ← gm_call gm ctx q; mret (inl ())) s.
Proof.
  split; [apply method_names|]. split; [apply method_names|]. intros rq rt params Hr.
  apply route_of_elem, list_elem_of_lookup in Hr as [i Hi].
  destruct (Forall2_lookup_l _ _ _ _ _ api_parity Hi) as (gm & Hgm & Hname & Hsame).
  exists gm. split; [rewrite <- Hname; by eapply find_method_at|]. intros ctx. apply Hsame.
Qed.
End grpc.

(** ** Concrete instances *)

#[export] Instance Code_eq_dec : EqDecision Code.
Proof. solve_decision. Defined.

Module GrpcExample.
Export GatewayExample.
(** A codec that reads the default, but for a deposit of 500 and a proposal
    without an actor. *)
#[export] Instance ex_grpc_message {Req} `{!GwZero Req} : GrpcMessage Req | 10 := λ _, Some gw_zero.
#[export] Instance ex_grpc_deposit : GrpcMessage DepositRequest := λ _,
  Some (mkDepositRequest (Some (mkRequestMeta "r" "key" None)) "alice" (usd 500) "auth").
#[export] Instance ex_grpc_propose : GrpcMessage ProposeConfigChangeRequest := λ _,
  Some (mkProposeConfigChangeRequest None "limits" "max_bet" "1" "").
#[export] Instance ex_grpc_lib : GrpcLib := {|
  no_method _ := OtherCode "Unimplemented"; bad_message := Internal; health_Check _ := Some true;
  health_List _ := Some true; health_Watch _ := OtherCode "Canceled" |}.

Definition grpc (name : string) (authorization : list string) : GrpcCall :=
  mkGrpcCall ("/rgs.v1." +:+ name) (Some authorization) "".
End GrpcExample.
Import GrpcExample ServerExample.

(** Serves one call on the server of [dev_start] and checks the result. *)
Definition calls (c : GrpcCall) (P : Server () → grpc_result → Server () → bool) : bool :=
  match dev_start with
  | Done (inl srv) _ => match serve_grpc c srv with Done res srv' => P srv res srv' | _ => false end
  | _ => false
  end.

Lemma calls_inv c P : calls c P = true → ∃ srv w res srv',
  dev_start = Done (inl srv) w ∧ serve_grpc c srv = Done res srv' ∧ P srv res srv' = true.
Proof.
  unfold calls. destruct dev_start as [[srv|e] w| |]; try discriminate.
  destruct (serve_grpc c srv) as [res srv'| |] eqn:E; try discriminate.
  intros HP. exists srv, w, res, srv'. split; [reflexivity|]. split; [exact E|exact HP].
Qed.

Example ex_grpc_codes :
  let code c x := calls c (λ _ res _, bool_decide (gr_code res = x)) in
  code (grpc "LedgerService/Deposit" ["Bearer " +:+ alice_token]) OK = true
  ∧ code (grpc "LedgerService/Deposit" []) Unauthenticated = true
  ∧ code (grpc "SystemService/GetSystemStatus" []) OK = true
  ∧ code (grpc "LedgerService/Nothing" []) (OtherCode "Unimplemented") = true
  ∧ code (mkGrpcCall "/grpc.health.v1.Health/Check" None "") OK = true
  ∧ code (mkGrpcCall "/grpc.health.v1.Health/List" None "") Unauthenticated = true.
Proof. cbv zeta. split_and!; by vm_compute. Qed.

Lemma grpc_api_protected_witness : ∃ (srv : Server ()) actor,
  accepts (ks_verifier (srv_keys srv)) (grpc_check_time srv) ("Bearer " +:+ alice_token) actor.
Proof.
  destruct (calls_inv (grpc "LedgerService/Deposit" ["Bearer " +:+ alice_token])
    (λ _ res _, bool_decide (is_Some (gr_served res)))) as (srv & w & res & srv' & _ & E & HP); [by vm_compute|].
  apply bool_decide_eq_true in HP as [ctx Hc].
  destruct (grpc_api_protected _ srv res srv' E) as [Hin _].
  destruct (Hin ctx Hc) as [[Ho _]|(actor & Ha & _)].
  - exfalso. revert Ho. apply (bool_decide_unpack _). by vm_compute.
  - exists srv, actor. exact Ha.
Defined.

Lemma rest_grpc_parity_witness : ∃ gm, find_method (D := ()) "/rgs.v1.LedgerService/Deposit" = Some gm.
Proof.
  destruct ex_deposit_route as (rt & params & Hr & Hrpc).
  destruct (rest_grpc_parity (D := ())) as (_ & _ & Hall).
  destruct (Hall deposit_rq rt params Hr) as (gm & Hf & _). exists gm. rewrite <- Hrpc. exact Hf.
Defined.

(** The administrative services have no guard in front of them over gRPC: a
    report is generated for a caller from anywhere. *)
Example grpc_admin_unguarded :
  calls (grpc "ReportingService/ListReportRuns" ["Bearer " +:+ operator_token])
    (λ srv res _, bool_decide (gr_code res = OK ∧ is_Some (gr_served res))) = true
  ∧ serves [rest "GET" "/v1/reporting/runs" ("Bearer " +:+ operator_token)]
    (λ _ rs _, bool_decide (cr_codes <$> rs = [[403]])) = true.
Proof. split; by vm_compute. Qed.

(** A configuration change that leaves its actor to the token ends the process:
    nothing between the handler and the server recovers the panic. *)
Example grpc_propose_crashes :
  match dev_start with
  | Done (inl srv) _ =>
      match serve_grpc (grpc "ConfigService/ProposeConfigChange" ["Bearer " +:+ operator_token]) srv with
      | Panic _ => true | _ => false
      end
  | _ => false
  end = true.
Proof. by vm_compute. Qed.
