(* ===== verification/Process.v ===== *)
(** * The running process (cmd/rgsd/main.go)

    After [main] has started the server, four kinds of things happen in it: HTTP
    requests and gRPC calls are served, the keyset is reloaded, and the workers
    delete expired rows.  A run is a sequence of such events in any order, on
    the state of the server and of the world outside. *)

From S2P Require Import Prelude GoTime GoJson GoNet GoBytes GoJsonRead GoDuration AuditTrail Service Listing.
From S2P Require Import Ledger Wagering Sessions Registry Config Events Reporting Extensions RemoteAccess.
From S2P Require Import AuditService Auth Identity Attestation Startup Metrics Server Gateway Grpc.
From Stdlib Require Import Ascii.

Inductive event :=
| EvHttp (rq : RestRequest)
| EvGrpc (c : GrpcCall)
| EvReload
| EvIdempotencyCleanup (fuel : nat)
| EvSessionCleanup (fuel : nat).

Inductive answer := AnsHttp (res : chain_result) | AnsGrpc (res : grpc_result) | AnsNone.

Section process.
Context {D : Type} `{!OS, !TLSLib, !MapOrder, !Wall, !Crypto, !JsonValid, !UnicodeUpper, !Random}.
Context `{!JWT, !Bcrypt, !JsonDecodeMap, !AuditDB D, !LedgerDB D, !WageringDB D, !SessionsDB D}.
Context `{!RegistryDB D, !ConfigDB D, !EventsDB D, !ReportingDB D, !ExtensionsDB D, !RemoteDB D}.
Context `{!AuditQueryDB D, !IdentityDB D}.
Context `{!ProtoJSON DepositResponse, !ProtoJSON WithdrawResponse,
  !ProtoJSON TransferToDeviceResponse, !ProtoJSON TransferToAccountResponse,
  !ProtoJSON PlaceWagerResponse, !ProtoJSON SettleWagerResponse, !ProtoJSON CancelWagerResponse}.
Context `{!Mux, !GwPopulate UpsertEquipmentRequest}.
Context `{!GwMessage ListAuditEventsRequest, !GwMessage ListRemoteAccessActivitiesRequest,
  !GwMessage VerifyAuditChainRequest, !GwMessage ProposeConfigChangeRequest,
  !GwMessage ApproveConfigChangeRequest, !GwMessage ApplyConfigChangeRequest,
  !GwMessage ListConfigHistoryRequest, !GwMessage RecordDownloadLibraryChangeRequest,
  !GwMessage ListDownloadLibraryChangesRequest, !GwMessage SubmitSignificantEventRequest,
  !GwMessage SubmitMeterRequest, !GwMessage ListEventsRequest, !GwMessage ListMetersRequest,
  !GwMessage RecordBonusTransactionRequest, !GwMessage ListRecentBonusTransactionsRequest,
  !GwMessage RecordPromotionalAwardRequest, !GwMessage ListPromotionalAwardsRequest,
  !GwMessage SubmitSystemWindowEventRequest, !GwMessage ListSystemWindowEventsRequest}.
Context `{!GwMessage LoginRequest, !GwMessage TokenRequest, !GwMessage SetCredentialRequest,
  !GwMessage ActorRequest, !GwMessage GetBalanceRequest, !GwMessage DepositRequest,
  !GwMessage WithdrawRequest, !GwMessage TransferToDeviceRequest,
  !GwMessage TransferToAccountRequest, !GwMessage ListTransactionsRequest,
  !GwMessage UpsertEquipmentRequest, !GwMessage GetEquipmentRequest,
  !GwMessage ListEquipmentRequest, !GwMessage GenerateReportRequest,
  !GwMessage ListReportRunsRequest, !GwMessage GetReportRunRequest,
  !GwMessage StartSessionRequest, !GwMessage EndSessionRequest, !GwMessage GetSessionRequest,
  !GwMessage GetSystemStatusRequest, !GwMessage PlaceWagerRequest, !GwMessage SettleWagerRequest,
  !GwMessage CancelWagerRequest}.
Context `{!GrpcMessage GetSystemStatusRequest, !GrpcMessage LoginRequest,
  !GrpcMessage TokenRequest, !GrpcMessage SetCredentialRequest, !GrpcMessage ActorRequest,
  !GrpcMessage GetBalanceRequest, !GrpcMessage DepositRequest, !GrpcMessage WithdrawRequest,
  !GrpcMessage TransferToDeviceRequest, !GrpcMessage TransferToAccountRequest,
  !GrpcMessage ListTransactionsRequest, !GrpcMessage PlaceWagerRequest,
  !GrpcMessage SettleWagerRequest, !GrpcMessage CancelWagerRequest,
  !GrpcMessage UpsertEquipmentRequest, !GrpcMessage GetEquipmentRequest,
  !GrpcMessage ListEquipmentRequest, !GrpcMessage SubmitSignificantEventRequest,
  !GrpcMessage SubmitMeterRequest, !GrpcMessage ListEventsRequest, !GrpcMessage ListMetersRequest,
  !GrpcMessage GenerateReportRequest, !GrpcMessage ListReportRunsRequest,
  !GrpcMessage GetReportRunRequest, !GrpcMessage ProposeConfigChangeRequest,
  !GrpcMessage ApproveConfigChangeRequest, !GrpcMessage ApplyConfigChangeRequest,
  !GrpcMessage ListConfigHistoryRequest, !GrpcMessage RecordDownloadLibraryChangeRequest,
  !GrpcMessage ListDownloadLibraryChangesRequest, !GrpcMessage RecordBonusTransactionRequest,
  !GrpcMessage ListRecentBonusTransactionsRequest, !GrpcMessage RecordPromotionalAwardRequest,
  !GrpcMessage ListPromotionalAwardsRequest, !GrpcMessage SubmitSystemWindowEventRequest,
  !GrpcMessage ListSystemWindowEventsRequest, !GrpcMessage StartSessionRequest,
  !GrpcMessage EndSessionRequest, !GrpcMessage GetSessionRequest,
  !GrpcMessage ListAuditEventsRequest, !GrpcMessage ListRemoteAccessActivitiesRequest,
  !GrpcMessage VerifyAuditChainRequest}.
Context `{!GrpcLib}.

Definition Process : Type := Server D * World.
Notation PM := (M Process).

Definition on_server {A} (m : M (Server D) A) : PM A := zoom fst (λ s p, (s, p.2)) m.

(** The goroutine that reloads the keys exists only for external keys and a
    positive interval. *)
Definition refreshes (c : Settings) : bool :=
  (bool_decide (TrimSpace (js_file (c_jwt c)) ≠ "") || bool_decide (TrimSpace (js_command (c_jwt c)) ≠ ""))
  && (0 <? c_keysetRefreshInterval c).

(** The identity service points to the signer of the process. *)
Definition share_signer (keys : key_state) (s : Server D) : Server D :=
  let i := srv_identity s in
  s <| srv_keys := keys |>
    <| srv_identity := mkSvc (base i) ((st i) <| tokenSigner := Some (ks_signer keys) |>) |>.

(** One tick of it. *)
Definition reload : PM () := λ p,
  if refreshes (srv_settings p.1) then
    match refresh_tick (c_jwt (srv_settings p.1)) (srv_keys p.1) p.2 with
    | Done keys w => Done () (share_signer keys p.1, w)
    | Panic w => Panic (p.1, w)
    | Deadlock => Deadlock
    end
  else Done () p.

(** A tick of the worker that deletes expired idempotency keys, and of the one
    that deletes expired sessions. *)
Definition idempotency_cleanup (fuel : nat) : PM () :=
  c ← gets (λ p, srv_settings p.1);
  _ ← on_server (on_ledger_srv (StartIdempotencyCleanupWorker fuel
        (c_idempotencyCleanupInterval c) (c_idempotencyCleanupBatch c)));
  mret ().
Definition session_cleanup (fuel : nat) : PM () :=
  c ← gets (λ p, srv_settings p.1);
  _ ← on_server (on_identity (StartSessionCleanupWorker fuel
        (c_sessionCleanupInterval c) (c_sessionCleanupBatch c)));
  mret ().

Definition happens (e : event) : PM answer :=
  match e with
  | EvHttp rq => res ← on_server (serve_http rq); mret (AnsHttp res)
  | EvGrpc c => res ← on_server (serve_grpc c); mret (AnsGrpc res)
  | EvReload => _ ← reload; mret AnsNone
  | EvIdempotencyCleanup fuel => _ ← idempotency_cleanup fuel; mret AnsNone
  | EvSessionCleanup fuel => _ ← session_cleanup fuel; mret AnsNone
  end.

Fixpoint run (es : list event) : PM (list answer) :=
  match es with
  | [] => mret []
  | e :: es => a ← happens e; rest ← run es; mret (a :: rest)
  end.
End process.
