(* ===== verification/ProcessProofs.v ===== *)
(** * What the running process guarantees

    Over any sequence of HTTP requests, gRPC calls, key reloads and worker
    ticks, for a server without a database. *)

From S2P Require Import Prelude GoTime GoJson GoNet GoBytes GoJsonRead GoDuration AuditTrail Service Listing.
From S2P Require Import Ledger LedgerSpec LedgerMem LedgerProofs LedgerTheorems Wagering WageringProofs.
From S2P Require Import Sessions SessionsProofs Registry RegistryProofs Config ConfigProofs Events EventsProofs.
From S2P Require Import Reporting ReportingProofs Extensions ExtensionsProofs RemoteAccess RemoteAccessProofs.
From S2P Require Import AuditService AuditProofs Auth AuthProofs Identity IdentityProofs Attestation AttestationProofs.
From S2P Require Import Startup StartupProofs Metrics MetricsProofs Server ServerProofs Gateway GatewayProofs Env.
From S2P Require Import Answered Grpc GrpcProofs Process.
From Stdlib Require Import Ascii.

Section process.
Context {D : Type} `{!OS, !TLSLib, !MapOrder, !Wall, !Crypto, !JsonValid, !UnicodeUpper, !Random}.
Context `{!JWT, !Bcrypt, !JsonDecodeMap, !AuditDB D, !LedgerDB D, !WageringDB D, !SessionsDB D}.
Context `{!RegistryDB D, !ConfigDB D, !EventsDB D, !ReportingDB D, !ExtensionsDB D, !RemoteDB D}.
Context `{!AuditQueryDB D, !IdentityDB D}.
Context `{!ProtoJSON DepositResponse, !ProtoJSON WithdrawResponse,
  !ProtoJSON TransferToDeviceResponse, !ProtoJSON TransferToAccountResponse,
  !ProtoJSON PlaceWagerResponse, !ProtoJSON SettleWagerResponse, !ProtoJSON CancelWagerResponse}.
Context `{!Mux, !GwPopulate UpsertEquipmentRequest}.
Context `{!GwMessage ListAuditEventsRequest, !GwMessage ListRemoteAccessActivitiesRequest,
  !GwMessage VerifyAuditChainRequest, !GwMessage ProposeConfigChangeRequest,
  !GwMessage ApproveConfigChangeRequest, !GwMessage ApplyConfigChangeRequest,
  !GwMessage ListConfigHistoryRequest, !GwMessage RecordDownloadLibraryChangeRequest,
  !GwMessage ListDownloadLibraryChangesRequest, !GwMessage SubmitSignificantEventRequest,
  !GwMessage SubmitMeterRequest, !GwMessage ListEventsRequest, !GwMessage ListMetersRequest,
  !GwMessage RecordBonusTransactionRequest, !GwMessage ListRecentBonusTransactionsRequest,
  !GwMessage RecordPromotionalAwardRequest, !GwMessage ListPromotionalAwardsRequest,
  !GwMessage SubmitSystemWindowEventRequest, !GwMessage ListSystemWindowEventsRequest}.
Context `{!GwMessage LoginRequest, !GwMessage TokenRequest, !GwMessage SetCredentialRequest,
  !GwMessage ActorRequest, !GwMessage GetBalanceRequest, !GwMessage DepositRequest,
  !GwMessage WithdrawRequest, !GwMessage TransferToDeviceRequest,
  !GwMessage TransferToAccountRequest, !GwMessage ListTransactionsRequest,
  !GwMessage UpsertEquipmentRequest, !GwMessage GetEquipmentRequest,
  !GwMessage ListEquipmentRequest, !GwMessage GenerateReportRequest,
  !GwMessage ListReportRunsRequest, !GwMessage GetReportRunRequest,
  !GwMessage StartSessionRequest, !GwMessage EndSessionRequest, !GwMessage GetSessionRequest,
  !GwMessage GetSystemStatusRequest, !GwMessage PlaceWagerRequest, !GwMessage SettleWagerRequest,
  !GwMessage CancelWagerRequest}.
Context `{!GrpcMessage GetSystemStatusRequest, !GrpcMessage LoginRequest,
  !GrpcMessage TokenRequest, !GrpcMessage SetCredentialRequest, !GrpcMessage ActorRequest,
  !GrpcMessage GetBalanceRequest, !GrpcMessage DepositRequest, !GrpcMessage WithdrawRequest,
  !GrpcMessage TransferToDeviceRequest, !GrpcMessage TransferToAccountRequest,
  !GrpcMessage ListTransactionsRequest, !GrpcMessage PlaceWagerRequest,
  !GrpcMessage SettleWagerRequest, !GrpcMessage CancelWagerRequest,
  !GrpcMessage UpsertEquipmentRequest, !GrpcMessage GetEquipmentRequest,
  !GrpcMessage ListEquipmentRequest, !GrpcMessage SubmitSignificantEventRequest,
  !GrpcMessage SubmitMeterRequest, !GrpcMessage ListEventsRequest, !GrpcMessage ListMetersRequest,
  !GrpcMessage GenerateReportRequest, !GrpcMessage ListReportRunsRequest,
  !GrpcMessage GetReportRunRequest, !GrpcMessage ProposeConfigChangeRequest,
  !GrpcMessage ApproveConfigChangeRequest, !GrpcMessage ApplyConfigChangeRequest,
  !GrpcMessage ListConfigHistoryRequest, !GrpcMessage RecordDownloadLibraryChangeRequest,
  !GrpcMessage ListDownloadLibraryChangesRequest, !GrpcMessage RecordBonusTransactionRequest,
  !GrpcMessage ListRecentBonusTransactionsRequest, !GrpcMessage RecordPromotionalAwardRequest,
  !GrpcMessage ListPromotionalAwardsRequest, !GrpcMessage SubmitSystemWindowEventRequest,
  !GrpcMessage ListSystemWindowEventsRequest, !GrpcMessage StartSessionRequest,
  !GrpcMessage EndSessionRequest, !GrpcMessage GetSessionRequest,
  !GrpcMessage ListAuditEventsRequest, !GrpcMessage ListRemoteAccessActivitiesRequest,
  !GrpcMessage VerifyAuditChainRequest}.
Context `{!GrpcLib}.

Implicit Types (s : Server D) (p : Process (D := D)).

Lemma on_server_inv {A} (m : M (Server D) A) p a p' :
  on_server m p = Done a p' → ∃ s', m p.1 = Done a s' ∧ p' = (s', p.2).
Proof. intros (s' & E & ->)%zoom_inv. by exists s'. Qed.

(** ** Keys *)

(** Signer and verifier hold the same keyset, and it is usable. *)
Definition keys_agree (keys : key_state) : Prop :=
  ∃ k, StartupProofs.usable k ∧ ks_signer keys = NewJWTSignerWithKeyset k
    ∧ ks_verifier keys = NewJWTVerifierWithKeyset k.

Lemma refresh_tick_done c keys w : ∃ keys' w', refresh_tick c keys w = Done keys' w'.
Proof.
  unfold refresh_tick, loadJWTKeyset, LoadHMACKeysetFile, LoadHMACKeysetCommand, ReadFile, run_command, access.
  unfold gets, mbind, M_bind. cbv zeta. repeat case_decide; eexists _, _; reflexivity.
Qed.

Lemma refresh_tick_agree c keys w keys' w' :
  keys_agree keys → refresh_tick c keys w = Done keys' w' → keys_agree keys'.
Proof.
  intros Hk. unfold refresh_tick. intros (r & w1 & E1 & E)%bind_done_inv.
  destruct r as [[k' fp]|]; [|by injection E as <- _].
  destruct (loadJWTKeyset_usable _ _ _ _ _ E1) as [Hu _].
  destruct (ko_active _ (proj1 Hu)) as [sec Hsec].
  unfold signer_SetKeyset, verifier_SetKeyset in E. rewrite Hsec in E.
  case_decide; injection E as <- _; [done|]. by exists k'.
Qed.

(** ** Workers *)

(** Without a database a tick of a worker does nothing. *)
Lemma idempotency_cleanup_idle fuel p ls es n :
  platform_ok n p.1 ls es → idempotency_cleanup fuel p = Done () p.
Proof.
  intros [_ Hi]. destruct p as [s w]. cbn [fst] in Hi.
  unfold idempotency_cleanup, gets, on_server, mbind, M_bind. cbn [fst]. unfold zoom at 1. cbn [fst snd].
  erewrite on_ledger_srv_idle; [done|apply Hi|]. unfold StartIdempotencyCleanupWorker, dbEnabled, gets, mbind, M_bind.
  by rewrite (im_db _ (ri_ledger_mem _ _ _ _ Hi)).
Qed.

Lemma session_cleanup_idle fuel p : db (base (srv_identity p.1)) = None → session_cleanup fuel p = Done () p.
Proof.
  intros Hd. destruct p as [s w]. cbn [fst] in Hd.
  unfold session_cleanup, gets, on_server, on_identity, mbind, M_bind. cbn [fst]. unfold zoom. cbn [fst snd].
  unfold StartSessionCleanupWorker, dbEnabled, gets, mbind, M_bind. rewrite Hd. cbn. by destruct s.
Qed.

(** ** Answers *)

(** The server is intact, its keys agree, and the identity service signs with
    them. *)
Record running (n : Z) s : Prop := {
  ru_ok : server_ok (Some (ks_signer (srv_keys s))) n s;
  ru_keys : keys_agree (srv_keys s) }.

Definition named_event (e : event) : Prop :=
  match e with
  | EvHttp rq => names_actor_itself (D := D) rq
  | EvGrpc c => message_named (gc_method c) (gc_message c)
  | _ => True
  end.

Lemma running_platform n s : running n s → ∃ ls es, platform_ok n s ls es.
Proof. intros [[] _]. destruct so_reporting as [Hm (ls & es & Hi)]. by exists ls, es. Qed.

Lemma share_signer_ok signer n keys s :
  server_ok signer n s → server_ok (Some (ks_signer keys)) n (share_signer keys s).
Proof.
  intros []. split; try done. destruct so_identity as [[Hd Hm Hs] _].
  split; [by split|done].
Qed.

Lemma reload_total n p :
  running n p.1 → ∃ p', reload p = Done () p' ∧ running n p'.1.
Proof.
  intros Hr. unfold reload. destruct (refreshes _); [|by exists p].
  destruct (refresh_tick_done (c_jwt (srv_settings p.1)) (srv_keys p.1) p.2) as (keys & w & E).
  rewrite E. eexists. split; [done|]. destruct Hr as [Hok Hk]. split; cbn [fst].
  - by eapply share_signer_ok.
  - by eapply refresh_tick_agree.
Qed.

(** The answer to an event: one HTTP status, written without a panic if method
    and path of the request are UTF-8 (the labels of the metrics are checked
    after the handler has run); the code of a gRPC call. *)
Definition answered (e : event) (a : answer) : Prop :=
  match e, a with
  | EvHttp rq, AnsHttp res => (∃ status, cr_codes res = [status])
      ∧ (ValidString (Method (rq_http rq)) = true → ValidString (UrlPath (rq_http rq)) = true →
         cr_panicked res = false)
  | EvGrpc _, AnsGrpc _ => True
  | (EvReload | EvIdempotencyCleanup _ | EvSessionCleanup _), AnsNone => True
  | _, _ => False
  end.

Lemma gateway_status rq ctx s codes s' :
  gateway rq ctx s = Done codes s' → ∃ status, codes = [status].
Proof.
  unfold gateway. destruct (route_of rq) as [[rt params]|]; [|intros [= <- _]; by eexists].
  destruct (AnnotateIncomingContext rq); [intros [= <- _]; by eexists|].
  intros (r & s1 & _ & [= <- _])%bind_done_inv. by eexists.
Qed.

Lemma serve_http_answered rq s res s' :
  serve_http rq s = Done res s' → answered (EvHttp rq) (AnsHttp res).
Proof.
  unfold serve_http, answered. destruct (_ && _); [intros [= <- _]; by split; [eexists|]|].
  case_decide; [intros [= <- _]; by split; [eexists|]|].
  case_decide; [intros [= <- _]; by split; [eexists|]|].
  intros (v & s0 & _ & E)%bind_done_inv. unfold serve_chain in E.
  apply bind_done_inv in E as (out & s1 & _ & E).
  destruct out as [|msg status]; [|injection E as <- _; by split; [eexists|]].
  apply bind_done_inv in E as (t1 & s2 & _ & E). apply bind_done_inv in E as (t & s3 & _ & E).
  apply bind_done_inv in E as ([codes served] & s4 & Em & E).
  apply bind_done_inv in E as (t3 & s5 & _ & E). apply bind_done_inv in E as (t4 & s6 & _ & E).
  destruct (perform _) as [ops panicked] eqn:Hp. injection E as <- _. cbn [cr_codes cr_panicked]. split.
  - destruct (HTTPJWTMiddlewareWithSkips _ _ _ _ _ _) as [ctx|msg].
    + apply bind_done_inv in Em as (codes' & s4' & Eg & Em). injection Em as <- _ _. by eapply gateway_status.
    + injection Em as <- _ _. by eexists.
  - intros Hmeth Hpath. rewrite middleware_perform, Hpath in Hp by done. by injection Hp.
Qed.

Lemma happens_answered e p a p' : happens e p = Done a p' → answered e a.
Proof.
  destruct e as [rq|c| |fuel|fuel]; cbn [happens]; intros (x & p1 & E & [= <- _])%bind_done_inv; try done.
  apply on_server_inv in E as (s' & E & _). by eapply serve_http_answered.
Qed.

Lemma happens_total `{!MuxLaw} e n p :
  running n p.1 → n < int64_max → named_event e →
  ∃ a p', happens e p = Done a p' ∧ running (n + 1) p'.1.
Proof.
  intros Hr Hn He. destruct p as [s w]. cbn [fst] in *. destruct (running_platform _ _ Hr) as (ls & es & Hp).
  assert (running (n + 1) s) as Hr1.
  { destruct Hr as [Hok Hk]. split; [eapply server_ok_mono; [done|lia]|done]. }
  destruct e as [rq|c| |fuel|fuel]; cbn [happens named_event] in *; unfold mbind, M_bind.
  - destruct (serve_http_total _ rq n s (ru_ok _ _ Hr) Hn He) as (res & s' & E & Hs').
    destruct (serve_http_acts _ _ _ _ E) as [Hk _].
    unfold on_server, zoom. cbn [fst]. rewrite E. eexists _, _. split; [done|]. cbn [fst].
    split; rewrite Hk; [done|apply Hr].
  - destruct (serve_grpc_total _ c n s (ru_ok _ _ Hr) Hn He) as (res & s' & E & Hs').
    destruct (serve_grpc_acts _ _ _ _ E) as [Hk _].
    unfold on_server, zoom. cbn [fst]. rewrite E. eexists _, _. split; [done|]. cbn [fst].
    split; rewrite Hk; [done|apply Hr].
  - destruct (reload_total (n + 1) (s, w) Hr1) as (p' & -> & Hp'). by eexists _, p'.
  - rewrite (idempotency_cleanup_idle fuel (s, w) _ _ _ Hp). by eexists _, _.
  - rewrite session_cleanup_idle by apply (so_identity _ _ _ (ru_ok _ _ Hr)). by eexists _, _.
Qed.

Lemma run_total `{!MuxLaw} es n p :
  running n p.1 → n + Z.of_nat (length es) ≤ int64_max → (∀ e, e ∈ es → named_event e) →
  ∃ rs p', run es p = Done rs p' ∧ Forall2 answered es rs ∧ running (n + Z.of_nat (length es)) p'.1.
Proof.
  revert n p. induction es as [|e es IH]; intros n p Hr Hlen Hn; cbn [run length] in *.
  { exists [], p. rewrite Z.add_0_r. done. }
  destruct (happens_total e n p Hr) as (a & p1 & E & Hr1); [lia|apply Hn; by left|].
  destruct (IH (n + 1) p1 Hr1) as (rs & p2 & Es & Hl & Hr2); [lia|intros; apply Hn; by right|].
  exists (a :: rs), p2. unfold mbind, M_bind. rewrite E, Es. split; [done|].
  split; [constructor; [by eapply happens_answered|done]|].
  by replace (n + Z.of_nat (S (length es))) with (n + 1 + Z.of_nat (length es)) by lia.
Qed.

Lemma started_running open_db listen env t w srv w' :
  start open_db listen env t w = Done (inl srv) w' → c_databaseURL (srv_settings srv) = "" →
  running 0 srv.
Proof.
  intros E Hdb. split; [by eapply started_server_ok|].
  apply start_spec in E as (c & keys & k & d & _ & _ & Hu & Hs & Hv & _ & _ & _ & Hst).
  rewrite (sd_keys _ _ _ _ _ Hst). by exists k.
Qed.

(** C7: a server that started without a database answers everything that comes,
    provided that the configuration changes in it name their actor: whatever
    HTTP requests, gRPC calls, key reloads and worker ticks happen in whatever
    order, up to 2^63-1 of them, no handler blocks or panics; every HTTP request
    gets one status, and its metrics do not panic either if its method and path
    are UTF-8.  At the end every service is intact: the invariants of the ledger,
    the wagers, the sessions, the registry, the configuration, the events and the
    reports hold and no mutex is locked; and the keys that tokens are signed with
    and checked with are one and the same usable keyset. *)
Theorem server_always_answers `{!MuxLaw} open_db listen env t w srv w' es :
  start open_db listen env t w = Done (inl srv) w' → c_databaseURL (srv_settings srv) = "" →
  Z.of_nat (length es) ≤ int64_max → (∀ e, e ∈ es → named_event e) →
  ∃ answers srv' w'', run es (srv, w') = Done answers (srv', w'') ∧ Forall2 answered es answers
    ∧ server_ok (Some (ks_signer (srv_keys srv'))) (Z.of_nat (length es)) srv'
    ∧ keys_agree (srv_keys srv').
Proof.
  intros Hstart Hdb Hlen Hn. pose proof (started_running _ _ _ _ _ _ _ Hstart Hdb) as Hr.
  destruct (run_total es 0 (srv, w') Hr) as (rs & [srv' w''] & E & Hl & [Hok Hk]); [lia|done|].
  by exists rs, srv', w''.
Qed.

(** ** Books *)

(** Where a request carries its token. *)
Definition event_authorization (e : event) : string :=
  match e with
  | EvHttp rq => rq_authorization rq
  | EvGrpc c => grpc_authorization c
  | _ => ""
  end.

(** When its token is checked. *)
Definition check_time (e : event) s : option Time :=
  match e with
  | EvHttp rq => http_check_time rq s
  | EvGrpc _ => Some (grpc_check_time s)
  | _ => None
  end.

Lemma same_platform n s s' ls es :
  platform_ok n s ls es → srv_reporting s' = srv_reporting s → platform_ok (n + 1) s' ls es.
Proof. intros [Hm Hi] He. split; rewrite He; [done|]. eapply rep_inv_weaken; [done|lia]. Qed.

Lemma serve_grpc_accounts c s res s' n ls es :
  serve_grpc c s = Done res s' → platform_ok n s ls es → n < int64_max →
  ∃ ls' es', platform_ok (n + 1) s' ls' es'
    ∧ ∀ a, accounts (st ls') !! a ≠ accounts (st ls) !! a →
        ∃ actor, accepts (ks_verifier (srv_keys s)) (grpc_check_time s) (grpc_authorization c) actor
          ∧ may_use actor a.
Proof.
  intros E Hok Hn. destruct (serve_grpc_acts _ _ _ _ E) as [_ [He|(ctx & actor & Hacc & Hctx & Ha)]].
  { exists ls, es. split; [by eapply same_platform|by intros a]. }
  destruct (platform_step _ _ _ _ _ _ Hok Hn Ha) as (ls' & es' & Hok' & Hauth).
  exists ls', es'. split; [done|]. intros a Hne. destruct (Hauth a Hne) as [meta Hmeta].
  exists actor. split; [done|]. by eapply authorize_token.
Qed.

Lemma happens_accounts `{!MuxLaw} e p r p' n ls es :
  happens e p = Done r p' → platform_ok n p.1 ls es → n < int64_max →
  ∃ ls' es', platform_ok (n + 1) p'.1 ls' es'
    ∧ ∀ a, accounts (st ls') !! a ≠ accounts (st ls) !! a →
        ∃ t actor, check_time e p.1 = Some t
          ∧ accepts (ks_verifier (srv_keys p.1)) t (event_authorization e) actor ∧ may_use actor a.
Proof.
  intros E Hok Hn.
  assert (srv_reporting p'.1 = srv_reporting p.1 → ∃ ls' es', platform_ok (n + 1) p'.1 ls' es'
    ∧ ∀ a, accounts (st ls') !! a ≠ accounts (st ls) !! a →
        ∃ t actor, check_time e p.1 = Some t
          ∧ accepts (ks_verifier (srv_keys p.1)) t (event_authorization e) actor ∧ may_use actor a)
    as Hsame by (intros He; exists ls, es; split; [by eapply same_platform|by intros a]).
  destruct e as [rq|c| |fuel|fuel]; cbn [happens event_authorization] in *;
    apply bind_done_inv in E as (x & p1 & E & E'); injection E' as _ <-.
  - apply on_server_inv in E as (s' & E & ->). by eapply serve_http_accounts.
  - apply on_server_inv in E as (s' & E & ->). destruct (serve_grpc_accounts _ _ _ _ _ _ _ E Hok Hn) as (ls' & es' & Hok' & Hacc).
    exists ls', es'. split; [done|]. intros a Ha. destruct (Hacc a Ha) as (actor & ? & ?). by eexists _, actor.
  - apply Hsame. unfold reload in E. destruct (refreshes _); [|by injection E as _ <-].
    destruct (refresh_tick _ _ _) as [keys w| |]; [|done..]. by injection E as _ <-.
  - rewrite (idempotency_cleanup_idle _ _ _ _ _ Hok) in E. injection E as _ <-. by apply Hsame.
  - apply Hsame. unfold session_cleanup in E. apply bind_done_inv in E as (c & p2 & Ec & E).
    injection Ec as _ <-. apply bind_done_inv in E as (y & p3 & E & E'). injection E' as _ <-.
    apply on_server_inv in E as (s' & E & ->). by apply zoom_inv in E as (i & _ & ->).
Qed.

(** The account was changed by an event of the run whose token the keys in
    force then accept at the time of the check. *)
Definition changed_by (es : list event) (p : Process (D := D)) (a : string) : Prop :=
  ∃ before e after answers p1 t actor, es = before ++ e :: after ∧ run before p = Done answers p1
    ∧ check_time e p1.1 = Some t
    ∧ accepts (ks_verifier (srv_keys p1.1)) t (event_authorization e) actor ∧ may_use actor a.

Lemma run_accounts `{!MuxLaw} evs p rs p' n ls es :
  run evs p = Done rs p' → platform_ok n p.1 ls es → n + Z.of_nat (length evs) ≤ int64_max →
  ∃ ls' es', platform_ok (n + Z.of_nat (length evs)) p'.1 ls' es'
    ∧ ∀ a, accounts (st ls') !! a ≠ accounts (st ls) !! a → changed_by evs p a.
Proof.
  revert p rs n ls es. induction evs as [|e evs IH]; intros p rs n ls es; cbn [run length].
  { intros [= _ <-] Hok _. exists ls, es. rewrite Z.add_0_r. by split; [|intros a]. }
  intros (r & p1 & E & (rs1 & p2 & Es & [= _ <-])%bind_done_inv)%bind_done_inv Hok Hlen.
  destruct (happens_accounts _ _ _ _ _ _ _ E Hok) as (ls1 & es1 & Hok1 & Hc1); [lia|].
  destruct (IH _ _ _ _ _ Es Hok1) as (ls2 & es2 & Hok2 & Hc2); [lia|].
  exists ls2, es2. split. { by replace (n + Z.of_nat (S (length evs))) with (n + 1 + Z.of_nat (length evs)) by lia. }
  intros a Hne. destruct (decide (accounts (st ls1) !! a = accounts (st ls) !! a)) as [He|He].
  - rewrite <- He in Hne. destruct (Hc2 a Hne) as (before & e1 & after & ans & p3 & t & actor & -> & Eb & Hacc & Hu).
    exists (e :: before), e1, after, (r :: ans), p3, t, actor. split; [done|]. split; [|done].
    cbn [run]. unfold mbind, M_bind. by rewrite E, Eb.
  - destruct (Hc1 a He) as (t & actor & Hacc & Hu). by exists [], e, evs, [], p, t, actor.
Qed.

(** C6: no interleaving of HTTP requests, gRPC calls, key reloads and worker
    ticks corrupts the books of a server that started without a database: they
    stay correct after any run, and every account there is was put there by a
    request, over HTTP or gRPC, that bore a token which the keys in force at
    that moment accept (a key that a reload removed opens nothing), at the time
    the server reads from its clock for the check, of an operator, a service, or the player the account belongs to. *)
Theorem server_books_protected `{!MuxLaw} open_db listen env t w srv w' es answers srv' w'' :
  start open_db listen env t w = Done (inl srv) w' → c_databaseURL (srv_settings srv) = "" →
  run es (srv, w') = Done answers (srv', w'') → Z.of_nat (length es) ≤ int64_max →
  ∃ ls evs, platform_ok (Z.of_nat (length es)) srv' ls evs
    ∧ ∀ a acct, accounts (st ls) !! a = Some acct → changed_by es (srv, w') a.
Proof.
  intros Hstart Hdb E Hlen. destruct (started_platform _ _ _ _ _ _ _ Hstart Hdb) as (ls0 & es0 & Hok0 & Hemp).
  destruct (run_accounts es (srv, w') _ _ _ _ _ E Hok0) as (ls & evs & Hok & Ha); [lia|].
  exists ls, evs. split; [by rewrite Z.add_0_l in Hok|]. intros a acct Hacct. apply Ha.
  by rewrite Hacct, Hemp, lookup_empty.
Qed.
End process.

(** ** A concrete run: a deposit over gRPC, then the keyset file changes and is
    reloaded, and the old token opens nothing any more *)

Module ProcessExample.
Export GrpcExample.
#[export] Instance proc_os : OS := StartupExample.rotating_os StartupExample.other_keys.

Definition file_env : Environ := λ key, if decide (key = "RGS_JWT_KEYSET_FILE") then "/keys.json" else "".
Abbreviation file_start :=
  (start (D := ()) (λ _, None) (λ _, true) file_env 0 (StartupExample.world StartupExample.old_keys)).

Definition alice_with (kid secret : string) : string :=
  "Bearer " +:+ token_of kid (mkClaims "alice" "PLAYER" 0 1804067200) secret.
Definition old_token : string := alice_with "a" "x|b:y".
Definition new_token : string := alice_with "c" "z".

Definition events : list event :=
  [EvGrpc (grpc "LedgerService/Deposit" [old_token]); EvReload;
   EvHttp (rest "POST" "/v1/ledger/deposits" old_token);
   EvGrpc (grpc "LedgerService/Deposit" [old_token]);
   EvIdempotencyCleanup 1; EvSessionCleanup 1;
   EvGrpc (grpc "LedgerService/Deposit" [new_token])].
End ProcessExample.
Import ProcessExample.

Definition processes (es : list event) (P : Server () → list answer → Server () → bool) : bool :=
  match file_start with
  | Done (inl srv) w => match run es (srv, w) with Done rs (srv', _) => P srv rs srv' | _ => false end
  | _ => false
  end.

Lemma processes_inv es P : processes es P = true → ∃ srv w rs srv' w',
  file_start = Done (inl srv) w ∧ run es (srv, w) = Done rs (srv', w') ∧ P srv rs srv' = true.
Proof.
  unfold processes. destruct file_start as [[srv|e] w| |]; try discriminate.
  destruct (run es (srv, w)) as [rs [srv' w']| |] eqn:E; try discriminate.
  intros HP. exists srv, w, rs, srv', w'. split; [reflexivity|]. split; [exact E|exact HP].
Qed.

(** The status or code of an answer. *)
Definition outcome_of (a : answer) : string :=
  match a with
  | AnsHttp res => String.concat "," (FormatInt <$> cr_codes res)
  | AnsGrpc res => Code_String (gr_code res)
  | AnsNone => ""
  end.

Example ex_rotation : processes events (λ _ rs _,
  bool_decide (outcome_of <$> rs = ["OK"; ""; "401"; "Unauthenticated"; ""; ""; "OK"])) = true.
Proof. by vm_compute. Qed.

Lemma ex_process_run : ∃ srv w rs srv' w', file_start = Done (inl srv) w
  ∧ run events (srv, w) = Done rs (srv', w') ∧ c_databaseURL (srv_settings srv) = ""
  ∧ ∃ ls acct, rep_Ledger (st (srv_reporting srv')) = Some ls ∧ accounts (st ls) !! "alice" = Some acct.
Proof.
  destruct (processes_inv events (λ srv _ srv', bool_decide (c_databaseURL (srv_settings srv) = "")
    && match rep_Ledger (st (srv_reporting srv')) with
       | Some ls => bool_decide (is_Some (accounts (st ls) !! "alice"))
       | None => false end)) as (srv & w & rs & srv' & w' & E & Es & HP); [by vm_compute|].
  apply andb_prop in HP as [Hdb HP]. apply bool_decide_eq_true in Hdb.
  destruct (rep_Ledger (st (srv_reporting srv'))) as [ls|] eqn:El; [|discriminate].
  apply bool_decide_eq_true in HP as [acct Ha]. exists srv, w, rs, srv', w'.
  split; [exact E|]. split; [exact Es|]. split; [exact Hdb|]. exists ls, acct. split; [exact El|exact Ha].
Qed.

(** None of the events is a configuration change. *)
Lemma ex_events_named e : e ∈ events → named_event (D := ()) e.
Proof.
  assert (∀ rq, match route_of (D := ()) rq with Some (rt, _) => body_meta (rt_rpc rt) rq | None => None end = None →
    names_actor_itself (D := ()) rq) as Hrest.
  { intros rq Hm rt params Hr meta Hmeta. rewrite Hr in Hm. rewrite Hm in Hmeta. discriminate. }
  assert (∀ c, message_meta (gc_method c) (gc_message c) = None → message_named (gc_method c) (gc_message c)) as Hmsg.
  { intros c Hm meta Hmeta. rewrite Hm in Hmeta. discriminate. }
  unfold events. intros He.
  repeat (apply elem_of_cons in He as [->|He];
    [lazymatch goal with
     | |- named_event (EvGrpc _) => apply Hmsg; vm_compute; reflexivity
     | |- named_event (EvHttp _) => apply Hrest; vm_compute; reflexivity
     | |- _ => exact I
     end|]).
  by apply not_elem_of_nil in He.
Qed.

Lemma server_always_answers_witness : ∃ (srv srv' : Server ()) w answers w'',
  run events (srv, w) = Done answers (srv', w'') ∧ Forall2 answered events answers
  ∧ server_ok (Some (ks_signer (srv_keys srv'))) 7 srv' ∧ keys_agree (srv_keys srv').
Proof.
  destruct ex_process_run as (srv & w & _ & _ & _ & E & _ & Hdb & _).
  destruct (server_always_answers (λ _, None) (λ _, true) file_env 0
    (StartupExample.world StartupExample.old_keys) srv w events E Hdb)
    as (answers & srv' & w'' & Er & Hl & Hok & Hk); [vm_compute; discriminate|exact ex_events_named|].
  exists srv, srv', w, answers, w''. split; [exact Er|]. split; [exact Hl|]. split; [exact Hok|exact Hk].
Defined.

Lemma server_books_protected_witness : ∃ (srv srv' : Server ()) w ls evs,
  platform_ok 7 srv' ls evs ∧ changed_by events (srv, w) "alice".
Proof.
  destruct ex_process_run as (srv & w & rs & srv' & w' & E & Es & Hdb & ls0 & acct & El & Ha).
  destruct (server_books_protected (λ _, None) (λ _, true) file_env 0
    (StartupExample.world StartupExample.old_keys) srv w events rs srv' w' E Hdb Es)
    as (ls & evs & Hok & Hacct); [vm_compute; discriminate|].
  assert (ls0 = ls) as ->.
  { pose proof (ri_ledger _ _ _ _ (po_inv _ _ _ _ Hok)) as Hl. rewrite El in Hl. by injection Hl. }
  exists srv, srv', w, ls, evs. split; [exact Hok|exact (Hacct "alice" acct Ha)].
Defined.
