(* ===== verification/GatewayClient.v ===== *)
(** * The client side of the REST gateway (gen/rgs/v1/*.pb.gw.go,
      gen/rgs/v1/*_grpc.pb.go)

    The generated code also offers the gateway as a process of its own that
    forwards each HTTP request to a gRPC server: the client of a service, the
    functions [request_...] and the handlers that are registered for a client,
    a connection or an endpoint.  The connection is an interface.  The functions
    also read what is left of the body, and throw it away, before the call. *)

From S2P Require Import Prelude GoTime GoJson GoNet GoBytes GoJsonRead GoDuration AuditTrail Service Listing.
From S2P Require Import Ledger Wagering Sessions Registry Config Events Reporting Extensions RemoteAccess.
From S2P Require Import AuditService Auth Identity Attestation Startup Metrics Server Gateway.
From Stdlib Require Import Ascii.

(** The gRPC client library: a connection invokes a method by its full name with
    a request message and returns the response or the code of an error. *)
Class GrpcClientLib (St : Type) := {
  ClientConn : Type;
  Invoke : ClientConn → ∀ {Req Resp : Type}, string → Context → Req → M St (Resp + Code);
  NewClient : string → option ClientConn }.

(** ** The clients *)

Record SystemServiceClient (St : Type) := mkSystemServiceClient {
  client_GetSystemStatus : Context → GetSystemStatusRequest → M St (GetSystemStatusResponse + Code) }.
Arguments client_GetSystemStatus {St}.

Record IdentityServiceClient (St : Type) := mkIdentityServiceClient {
  client_Login : Context → LoginRequest → M St (TokenResponse + Code);
  client_Logout : Context → TokenRequest → M St (PlainResponse + Code);
  client_RefreshToken : Context → TokenRequest → M St (TokenResponse + Code);
  client_SetCredential : Context → SetCredentialRequest → M St (PlainResponse + Code);
  client_DisableCredential : Context → ActorRequest → M St (PlainResponse + Code);
  client_EnableCredential : Context → ActorRequest → M St (PlainResponse + Code);
  client_GetLockout : Context → ActorRequest → M St (LockoutResponse + Code);
  client_ResetLockout : Context → ActorRequest → M St (LockoutResponse + Code) }.
Arguments client_Login {St}.
Arguments client_Logout {St}.
Arguments client_RefreshToken {St}.
Arguments client_SetCredential {St}.
Arguments client_DisableCredential {St}.
Arguments client_EnableCredential {St}.
Arguments client_GetLockout {St}.
Arguments client_ResetLockout {St}.

Record LedgerServiceClient (St : Type) := mkLedgerServiceClient {
  client_GetBalance : Context → GetBalanceRequest → M St (GetBalanceResponse + Code);
  client_Deposit : Context → DepositRequest → M St (DepositResponse + Code);
  client_Withdraw : Context → WithdrawRequest → M St (WithdrawResponse + Code);
  client_TransferToDevice : Context → TransferToDeviceRequest → M St (TransferToDeviceResponse + Code);
  client_TransferToAccount : Context → TransferToAccountRequest → M St (TransferToAccountResponse + Code);
  client_ListTransactions : Context → ListTransactionsRequest → M St (ListTransactionsResponse + Code) }.
Arguments client_GetBalance {St}.
Arguments client_Deposit {St}.
Arguments client_Withdraw {St}.
Arguments client_TransferToDevice {St}.
Arguments client_TransferToAccount {St}.
Arguments client_ListTransactions {St}.

Record WageringServiceClient (St : Type) := mkWageringServiceClient {
  client_PlaceWager : Context → PlaceWagerRequest → M St (PlaceWagerResponse + Code);
  client_SettleWager : Context → SettleWagerRequest → M St (SettleWagerResponse + Code);
  client_CancelWager : Context → CancelWagerRequest → M St (CancelWagerResponse + Code) }.
Arguments client_PlaceWager {St}.
Arguments client_SettleWager {St}.
Arguments client_CancelWager {St}.

Record RegistryServiceClient (St : Type) := mkRegistryServiceClient {
  client_UpsertEquipment : Context → UpsertEquipmentRequest → M St (EquipmentResponse + Code);
  client_GetEquipment : Context → GetEquipmentRequest → M St (EquipmentResponse + Code);
  client_ListEquipment : Context → ListEquipmentRequest → M St (ListEquipmentResponse + Code) }.
Arguments client_UpsertEquipment {St}.
Arguments client_GetEquipment {St}.
Arguments client_ListEquipment {St}.

Record EventsServiceClient (St : Type) := mkEventsServiceClient {
  client_SubmitSignificantEvent : Context → SubmitSignificantEventRequest → M St (SubmitSignificantEventResponse + Code);
  client_SubmitMeterSnapshot : Context → SubmitMeterRequest → M St (SubmitMeterResponse + Code);
  client_SubmitMeterDelta : Context → SubmitMeterRequest → M St (SubmitMeterResponse + Code);
  client_ListEvents : Context → ListEventsRequest → M St (ListEventsResponse + Code);
  client_ListMeters : Context → ListMetersRequest → M St (ListMetersResponse + Code) }.
Arguments client_SubmitSignificantEvent {St}.
Arguments client_SubmitMeterSnapshot {St}.
Arguments client_SubmitMeterDelta {St}.
Arguments client_ListEvents {St}.
Arguments client_ListMeters {St}.

Record ReportingServiceClient (St : Type) := mkReportingServiceClient {
  client_GenerateReport : Context → GenerateReportRequest → M St (ReportRunResponse + Code);
  client_ListReportRuns : Context → ListReportRunsRequest → M St (ListReportRunsResponse + Code);
  client_GetReportRun : Context → GetReportRunRequest → M St (ReportRunResponse + Code) }.
Arguments client_GenerateReport {St}.
Arguments client_ListReportRuns {St}.
Arguments client_GetReportRun {St}.

Record ConfigServiceClient (St : Type) := mkConfigServiceClient {
  client_ProposeConfigChange : Context → ProposeConfigChangeRequest → M St (ConfigChangeResponse + Code);
  client_ApproveConfigChange : Context → ApproveConfigChangeRequest → M St (ConfigChangeResponse + Code);
  client_ApplyConfigChange : Context → ApplyConfigChangeRequest → M St (ConfigChangeResponse + Code);
  client_ListConfigHistory : Context → ListConfigHistoryRequest → M St (ListConfigHistoryResponse + Code);
  client_RecordDownloadLibraryChange : Context → RecordDownloadLibraryChangeRequest → M St (RecordDownloadLibraryChangeResponse + Code);
  client_ListDownloadLibraryChanges : Context → ListDownloadLibraryChangesRequest → M St (ListDownloadLibraryChangesResponse + Code) }.
Arguments client_ProposeConfigChange {St}.
Arguments client_ApproveConfigChange {St}.
Arguments client_ApplyConfigChange {St}.
Arguments client_ListConfigHistory {St}.
Arguments client_RecordDownloadLibraryChange {St}.
Arguments client_ListDownloadLibraryChanges {St}.

Record PromotionsServiceClient (St : Type) := mkPromotionsServiceClient {
  client_RecordBonusTransaction : Context → RecordBonusTransactionRequest → M St ((StoredResponse BonusTransaction) + Code);
  client_ListRecentBonusTransactions : Context → ListRecentBonusTransactionsRequest → M St ((PageResponse BonusTransaction) + Code);
  client_RecordPromotionalAward : Context → RecordPromotionalAwardRequest → M St ((StoredResponse PromotionalAward) + Code);
  client_ListPromotionalAwards : Context → ListPromotionalAwardsRequest → M St ((PageResponse PromotionalAward) + Code) }.
Arguments client_RecordBonusTransaction {St}.
Arguments client_ListRecentBonusTransactions {St}.
Arguments client_RecordPromotionalAward {St}.
Arguments client_ListPromotionalAwards {St}.

Record UISystemOverlayServiceClient (St : Type) := mkUISystemOverlayServiceClient {
  client_SubmitSystemWindowEvent : Context → SubmitSystemWindowEventRequest → M St ((StoredResponse SystemWindowEvent) + Code);
  client_ListSystemWindowEvents : Context → ListSystemWindowEventsRequest → M St ((PageResponse SystemWindowEvent) + Code) }.
Arguments client_SubmitSystemWindowEvent {St}.
Arguments client_ListSystemWindowEvents {St}.

Record SessionsServiceClient (St : Type) := mkSessionsServiceClient {
  client_StartSession : Context → StartSessionRequest → M St (SessionResponse + Code);
  client_EndSession : Context → EndSessionRequest → M St (SessionResponse + Code);
  client_GetSession : Context → GetSessionRequest → M St (SessionResponse + Code) }.
Arguments client_StartSession {St}.
Arguments client_EndSession {St}.
Arguments client_GetSession {St}.

Record AuditServiceClient (St : Type) := mkAuditServiceClient {
  client_ListAuditEvents : Context → ListAuditEventsRequest → M St (ListAuditEventsResponse + Code);
  client_ListRemoteAccessActivities : Context → ListRemoteAccessActivitiesRequest → M St (ListRemoteAccessActivitiesResponse + Code);
  client_VerifyAuditChain : Context → VerifyAuditChainRequest → M St (VerifyAuditChainResponse + Code) }.
Arguments client_ListAuditEvents {St}.
Arguments client_ListRemoteAccessActivities {St}.
Arguments client_VerifyAuditChain {St}.

(** The closure that is given to [mux.Handle], between the annotation of the
    context and the answer. *)
Definition handle_client {St A} (method : string) (p : pattern) (rpc : string)
    (h : Context → RestRequest → gmap string string → M St (A + Code)) : route St :=
  mkRoute method p rpc (λ ctx rq pathParams,
    r ← h ctx rq pathParams;
    mret match r with inl _ => inl () | inr c => inr c end).

Section client.
Context {St : Type}.
Context `{!GrpcClientLib St, !GwPopulate UpsertEquipmentRequest}.
Context `{!GwMessage ListAuditEventsRequest, !GwMessage ListRemoteAccessActivitiesRequest,
  !GwMessage VerifyAuditChainRequest, !GwMessage ProposeConfigChangeRequest,
  !GwMessage ApproveConfigChangeRequest, !GwMessage ApplyConfigChangeRequest,
  !GwMessage ListConfigHistoryRequest, !GwMessage RecordDownloadLibraryChangeRequest,
  !GwMessage ListDownloadLibraryChangesRequest, !GwMessage SubmitSignificantEventRequest,
  !GwMessage SubmitMeterRequest, !GwMessage ListEventsRequest, !GwMessage ListMetersRequest,
  !GwMessage RecordBonusTransactionRequest, !GwMessage ListRecentBonusTransactionsRequest,
  !GwMessage RecordPromotionalAwardRequest, !GwMessage ListPromotionalAwardsRequest,
  !GwMessage SubmitSystemWindowEventRequest, !GwMessage ListSystemWindowEventsRequest}.
Context `{!GwMessage LoginRequest, !GwMessage TokenRequest, !GwMessage SetCredentialRequest,
  !GwMessage ActorRequest, !GwMessage GetBalanceRequest, !GwMessage DepositRequest,
  !GwMessage WithdrawRequest, !GwMessage TransferToDeviceRequest,
  !GwMessage TransferToAccountRequest, !GwMessage ListTransactionsRequest,
  !GwMessage UpsertEquipmentRequest, !GwMessage GetEquipmentRequest,
  !GwMessage ListEquipmentRequest, !GwMessage GenerateReportRequest,
  !GwMessage ListReportRunsRequest, !GwMessage GetReportRunRequest,
  !GwMessage StartSessionRequest, !GwMessage EndSessionRequest, !GwMessage GetSessionRequest,
  !GwMessage GetSystemStatusRequest, !GwMessage PlaceWagerRequest, !GwMessage SettleWagerRequest,
  !GwMessage CancelWagerRequest}.

Definition client_handler (C : Type → Type) (A : Type) : Type :=
  C St → Context → RestRequest → gmap string string → M St (A + Code).

(** ** SystemService *)

Definition NewSystemServiceClient (cc : ClientConn) : SystemServiceClient St :=
  mkSystemServiceClient St
    (λ ctx q, Invoke cc "/rgs.v1.SystemService/GetSystemStatus" ctx q).

Definition request_SystemService_GetSystemStatus_0 : client_handler SystemServiceClient _ :=
  λ client ctx rq pathParams,
  query_params rq [] (gw_zero : GetSystemStatusRequest) $ λ q,
  client_GetSystemStatus client ctx q.

Definition RegisterSystemServiceHandlerClient (client : SystemServiceClient St) : list (route St) :=
  [handle_client "GET" (mkPattern [Lit "v1"; Lit "system"; Lit "status"] "")
     "/rgs.v1.SystemService/GetSystemStatus" (request_SystemService_GetSystemStatus_0 client)].

Definition RegisterSystemServiceHandler (conn : ClientConn) : list (route St) :=
  RegisterSystemServiceHandlerClient (NewSystemServiceClient conn).

(** None if the endpoint cannot be dialled; the connection is closed when the
    context is done. *)
Definition RegisterSystemServiceHandlerFromEndpoint (endpoint : string) : option (list (route St) * ClientConn) :=
  conn ← NewClient endpoint; Some (RegisterSystemServiceHandler conn, conn).

(** ** IdentityService *)

Definition NewIdentityServiceClient (cc : ClientConn) : IdentityServiceClient St :=
  mkIdentityServiceClient St
    (λ ctx q, Invoke cc "/rgs.v1.IdentityService/Login" ctx q)
    (λ ctx q, Invoke cc "/rgs.v1.IdentityService/Logout" ctx q)
    (λ ctx q, Invoke cc "/rgs.v1.IdentityService/RefreshToken" ctx q)
    (λ ctx q, Invoke cc "/rgs.v1.IdentityService/SetCredential" ctx q)
    (λ ctx q, Invoke cc "/rgs.v1.IdentityService/DisableCredential" ctx q)
    (λ ctx q, Invoke cc "/rgs.v1.IdentityService/EnableCredential" ctx q)
    (λ ctx q, Invoke cc "/rgs.v1.IdentityService/GetLockout" ctx q)
    (λ ctx q, Invoke cc "/rgs.v1.IdentityService/ResetLockout" ctx q).

Definition request_IdentityService_Login_0 : client_handler IdentityServiceClient _ :=
  λ client ctx rq pathParams,
  decode_body rq $ λ q : LoginRequest,
  client_Login client ctx q.

Definition request_IdentityService_Logout_0 : client_handler IdentityServiceClient _ :=
  λ client ctx rq pathParams,
  decode_body rq $ λ q : TokenRequest,
  client_Logout client ctx q.

Definition request_IdentityService_RefreshToken_0 : client_handler IdentityServiceClient _ :=
  λ client ctx rq pathParams,
  decode_body rq $ λ q : TokenRequest,
  client_RefreshToken client ctx q.

Definition request_IdentityService_SetCredential_0 : client_handler IdentityServiceClient _ :=
  λ client ctx rq pathParams,
  decode_body rq $ λ q : SetCredentialRequest,
  client_SetCredential client ctx q.

Definition request_IdentityService_DisableCredential_0 : client_handler IdentityServiceClient _ :=
  λ client ctx rq pathParams,
  decode_body rq $ λ q : ActorRequest,
  client_DisableCredential client ctx q.

Definition request_IdentityService_EnableCredential_0 : client_handler IdentityServiceClient _ :=
  λ client ctx rq pathParams,
  decode_body rq $ λ q : ActorRequest,
  client_EnableCredential client ctx q.

Definition request_IdentityService_GetLockout_0 : client_handler IdentityServiceClient _ :=
  λ client ctx rq pathParams,
  query_params rq [] (gw_zero : ActorRequest) $ λ q,
  client_GetLockout client ctx q.

Definition request_IdentityService_ResetLockout_0 : client_handler IdentityServiceClient _ :=
  λ client ctx rq pathParams,
  decode_body rq $ λ q : ActorRequest,
  client_ResetLockout client ctx q.

Definition RegisterIdentityServiceHandlerClient (client : IdentityServiceClient St) : list (route St) :=
  [handle_client "POST" (mkPattern [Lit "v1"; Lit "identity"; Lit "login"] "")
     "/rgs.v1.IdentityService/Login" (request_IdentityService_Login_0 client);
   handle_client "POST" (mkPattern [Lit "v1"; Lit "identity"; Lit "logout"] "")
     "/rgs.v1.IdentityService/Logout" (request_IdentityService_Logout_0 client);
   handle_client "POST" (mkPattern [Lit "v1"; Lit "identity"; Lit "refresh"] "")
     "/rgs.v1.IdentityService/RefreshToken" (request_IdentityService_RefreshToken_0 client);
   handle_client "POST" (mkPattern [Lit "v1"; Lit "identity"; Lit "credentials"] "set")
     "/rgs.v1.IdentityService/SetCredential" (request_IdentityService_SetCredential_0 client);
   handle_client "POST" (mkPattern [Lit "v1"; Lit "identity"; Lit "credentials"] "disable")
     "/rgs.v1.IdentityService/DisableCredential" (request_IdentityService_DisableCredential_0 client);
   handle_client "POST" (mkPattern [Lit "v1"; Lit "identity"; Lit "credentials"] "enable")
     "/rgs.v1.IdentityService/EnableCredential" (request_IdentityService_EnableCredential_0 client);
   handle_client "GET" (mkPattern [Lit "v1"; Lit "identity"; Lit "lockouts"] "")
     "/rgs.v1.IdentityService/GetLockout" (request_IdentityService_GetLockout_0 client);
   handle_client "POST" (mkPattern [Lit "v1"; Lit "identity"; Lit "lockouts"] "reset")
     "/rgs.v1.IdentityService/ResetLockout" (request_IdentityService_ResetLockout_0 client)].

Definition RegisterIdentityServiceHandler (conn : ClientConn) : list (route St) :=
  RegisterIdentityServiceHandlerClient (NewIdentityServiceClient conn).

Definition RegisterIdentityServiceHandlerFromEndpoint (endpoint : string) : option (list (route St) * ClientConn) :=
  conn ← NewClient endpoint; Some (RegisterIdentityServiceHandler conn, conn).

(** ** LedgerService *)

Definition NewLedgerServiceClient (cc : ClientConn) : LedgerServiceClient St :=
  mkLedgerServiceClient St
    (λ ctx q, Invoke cc "/rgs.v1.LedgerService/GetBalance" ctx q)
    (λ ctx q, Invoke cc "/rgs.v1.LedgerService/Deposit" ctx q)
    (λ ctx q, Invoke cc "/rgs.v1.LedgerService/Withdraw" ctx q)
    (λ ctx q, Invoke cc "/rgs.v1.LedgerService/TransferToDevice" ctx q)
    (λ ctx q, Invoke cc "/rgs.v1.LedgerService/TransferToAccount" ctx q)
    (λ ctx q, Invoke cc "/rgs.v1.LedgerService/ListTransactions" ctx q).

Definition request_LedgerService_GetBalance_0 : client_handler LedgerServiceClient _ :=
  λ client ctx rq pathParams,
  let q : GetBalanceRequest := gw_zero in
  path_param pathParams "account_id" $ λ val,
  let q := mkGetBalanceRequest (gb_Meta q) val in
  query_params rq ["account_id"] q $ λ q,
  client_GetBalance client ctx q.

Definition request_LedgerService_Deposit_0 : client_handler LedgerServiceClient _ :=
  λ client ctx rq pathParams,
  decode_body rq $ λ q : DepositRequest,
  client_Deposit client ctx q.

Definition request_LedgerService_Withdraw_0 : client_handler LedgerServiceClient _ :=
  λ client ctx rq pathParams,
  decode_body rq $ λ q : WithdrawRequest,
  client_Withdraw client ctx q.

Definition request_LedgerService_TransferToDevice_0 : client_handler LedgerServiceClient _ :=
  λ client ctx rq pathParams,
  decode_body rq $ λ q : TransferToDeviceRequest,
  client_TransferToDevice client ctx q.

Definition request_LedgerService_TransferToAccount_0 : client_handler LedgerServiceClient _ :=
  λ client ctx rq pathParams,
  decode_body rq $ λ q : TransferToAccountRequest,
  client_TransferToAccount client ctx q.

Definition request_LedgerService_ListTransactions_0 : client_handler LedgerServiceClient _ :=
  λ client ctx rq pathParams,
  let q : ListTransactionsRequest := gw_zero in
  path_param pathParams "account_id" $ λ val,
  let q := mkListTransactionsRequest (lt_Meta q) val (lt_PageSize q) (lt_PageToken q) in
  query_params rq ["account_id"] q $ λ q,
  client_ListTransactions client ctx q.

Definition RegisterLedgerServiceHandlerClient (client : LedgerServiceClient St) : list (route St) :=
  [handle_client "GET" (mkPattern [Lit "v1"; Lit "ledger"; Lit "accounts"; Capture "account_id"; Lit "balance"] "")
     "/rgs.v1.LedgerService/GetBalance" (request_LedgerService_GetBalance_0 client);
   handle_client "POST" (mkPattern [Lit "v1"; Lit "ledger"; Lit "deposits"] "")
     "/rgs.v1.LedgerService/Deposit" (request_LedgerService_Deposit_0 client);
   handle_client "POST" (mkPattern [Lit "v1"; Lit "ledger"; Lit "withdrawals"] "")
     "/rgs.v1.LedgerService/Withdraw" (request_LedgerService_Withdraw_0 client);
   handle_client "POST" (mkPattern [Lit "v1"; Lit "ledger"; Lit "transfers"; Lit "device"] "")
     "/rgs.v1.LedgerService/TransferToDevice" (request_LedgerService_TransferToDevice_0 client);
   handle_client "POST" (mkPattern [Lit "v1"; Lit "ledger"; Lit "transfers"; Lit "account"] "")
     "/rgs.v1.LedgerService/TransferToAccount" (request_LedgerService_TransferToAccount_0 client);
   handle_client "GET" (mkPattern [Lit "v1"; Lit "ledger"; Lit "accounts"; Capture "account_id"; Lit "transactions"] "")
     "/rgs.v1.LedgerService/ListTransactions" (request_LedgerService_ListTransactions_0 client)].

Definition RegisterLedgerServiceHandler (conn : ClientConn) : list (route St) :=
  RegisterLedgerServiceHandlerClient (NewLedgerServiceClient conn).

Definition RegisterLedgerServiceHandlerFromEndpoint (endpoint : string) : option (list (route St) * ClientConn) :=
  conn ← NewClient endpoint; Some (RegisterLedgerServiceHandler conn, conn).

(** ** WageringService *)

Definition NewWageringServiceClient (cc : ClientConn) : WageringServiceClient St :=
  mkWageringServiceClient St
    (λ ctx q, Invoke cc "/rgs.v1.WageringService/PlaceWager" ctx q)
    (λ ctx q, Invoke cc "/rgs.v1.WageringService/SettleWager" ctx q)
    (λ ctx q, Invoke cc "/rgs.v1.WageringService/CancelWager" ctx q).

Definition request_WageringService_PlaceWager_0 : client_handler WageringServiceClient _ :=
  λ client ctx rq pathParams,
  decode_body rq $ λ q : PlaceWagerRequest,
  client_PlaceWager client ctx q.

Definition request_WageringService_SettleWager_0 : client_handler WageringServiceClient _ :=
  λ client ctx rq pathParams,
  decode_body rq $ λ q : SettleWagerRequest,
  path_param pathParams "wager_id" $ λ val,
  let q := mkSettleWagerRequest (Wagering.sw_Meta q) val (sw_Payout q) (sw_OutcomeRef q) in
  client_SettleWager client ctx q.

Definition request_WageringService_CancelWager_0 : client_handler WageringServiceClient _ :=
  λ client ctx rq pathParams,
  decode_body rq $ λ q : CancelWagerRequest,
  path_param pathParams "wager_id" $ λ val,
  let q := mkCancelWagerRequest (cw_Meta q) val (cw_Reason q) in
  client_CancelWager client ctx q.

Definition RegisterWageringServiceHandlerClient (client : WageringServiceClient St) : list (route St) :=
  [handle_client "POST" (mkPattern [Lit "v1"; Lit "wagering"; Lit "wagers"] "")
     "/rgs.v1.WageringService/PlaceWager" (request_WageringService_PlaceWager_0 client);
   handle_client "POST" (mkPattern [Lit "v1"; Lit "wagering"; Lit "wagers"; Capture "wager_id"] "settle")
     "/rgs.v1.WageringService/SettleWager" (request_WageringService_SettleWager_0 client);
   handle_client "POST" (mkPattern [Lit "v1"; Lit "wagering"; Lit "wagers"; Capture "wager_id"] "cancel")
     "/rgs.v1.WageringService/CancelWager" (request_WageringService_CancelWager_0 client)].

Definition RegisterWageringServiceHandler (conn : ClientConn) : list (route St) :=
  RegisterWageringServiceHandlerClient (NewWageringServiceClient conn).

Definition RegisterWageringServiceHandlerFromEndpoint (endpoint : string) : option (list (route St) * ClientConn) :=
  conn ← NewClient endpoint; Some (RegisterWageringServiceHandler conn, conn).

(** ** RegistryService *)

Definition NewRegistryServiceClient (cc : ClientConn) : RegistryServiceClient St :=
  mkRegistryServiceClient St
    (λ ctx q, Invoke cc "/rgs.v1.RegistryService/UpsertEquipment" ctx q)
    (λ ctx q, Invoke cc "/rgs.v1.RegistryService/GetEquipment" ctx q)
    (λ ctx q, Invoke cc "/rgs.v1.RegistryService/ListEquipment" ctx q).

Definition request_RegistryService_UpsertEquipment_0 : client_handler RegistryServiceClient _ :=
  λ client ctx rq pathParams,
  decode_body rq $ λ q : UpsertEquipmentRequest,
  path_param pathParams "equipment.equipment_id" $ λ val,
  populate_field "equipment.equipment_id" val q $ λ q,
  client_UpsertEquipment client ctx q.

Definition request_RegistryService_GetEquipment_0 : client_handler RegistryServiceClient _ :=
  λ client ctx rq pathParams,
  let q : GetEquipmentRequest := gw_zero in
  path_param pathParams "equipment_id" $ λ val,
  let q := mkGetEquipmentRequest (ge_Meta q) val in
  query_params rq ["equipment_id"] q $ λ q,
  client_GetEquipment client ctx q.

Definition request_RegistryService_ListEquipment_0 : client_handler RegistryServiceClient _ :=
  λ client ctx rq pathParams,
  query_params rq [] (gw_zero : ListEquipmentRequest) $ λ q,
  client_ListEquipment client ctx q.

Definition RegisterRegistryServiceHandlerClient (client : RegistryServiceClient St) : list (route St) :=
  [handle_client "PUT" (mkPattern [Lit "v1"; Lit "registry"; Lit "equipment"; Capture "equipment.equipment_id"] "")
     "/rgs.v1.RegistryService/UpsertEquipment" (request_RegistryService_UpsertEquipment_0 client);
   handle_client "GET" (mkPattern [Lit "v1"; Lit "registry"; Lit "equipment"; Capture "equipment_id"] "")
     "/rgs.v1.RegistryService/GetEquipment" (request_RegistryService_GetEquipment_0 client);
   handle_client "GET" (mkPattern [Lit "v1"; Lit "registry"; Lit "equipment"] "")
     "/rgs.v1.RegistryService/ListEquipment" (request_RegistryService_ListEquipment_0 client)].

Definition RegisterRegistryServiceHandler (conn : ClientConn) : list (route St) :=
  RegisterRegistryServiceHandlerClient (NewRegistryServiceClient conn).

Definition RegisterRegistryServiceHandlerFromEndpoint (endpoint : string) : option (list (route St) * ClientConn) :=
  conn ← NewClient endpoint; Some (RegisterRegistryServiceHandler conn, conn).

(** ** EventsService *)

Definition NewEventsServiceClient (cc : ClientConn) : EventsServiceClient St :=
  mkEventsServiceClient St
    (λ ctx q, Invoke cc "/rgs.v1.EventsService/SubmitSignificantEvent" ctx q)
    (λ ctx q, Invoke cc "/rgs.v1.EventsService/SubmitMeterSnapshot" ctx q)
    (λ ctx q, Invoke cc "/rgs.v1.EventsService/SubmitMeterDelta" ctx q)
    (λ ctx q, Invoke cc "/rgs.v1.EventsService/ListEvents" ctx q)
    (λ ctx q, Invoke cc "/rgs.v1.EventsService/ListMeters" ctx q).

Definition request_EventsService_SubmitSignificantEvent_0 : client_handler EventsServiceClient _ :=
  λ client ctx rq pathParams,
  decode_body rq $ λ q : SubmitSignificantEventRequest,
  client_SubmitSignificantEvent client ctx q.

Definition request_EventsService_SubmitMeterSnapshot_0 : client_handler EventsServiceClient _ :=
  λ client ctx rq pathParams,
  decode_body rq $ λ q : SubmitMeterRequest,
  client_SubmitMeterSnapshot client ctx q.

Definition request_EventsService_SubmitMeterDelta_0 : client_handler EventsServiceClient _ :=
  λ client ctx rq pathParams,
  decode_body rq $ λ q : SubmitMeterRequest,
  client_SubmitMeterDelta client ctx q.

Definition request_EventsService_ListEvents_0 : client_handler EventsServiceClient _ :=
  λ client ctx rq pathParams,
  query_params rq [] (gw_zero : ListEventsRequest) $ λ q,
  client_ListEvents client ctx q.

Definition request_EventsService_ListMeters_0 : client_handler EventsServiceClient _ :=
  λ client ctx rq pathParams,
  query_params rq [] (gw_zero : ListMetersRequest) $ λ q,
  client_ListMeters client ctx q.

Definition RegisterEventsServiceHandlerClient (client : EventsServiceClient St) : list (route St) :=
  [handle_client "POST" (mkPattern [Lit "v1"; Lit "events"; Lit "significant"] "")
     "/rgs.v1.EventsService/SubmitSignificantEvent" (request_EventsService_SubmitSignificantEvent_0 client);
   handle_client "POST" (mkPattern [Lit "v1"; Lit "events"; Lit "meters"; Lit "snapshot"] "")
     "/rgs.v1.EventsService/SubmitMeterSnapshot" (request_EventsService_SubmitMeterSnapshot_0 client);
   handle_client "POST" (mkPattern [Lit "v1"; Lit "events"; Lit "meters"; Lit "delta"] "")
     "/rgs.v1.EventsService/SubmitMeterDelta" (request_EventsService_SubmitMeterDelta_0 client);
   handle_client "GET" (mkPattern [Lit "v1"; Lit "events"; Lit "significant"] "")
     "/rgs.v1.EventsService/ListEvents" (request_EventsService_ListEvents_0 client);
   handle_client "GET" (mkPattern [Lit "v1"; Lit "events"; Lit "meters"] "")
     "/rgs.v1.EventsService/ListMeters" (request_EventsService_ListMeters_0 client)].

Definition RegisterEventsServiceHandler (conn : ClientConn) : list (route St) :=
  RegisterEventsServiceHandlerClient (NewEventsServiceClient conn).

Definition RegisterEventsServiceHandlerFromEndpoint (endpoint : string) : option (list (route St) * ClientConn) :=
  conn ← NewClient endpoint; Some (RegisterEventsServiceHandler conn, conn).

(** ** ReportingService *)

Definition NewReportingServiceClient (cc : ClientConn) : ReportingServiceClient St :=
  mkReportingServiceClient St
    (λ ctx q, Invoke cc "/rgs.v1.ReportingService/GenerateReport" ctx q)
    (λ ctx q, Invoke cc "/rgs.v1.ReportingService/ListReportRuns" ctx q)
    (λ ctx q, Invoke cc "/rgs.v1.ReportingService/GetReportRun" ctx q).

Definition request_ReportingService_GenerateReport_0 : client_handler ReportingServiceClient _ :=
  λ client ctx rq pathParams,
  decode_body rq $ λ q : GenerateReportRequest,
  client_GenerateReport client ctx q.

Definition request_ReportingService_ListReportRuns_0 : client_handler ReportingServiceClient _ :=
  λ client ctx rq pathParams,
  query_params rq [] (gw_zero : ListReportRunsRequest) $ λ q,
  client_ListReportRuns client ctx q.

Definition request_ReportingService_GetReportRun_0 : client_handler ReportingServiceClient _ :=
  λ client ctx rq pathParams,
  let q : GetReportRunRequest := gw_zero in
  path_param pathParams "report_run_id" $ λ val,
  let q := mkGetReportRunRequest (grr_Meta q) val in
  query_params rq ["report_run_id"] q $ λ q,
  client_GetReportRun client ctx q.

Definition RegisterReportingServiceHandlerClient (client : ReportingServiceClient St) : list (route St) :=
  [handle_client "POST" (mkPattern [Lit "v1"; Lit "reporting"; Lit "runs"] "")
     "/rgs.v1.ReportingService/GenerateReport" (request_ReportingService_GenerateReport_0 client);
   handle_client "GET" (mkPattern [Lit "v1"; Lit "reporting"; Lit "runs"] "")
     "/rgs.v1.ReportingService/ListReportRuns" (request_ReportingService_ListReportRuns_0 client);
   handle_client "GET" (mkPattern [Lit "v1"; Lit "reporting"; Lit "runs"; Capture "report_run_id"] "")
     "/rgs.v1.ReportingService/GetReportRun" (request_ReportingService_GetReportRun_0 client)].

Definition RegisterReportingServiceHandler (conn : ClientConn) : list (route St) :=
  RegisterReportingServiceHandlerClient (NewReportingServiceClient conn).

Definition RegisterReportingServiceHandlerFromEndpoint (endpoint : string) : option (list (route St) * ClientConn) :=
  conn ← NewClient endpoint; Some (RegisterReportingServiceHandler conn, conn).

(** ** ConfigService *)

Definition NewConfigServiceClient (cc : ClientConn) : ConfigServiceClient St :=
  mkConfigServiceClient St
    (λ ctx q, Invoke cc "/rgs.v1.ConfigService/ProposeConfigChange" ctx q)
    (λ ctx q, Invoke cc "/rgs.v1.ConfigService/ApproveConfigChange" ctx q)
    (λ ctx q, Invoke cc "/rgs.v1.ConfigService/ApplyConfigChange" ctx q)
    (λ ctx q, Invoke cc "/rgs.v1.ConfigService/ListConfigHistory" ctx q)
    (λ ctx q, Invoke cc "/rgs.v1.ConfigService/RecordDownloadLibraryChange" ctx q)
    (λ ctx q, Invoke cc "/rgs.v1.ConfigService/ListDownloadLibraryChanges" ctx q).

Definition request_ConfigService_ProposeConfigChange_0 : client_handler ConfigServiceClient _ :=
  λ client ctx rq pathParams,
  decode_body rq $ λ q : ProposeConfigChangeRequest,
  client_ProposeConfigChange client ctx q.

Definition request_ConfigService_ApproveConfigChange_0 : client_handler ConfigServiceClient _ :=
  λ client ctx rq pathParams,
  decode_body rq $ λ q : ApproveConfigChangeRequest,
  path_param pathParams "change_id" $ λ val,
  let q := mkApproveConfigChangeRequest (ap_Meta q) val (ap_Reason q) in
  client_ApproveConfigChange client ctx q.

Definition request_ConfigService_ApplyConfigChange_0 : client_handler ConfigServiceClient _ :=
  λ client ctx rq pathParams,
  decode_body rq $ λ q : ApplyConfigChangeRequest,
  path_param pathParams "change_id" $ λ val,
  let q := mkApplyConfigChangeRequest (al_Meta q) val (al_Reason q) in
  client_ApplyConfigChange client ctx q.

Definition request_ConfigService_ListConfigHistory_0 : client_handler ConfigServiceClient _ :=
  λ client ctx rq pathParams,
  query_params rq [] (gw_zero : ListConfigHistoryRequest) $ λ q,
  client_ListConfigHistory client ctx q.

Definition request_ConfigService_RecordDownloadLibraryChange_0 : client_handler ConfigServiceClient _ :=
  λ client ctx rq pathParams,
  decode_body rq $ λ q : RecordDownloadLibraryChangeRequest,
  client_RecordDownloadLibraryChange client ctx q.

Definition request_ConfigService_ListDownloadLibraryChanges_0 : client_handler ConfigServiceClient _ :=
  λ client ctx rq pathParams,
  query_params rq [] (gw_zero : ListDownloadLibraryChangesRequest) $ λ q,
  client_ListDownloadLibraryChanges client ctx q.

Definition RegisterConfigServiceHandlerClient (client : ConfigServiceClient St) : list (route St) :=
  [handle_client "POST" (mkPattern [Lit "v1"; Lit "config"; Lit "changes"] "propose")
     "/rgs.v1.ConfigService/ProposeConfigChange" (request_ConfigService_ProposeConfigChange_0 client);
   handle_client "POST" (mkPattern [Lit "v1"; Lit "config"; Lit "changes"; Capture "change_id"] "approve")
     "/rgs.v1.ConfigService/ApproveConfigChange" (request_ConfigService_ApproveConfigChange_0 client);
   handle_client "POST" (mkPattern [Lit "v1"; Lit "config"; Lit "changes"; Capture "change_id"] "apply")
     "/rgs.v1.ConfigService/ApplyConfigChange" (request_ConfigService_ApplyConfigChange_0 client);
   handle_client "GET" (mkPattern [Lit "v1"; Lit "config"; Lit "history"] "")
     "/rgs.v1.ConfigService/ListConfigHistory" (request_ConfigService_ListConfigHistory_0 client);
   handle_client "POST" (mkPattern [Lit "v1"; Lit "config"; Lit "download-library"] "record")
     "/rgs.v1.ConfigService/RecordDownloadLibraryChange" (request_ConfigService_RecordDownloadLibraryChange_0 client);
   handle_client "GET" (mkPattern [Lit "v1"; Lit "config"; Lit "download-library"] "")
     "/rgs.v1.ConfigService/ListDownloadLibraryChanges" (request_ConfigService_ListDownloadLibraryChanges_0 client)].

Definition RegisterConfigServiceHandler (conn : ClientConn) : list (route St) :=
  RegisterConfigServiceHandlerClient (NewConfigServiceClient conn).

Definition RegisterConfigServiceHandlerFromEndpoint (endpoint : string) : option (list (route St) * ClientConn) :=
  conn ← NewClient endpoint; Some (RegisterConfigServiceHandler conn, conn).

(** ** PromotionsService *)

Definition NewPromotionsServiceClient (cc : ClientConn) : PromotionsServiceClient St :=
  mkPromotionsServiceClient St
    (λ ctx q, Invoke cc "/rgs.v1.PromotionsService/RecordBonusTransaction" ctx q)
    (λ ctx q, Invoke cc "/rgs.v1.PromotionsService/ListRecentBonusTransactions" ctx q)
    (λ ctx q, Invoke cc "/rgs.v1.PromotionsService/RecordPromotionalAward" ctx q)
    (λ ctx q, Invoke cc "/rgs.v1.PromotionsService/ListPromotionalAwards" ctx q).

Definition request_PromotionsService_RecordBonusTransaction_0 : client_handler PromotionsServiceClient _ :=
  λ client ctx rq pathParams,
  decode_body rq $ λ q : RecordBonusTransactionRequest,
  client_RecordBonusTransaction client ctx q.

Definition request_PromotionsService_ListRecentBonusTransactions_0 : client_handler PromotionsServiceClient _ :=
  λ client ctx rq pathParams,
  query_params rq [] (gw_zero : ListRecentBonusTransactionsRequest) $ λ q,
  client_ListRecentBonusTransactions client ctx q.

Definition request_PromotionsService_RecordPromotionalAward_0 : client_handler PromotionsServiceClient _ :=
  λ client ctx rq pathParams,
  decode_body rq $ λ q : RecordPromotionalAwardRequest,
  client_RecordPromotionalAward client ctx q.

Definition request_PromotionsService_ListPromotionalAwards_0 : client_handler PromotionsServiceClient _ :=
  λ client ctx rq pathParams,
  query_params rq [] (gw_zero : ListPromotionalAwardsRequest) $ λ q,
  client_ListPromotionalAwards client ctx q.

Definition RegisterPromotionsServiceHandlerClient (client : PromotionsServiceClient St) : list (route St) :=
  [handle_client "POST" (mkPattern [Lit "v1"; Lit "promotions"; Lit "bonus-transactions"] "")
     "/rgs.v1.PromotionsService/RecordBonusTransaction" (request_PromotionsService_RecordBonusTransaction_0 client);
   handle_client "GET" (mkPattern [Lit "v1"; Lit "promotions"; Lit "bonus-transactions"] "")
     "/rgs.v1.PromotionsService/ListRecentBonusTransactions" (request_PromotionsService_ListRecentBonusTransactions_0 client);
   handle_client "POST" (mkPattern [Lit "v1"; Lit "promotions"; Lit "awards"] "")
     "/rgs.v1.PromotionsService/RecordPromotionalAward" (request_PromotionsService_RecordPromotionalAward_0 client);
   handle_client "GET" (mkPattern [Lit "v1"; Lit "promotions"; Lit "awards"] "")
     "/rgs.v1.PromotionsService/ListPromotionalAwards" (request_PromotionsService_ListPromotionalAwards_0 client)].

Definition RegisterPromotionsServiceHandler (conn : ClientConn) : list (route St) :=
  RegisterPromotionsServiceHandlerClient (NewPromotionsServiceClient conn).

Definition RegisterPromotionsServiceHandlerFromEndpoint (endpoint : string) : option (list (route St) * ClientConn) :=
  conn ← NewClient endpoint; Some (RegisterPromotionsServiceHandler conn, conn).

(** ** UISystemOverlayService *)

Definition NewUISystemOverlayServiceClient (cc : ClientConn) : UISystemOverlayServiceClient St :=
  mkUISystemOverlayServiceClient St
    (λ ctx q, Invoke cc "/rgs.v1.UISystemOverlayService/SubmitSystemWindowEvent" ctx q)
    (λ ctx q, Invoke cc "/rgs.v1.UISystemOverlayService/ListSystemWindowEvents" ctx q).

Definition request_UISystemOverlayService_SubmitSystemWindowEvent_0 : client_handler UISystemOverlayServiceClient _ :=
  λ client ctx rq pathParams,
  decode_body rq $ λ q : SubmitSystemWindowEventRequest,
  client_SubmitSystemWindowEvent client ctx q.

Definition request_UISystemOverlayService_ListSystemWindowEvents_0 : client_handler UISystemOverlayServiceClient _ :=
  λ client ctx rq pathParams,
  query_params rq [] (gw_zero : ListSystemWindowEventsRequest) $ λ q,
  client_ListSystemWindowEvents client ctx q.

Definition RegisterUISystemOverlayServiceHandlerClient (client : UISystemOverlayServiceClient St) : list (route St) :=
  [handle_client "POST" (mkPattern [Lit "v1"; Lit "ui"; Lit "system-window-events"] "")
     "/rgs.v1.UISystemOverlayService/SubmitSystemWindowEvent" (request_UISystemOverlayService_SubmitSystemWindowEvent_0 client);
   handle_client "GET" (mkPattern [Lit "v1"; Lit "ui"; Lit "system-window-events"] "")
     "/rgs.v1.UISystemOverlayService/ListSystemWindowEvents" (request_UISystemOverlayService_ListSystemWindowEvents_0 client)].

Definition RegisterUISystemOverlayServiceHandler (conn : ClientConn) : list (route St) :=
  RegisterUISystemOverlayServiceHandlerClient (NewUISystemOverlayServiceClient conn).

Definition RegisterUISystemOverlayServiceHandlerFromEndpoint (endpoint : string) : option (list (route St) * ClientConn) :=
  conn ← NewClient endpoint; Some (RegisterUISystemOverlayServiceHandler conn, conn).

(** ** SessionsService *)

Definition NewSessionsServiceClient (cc : ClientConn) : SessionsServiceClient St :=
  mkSessionsServiceClient St
    (λ ctx q, Invoke cc "/rgs.v1.SessionsService/StartSession" ctx q)
    (λ ctx q, Invoke cc "/rgs.v1.SessionsService/EndSession" ctx q)
    (λ ctx q, Invoke cc "/rgs.v1.SessionsService/GetSession" ctx q).

Definition request_SessionsService_StartSession_0 : client_handler SessionsServiceClient _ :=
  λ client ctx rq pathParams,
  decode_body rq $ λ q : StartSessionRequest,
  client_StartSession client ctx q.

Definition request_SessionsService_EndSession_0 : client_handler SessionsServiceClient _ :=
  λ client ctx rq pathParams,
  decode_body rq $ λ q : EndSessionRequest,
  client_EndSession client ctx q.

Definition request_SessionsService_GetSession_0 : client_handler SessionsServiceClient _ :=
  λ client ctx rq pathParams,
  let q : GetSessionRequest := gw_zero in
  path_param pathParams "session_id" $ λ val,
  let q := mkGetSessionRequest (gs_Meta q) val in
  query_params rq ["session_id"] q $ λ q,
  client_GetSession client ctx q.

Definition RegisterSessionsServiceHandlerClient (client : SessionsServiceClient St) : list (route St) :=
  [handle_client "POST" (mkPattern [Lit "v1"; Lit "sessions"] "start")
     "/rgs.v1.SessionsService/StartSession" (request_SessionsService_StartSession_0 client);
   handle_client "POST" (mkPattern [Lit "v1"; Lit "sessions"] "end")
     "/rgs.v1.SessionsService/EndSession" (request_SessionsService_EndSession_0 client);
   handle_client "GET" (mkPattern [Lit "v1"; Lit "sessions"; Capture "session_id"] "")
     "/rgs.v1.SessionsService/GetSession" (request_SessionsService_GetSession_0 client)].

Definition RegisterSessionsServiceHandler (conn : ClientConn) : list (route St) :=
  RegisterSessionsServiceHandlerClient (NewSessionsServiceClient conn).

Definition RegisterSessionsServiceHandlerFromEndpoint (endpoint : string) : option (list (route St) * ClientConn) :=
  conn ← NewClient endpoint; Some (RegisterSessionsServiceHandler conn, conn).

(** ** AuditService *)

Definition NewAuditServiceClient (cc : ClientConn) : AuditServiceClient St :=
  mkAuditServiceClient St
    (λ ctx q, Invoke cc "/rgs.v1.AuditService/ListAuditEvents" ctx q)
    (λ ctx q, Invoke cc "/rgs.v1.AuditService/ListRemoteAccessActivities" ctx q)
    (λ ctx q, Invoke cc "/rgs.v1.AuditService/VerifyAuditChain" ctx q).

Definition request_AuditService_ListAuditEvents_0 : client_handler AuditServiceClient _ :=
  λ client ctx rq pathParams,
  query_params rq [] (gw_zero : ListAuditEventsRequest) $ λ q,
  client_ListAuditEvents client ctx q.

Definition request_AuditService_ListRemoteAccessActivities_0 : client_handler AuditServiceClient _ :=
  λ client ctx rq pathParams,
  query_params rq [] (gw_zero : ListRemoteAccessActivitiesRequest) $ λ q,
  client_ListRemoteAccessActivities client ctx q.

Definition request_AuditService_VerifyAuditChain_0 : client_handler AuditServiceClient _ :=
  λ client ctx rq pathParams,
  decode_body rq $ λ q : VerifyAuditChainRequest,
  client_VerifyAuditChain client ctx q.

Definition RegisterAuditServiceHandlerClient (client : AuditServiceClient St) : list (route St) :=
  [handle_client "GET" (mkPattern [Lit "v1"; Lit "audit"; Lit "events"] "")
     "/rgs.v1.AuditService/ListAuditEvents" (request_AuditService_ListAuditEvents_0 client);
   handle_client "GET" (mkPattern [Lit "v1"; Lit "audit"; Lit "remote-access"] "")
     "/rgs.v1.AuditService/ListRemoteAccessActivities" (request_AuditService_ListRemoteAccessActivities_0 client);
   handle_client "POST" (mkPattern [Lit "v1"; Lit "audit"; Lit "chain"] "verify")
     "/rgs.v1.AuditService/VerifyAuditChain" (request_AuditService_VerifyAuditChain_0 client)].

Definition RegisterAuditServiceHandler (conn : ClientConn) : list (route St) :=
  RegisterAuditServiceHandlerClient (NewAuditServiceClient conn).

Definition RegisterAuditServiceHandlerFromEndpoint (endpoint : string) : option (list (route St) * ClientConn) :=
  conn ← NewClient endpoint; Some (RegisterAuditServiceHandler conn, conn).

(** All services on one connection. *)
Definition client_api (conn : ClientConn) : list (route St) :=
  RegisterSystemServiceHandler conn
  ++ RegisterIdentityServiceHandler conn
  ++ RegisterLedgerServiceHandler conn
  ++ RegisterWageringServiceHandler conn
  ++ RegisterRegistryServiceHandler conn
  ++ RegisterEventsServiceHandler conn
  ++ RegisterReportingServiceHandler conn
  ++ RegisterConfigServiceHandler conn
  ++ RegisterPromotionsServiceHandler conn
  ++ RegisterUISystemOverlayServiceHandler conn
  ++ RegisterSessionsServiceHandler conn
  ++ RegisterAuditServiceHandler conn.
End client.

(** [ServeHTTP] of a multiplexer with the routes: the statuses written.  The
    annotation may fail. *)
Definition client_gateway {St} `{!Mux} (annotate : RestRequest → option Code) (routes : list (route St))
    (rq : RestRequest) (ctx : Context) : M St (list Z) :=
  match mux_find ((λ r, (rt_method r, rt_pattern r)) <$> routes) rq with
  | None => mret [mux_status rq]
  | Some (i, pathParams) =>
      match routes !! i with
      | None => mret [mux_status rq]
      | Some rt =>
          match annotate rq with
          | Some c => mret [HTTPStatusFromCode c]
          | None =>
              r ← rt_run rt ctx rq pathParams;
              mret [match r with inl _ => 200 | inr c => HTTPStatusFromCode c end]
          end
      end
  end.
