(* ===== verification/GatewayClientProofs.v ===== *)
(** * What the client side of the gateway guarantees

    It forwards: a request becomes at most one call, of the RPC its route is
    named after.  And with clients that call the services in the process it is
    the gateway the server uses. *)

From S2P Require Import Prelude GoTime GoJson GoNet GoBytes GoJsonRead GoDuration AuditTrail Service Listing.
From S2P Require Import Ledger Wagering Sessions Registry Config Events Reporting Extensions RemoteAccess.
From S2P Require Import AuditService Auth Identity Attestation AttestationProofs Startup Metrics Server ServerProofs Gateway GatewayProofs Env.
From S2P Require Import Grpc GrpcProofs GatewayClient.
From Stdlib Require Import Ascii.

Section client.
Context {D : Type} `{!OS, !TLSLib, !MapOrder, !Wall, !Crypto, !JsonValid, !UnicodeUpper, !Random}.
Context `{!JWT, !Bcrypt, !JsonDecodeMap, !AuditDB D, !LedgerDB D, !WageringDB D, !SessionsDB D}.
Context `{!RegistryDB D, !ConfigDB D, !EventsDB D, !ReportingDB D, !ExtensionsDB D, !RemoteDB D}.
Context `{!AuditQueryDB D, !IdentityDB D}.
Context `{!ProtoJSON DepositResponse, !ProtoJSON WithdrawResponse,
  !ProtoJSON TransferToDeviceResponse, !ProtoJSON TransferToAccountResponse,
  !ProtoJSON PlaceWagerResponse, !ProtoJSON SettleWagerResponse, !ProtoJSON CancelWagerResponse}.
Context `{!Mux, !GwPopulate UpsertEquipmentRequest}.
Context `{!GwMessage ListAuditEventsRequest, !GwMessage ListRemoteAccessActivitiesRequest,
  !GwMessage VerifyAuditChainRequest, !GwMessage ProposeConfigChangeRequest,
  !GwMessage ApproveConfigChangeRequest, !GwMessage ApplyConfigChangeRequest,
  !GwMessage ListConfigHistoryRequest, !GwMessage RecordDownloadLibraryChangeRequest,
  !GwMessage ListDownloadLibraryChangesRequest, !GwMessage SubmitSignificantEventRequest,
  !GwMessage SubmitMeterRequest, !GwMessage ListEventsRequest, !GwMessage ListMetersRequest,
  !GwMessage RecordBonusTransactionRequest, !GwMessage ListRecentBonusTransactionsRequest,
  !GwMessage RecordPromotionalAwardRequest, !GwMessage ListPromotionalAwardsRequest,
  !GwMessage SubmitSystemWindowEventRequest, !GwMessage ListSystemWindowEventsRequest}.
Context `{!GwMessage LoginRequest, !GwMessage TokenRequest, !GwMessage SetCredentialRequest,
  !GwMessage ActorRequest, !GwMessage GetBalanceRequest, !GwMessage DepositRequest,
  !GwMessage WithdrawRequest, !GwMessage TransferToDeviceRequest,
  !GwMessage TransferToAccountRequest, !GwMessage ListTransactionsRequest,
  !GwMessage UpsertEquipmentRequest, !GwMessage GetEquipmentRequest,
  !GwMessage ListEquipmentRequest, !GwMessage GenerateReportRequest,
  !GwMessage ListReportRunsRequest, !GwMessage GetReportRunRequest,
  !GwMessage StartSessionRequest, !GwMessage EndSessionRequest, !GwMessage GetSessionRequest,
  !GwMessage GetSystemStatusRequest, !GwMessage PlaceWagerRequest, !GwMessage SettleWagerRequest,
  !GwMessage CancelWagerRequest}.

Implicit Types (s : Server D).

(** ** Clients in the process *)

(** The answer to what a call returned. *)
Definition forgotten {Resp} (r : Resp + Code) : () + Code :=
  match r with inl _ => inl () | inr c => inr c end.

(** Clients that call the services of this server. *)
Definition local_SystemService : SystemServiceClient (Server D) := mkSystemServiceClient _
  (λ ctx q, call (on_system (GetSystemStatus (Some q)))).
Definition local_IdentityService : IdentityServiceClient (Server D) := mkIdentityServiceClient _
  (λ ctx q, call (on_identity (Login (Some q))))
  (λ ctx q, call (on_identity (Logout (Some q))))
  (λ ctx q, call (on_identity (RefreshToken (Some q))))
  (λ ctx q, call (on_identity (SetCredential (Some ctx) (Some q))))
  (λ ctx q, call (on_identity (DisableCredential (Some ctx) (Some q))))
  (λ ctx q, call (on_identity (EnableCredential (Some ctx) (Some q))))
  (λ ctx q, call (on_identity (GetLockout (Some ctx) (Some q))))
  (λ ctx q, call (on_identity (ResetLockout (Some ctx) (Some q)))).
Definition local_LedgerService : LedgerServiceClient (Server D) := mkLedgerServiceClient _
  (λ ctx q, call (on_ledger_srv (GetBalance (Some ctx) (Some q))))
  (λ ctx q, call (on_ledger_srv (Deposit (Some ctx) (Some q))))
  (λ ctx q, call (on_ledger_srv (Withdraw (Some ctx) (Some q))))
  (λ ctx q, call (on_ledger_srv (TransferToDevice (Some ctx) (Some q))))
  (λ ctx q, call (on_ledger_srv (TransferToAccount (Some ctx) (Some q))))
  (λ ctx q, call (on_ledger_srv (ListTransactions (Some ctx) (Some q)))).
Definition local_WageringService : WageringServiceClient (Server D) := mkWageringServiceClient _
  (λ ctx q, call (on_wagering (PlaceWager (Some ctx) (Some q))))
  (λ ctx q, call (on_wagering (SettleWager (Some ctx) (Some q))))
  (λ ctx q, call (on_wagering (CancelWager (Some ctx) (Some q)))).
Definition local_RegistryService : RegistryServiceClient (Server D) := mkRegistryServiceClient _
  (λ ctx q, call (on_registry (UpsertEquipment (Some ctx) (Some q))))
  (λ ctx q, call (on_registry (GetEquipment (Some ctx) (Some q))))
  (λ ctx q, call (on_registry (ListEquipment (Some ctx) (Some q)))).
Definition local_EventsService : EventsServiceClient (Server D) := mkEventsServiceClient _
  (λ ctx q, call (on_events_srv (SubmitSignificantEvent (Some ctx) (Some q))))
  (λ ctx q, call (on_events_srv (SubmitMeterSnapshot (Some ctx) (Some q))))
  (λ ctx q, call (on_events_srv (SubmitMeterDelta (Some ctx) (Some q))))
  (λ ctx q, call (on_events_srv (ListEvents (Some ctx) (Some q))))
  (λ ctx q, call (on_events_srv (ListMeters (Some ctx) (Some q)))).
Definition local_ReportingService : ReportingServiceClient (Server D) := mkReportingServiceClient _
  (λ ctx q, call (on_reporting (GenerateReport (Some ctx) (Some q))))
  (λ ctx q, call (on_reporting (ListReportRuns (Some ctx) (Some q))))
  (λ ctx q, call (on_reporting (GetReportRun (Some ctx) (Some q)))).
Definition local_ConfigService : ConfigServiceClient (Server D) := mkConfigServiceClient _
  (λ ctx q, call (on_config (ProposeConfigChange (Some ctx) (Some q))))
  (λ ctx q, call (on_config (ApproveConfigChange (Some ctx) (Some q))))
  (λ ctx q, call (on_config (ApplyConfigChange (Some ctx) (Some q))))
  (λ ctx q, call (on_config (ListConfigHistory (Some ctx) (Some q))))
  (λ ctx q, call (on_config (RecordDownloadLibraryChange (Some ctx) (Some q))))
  (λ ctx q, call (on_config (ListDownloadLibraryChanges (Some ctx) (Some q)))).
Definition local_PromotionsService : PromotionsServiceClient (Server D) := mkPromotionsServiceClient _
  (λ ctx q, call (on_promotions (RecordBonusTransaction (Some ctx) (Some q))))
  (λ ctx q, call (on_promotions (ListRecentBonusTransactions (Some ctx) (Some q))))
  (λ ctx q, call (on_promotions (RecordPromotionalAward (Some ctx) (Some q))))
  (λ ctx q, call (on_promotions (ListPromotionalAwards (Some ctx) (Some q)))).
Definition local_UISystemOverlayService : UISystemOverlayServiceClient (Server D) := mkUISystemOverlayServiceClient _
  (λ ctx q, call (on_overlay (SubmitSystemWindowEvent (Some ctx) (Some q))))
  (λ ctx q, call (on_overlay (ListSystemWindowEvents (Some ctx) (Some q)))).
Definition local_SessionsService : SessionsServiceClient (Server D) := mkSessionsServiceClient _
  (λ ctx q, call (on_sessions (StartSession (Some ctx) (Some q))))
  (λ ctx q, call (on_sessions (EndSession (Some ctx) (Some q))))
  (λ ctx q, call (on_sessions (Sessions.GetSession (Some ctx) (Some q)))).
Definition local_AuditService : AuditServiceClient (Server D) := mkAuditServiceClient _
  (λ ctx q, call (on_audit (ListAuditEvents (Some ctx) (Some q))))
  (λ ctx q, call (on_audit (ListRemoteAccessActivities (Some ctx) (Some q))))
  (λ ctx q, call (on_audit (VerifyAuditChain (Some ctx) (Some q)))).

Definition local_api : list (route (Server D)) :=
  RegisterSystemServiceHandlerClient local_SystemService
  ++ RegisterIdentityServiceHandlerClient local_IdentityService
  ++ RegisterLedgerServiceHandlerClient local_LedgerService
  ++ RegisterWageringServiceHandlerClient local_WageringService
  ++ RegisterRegistryServiceHandlerClient local_RegistryService
  ++ RegisterEventsServiceHandlerClient local_EventsService
  ++ RegisterReportingServiceHandlerClient local_ReportingService
  ++ RegisterConfigServiceHandlerClient local_ConfigService
  ++ RegisterPromotionsServiceHandlerClient local_PromotionsService
  ++ RegisterUISystemOverlayServiceHandlerClient local_UISystemOverlayService
  ++ RegisterSessionsServiceHandlerClient local_SessionsService
  ++ RegisterAuditServiceHandlerClient local_AuditService.

Definition same_route (rt rt' : route (Server D)) : Prop :=
  rt_method rt = rt_method rt' ∧ rt_pattern rt = rt_pattern rt' ∧ rt_rpc rt = rt_rpc rt'
  ∧ ∀ ctx rq params s, attached s → rt_run rt ctx rq params s = rt_run rt' ctx rq params s.

(** The two functions for an RPC parse a request alike. *)
Definition parse_alike {S A} (l' : M (Svc D S) A → M (Server D) A) (h : local_handler S A)
    (hc : Context → RestRequest → gmap string string → M (Server D) (A + Code)) : Prop :=
  ∀ ctx rq params,
    h ctx rq params = mret (inr InvalidArgument) ∧ hc ctx rq params = mret (inr InvalidArgument)
    ∨ ∃ m, h ctx rq params = call m ∧ hc ctx rq params = call (l' m).

Lemma client_same_route {S A} l l' method p rpc (h : local_handler S A) hc :
  same_lift l l' → parse_alike l' h hc →
  same_route (handle_client method p rpc hc) (handle method p rpc l h).
Proof.
  intros [Hret Hcall] Hp. do 3 (split; [done|]). intros ctx rq params s Hs.
  unfold handle, handle_client. cbn [rt_run]. unfold mbind, M_bind.
  destruct (Hp ctx rq params) as [[-> ->]|(m & -> & ->)]; [by rewrite Hret|by rewrite Hcall].
Qed.

Ltac same_as_local :=
  lazymatch goal with
  | |- same_route (handle_client _ _ _ (?hc _)) (handle _ _ _ _ ?h) =>
      eapply client_same_route;
      [first [apply same_ledger | apply same_events | apply same_zoom; same_state]|];
      intros ctx rq params; let f := head_of h in let g := head_of hc in
      unfold f, g, decode_body, path_param, populate_field, query_params;
      repeat parse_step; right; eexists; split; reflexivity
  end.

Lemma local_api_same : Forall2 same_route local_api api.
Proof.
  unfold local_api, api. repeat apply Forall2_app.
  all: match goal with |- Forall2 _ (?f _) ?y => let g := head_of f in let h := head_of y in unfold g, h end.
  all: repeat apply Forall2_cons_2; try apply Forall2_nil_2.
  all: same_as_local.
Qed.

Lemma local_routes : (λ r, (rt_method r, rt_pattern r)) <$> local_api = (λ r, (rt_method r, rt_pattern r)) <$> api.
Proof.
  apply list_eq_Forall2. apply Forall2_fmap. eapply Forall2_impl; [apply local_api_same|].
  intros rt rt' (-> & -> & _). done.
Qed.

(** ** Forwarding *)

Section forward.
Context {St : Type} `{!GrpcClientLib St}.

(** A route of the gateway over a connection and the route of the gateway in
    the process: they have the same method, pattern and RPC; a request that one
    of them refuses the other refuses too; and for any other request the first
    invokes the RPC of the route, once, with the message that the second passes
    to the service, [serve] being what the service does with a message. *)
Definition carries (conn : ClientConn) (rt : route St) (rt' : route (Server D)) : Prop :=
  rt_method rt = rt_method rt' ∧ rt_pattern rt = rt_pattern rt' ∧ rt_rpc rt = rt_rpc rt'
  ∧ ∃ (Req Resp : Type) (serve : Context → Req → M (Server D) (Resp + Code)), ∀ ctx rq params,
      (rt_run rt ctx rq params = mret (inr InvalidArgument)
       ∧ ∀ s, attached s → rt_run rt' ctx rq params s = Done (inr InvalidArgument) s)
      ∨ ∃ q : Req,
          rt_run rt ctx rq params = (r ← Invoke conn (Resp := Resp) (rt_rpc rt') ctx q; mret (forgotten r))
          ∧ ∀ s, attached s →
              rt_run rt' ctx rq params s = (r ← serve ctx q; mret (forgotten r)) s.

(** The same without the condition on the server. *)
Definition carries_here (conn : ClientConn) (rt : route St) (rt' : route (Server D)) : Prop :=
  rt_method rt = rt_method rt' ∧ rt_pattern rt = rt_pattern rt' ∧ rt_rpc rt = rt_rpc rt'
  ∧ ∃ (Req Resp : Type) (serve : Context → Req → M (Server D) (Resp + Code)), ∀ ctx rq params,
      (rt_run rt ctx rq params = mret (inr InvalidArgument)
       ∧ rt_run rt' ctx rq params = mret (inr InvalidArgument))
      ∨ ∃ q : Req,
          rt_run rt ctx rq params = (r ← Invoke conn (Resp := Resp) (rt_rpc rt') ctx q; mret (forgotten r))
          ∧ rt_run rt' ctx rq params = (r ← serve ctx q; mret (forgotten r)).

Ltac carry :=
  lazymatch goal with
  | |- carries_here _ (handle_client _ _ _ (?h _)) (handle_client _ _ _ (_ _)) =>
      do 3 (split; [reflexivity|]); eexists _, _, _; intros ctx rq params;
      unfold handle_client; cbn [rt_run rt_rpc];
      let f := head_of h in unfold f, decode_body, path_param, populate_field, query_params;
      repeat parse_step; right; eexists; split; reflexivity
  end.

Lemma client_api_carries_here conn : Forall2 (carries_here conn) (client_api conn) local_api.
Proof.
  unfold client_api, local_api. repeat apply Forall2_app.
  all: match goal with |- Forall2 _ (?f _) (?g _) => let f' := head_of f in let g' := head_of g in unfold f', g' end.
  all: match goal with |- Forall2 _ (?f _) _ => let f' := head_of f in unfold f' | _ => idtac end.
  all: repeat apply Forall2_cons_2; try apply Forall2_nil_2.
  all: carry.
Qed.

Lemma client_api_carries conn : Forall2 (carries conn) (client_api conn) api.
Proof.
  refine (Forall2_trans _ _ _ _ _ _ _ (client_api_carries_here conn) local_api_same).
  intros rt rl rt' (Hm & Hp & Hr & Req & Resp & serve & Hrun) (Hm' & Hp' & Hr' & Hsame).
  rewrite Hm', Hp', Hr' in *. do 3 (split; [done|]). exists Req, Resp, serve. intros ctx rq params.
  destruct (Hrun ctx rq params) as [[E El]|(q & E & El)]; [left|right; exists q];
    (split; [done|]); intros s Hs; rewrite <- (Hsame ctx rq params s Hs), El; done.
Qed.

Lemma client_routes conn :
  (λ r, (rt_method r, rt_pattern r)) <$> client_api conn = (λ r, (rt_method r, rt_pattern r)) <$> api.
Proof.
  apply list_eq_Forall2. apply Forall2_fmap. eapply Forall2_impl; [apply client_api_carries|].
  intros rt rt' (-> & -> & _). done.
Qed.

(** The gateway on a request: it answers itself, or it makes one call, of the
    RPC of the route the multiplexer finds. *)
Lemma client_gateway_one_call annotate conn rq ctx :
  (∃ status, client_gateway annotate (client_api conn) rq ctx = mret [status])
  ∨ ∃ rt params (Req Resp : Type) (q : Req), route_of rq = Some (rt, params)
      ∧ ∀ x, client_gateway annotate (client_api conn) rq ctx x
          = (r ← Invoke conn (Resp := Resp) (rt_rpc rt) ctx q;
             mret [match r with inl _ => 200 | inr c => HTTPStatusFromCode c end]) x.
Proof.
  unfold client_gateway, route_of. rewrite client_routes.
  destruct (mux_find _ rq) as [[i params]|]; [|left; by eexists]. cbn [mbind option_bind].
  destruct (client_api conn !! i) as [rt|] eqn:Hi; [|left; by eexists].
  destruct (Forall2_lookup_l _ _ _ _ _ (client_api_carries conn) Hi)
    as (rt' & Hi' & _ & _ & _ & Req & Resp & serve & Hrun). rewrite Hi'. cbn [mbind option_bind].
  destruct (annotate rq); [left; by eexists|].
  destruct (Hrun ctx rq params) as [[E _]|(q & E & _)]; rewrite E.
  - left. by eexists.
  - right. exists rt', params, Req, Resp, q. split; [done|]. intros x. unfold mbind, M_bind.
    by destruct (Invoke _ _ _ _ x) as [[] ?| |].
Qed.
End forward.

End client.

Import GrpcExample ServerExample.

Lemma ex_attached : ∃ srv : Server (), attached srv.
Proof.
  destruct (serves_inv [] (λ srv _ _, bool_decide (is_Some (rep_Ledger (st (srv_reporting srv))))
    && bool_decide (is_Some (rep_Events (st (srv_reporting srv)))))) as (srv & _ & _ & _ & _ & _ & HP); [by vm_compute|].
  apply andb_prop in HP as [Hl He]. apply bool_decide_eq_true in Hl, He. exists srv. split; [exact Hl|exact He].
Qed.

