(* ===== verification/Evidence.v ===== *)
(** * Release evidence (internal/platform/evidence, cmd/verifysummary)

    The validator of a verification run's summary.json, and the strict mode that
    checks the files the summary names: the log, the index, the manifest of
    checksums and the signed attestation.  An error is [Some e], [nil] is
    [None]; a failed type assertion [v.(T)] panics. *)

From S2P Require Import Prelude GoJson GoNet GoBytes GoJsonRead AuditTrail Attestation.
From Stdlib Require Import Ascii.

(** [if err := e; err != nil { return err }]. *)
Notation "'guard' e ; k" := (match e with Some x => mret (Some x) | None => k end)
  (at level 200, e at level 100, k at level 200, right associativity).

(** ** summary_validator.go: fields *)

Definition requireNonEmptyString (m : object) (key : string) : option ev_error :=
  match member m key with
  | None => Some (EMissing key)
  | Some (JStr s) => if decide (s = "") then Some (ENonEmpty key) else None
  | Some _ => Some (ENonEmpty key)
  end.

Definition requireInSetString (m : object) (key : string) (vals : list string) : option ev_error :=
  match member m key with
  | None => Some (EMissing key)
  | Some (JStr s) => if decide (s ∈ vals) then None else Some (EInvalid key s)
  | Some _ => Some (EString key)
  end.

Definition requireOptionalInSetString (m : object) (key : string) (vals : list string)
    : option ev_error :=
  match member m key with
  | None => Some (EMissing key)
  | Some JNull => None
  | Some (JStr s) => if decide (s ∈ vals) then None else Some (EInvalid key s)
  | Some _ => Some (EStringOrNull key)
  end.

Definition requireBool (m : object) (key : string) : option ev_error :=
  match member m key with
  | None => Some (EMissing key)
  | Some (JBool _) => None
  | Some _ => Some (EBool key)
  end.

Definition requireNumberEquals (m : object) (key : string) (n : Z) : option ev_error :=
  match member m key with
  | None => Some (EMissing key)
  | Some (JNum f) => if f64_eqb f (f64 n) then None else Some (EEquals key n)
  | Some _ => Some (EEquals key n)
  end.

Definition requireNumberNonNegative (m : object) (key : string) : option ev_error :=
  match member m key with
  | None => Some (EMissing key)
  | Some (JNum f) => if f64_ltb f (f64 0) then Some (ENonNegative key) else None
  | Some _ => Some (ENonNegative key)
  end.

(** [^[A-Fa-f0-9]{64}$]. *)
Definition hex_char (c : ascii) : bool := byte_in 65 70 c || byte_in 97 102 c || byte_in 48 57 c.
Definition sha256HexPattern (s : string) : bool :=
  bool_decide (String.length s = 64%nat) && str_all hex_char s.

Definition requireSHA256HexString (m : object) (key : string) : option ev_error :=
  match member m key with
  | None => Some (EMissing key)
  | Some (JStr s) => if sha256HexPattern s then None else Some (ESHA256 key)
  | Some _ => Some (ESHA256 key)
  end.

Definition numberValue (v : option any) : float64 :=
  match v with Some (JNum f) => f | _ => f64 0 end.

Definition failureLabel (protoStatus verifyStatus : Z) : string :=
  if decide (protoStatus ≠ 0 ∧ verifyStatus ≠ 0) then "both"
  else if decide (protoStatus ≠ 0) then "proto_check" else "make_verify".

(** Comparing an [any] with a string and with nil. *)
Definition any_is (v : option any) (s : string) : bool :=
  match v with Some (JStr t) => bool_decide (t = s) | _ => false end.
Definition any_nil (v : option any) : bool := match v with None | Some JNull => true | _ => false end.

Section summary.
Context `{FloatInt} {W : Type}.

(** [v.(bool)] and [v.(string)]. *)
Definition assert_bool (v : option any) : M W bool :=
  match v with Some (JBool b) => mret b | _ => panic end.
Definition assert_string (v : option any) : M W string :=
  match v with Some (JStr s) => mret s | _ => panic end.

(** The field checks, in their order. *)
Definition schema2_fields (s : object) : option ev_error :=
  let first_error := foldr (λ e r, match e with Some x => Some x | None => r end) None in
  first_error
   [requireNumberEquals s "summary_schema_version" 2;
    requireNonEmptyString s "timestamp_utc";
    requireNonEmptyString s "run_dir";
    requireInSetString s "proto_mode" ["full"; "diff-only"];
    requireBool s "require_clean_worktree";
    requireBool s "required_artifacts_present";
    requireBool s "optional_changed_files_present";
    requireNumberNonNegative s "required_artifact_count_expected";
    requireNumberNonNegative s "required_artifact_count_present";
    requireNumberNonNegative s "required_artifact_count_missing";
    requireNumberNonNegative s "artifact_file_count";
    requireNumberNonNegative s "artifact_total_bytes";
    requireNumberEquals s "summary_validation_status" 0;
    requireNonEmptyString s "summary_validation_log";
    requireSHA256HexString s "summary_validation_log_sha256";
    requireInSetString s "attestation_status" ["signed"];
    requireInSetString s "attestation_alg" ["ed25519"];
    requireOptionalInSetString s "attestation_file" ["attestation.json"];
    requireOptionalInSetString s "attestation_signature_file" ["attestation.sig"];
    requireNumberNonNegative s "proto_check_status";
    requireNumberNonNegative s "make_verify_status";
    requireInSetString s "overall_status" ["pass"; "fail"];
    requireOptionalInSetString s "failed_step" ["proto_check"; "make_verify"; "both"];
    requireOptionalInSetString s "changed_files_artifact" ["changed_files.txt"]].

(** The checks between fields. *)
Definition schema2_consistency (s : object) : M W (option ev_error) :=
  let count key := f64_int (numberValue (member s key)) in
  let expected := count "required_artifact_count_expected" in
  let present := count "required_artifact_count_present" in
  let missing := count "required_artifact_count_missing" in
  if decide (expected < 0 ∨ present < 0 ∨ missing < 0)
  then mret (Some (EMsg "required artifact counts must be non-negative")) else
  if decide (wrap64 (present + missing) ≠ expected)
  then mret (Some (EMsg "required artifact counts inconsistent")) else
  requiredPresent ← assert_bool (member s "required_artifacts_present");
  if negb (Bool.eqb requiredPresent (missing =? 0))
  then mret (Some (EMsg "required_artifacts_present inconsistent with missing count")) else
  optionalChanged ← assert_bool (member s "optional_changed_files_present");
  let changedArtifact := member s "changed_files_artifact" in
  if optionalChanged && negb (any_is changedArtifact "changed_files.txt")
  then mret (Some (EMsg "optional_changed_files_present=true requires changed_files_artifact")) else
  if negb optionalChanged && negb (any_nil changedArtifact)
  then mret (Some (EMsg "optional_changed_files_present=false requires changed_files_artifact=null")) else
  let protoStatus := count "proto_check_status" in
  let verifyStatus := count "make_verify_status" in
  overall ← assert_string (member s "overall_status");
  let failedStep := member s "failed_step" in
  mret (
    if decide (overall = "pass") then
      if decide (protoStatus ≠ 0 ∨ verifyStatus ≠ 0)
      then Some (EMsg "overall_status=pass requires zero statuses")
      else if negb (any_nil failedStep)
      then Some (EMsg "overall_status=pass requires failed_step=null") else None
    else
      if decide (protoStatus = 0 ∧ verifyStatus = 0)
      then Some (EMsg "overall_status=fail requires non-zero status")
      else if negb (any_is failedStep (failureLabel protoStatus verifyStatus))
      then Some (EMsg "failed_step mismatch") else None).

Definition validateSummarySchema2 (s : object) : M W (option ev_error) :=
  guard schema2_fields s; schema2_consistency s.

Definition ValidateSummaryJSON (data : string) : M W (option ev_error) :=
  match Unmarshal_map data with
  | None => mret (Some (EMsg "invalid JSON"))
  | Some s =>
      match member s "summary_schema_version" with
      | Some (JNum version) =>
          if f64_eqb version (f64 2) then validateSummarySchema2 s
          else mret (Some (EMsg "unsupported summary_schema_version"))
      | _ => mret (Some (EMsg "field summary_schema_version must be number"))
      end
  end.
End summary.

(** ** summary_artifact_validator.go *)

(** [v, _ := m[key].(string)]. *)
Definition string_or_empty (v : option any) : string :=
  match v with Some (JStr s) => s | _ => "" end.

(** The loop over the lines of manifest.sha256: is there one with this checksum
    and path? *)
Definition manifest_line (manifest sum path : string) : bool :=
  existsb (λ line,
    match Fields line with
    | s :: p :: _ => EqualFold s sum && bool_decide (Clean p = path)
    | _ => false
    end) (split_on "010"%char manifest).

Definition tab : string := String "009" "".

Section artifact.
Context `{OS, Ed25519, Crypto, FloatInt}.

(** The fields of attestation.json, in their order. *)
Definition attestation_fields (a : object) : option ev_error :=
  let first_error := foldr (λ e r, match e with Some x => Some x | None => r end) None in
  first_error
   [requireNumberEquals a "attestation_schema_version" 1;
    requireNonEmptyString a "generated_at"; requireNonEmptyString a "run_dir";
    requireNonEmptyString a "summary_sha256"; requireNonEmptyString a "key_id";
    requireInSetString a "alg" ["ed25519"]].

Definition ValidateSummaryArtifact (env : Environ) (summaryPath mode : string)
    : OM (option ev_error) :=
  if decide (mode ≠ "json" ∧ mode ≠ "strict") then mret (Some (EMsg "invalid validation mode")) else
  data ← ReadFile summaryPath;
  match data with
  | None => mret (Some (EMsg "read summary"))
  | Some data =>
  e ← ValidateSummaryJSON data;
  guard e;
  if decide (mode = "json") then mret None else
  match Unmarshal_map data with
  | None => mret (Some (EMsg "invalid JSON"))
  | Some s =>
  let runDir := string_or_empty (member s "run_dir") in
  let logName := string_or_empty (member s "summary_validation_log") in
  let expectedLogSHA := string_or_empty (member s "summary_validation_log_sha256") in
  let attestationFile := string_or_empty (member s "attestation_file") in
  let attestationSigFile := string_or_empty (member s "attestation_signature_file") in
  if decide (Base logName ≠ logName)
  then mret (Some (EMsg "summary_validation_log must be basename")) else
  if decide (Base attestationFile ≠ attestationFile)
  then mret (Some (EMsg "attestation_file must be basename")) else
  if decide (Base attestationSigFile ≠ attestationSigFile)
  then mret (Some (EMsg "attestation_signature_file must be basename")) else
  let summaryDir := Clean (Dir summaryPath) in
  if decide (Clean runDir ≠ summaryDir) then mret (Some (EMsg "run_dir mismatch")) else
  logData ← ReadFile (Path_Join summaryDir logName);
  match logData with
  | None => mret (Some (EMsg "read summary validation log"))
  | Some logData =>
  if negb (EqualFold (EncodeToString (sha256 logData)) expectedLogSHA)
  then mret (Some (EMsg "summary_validation_log_sha256 mismatch")) else
  indexData ← ReadFile (Path_Join summaryDir "index.txt");
  match indexData with
  | None => mret (Some (EMsg "read index.txt"))
  | Some indexData =>
  if negb (Contains_str indexData ("summary_validation.log" +:+ tab))
  then mret (Some (EMsg "index.txt missing summary_validation.log entry")) else
  manifestData ← ReadFile (Path_Join summaryDir "manifest.sha256");
  match manifestData with
  | None => mret (Some (EMsg "read manifest.sha256"))
  | Some manifestData =>
  if negb (manifest_line manifestData expectedLogSHA (Clean (Path_Join runDir logName)))
  then mret (Some (EMsg "manifest.sha256 missing summary_validation.log checksum line")) else
  attestationData ← ReadFile (Path_Join summaryDir attestationFile);
  match attestationData with
  | None => mret (Some (EMsg "read attestation"))
  | Some attestationData =>
  attestationSigData ← ReadFile (Path_Join summaryDir attestationSigFile);
  match attestationSigData with
  | None => mret (Some (EMsg "read attestation signature"))
  | Some attestationSigData =>
  match Unmarshal_map attestationData with
  | None => mret (Some (EMsg "invalid attestation JSON"))
  | Some a =>
  guard attestation_fields a;
  let attKeyID := string_or_empty (member a "key_id") in
  let attAlg := string_or_empty (member a "alg") in
  let attestationSig := TrimSpace attestationSigData in
  if enforce_key env && negb (bool_decide (attAlg = "ed25519"))
  then mret (Some (EMsg "strict/CI validation requires attestation alg=ed25519")) else
  e ← verifyAttestationSignature env attAlg attKeyID attestationData attestationSig;
  guard e;
  let attRunDir := string_or_empty (member a "run_dir") in
  if decide (Clean attRunDir ≠ Clean runDir) then mret (Some (EMsg "attestation run_dir mismatch")) else
  summaryData ← ReadFile summaryPath;
  match summaryData with
  | None => mret (Some (EMsg "read summary for attestation hash"))
  | Some summaryData =>
  let wantSummarySHA := string_or_empty (member a "summary_sha256") in
  if negb (EqualFold (EncodeToString (sha256 summaryData)) wantSummarySHA)
  then mret (Some (EMsg "attestation summary_sha256 mismatch")) else
  if negb (Contains_str indexData ("attestation.json" +:+ tab))
     || negb (Contains_str indexData ("attestation.sig" +:+ tab))
  then mret (Some (EMsg "index.txt missing attestation artifacts")) else
  let foundAttLine := manifest_line manifestData (EncodeToString (sha256 attestationData))
    (Clean (Path_Join runDir attestationFile)) in
  let foundSigLine := manifest_line manifestData (EncodeToString (sha256 attestationSigData))
    (Clean (Path_Join runDir attestationSigFile)) in
  mret (if negb foundAttLine || negb foundSigLine
        then Some (EMsg "manifest.sha256 missing attestation checksum entries") else None)
  end end end end end end end end end.

(** ** cmd/verifysummary *)

(** [main] with the mode flag and the arguments; the result is the exit status. *)
Definition verifysummary (env : Environ) (mode : string) (args : list string) : OM Z :=
  match args with
  | [summaryPath] =>
      e ← ValidateSummaryArtifact env summaryPath mode;
      mret (match e with Some _ => 1 | None => 0 end)
  | _ => mret 2
  end.
End artifact.
