(* ===== verification/EvidenceProofs.v ===== *)
(** * What the evidence validator guarantees

    The summary check accepts exactly the summaries of a typed specification and
    never panics; the strict check binds the summary and the log to a signed
    attestation, provided nobody changes the files while it runs. *)

From S2P Require Import Prelude GoJson GoNet GoBytes GoJsonRead AuditTrail Service Listing Attestation AttestationProofs Evidence.
From Stdlib Require Import Ascii SpecFloat.

(** ** The specification of a summary *)

Record Summary := mkSummary {
  su_version : float64; su_timestamp : string; su_run_dir : string; su_proto_mode : string;
  su_clean : bool; su_required_present : bool; su_changed : bool;
  su_expected : float64; su_present : float64; su_missing : float64;
  su_files : float64; su_bytes : float64;
  su_status : float64; su_log : string; su_log_sha : string;
  su_att_status : string; su_att_alg : string; su_att_file : option string; su_sig_file : option string;
  su_proto : float64; su_verify : float64; su_overall : string;
  su_failed : option string; su_artifact : option string;
}.

Definition JOpt (v : option string) : any := match v with Some s => JStr s | None => JNull end.

(** The members of a summary. *)
Definition summary_members (u : Summary) : object :=
  [("summary_schema_version", JNum (su_version u)); ("timestamp_utc", JStr (su_timestamp u));
   ("run_dir", JStr (su_run_dir u)); ("proto_mode", JStr (su_proto_mode u));
   ("require_clean_worktree", JBool (su_clean u));
   ("required_artifacts_present", JBool (su_required_present u));
   ("optional_changed_files_present", JBool (su_changed u));
   ("required_artifact_count_expected", JNum (su_expected u));
   ("required_artifact_count_present", JNum (su_present u));
   ("required_artifact_count_missing", JNum (su_missing u));
   ("artifact_file_count", JNum (su_files u)); ("artifact_total_bytes", JNum (su_bytes u));
   ("summary_validation_status", JNum (su_status u)); ("summary_validation_log", JStr (su_log u));
   ("summary_validation_log_sha256", JStr (su_log_sha u));
   ("attestation_status", JStr (su_att_status u)); ("attestation_alg", JStr (su_att_alg u));
   ("attestation_file", JOpt (su_att_file u)); ("attestation_signature_file", JOpt (su_sig_file u));
   ("proto_check_status", JNum (su_proto u)); ("make_verify_status", JNum (su_verify u));
   ("overall_status", JStr (su_overall u)); ("failed_step", JOpt (su_failed u));
   ("changed_files_artifact", JOpt (su_artifact u))].

(** The object has these members, and perhaps others. *)
Definition has_members (s l : object) : Prop := Forall (λ '(k, v), member s k = Some v) l.

Definition one_of (vals : list string) (v : option string) : Prop :=
  match v with Some s => s ∈ vals | None => True end.

Definition nonneg (f : float64) : Prop := f64_ltb f (f64 0) = false.

Record summary_ok `{FloatInt} (u : Summary) : Prop := {
  sk_version : f64_eqb (su_version u) (f64 2) = true;
  sk_status : f64_eqb (su_status u) (f64 0) = true;
  sk_strings : su_timestamp u ≠ "" ∧ su_run_dir u ≠ "" ∧ su_log u ≠ "";
  sk_mode : su_proto_mode u ∈ ["full"; "diff-only"];
  sk_sha : String.length (su_log_sha u) = 64%nat ∧ str_all hex_char (su_log_sha u) = true;
  sk_attestation : su_att_status u = "signed" ∧ su_att_alg u = "ed25519"
    ∧ one_of ["attestation.json"] (su_att_file u) ∧ one_of ["attestation.sig"] (su_sig_file u);
  sk_numbers : Forall nonneg [su_expected u; su_present u; su_missing u; su_files u; su_bytes u;
    su_proto u; su_verify u];
  (** the counts, as integers *)
  sk_counts : 0 ≤ f64_int (su_expected u) ∧ 0 ≤ f64_int (su_present u) ∧ 0 ≤ f64_int (su_missing u)
    ∧ wrap64 (f64_int (su_present u) + f64_int (su_missing u)) = f64_int (su_expected u);
  sk_required : su_required_present u = (f64_int (su_missing u) =? 0);
  sk_changed : su_artifact u = if su_changed u then Some "changed_files.txt" else None;
  (** the outcome follows from the two statuses *)
  sk_outcome :
    (su_overall u = "pass" ∧ f64_int (su_proto u) = 0 ∧ f64_int (su_verify u) = 0 ∧ su_failed u = None)
    ∨ (su_overall u = "fail" ∧ ¬ (f64_int (su_proto u) = 0 ∧ f64_int (su_verify u) = 0)
       ∧ su_failed u = Some (failureLabel (f64_int (su_proto u)) (f64_int (su_verify u))));
}.

(** ** The field checks *)

(** A check passes only on the one shape of value it asks for. *)
Ltac field_check :=
  split; [repeat case_match; intros; simplify_eq; eauto
         |intros (? & -> & ?); repeat case_match; try done; congruence].

Lemma requireNonEmptyString_ok m k :
  requireNonEmptyString m k = None ↔ ∃ s, member m k = Some (JStr s) ∧ s ≠ "".
Proof. unfold requireNonEmptyString. field_check. Qed.

Lemma requireInSetString_ok m k vals :
  requireInSetString m k vals = None ↔ ∃ s, member m k = Some (JStr s) ∧ s ∈ vals.
Proof. unfold requireInSetString. field_check. Qed.

Lemma requireOptionalInSetString_ok m k vals :
  requireOptionalInSetString m k vals = None ↔ ∃ v, member m k = Some (JOpt v) ∧ one_of vals v.
Proof.
  unfold requireOptionalInSetString. split.
  - repeat case_match; intros; try done; [by exists None|]. by eexists (Some _).
  - intros ([s|] & -> & Hv); simpl in *; [by rewrite decide_True|done].
Qed.

Lemma requireBool_ok m k : requireBool m k = None ↔ ∃ b, member m k = Some (JBool b).
Proof.
  unfold requireBool. split; [repeat case_match; intros; simplify_eq; eauto|by intros (? & ->)].
Qed.

Lemma requireNumberEquals_ok m k n :
  requireNumberEquals m k n = None ↔ ∃ f, member m k = Some (JNum f) ∧ f64_eqb f (f64 n) = true.
Proof. unfold requireNumberEquals. field_check. Qed.

Lemma requireNumberNonNegative_ok m k :
  requireNumberNonNegative m k = None ↔ ∃ f, member m k = Some (JNum f) ∧ nonneg f.
Proof. unfold requireNumberNonNegative, nonneg. field_check. Qed.

Lemma requireSHA256HexString_ok m k :
  requireSHA256HexString m k = None ↔
  ∃ s, member m k = Some (JStr s) ∧ String.length s = 64%nat ∧ str_all hex_char s = true.
Proof.
  unfold requireSHA256HexString, sha256HexPattern. split.
  - repeat case_match; try done. intros _. eexists. split; [done|].
    match goal with H : _ && _ = true |- _ => apply andb_prop in H as [?%bool_decide_eq_true_1 ?] end. done.
  - intros (s & -> & Hl & Hs). by rewrite bool_decide_eq_true_2, Hs.
Qed.

Lemma first_error_none (l : list (option ev_error)) :
  foldr (λ e r, match e with Some x => Some x | None => r end) None l = None ↔ Forall (λ e, e = None) l.
Proof.
  induction l as [|[e|] l IH]; simpl; [by split|..].
  - split; [done|]. intros Hl. by inversion Hl.
  - rewrite IH. split; [by constructor|]. intros Hl. by inversion Hl.
Qed.

(** What the field checks require of the typed view. *)
Record fields_ok (u : Summary) : Prop := {
  fo_version : f64_eqb (su_version u) (f64 2) = true;
  fo_status : f64_eqb (su_status u) (f64 0) = true;
  fo_strings : su_timestamp u ≠ "" ∧ su_run_dir u ≠ "" ∧ su_log u ≠ "";
  fo_mode : su_proto_mode u ∈ ["full"; "diff-only"];
  fo_sha : String.length (su_log_sha u) = 64%nat ∧ str_all hex_char (su_log_sha u) = true;
  fo_attestation : su_att_status u = "signed" ∧ su_att_alg u = "ed25519"
    ∧ one_of ["attestation.json"] (su_att_file u) ∧ one_of ["attestation.sig"] (su_sig_file u);
  fo_numbers : Forall nonneg [su_expected u; su_present u; su_missing u; su_files u; su_bytes u;
    su_proto u; su_verify u];
  fo_overall : su_overall u ∈ ["pass"; "fail"];
  fo_failed : one_of ["proto_check"; "make_verify"; "both"] (su_failed u);
  fo_artifact : one_of ["changed_files.txt"] (su_artifact u);
}.

Lemma schema2_fields_view s :
  schema2_fields s = None → ∃ u, has_members s (summary_members u) ∧ fields_ok u.
Proof.
  unfold schema2_fields. cbv zeta. rewrite first_error_none. intros F.
  apply Forall_cons in F as [(f1 & M1 & V1)%requireNumberEquals_ok F].
  apply Forall_cons in F as [(s2 & M2 & V2)%requireNonEmptyString_ok F].
  apply Forall_cons in F as [(s3 & M3 & V3)%requireNonEmptyString_ok F].
  apply Forall_cons in F as [(s4 & M4 & V4)%requireInSetString_ok F].
  apply Forall_cons in F as [(b5 & M5)%requireBool_ok F].
  apply Forall_cons in F as [(b6 & M6)%requireBool_ok F].
  apply Forall_cons in F as [(b7 & M7)%requireBool_ok F].
  apply Forall_cons in F as [(f8 & M8 & V8)%requireNumberNonNegative_ok F].
  apply Forall_cons in F as [(f9 & M9 & V9)%requireNumberNonNegative_ok F].
  apply Forall_cons in F as [(f10 & M10 & V10)%requireNumberNonNegative_ok F].
  apply Forall_cons in F as [(f11 & M11 & V11)%requireNumberNonNegative_ok F].
  apply Forall_cons in F as [(f12 & M12 & V12)%requireNumberNonNegative_ok F].
  apply Forall_cons in F as [(f13 & M13 & V13)%requireNumberEquals_ok F].
  apply Forall_cons in F as [(s14 & M14 & V14)%requireNonEmptyString_ok F].
  apply Forall_cons in F as [(s15 & M15 & V15)%requireSHA256HexString_ok F].
  apply Forall_cons in F as [(s16 & M16 & V16)%requireInSetString_ok F].
  apply Forall_cons in F as [(s17 & M17 & V17)%requireInSetString_ok F].
  apply Forall_cons in F as [(o18 & M18 & V18)%requireOptionalInSetString_ok F].
  apply Forall_cons in F as [(o19 & M19 & V19)%requireOptionalInSetString_ok F].
  apply Forall_cons in F as [(f20 & M20 & V20)%requireNumberNonNegative_ok F].
  apply Forall_cons in F as [(f21 & M21 & V21)%requireNumberNonNegative_ok F].
  apply Forall_cons in F as [(s22 & M22 & V22)%requireInSetString_ok F].
  apply Forall_cons in F as [(o23 & M23 & V23)%requireOptionalInSetString_ok F].
  apply Forall_cons in F as [(o24 & M24 & V24)%requireOptionalInSetString_ok _].
  exists (mkSummary f1 s2 s3 s4 b5 b6 b7 f8 f9 f10 f11 f12 f13 s14 s15 s16 s17 o18 o19 f20 f21 s22 o23 o24).
  split; [by repeat constructor|].
  split; cbn -[elem_of]; try done; [|by repeat constructor].
  apply list_elem_of_singleton in V16, V17. done.
Qed.

Lemma schema2_fields_complete s u :
  has_members s (summary_members u) → fields_ok u → schema2_fields s = None.
Proof.
  intros HM [? ? (? & ? & ?) ? ? (E1 & E2 & ? & ?) HN ? ? ?]. unfold has_members, summary_members in HM.
  rewrite !Forall_cons in HM. destruct_and! HM. rewrite !Forall_cons in HN. destruct_and! HN.
  unfold schema2_fields. cbv zeta. rewrite first_error_none.
  repeat (apply Forall_cons; split); [..|by constructor];
    first [apply requireNumberEquals_ok | apply requireNonEmptyString_ok | apply requireInSetString_ok
      | apply requireBool_ok | apply requireNumberNonNegative_ok | apply requireSHA256HexString_ok
      | apply requireOptionalInSetString_ok]; eexists; try done; split; try done; by apply list_elem_of_singleton.
Qed.

Section summary_spec.
Context `{FloatInt} {W : Type}.

Lemma member_of s l k v :
  has_members s l → snd <$> List.find (λ '(k', _), bool_decide (k' = k)) l = Some v → member s k = Some v.
Proof.
  intros Hm Hf. destruct (List.find _ l) as [[k' v']|] eqn:E; [|done]. injection Hf as ->.
  apply find_some in E as [Hin%list_elem_of_In ->%bool_decide_eq_true_1].
  by apply (proj1 (Forall_forall _ _) Hm (k, v)).
Qed.

(** The checks between fields, on an object with the members of [u]. *)
Definition consistent (u : Summary) : option ev_error :=
  let '(e, p, m) := (f64_int (su_expected u), f64_int (su_present u), f64_int (su_missing u)) in
  let '(ps, vs) := (f64_int (su_proto u), f64_int (su_verify u)) in
  if decide (e < 0 ∨ p < 0 ∨ m < 0)
  then Some (EMsg "required artifact counts must be non-negative")
  else if decide (wrap64 (p + m) ≠ e) then Some (EMsg "required artifact counts inconsistent")
  else if negb (Bool.eqb (su_required_present u) (m =? 0))
  then Some (EMsg "required_artifacts_present inconsistent with missing count")
  else if su_changed u && negb (bool_decide (su_artifact u = Some "changed_files.txt"))
  then Some (EMsg "optional_changed_files_present=true requires changed_files_artifact")
  else if negb (su_changed u) && negb (bool_decide (su_artifact u = None))
  then Some (EMsg "optional_changed_files_present=false requires changed_files_artifact=null")
  else if decide (su_overall u = "pass") then
    if decide (ps ≠ 0 ∨ vs ≠ 0) then Some (EMsg "overall_status=pass requires zero statuses")
    else if negb (bool_decide (su_failed u = None))
    then Some (EMsg "overall_status=pass requires failed_step=null") else None
  else if decide (ps = 0 ∧ vs = 0) then Some (EMsg "overall_status=fail requires non-zero status")
  else if negb (bool_decide (su_failed u = Some (failureLabel ps vs)))
  then Some (EMsg "failed_step mismatch") else None.

Lemma any_is_JOpt v s : any_is (Some (JOpt v)) s = bool_decide (v = Some s).
Proof. destruct v as [t|]; simpl; [|done]. by repeat case_bool_decide; simplify_eq. Qed.

Lemma any_nil_JOpt v : any_nil (Some (JOpt v)) = bool_decide (v = None).
Proof. by destruct v. Qed.

Lemma schema2_consistency_eq s u (w : W) : has_members s (summary_members u) →
  schema2_consistency s w = Done (consistent u) w.
Proof.
  intros HM. unfold schema2_consistency, consistent. cbv zeta.
  repeat match goal with |- context [member s ?k] => rewrite (member_of s _ k _ HM eq_refl) end.
  cbn [snd]. rewrite !any_is_JOpt, !any_nil_JOpt. cbn [numberValue assert_bool assert_string].
  repeat (case_decide; [done|]). unfold mbind, M_bind, mret, M_ret. cbv beta iota.
  repeat case_match; done.
Qed.

Lemma consistent_ok u : fields_ok u → consistent u = None ↔ summary_ok u.
Proof.
  intros Hf. unfold consistent. split.
  - intros E. destruct (decide (_ ∨ _)) as [|Hneg]; [done|]. destruct (decide (_ ≠ _)) as [|Hsum]; [done|].
    destruct (Bool.eqb _ _) eqn:Eb; [|done]. apply Bool.eqb_prop in Eb. cbn [negb] in E.
    assert (su_artifact u = if su_changed u then Some "changed_files.txt" else None) as Hart.
    { destruct (su_changed u); cbn [negb andb] in E; by case_bool_decide. }
    assert ((if decide (su_overall u = "pass") then
        if decide (f64_int (su_proto u) ≠ 0 ∨ f64_int (su_verify u) ≠ 0)
        then Some (EMsg "overall_status=pass requires zero statuses")
        else if negb (bool_decide (su_failed u = None))
        then Some (EMsg "overall_status=pass requires failed_step=null") else None
      else if decide (f64_int (su_proto u) = 0 ∧ f64_int (su_verify u) = 0)
      then Some (EMsg "overall_status=fail requires non-zero status")
      else if negb (bool_decide (su_failed u = Some (failureLabel (f64_int (su_proto u)) (f64_int (su_verify u)))))
      then Some (EMsg "failed_step mismatch") else None) = None) as Eo.
    { revert E. by destruct (su_changed u); cbn [negb andb]; case_bool_decide; cbn [negb andb]. }
    clear E. destruct Hf. split; try done; [lia|].
    destruct (decide (su_overall u = "pass")) as [Hp|Hp].
    + left. destruct (decide (_ ∨ _)) as [|Hz]; [done|]. case_bool_decide; [|done].
      split_and!; try done; by apply dec_stable; naive_solver.
    + right. destruct (decide (_ ∧ _)) as [|Hz]; [done|]. case_bool_decide; [|done].
      split_and!; try done. rewrite !elem_of_cons, elem_of_nil in fo_overall0. by destruct fo_overall0 as [?|[?|?]].
  - intros Hok. destruct Hok as [? ? ? ? ? ? ? (He & Hp & Hm & Hsum) Hreq Hart Hout].
    rewrite decide_False by lia. rewrite decide_False by (intros []; done).
    rewrite Hreq, Bool.eqb_reflx, Hart. cbn [negb].
    assert (∀ b : bool, b && negb (bool_decide ((if b then Some "changed_files.txt" else None) = Some "changed_files.txt")) = false
      ∧ negb b && negb (bool_decide ((if b then Some "changed_files.txt" else None) = None)) = false) as Hb by by intros [].
    destruct (Hb (su_changed u)) as [-> ->].
    destruct Hout as [(-> & -> & -> & ->)|(-> & Hz & ->)].
    + done.
    + rewrite decide_False by done. rewrite decide_False by done. by rewrite bool_decide_eq_true_2.
Qed.

Lemma summary_ok_fields u : summary_ok u → fields_ok u.
Proof.
  intros [? ? ? ? ? ? ? ? ? Hart Hout]. split; try done.
  - destruct Hout as [(-> & _)|(-> & _)]; set_solver.
  - destruct Hout as [(_ & _ & _ & ->)|(_ & _ & ->)]; [done|]. unfold failureLabel, one_of.
    repeat case_decide; set_solver.
  - rewrite Hart. destruct (su_changed u); [|done]. unfold one_of. set_solver.
Qed.

(** The typed view is determined by the object. *)
Lemma summary_members_inj s u u' :
  has_members s (summary_members u) → has_members s (summary_members u') → u = u'.
Proof.
  intros Hm Hm'.
  assert (∀ l l' : object, map fst l = map fst l' → has_members s l → has_members s l' → l = l') as Hl.
  { induction l as [|[k v] l IH]; intros [|[k' v'] l'] E Ha Hb; simplify_eq/=; [done|].
    apply Forall_cons in Ha as [Ha Has], Hb as [Hb Hbs]. f_equal; [congruence|by apply IH]. }
  assert (∀ a b, JOpt a = JOpt b → a = b) as HJ by (intros [] []; simpl; congruence).
  pose proof (Hl (summary_members u) (summary_members u') eq_refl Hm Hm') as E. destruct u, u'. cbn in E.
  injection E as -> -> -> -> -> -> -> -> -> -> -> -> -> -> -> -> -> E1 E2 -> -> -> E3 E4.
  apply HJ in E1, E2, E3, E4. by subst.
Qed.

(** C24: the summary check decides its specification: it never panics, and it
    accepts a document exactly if it is a JSON object whose members have the
    required types and values, whose artifact counts add up, and whose outcome
    and failed step follow from the two exit statuses. *)
Theorem summary_check_exact data (w : W) :
  ∃ r, ValidateSummaryJSON data w = Done r w
    ∧ (r = None ↔ ∃ s u, Unmarshal_map data = Some s ∧ has_members s (summary_members u) ∧ summary_ok u).
Proof.
  unfold ValidateSummaryJSON. destruct (Unmarshal_map data) as [s|].
  2: { eexists. split; [done|]. split; [done|]. by intros (s & u & E & _). }
  assert (∀ u, has_members s (summary_members u) → summary_ok u → schema2_fields s = None) as Hc
    by eauto using schema2_fields_complete, summary_ok_fields.
  assert (∃ r, validateSummarySchema2 s w = Done r w ∧
    (r = None ↔ ∃ u, has_members s (summary_members u) ∧ summary_ok u)) as (r & Er & Hr).
  { unfold validateSummarySchema2. destruct (schema2_fields s) as [e|] eqn:Ef.
    - exists (Some e). split; [done|]. split; [done|]. intros (u & Hm & Hok). by specialize (Hc u Hm Hok).
    - destruct (schema2_fields_view s Ef) as (u & Hm & Hf). exists (consistent u).
      split; [by apply schema2_consistency_eq|]. rewrite (consistent_ok u Hf). split; [by exists u|].
      intros (u' & Hm' & Hok). by rewrite <- (summary_members_inj s u' u Hm' Hm). }
  destruct (member s "summary_schema_version") as [v|] eqn:Ev.
  2: { eexists. split; [done|]. split; [done|]. intros (s' & u & [= <-] & Hm & _).
       by rewrite (member_of s _ "summary_schema_version" _ Hm eq_refl) in Ev. }
  assert (∀ u, has_members s (summary_members u) → v = JNum (su_version u)) as Hv.
  { intros u Hm. rewrite (member_of s _ "summary_schema_version" _ Hm eq_refl) in Ev. by injection Ev. }
  destruct v as [| |f| | |]; try (eexists; split; [done|]; split; [done|];
    intros (s' & u & [= <-] & Hm & _); by specialize (Hv u Hm)).
  destruct (f64_eqb f (f64 2)) eqn:E2.
  - exists r. split; [done|]. rewrite Hr. split; [intros (u & ? & ?); by exists s, u|].
    intros (s' & u & [= <-] & ? & ?). by exists u.
  - eexists. split; [done|]. split; [done|]. intros (s' & u & [= <-] & Hm & Hok).
    specialize (Hv u Hm). injection Hv as ->. by rewrite (sk_version _ Hok) in E2.
Qed.
End summary_spec.

(** ** The strict check *)

Section strict.
Context `{OS, Ed25519, Crypto, FloatInt}.

(** The key that accepted a signature: configured in the environment, or, in no
    strict mode, the development key. *)
Definition key_used (env : Environ) (keyID pub : string) (w : World) : Prop :=
  ∃ text w', resolve_key_text env public_base keyID w = Done (inl text) w' ∧
    match text with
    | Some raw => parseEd25519PublicKey raw = inl pub
    | None => enforce_key env = false ∧ keyID = dev_key_id
    end.

Lemma resolve_key_text_dev env base keyID w w' :
  resolve_key_text env base keyID w = Done (inl None) w' → enforce_key env = false ∧ keyID = dev_key_id.
Proof.
  unfold resolve_key_text. cbv zeta. intros (r & w1 & _ & E)%bind_done_inv. destruct r as [raw|]; [|done].
  case_decide; [by repeat case_match|].
  apply bind_done_inv in E as (r & w2 & _ & E). destruct r as [raw'|]; [|done].
  injection E as E _. destruct (decide (raw' = "")); [|by repeat case_match].
  destruct (enforce_key env); [done|]. cbn [negb andb] in E. by case_bool_decide.
Qed.

Lemma verify_signature_inv env alg keyID data sig w w' :
  verifyAttestationSignature env alg keyID data sig w = Done None w' →
  ∃ pub sigBytes, key_used env keyID pub w ∧ hex_DecodeString sig = Some sigBytes
    ∧ ed_verify pub data sigBytes = true.
Proof.
  unfold verifyAttestationSignature. case_decide; [done|].
  intros (key & w1 & Ek & E)%bind_done_inv. destruct key as [pub|]; [|done].
  destruct (hex_DecodeString sig) as [sb|]; [|done].
  apply bind_done_inv in E as (ok & w2 & Ev & E). unfold ed_Verify in Ev. case_decide; [|done].
  injection Ev as Ev _. destruct ok; [|done]. exists pub, sb. split_and!; [|done..].
  unfold resolveEd25519PublicKey in Ek. apply bind_done_inv in Ek as (text & w3 & Et & Ek).
  destruct text as [[raw|]|]; [..|done].
  - exists (Some raw), w3. split; [done|]. by injection Ek.
  - exists None, w3. split; [done|]. by eapply resolve_key_text_dev.
Qed.

(** What a directory that passed the strict check holds: [d] is the disk, [w]
    the state in which the signature was checked. *)
Record evidence (env : Environ) (path : string) (d : gmap string string)
    (data log att sig : string) (u : Summary) (a : object) : Prop := {
  ed_summary : d !! path = Some data;
  ed_object : ∃ s, Unmarshal_map data = Some s ∧ has_members s (summary_members u);
  ed_ok : summary_ok u;
  ed_dir : Clean (su_run_dir u) = Clean (Dir path);
  ed_log : d !! Path_Join (Clean (Dir path)) (su_log u) = Some log;
  ed_log_sha : EqualFold (EncodeToString (sha256 log)) (su_log_sha u) = true;
  ed_att : d !! Path_Join (Clean (Dir path)) "attestation.json" = Some att;
  ed_sig : d !! Path_Join (Clean (Dir path)) "attestation.sig" = Some sig;
  ed_att_object : Unmarshal_map att = Some a;
  ed_summary_sha :
    EqualFold (EncodeToString (sha256 data)) (string_or_empty (member a "summary_sha256")) = true;
  ed_manifest : ∃ manifest, d !! Path_Join (Clean (Dir path)) "manifest.sha256" = Some manifest
    ∧ manifest_line manifest (su_log_sha u) (Clean (Path_Join (su_run_dir u) (su_log u))) = true
    ∧ manifest_line manifest (EncodeToString (sha256 att))
        (Clean (Path_Join (su_run_dir u) "attestation.json")) = true
    ∧ manifest_line manifest (EncodeToString (sha256 sig))
        (Clean (Path_Join (su_run_dir u) "attestation.sig")) = true;
  ed_signed : ∃ pub sigBytes w, w_disk w = d
    ∧ key_used env (string_or_empty (member a "key_id")) pub w
    ∧ hex_DecodeString (TrimSpace sig) = Some sigBytes ∧ ed_verify pub att sigBytes = true;
}.

Context (Hquiet : quiet).

Lemma ReadFile_inv path w r w' :
  ReadFile path w = Done r w' → r = w_disk w !! path ∧ w_disk w' = w_disk w.
Proof. rewrite ReadFile_quiet by done. by intros [= <- <-]. Qed.

(** Code that only reads. *)
Definition keeps_disk {A} (m : OM A) : Prop := ∀ w r w', m w = Done r w' → w_disk w' = w_disk w.

Lemma kd_ret {A} (a : A) : keeps_disk (mret a).
Proof. by intros w r w' [= _ <-]. Qed.
Lemma kd_panic {A} : keeps_disk (panic : OM A).
Proof. by intros w r w' E. Qed.
Lemma kd_access : keeps_disk access.
Proof. intros w r w'. rewrite access_quiet by done. by intros [= _ <-]. Qed.
Lemma kd_gets {A} (f : World → A) : keeps_disk (gets f).
Proof. by intros w r w' [= _ <-]. Qed.
Lemma kd_bind {A B} (m : OM A) (k : A → OM B) : keeps_disk m → (∀ a, keeps_disk (k a)) → keeps_disk (m ≫= k).
Proof.
  intros Hm Hk w r w' (a & w1 & E1 & E)%bind_done_inv. by rewrite (Hk _ _ _ _ E), (Hm _ _ _ E1).
Qed.

Ltac disk_kept :=
  repeat first
    [ apply kd_ret | apply kd_panic | apply kd_access | apply kd_gets
    | apply kd_bind; [|intros ?] | case_match ].

Lemma verify_signature_disk env alg keyID data sig :
  keeps_disk (verifyAttestationSignature env alg keyID data sig).
Proof.
  unfold verifyAttestationSignature, resolveEd25519PublicKey, resolve_key_text, resolveValueSource,
    defaultDevEd25519PublicKey, defaultDevEd25519PrivateKey, NewKeyFromSeed, ReadFile, run_command,
    ed_Verify. cbv zeta. disk_kept.
Qed.

Ltac next_read :=
  match goal with
  | E : (ReadFile _ ≫= _) ?w = Done None _ |- _ =>
      let r := fresh "r" in let w1 := fresh "w" in let Er := fresh "Er" in let Ew := fresh "Ew" in
      apply bind_done_inv in E as (r & w1 & [Er Ew]%ReadFile_inv & E);
      destruct r; [symmetry in Er|done]
  end.

Lemma strict_check_evidence env path w w' :
  ValidateSummaryArtifact env path "strict" w = Done None w' →
  ∃ data log att sig u a, evidence env path (w_disk w) data log att sig u a.
Proof.
  unfold ValidateSummaryArtifact. rewrite decide_False by naive_solver. intros E.
  next_read. rename s into data, Er into Hdata, w0 into w1, Ew into Ew1.
  apply bind_done_inv in E as (e & w2 & Ev & E).
  destruct (summary_check_exact data w1) as (r & Er & Hr). rewrite Er in Ev. injection Ev as -> <-.
  destruct e as [|]; [done|]. destruct Hr as [Hr _]. destruct Hr as (s & u & Hs & Hm & Hok); [done|].
  rewrite decide_False in E by done. rewrite Hs in E. cbv zeta in E.
  assert (∀ k v, snd <$> List.find (λ '(k', _), bool_decide (k' = k)) (summary_members u) = Some v →
    string_or_empty (member s k) = string_or_empty (Some v)) as Hget.
  { intros k v Hk. by rewrite (member_of s _ k v Hm Hk). }
  rewrite (Hget "run_dir" _ eq_refl), (Hget "summary_validation_log" _ eq_refl),
    (Hget "summary_validation_log_sha256" _ eq_refl), (Hget "attestation_file" _ eq_refl),
    (Hget "attestation_signature_file" _ eq_refl) in E. cbn [snd string_or_empty] in E.
  destruct (decide (_ ≠ _)) as [|_] in E; [done|].
  destruct (decide (_ ≠ _)) as [|Hb1] in E; [done|]. destruct (decide (_ ≠ _)) as [|Hb2] in E; [done|].
  destruct (decide (_ ≠ _)) as [|Hdir] in E; [done|]. apply dec_stable in Hb1, Hb2, Hdir.
  destruct (sk_attestation _ Hok) as (_ & _ & Ha1 & Ha2).
  destruct (su_att_file u) as [af|] eqn:Haf; [|done]. destruct (su_sig_file u) as [sf|] eqn:Hsf; [|done].
  apply list_elem_of_singleton in Ha1, Ha2. subst af sf. cbn [JOpt] in E.
  next_read. destruct (EqualFold (EncodeToString (sha256 s0)) _) eqn:Hsha in E; [|done]. cbn [negb] in E.
  next_read. destruct (Contains_str _ _) in E; [|done]. cbn [negb] in E.
  next_read. destruct (manifest_line _ _ _) eqn:Hman in E; [|done]. cbn [negb] in E.
  next_read. next_read. destruct (Unmarshal_map _) as [a|] eqn:Hatt in E; [|done].
  destruct (attestation_fields a) in E; [done|]. destruct (enforce_key env && _) in E; [done|].
  apply bind_done_inv in E as (e & wv & Esig & E). destruct e; [done|].
  pose proof (verify_signature_disk _ _ _ _ _ _ _ _ Esig) as Hwv. apply verify_signature_inv in Esig.
  destruct (decide (_ ≠ _)) in E; [done|].
  next_read. destruct (EqualFold _ _) eqn:Hssha in E; [|done]. cbn [negb] in E.
  destruct (negb _ || negb _) in E; [done|].
  destruct (manifest_line s2 (EncodeToString (sha256 s3)) _) eqn:Hman1 in E; [|done].
  destruct (manifest_line s2 (EncodeToString (sha256 s4)) _) eqn:Hman2 in E; [|done].
  rewrite Hwv, Ew4, Ew3, Ew2, Ew0, Ew, Ew1, Hdata in Er5. injection Er5 as <-.
  rewrite Ew3, Ew2, Ew0, Ew, Ew1 in Er4. rewrite Ew2, Ew0, Ew, Ew1 in Er3. rewrite Ew0, Ew, Ew1 in Er2.
  rewrite Ew1 in Er0.
  exists data, s0, s3, s4, u, a. split; try done; [by exists s|by exists s2|].
  destruct Esig as (pub & sb & ? & ? & ?). exists pub, sb, w5. split; [congruence|done].
Qed.

(** *** What the hashes bind *)

Lemma lower_hex n : (n < 16)%N → lower_ascii (hex_digit n) = hex_digit n.
Proof.
  intros Hn. assert (n ∈ [0;1;2;3;4;5;6;7;8;9;10;11;12;13;14;15]%N) as Hin by (set_unfold; lia).
  by repeat (apply elem_of_cons in Hin as [->|Hin]; [done|]); apply elem_of_nil in Hin.
Qed.

Lemma lower_EncodeToString s : lower_bytes (EncodeToString s) = EncodeToString s.
Proof.
  induction s as [|c s IH]; [done|]. cbn [EncodeToString lower_bytes]. pose proof (N_ascii_bounded c).
  rewrite IH, !lower_hex; [done|apply N.mod_lt; lia|apply N.Div0.div_lt_upper_bound; lia].
Qed.

Lemma EqualFold_hash x y v :
  EqualFold (EncodeToString (sha256 x)) v = true → EqualFold (EncodeToString (sha256 y)) v = true →
  sha256 x = sha256 y.
Proof.
  unfold EqualFold. intros Hx%bool_decide_eq_true_1 Hy%bool_decide_eq_true_1.
  rewrite !lower_EncodeToString in *. pose proof (hex_decode_encode (sha256 x)) as E.
  rewrite Hx, <- Hy, hex_decode_encode in E. by injection E.
Qed.

(** Strict evidence is signed: if nobody changes the files while the check
    runs and it accepts, then the directory holds a valid summary, the log it
    names with the checksum it states, and an attestation that carries the
    summary's hash, is listed with its signature in the manifest, and whose
    signature verifies under the key of its key id, which in strict mode is a
    configured one. *)
Theorem strict_check_signed env path w w' :
  ValidateSummaryArtifact env path "strict" w = Done None w' →
  ∃ data log att sig u a pub sigBytes w0, evidence env path (w_disk w) data log att sig u a
    ∧ hex_DecodeString (TrimSpace sig) = Some sigBytes ∧ ed_verify pub att sigBytes = true
    ∧ key_used env (string_or_empty (member a "key_id")) pub w0
    ∧ (enforce_key env = true → ∃ raw w1, parseEd25519PublicKey raw = inl pub
       ∧ resolve_key_text env public_base (string_or_empty (member a "key_id")) w0 = Done (inl (Some raw)) w1).
Proof.
  intros (data & log & att & sig & u & a & He)%strict_check_evidence.
  destruct (ed_signed _ _ _ _ _ _ _ _ _ He) as (pub & sb & w0 & _ & Hk & Hh & Hv).
  exists data, log, att, sig, u, a, pub, sb, w0. split_and!; try done.
  intros Henf. destruct Hk as ([raw|] & w1 & Hr & Hp); [by exists raw, w1|].
  by destruct Hp as [Hp _]; rewrite Henf in Hp.
Qed.

End strict.

(** ** Concrete instances *)

Import AttestationExample.

Module EvidenceExample.
(** amd64 converts a float64 out of range to the smallest integer. *)
#[export] Instance ex_float : FloatInt := λ _, int64_min.
Definition log_text : string := "verify summary validation passed".

(** A summary with the given status of the protocol check. *)
Definition summary_text (proto : string) : string :=
  q ("{`summary_schema_version`:2,`timestamp_utc`:`2026-02-15T00:00:00Z`,`run_dir`:`/run/v1`,"
  +:+ "`proto_mode`:`full`,`require_clean_worktree`:true,`required_artifacts_present`:true,"
  +:+ "`optional_changed_files_present`:false,`required_artifact_count_expected`:7,"
  +:+ "`required_artifact_count_present`:7,`required_artifact_count_missing`:0,"
  +:+ "`artifact_file_count`:7,`artifact_total_bytes`:1000,`summary_validation_status`:0,"
  +:+ "`summary_validation_log`:`summary_validation.log`,`summary_validation_log_sha256`:`"
  +:+ EncodeToString log_text +:+ "`,`attestation_status`:`signed`,`attestation_alg`:`ed25519`,"
  +:+ "`attestation_file`:`attestation.json`,`attestation_signature_file`:`attestation.sig`,"
  +:+ "`proto_check_status`:" +:+ proto +:+ ",`make_verify_status`:0,`overall_status`:`pass`,"
  +:+ "`failed_step`:null,`changed_files_artifact`:null}").

Definition attestation_text (summary : string) : string :=
  q ("{`attestation_schema_version`:1,`generated_at`:`2026-02-15T00:00:00Z`,`run_dir`:`/run/v1`,"
  +:+ "`alg`:`ed25519`,`key_id`:`ci-active`,`summary_sha256`:`" +:+ EncodeToString summary +:+ "`}").

(** The files of a run directory, the summary attested being [attested]. *)
Definition run_files (summary attested : string) : gmap string string :=
  let att := attestation_text attested in
  let sig := EncodeToString (seed +:+ att) +:+ nl in
  let line data name := EncodeToString data +:+ "  /run/v1/" +:+ name +:+ nl in
  list_to_map
    [("/run/v1/summary.json", summary); ("/run/v1/summary_validation.log", log_text);
     ("/run/v1/index.txt", "summary_validation.log" +:+ tab +:+ "33" +:+ nl +:+ "attestation.json" +:+ tab
        +:+ "1" +:+ nl +:+ "attestation.sig" +:+ tab +:+ "1" +:+ nl);
     ("/run/v1/manifest.sha256", line log_text "summary_validation.log" +:+ line att "attestation.json"
        +:+ line sig "attestation.sig");
     ("/run/v1/attestation.json", att); ("/run/v1/attestation.sig", sig)].

Definition ci_env : Environ := exported
  [assignment (public_base +:+ "S") ("ci-active:" +:+ StdEncoding seed); "GITHUB_ACTIONS=true"].

Definition good_world : World := mkWorld 0 (run_files (summary_text "0") (summary_text "0")).

Definition accepted (r : outcome World (option ev_error)) : bool :=
  match r with Done None _ => true | _ => false end.

Example strict_accepts :
  accepted (ValidateSummaryArtifact ci_env "/run/v1/summary.json" "strict" good_world) = true
  ∧ accepted (ValidateSummaryArtifact (λ _, "") "/run/v1/summary.json" "strict" good_world) = false.
Proof. vm_compute. done. Qed.
End EvidenceExample.

Import EvidenceExample.

Lemma good_accepted : ∃ w',
  ValidateSummaryArtifact ci_env "/run/v1/summary.json" "strict" good_world = Done None w'.
Proof.
  pose proof (proj1 strict_accepts) as Ha.
  destruct (ValidateSummaryArtifact _ _ _ _) as [[e|] w'| |]; [done|by exists w'|done..].
Qed.

Lemma strict_check_signed_witness :
  ∃ data log att sig u a pub sigBytes w0,
    evidence ci_env "/run/v1/summary.json" (w_disk good_world) data log att sig u a
    ∧ hex_DecodeString (TrimSpace sig) = Some sigBytes ∧ ed_verify pub att sigBytes = true
    ∧ key_used ci_env (string_or_empty (member a "key_id")) pub w0.
Proof.
  destruct good_accepted as [w' E].
  destruct (strict_check_signed ex_quiet ci_env "/run/v1/summary.json" good_world w' E)
    as (data & log & att & sig & u & a & pub & sb & w0 & He & Hh & Hv & Hk & _).
  exists data, log, att, sig, u, a, pub, sb, w0. auto.
Defined.

(** The same evidence in a directory with one more file. *)
Definition copied_world : World :=
  mkWorld 3 (<["/run/v1/notes.txt" := "copied"]> (run_files (summary_text "0") (summary_text "0"))).

Lemma copied_accepted : ∃ w',
  ValidateSummaryArtifact ci_env "/run/v1/summary.json" "strict" copied_world = Done None w'.
Proof.
  assert (accepted (ValidateSummaryArtifact ci_env "/run/v1/summary.json" "strict" copied_world) = true)
    as Ha by by vm_compute.
  destruct (ValidateSummaryArtifact _ _ _ _) as [[e|] w'| |]; [done|by exists w'|done..].
Qed.


(** ** Defects *)

(** A summary whose protocol check ended with status 0.5 passes as successful:
    the statuses are truncated to integers before they are compared with zero. *)
Theorem fractional_status_passes :
  ValidateSummaryJSON (summary_text "0.5") () = Done None ()
  ∧ ∃ r, ValidateSummaryJSON (summary_text "1") () = Done (Some r) ().
Proof. split; [by vm_compute|]. eexists. by vm_compute. Qed.

(** Another process that replaces summary.json during the check. *)
Definition swapping_os (replacement : string) : OS := {|
  interfere n d := if decide (n = 6%nat) then <["/run/v1/summary.json" := replacement]> d else d;
  command_output _ _ := None; write_ok _ _ := true; mkdir_ok _ _ := true |}.

(** The strict check reads summary.json twice: it validates the first content
    and compares the attested hash with the second.  A file that is replaced in
    between passes, although the content that was validated was never attested
    and the attested one is not a valid summary. *)
Theorem summary_read_twice :
  ∃ validated attested (os : OS) w,
    w_disk w !! "/run/v1/summary.json" = Some validated ∧ validated ≠ attested
    ∧ accepted (ValidateSummaryArtifact (H := os) ci_env "/run/v1/summary.json" "strict" w) = true
    ∧ member (default [] (Unmarshal_map (attestation_text attested))) "summary_sha256"
      = Some (JStr (EncodeToString (sha256 attested)))
    ∧ w_disk w !! "/run/v1/attestation.json" = Some (attestation_text attested)
    ∧ Unmarshal_map attested = None.
Proof.
  exists (summary_text "0"), "not a summary", (swapping_os "not a summary"),
    (mkWorld 0 (run_files (summary_text "0") "not a summary")).
  split_and!; vm_compute; done.
Qed.
