(* ===== verification/Credhash.v ===== *)
(** * The credential tool (cmd/credhash/main.go)

    The tool reads a secret and prints its bcrypt hash, which an operator then
    gives to [SetCredential].  The theorem follows the hash from the tool to
    the login. *)

From S2P Require Import Prelude GoTime GoJson AuditTrail Service Auth Identity IdentityProofs AttestationProofs StartupProofs Env.
From Stdlib Require Import Ascii.

(** ** The tool *)

(** [os.Stdin]: whether [Stat] fails, whether it is a terminal, and what can be
    read from it. *)
Record Stdin := mkStdin { stat_error : bool; char_device : bool; content : string }.

(** [reader.ReadString('\n')]: the text up to and with the delimiter; without
    one, all of it and an error. *)
Fixpoint ReadString (s : string) : string * bool :=
  match s with
  | EmptyString => ("", true)
  | String c s =>
      if decide (c = "010"%char) then (String c "", false)
      else let '(line, eof) := ReadString s in (String c line, eof)
  end.

Inductive credhash_error :=
| ErrReadSecret | ErrProvideSecret | ErrSecretEmpty | ErrHashSecret.

Definition readSecret (args : list string) (stdin : Stdin) : string + credhash_error :=
  let arg := default "" (args !! 1%nat) in
  if bool_decide (1 < length args)%nat && bool_decide (TrimSpace arg ≠ "") then inl arg
  else if stat_error stdin then inr ErrReadSecret
  else if char_device stdin then inr ErrProvideSecret
  else
    let '(line, eof) := ReadString (content stdin) in
    if eof && bool_decide (String.length line = 0%nat) then inr ErrReadSecret else
    let secret := TrimSpace line in
    if decide (secret = "") then inr ErrSecretEmpty else inl secret.

(** [bcrypt.GenerateFromPassword] with the salt it draws. *)
Class BcryptGenerate := bcrypt_Generate : string → Z → string → option string.

(** Its documentation: the hash matches the password, has the cost asked for,
    and cannot be empty; a password of more than 72 bytes is refused. *)
Class BcryptLaw `{Bcrypt, BcryptGenerate} : Prop := {
  law_compare secret cost salt hash : bcrypt_Generate secret cost salt = Some hash →
    bcrypt_Compare hash secret = true;
  law_cost secret salt hash : bcrypt_Generate secret bcrypt_DefaultCost salt = Some hash →
    bcrypt_Cost hash = Some bcrypt_DefaultCost ∧ hash ≠ "" }.

(** [main]: what it prints, or the reason it exits with status 1. *)
Definition credhash `{Bcrypt, BcryptGenerate} (args : list string) (stdin : Stdin) (salt : string)
    : string + credhash_error :=
  match readSecret args stdin with
  | inr e => inr e
  | inl secret =>
      match bcrypt_Generate secret bcrypt_DefaultCost salt with
      | None => inr ErrHashSecret
      | Some hash => inl (hash +:+ String "010" "")
      end
  end.

(** ** From the tool to the login *)

(** A table of credentials behind the statements: hash and status of an
    actor.  Setting a hash activates the credential, and the statements on
    lockouts and audit events do not touch the table. *)
Class CredentialTable (D : Type) `{!AuditDB D, !IdentityDB D} := {
  credential : D → string → string → option (string * string);
  ct_read id ty d r d' : q_credential id ty d = (Ok r, d') → r = credential d id ty;
  ct_set id ty hash d d' : x_credential_hash id ty hash d = (Ok (), d') →
    credential d' id ty = Some (hash, "active");
  ct_reset id ty d : credential (x_lockout_reset id ty d).2 = credential d;
  ct_begin d : credential (db_begin d).2 = credential d;
  ct_commit d : credential (db_commit d).2 = credential d;
  ct_rollback d : credential (db_rollback d) = credential d;
  ct_last day d : credential (q_audit_last day d).2 = credential d;
  ct_insert ev d : credential (x_audit_insert ev d).2 = credential d }.

Lemma line_inj s t (c : ascii) : s +:+ String c "" = t +:+ String c "" → s = t.
Proof.
  revert t. induction s as [|a s IH]; intros [|b t]; rewrite ?str_app_nil, ?str_app_cons; [done|..].
  - intros [= _ E]. by destruct t.
  - intros [= _ E]. by destruct s.
  - intros [= -> E]. by rewrite (IH _ E).
Qed.

(** The secret of the tool is not blank. *)
Lemma readSecret_nonblank args stdin secret : readSecret args stdin = inl secret → TrimSpace secret ≠ "".
Proof.
  unfold readSecret. destruct (_ && _) eqn:Ha.
  { intros [= <-]. apply andb_prop in Ha as [_ Ha]. by apply bool_decide_eq_true in Ha. }
  destruct (stat_error stdin), (char_device stdin); try done.
  destruct (ReadString _) as [line eof]. cbv zeta.
  destruct (eof && bool_decide (String.length line = 0%nat)); [done|].
  destruct (decide (TrimSpace line = "")) as [He|Hne]; [done|].
  intros [= <-]. by rewrite TrimSpace_idempotent.
Qed.

Section stable.
Context {D S : Type} (I : D → Prop).

(** The service has a database that satisfies [I]; code that keeps it so. *)
Definition holds (s : Svc D S) : Prop := ∃ d, db (base s) = Some d ∧ I d.
Definition stable {A} (m : M (Svc D S) A) : Prop := ∀ s, holds s → wlp m (λ _, holds) s.

Lemma stable_ret {A} (a : A) : stable (mret a).
Proof. by intros s Hs. Qed.

Lemma stable_bind {A B} (m : M (Svc D S) A) (k : A → M (Svc D S) B) :
  stable m → (∀ a, stable (k a)) → stable (m ≫= k).
Proof. intros Hm Hk s Hs. eapply post_seq; [by apply Hm|]. intros a s' Hs'. by apply Hk. Qed.

Lemma stable_gets {A} (f : Svc D S → A) : stable (gets f).
Proof. by intros s Hs. Qed.

Lemma stable_base (f : Base D → Base D) :
  (∀ b, db (f b) = db b) → stable (modify (λ s, s <| base ::= f |>)).
Proof. intros Hf s (d & Hd & Hi). exists d. split; [|done]. cbn. by rewrite Hf. Qed.

Lemma stable_run_db {A} (f : D → A * D) : (∀ d, I d → I (f d).2) → stable (run_db f).
Proof.
  intros Hf s (d & Hd & Hi). unfold post, run_db. rewrite Hd. pose proof (Hf d Hi) as Hf'.
  destruct (f d) as [r d']. by exists d'.
Qed.
End stable.

Ltac stable_step :=
  match goal with
  | |- stable _ (match ?x with _ => _ end) => destruct x
  | |- stable _ (_ ≫= _) => apply stable_bind; [|intros ?]
  | |- stable _ (mret _) => apply stable_ret
  | |- stable _ (gets _) => apply stable_gets
  | |- stable _ dbEnabled => apply stable_gets
  | |- stable _ (modify _) => by apply stable_base
  | |- stable _ time_Now => unfold time_Now
  | |- stable _ now => unfold now
  | |- stable _ (responseMeta _ _ _) => unfold responseMeta
  | |- stable _ (plain_reply _ _ _) => unfold plain_reply
  | |- stable _ (nextAuditIDLocked _) => unfold nextAuditIDLocked
  | |- stable _ unlock => unfold unlock
  end.

Section credentials.
Context {D : Type} `{!Wall, !Crypto, !JsonValid, !AuditDB D, !IdentityDB D, !CredentialTable D}.
Context `{!JWT, !Bcrypt, !BcryptGenerate, !BcryptLaw, !Random}.
Implicit Types (s : Svc D IdentityState).

(** The credential of the actor is this one. *)
Definition credential_is (id ty hash : string) (d : D) : Prop := credential d id ty = Some (hash, "active").

Lemma stable_appendAudit {S} id ty hash prefix meta ot oid action before after result reason :
  stable (D := D) (S := S) (credential_is id ty hash)
    (appendAudit prefix meta ot oid action before after result reason).
Proof.
  unfold appendAudit, appendAuditEventToDB. repeat stable_step.
  all: try (apply stable_run_db; intros d Hd; unfold credential_is in *; simpl;
    by rewrite ?ct_begin, ?ct_last, ?ct_insert, ?ct_commit, ?ct_rollback).
  intros s (d & Hd & Hi). unfold post, AuditStore_Append. destruct (AuditStore (base s)); [|done].
  destruct (Append _ _). by exists d.
Qed.

Lemma wlp_plain_reply meta code reason s :
  wlp (plain_reply meta code reason) (λ r s', ResCode (pr_Meta r) = code
    ∧ ∀ I, holds I s → holds I s') s.
Proof.
  unfold post, plain_reply, responseMeta, now, time_Now, mbind, M_bind, gets.
  destruct (Clock (base s)); (split; [done|]); intros I (d & Hd & Hi); by exists d.
Qed.

(** What [SetCredential] does with the hash of the tool: an answer that the
    request is invalid is about the actor, and after success the table holds
    the hash. *)
Definition set_outcome (req : SetCredentialRequest) (r : PlainResponse) s : Prop :=
  (ResCode (pr_Meta r) = RESULT_CODE_INVALID → target_actor (sc_Actor req) = None)
  ∧ (ResCode (pr_Meta r) = RESULT_CODE_OK → ∃ a, target_actor (sc_Actor req) = Some a
      ∧ holds (credential_is (ActorId a) (ActorTyp_String (ActorTypeOf a)) (sc_CredentialHash req)) s).

Lemma reply_refused req meta code reason s :
  code = RESULT_CODE_DENIED ∨ code = RESULT_CODE_ERROR
    ∨ code = RESULT_CODE_INVALID ∧ target_actor (sc_Actor req) = None →
  wlp (plain_reply meta code reason) (set_outcome req) s.
Proof.
  intros Hc. eapply post_mono; [apply wlp_plain_reply|]. intros r s' [Hr _]. unfold set_outcome.
  rewrite Hr. destruct Hc as [->|[->|[-> Ht]]]; by split.
Qed.

Lemma setCredentialHash_sets id ty hash s :
  wlp (setCredentialHash (D := D) id ty hash) (λ e s',
    e = None → holds (credential_is id (ActorTyp_String ty) hash) s') s.
Proof.
  unfold setCredentialHash, dbEnabled. apply post_bind, post_gets.
  destruct (db (base s)) as [d|] eqn:Ed; [|by apply post_ret]. cbn [negb]. apply post_bind.
  unfold post, run_db. rewrite Ed. destruct (x_credential_hash _ _ _ d) as [[[]|e] d'] eqn:Ex; [|done].
  intros _. exists d'. split; [done|]. by eapply ct_set.
Qed.

Lemma stable_resetFailures id ty hash id' ty' :
  stable (credential_is id ty hash) (resetFailures (D := D) id' ty').
Proof.
  intros s (d & Hd & Hi). unfold resetFailures, dbEnabled. apply post_bind, post_gets. rewrite Hd.
  apply post_bind. eapply post_mono; [apply stable_run_db; [|by exists d]|].
  - intros d0. unfold credential_is. by rewrite ct_reset.
  - intros r s1 Hs1. by apply post_ret.
Qed.

Lemma SetCredential_outcome ctx req s :
  bcrypt_Cost (sc_CredentialHash req) = Some bcrypt_DefaultCost → sc_CredentialHash req ≠ "" →
  wlp (SetCredential (D := D) ctx (Some req)) (set_outcome req) s.
Proof.
  intros Hcost Hne. unfold SetCredential.
  destruct (target_actor (sc_Actor req)) as [a|] eqn:Ha; [|apply reply_refused; auto].
  rewrite decide_False by done.
  destruct (authorizeIdentityAdmin ctx (sc_Meta req)) as [[] why]; cbn [negb].
  2:{ eapply post_seq; [apply wlp_true|]. intros [] s1 _. apply reply_refused. auto. }
  rewrite Hcost, Z.ltb_irrefl. unfold locked. apply post_bind. unfold lock, post at 1.
  destruct (mu (base s)); [done|].
  eapply (post_seq _ _ _ (set_outcome req)); [apply post_on_panic|].
  2:{ intros r s1 [Hi Hok]. apply post_bind, post_modify, post_ret. split; [done|].
      intros (a' & Ha' & d & Hd & Hd')%Hok. exists a'. split; [done|]. by exists d. }
  eapply post_seq; [apply setCredentialHash_sets|]. intros [e|] s1 Hs1;
    [destruct e; apply reply_refused; auto|]. specialize (Hs1 eq_refl).
  eapply post_seq; [by apply stable_resetFailures|]. intros [e|] s2 Hs2; [apply reply_refused; auto|].
  eapply post_seq; [by apply stable_appendAudit|]. intros [e|] s3 Hs3; [apply reply_refused; auto|].
  eapply post_mono; [apply wlp_plain_reply|]. intros r s4 [Hr Hk]. split; [by rewrite Hr|]. eauto.
Qed.

Lemma verifyCredentials_holds id ty hash secret s :
  holds (credential_is id (ActorTyp_String ty) hash) s → bcrypt_Compare hash secret = true →
  ∃ r s', verifyCredentials (D := D) id ty secret s = Done r s' ∧ r ≠ Ok false.
Proof.
  intros (d & Hd & Hi) Hc. unfold verifyCredentials, dbEnabled, mbind, M_bind, gets, run_db.
  cbv beta iota. rewrite Hd. cbv beta iota. rewrite Hd.
  destruct (q_credential id (ActorTyp_String ty) d) as [[row|e] d'] eqn:Eq.
  - pose proof (ct_read _ _ _ _ _ Eq) as Hrow. unfold credential_is in Hi. rewrite Hi in Hrow. subst row.
    eexists _, _. split; [reflexivity|]. cbn. by rewrite Hc.
  - eexists _, _. split; [reflexivity|done].
Qed.

(** The tool and the service fit together: a line the tool prints is a hash
    that [SetCredential] accepts for every actor it can be asked for, and once
    it was accepted, the secret given to the tool passes the check of the
    login; only the database can make the check fail.  A secret of the tool is
    never blank. *)
Theorem credhash_roundtrip args stdin salt hash secret ctx req s r s' :
  credhash args stdin salt = inl (hash +:+ String "010" "") → readSecret args stdin = inl secret →
  sc_CredentialHash req = hash → SetCredential ctx (Some req) s = Done r s' →
  TrimSpace secret ≠ ""
  ∧ (ResCode (pr_Meta r) = RESULT_CODE_INVALID → target_actor (sc_Actor req) = None)
  ∧ (ResCode (pr_Meta r) = RESULT_CODE_OK → ∃ a ok s'', target_actor (sc_Actor req) = Some a
      ∧ verifyCredentials (ActorId a) (ActorTypeOf a) secret s' = Done ok s'' ∧ ok ≠ Ok false).
Proof.
  unfold credhash. intros Hout Hsec Hhash E. rewrite Hsec in Hout.
  destruct (bcrypt_Generate _ _ _) as [h|] eqn:Eg; [|done]. injection Hout as Hout.
  assert (h = hash) as -> by by eapply line_inj.
  destruct (law_cost _ _ _ Eg) as [Hcost Hne]. rewrite <- Hhash in Hcost, Hne.
  destruct (post_elim _ _ _ _ _ _ (SetCredential_outcome ctx req s Hcost Hne) E) as [Hi Hok].
  split; [by eapply readSecret_nonblank|]. split; [exact Hi|].
  intros (a & Ha & Hh)%Hok. rewrite Hhash in Hh.
  destruct (verifyCredentials_holds _ _ _ secret _ Hh (law_compare _ _ _ _ Eg)) as (ok & s2 & Ev & Hno).
  by exists a, ok, s2.
Qed.
End credentials.

(** ** Concrete instances *)

Import Concrete.

Module CredTable.
Definition table := gmap (string * string) (string * string).

#[export] Instance cred_db : IdentityDB table := {|
  q_login_attempts _ _ _ d := (Ok 1, d);
  q_lockout _ _ d := (Ok None, d);
  x_lockout_failure _ _ _ _ d := (Ok (), d);
  x_lockout_reset _ _ d := (Ok (), d);
  q_credential id ty d := (Ok (d !! (id, ty)), d);
  x_credential_hash id ty hash d := (Ok (), <[(id, ty) := (hash, "active")]> d);
  x_credential_status id ty status d :=
    (Ok 1, alter (λ row : string * string, (row.1, status)) (id, ty) d);
  q_active_credentials d := (Ok (Z.of_nat (size d)), d);
  q_lockout_status _ _ d := (Ok None, d);
  x_identity_session _ _ _ _ _ d := (Ok (), d);
  q_identity_session _ d := (Ok None, d);
  x_identity_revoke _ d := (Ok (), d);
  x_identity_insert _ _ _ _ _ d := (Ok (), d);
  x_identity_cleanup _ d := (Ok 0, d) |}.

#[export] Program Instance cred_table : CredentialTable table := {|
  credential d id ty := d !! (id, ty) |}.
Next Obligation. by intros id ty d r d' [= <- _]. Qed.
Next Obligation. intros id ty hash d d' [= <-]. apply (lookup_insert_eq (M := gmap _) d). Qed.
Next Obligation. done. Qed.
Next Obligation. done. Qed.
Next Obligation. done. Qed.
Next Obligation. done. Qed.
Next Obligation. done. Qed.
Next Obligation. done. Qed.

(** Not a hash, but it satisfies the law. *)
#[export] Instance plain_generate : BcryptGenerate := λ secret cost _,
  if decide (String.length secret ≤ 72)%nat then Some ("hash:" +:+ secret) else None.
#[export] Instance plain_law : BcryptLaw.
Proof.
  split; intros *; unfold bcrypt_Generate, plain_generate; case_decide; intros [= <-];
    [by apply bool_decide_eq_true_2|done].
Qed.

Definition service : Svc table IdentityState :=
  mkSvc (mkBase None (Some NewInMemoryStore) false 0 (Some ∅) 0)
    (mkIdentity ∅ ∅ ∅ (Some ex_signer) Minute Hour Minute 2 60 Minute ∅ false false [] []).
Definition stdin : Stdin := mkStdin false false (" s3cret" +:+ String "010" "rest").
Definition request : SetCredentialRequest :=
  mkSetCredentialRequest (operator_meta "") (Some (mkActor "bob" ACTOR_TYPE_OPERATOR)) "hash:s3cret" "new".
End CredTable.
Import CredTable.

Lemma ex_set_credential : ∃ r s', SetCredential None (Some request) service = Done r s'
  ∧ ResCode (pr_Meta r) = RESULT_CODE_OK.
Proof.
  assert (match SetCredential None (Some request) service with
    | Done r _ => bool_decide (ResCode (pr_Meta r) = RESULT_CODE_OK) | _ => false end = true) as Hok
    by by vm_compute.
  destruct (SetCredential None (Some request) service) as [r s'| |]; [|discriminate..].
  apply bool_decide_eq_true in Hok. exists r, s'. split; [reflexivity|exact Hok].
Qed.

Lemma ex_credhash : credhash ["credhash"] stdin "salt" = inl ("hash:s3cret" +:+ String "010" "")
  ∧ readSecret ["credhash"] stdin = inl "s3cret".
Proof. by vm_compute. Qed.

Lemma credhash_roundtrip_witness : ∃ s' ok s'',
  verifyCredentials "bob" ACTOR_TYPE_OPERATOR "s3cret" s' = Done ok s'' ∧ ok ≠ Ok false.
Proof.
  destruct ex_set_credential as (r & s' & E & Hok).
  destruct (credhash_roundtrip ["credhash"] stdin "salt" "hash:s3cret" "s3cret" None request service r s'
    (proj1 ex_credhash) (proj2 ex_credhash) eq_refl E) as (_ & _ & Hv).
  destruct (Hv Hok) as (a & ok & s'' & Ha & Ev & Hno). injection Ha as <-. exists s', ok, s''.
  split; [exact Ev|exact Hno].
Defined.
